(* ===== verification/_CoqProject ===== *)
-Q . S2P
Prelude.v
Effects.v
TimeText.v
Json.v
Sha256.v
Kafka.v
Dto.v
Outbox.v
Telemetry.v
TicketDB.v
Booking.v
TicketSamples.v
Transactions.v
Event.v
Seats.v
SeatSafety.v
Races.v
ReserveSpec.v
TransitionSpec.v
BookingLifecycle.v
EventSpec.v
TicketHandler.v
TicketHttp.v
PayDB.v
Payment.v
PaymentSafety.v
PaymentSpec.v
Rows.v
Gateway.v
PayHandler.v
PayHttp.v
System.v
SystemSafety.v
SystemSpec.v
SystemFlows.v
AuthDB.v
Auth.v
AuthHandler.v
AuthSamples.v
Fixtures.v
AuthSpec.v
AuthSeed.v
Config.v
Pool.v
Startup.v
TestInfra.v
Redis.v
Edge.v
Site.v
Accounts.v
Responses.v
Deployment.v
