(* ===== verification/Prelude.v ===== *)
(** * Verification of the TicketSaas services

    TicketSaas sells event tickets.  Three Go services, each with a PostgreSQL
    database of its own, stand behind a gateway: [auth] (accounts and tokens),
    [ticketing] (events, seats and bookings) and [payment] (transactions and
    refunds).  Ticketing calls payment over HTTP when seats are reserved; the
    services tell each other what happened through outbox tables, whose rows a
    worker publishes to Kafka.  This library models the code under
    [service/*/internal], [service/*/cmd] and [pkg] and proves what it
    guarantees, and where it does not.

    ** How the code is modelled

    A handler, a consumer callback or a poller pass is a value of
    [Effects.prog]: a tree of the effects the Go code performs, in its order:
    SQL statements, reads of the clock, fresh UUIDs and calls of other systems
    (the payment service for ticketing, the gateway for payment, bcrypt's salt
    and the random source for auth).  A database is a record of tables
    ([gmap] from primary keys to rows); a statement or a transaction is a
    function on it that checks the constraints of the migrations, and takes
    effect in one step; [Transactions] shows that the two transactions of
    several statements may be run so.  Go errors are values ([Prelude.error]) with wrapping
    and [errors.Is]; [int] arithmetic wraps at 64 bits, and [INT] columns
    refuse values outside 32 bits.  Times are nanoseconds; the database keeps
    microseconds and RFC 3339 texts whole seconds.  Events and HTTP bodies are
    JSON values, with times as their RFC 3339 text.

    A program has two semantics.  [exec] runs it alone against an oracle that
    supplies the clock, the UUIDs, the answers of other systems and, for every
    statement, whether it is executed, refused, or executed with its answer
    lost.  [reachable] runs any number of programs concurrently, one effect at
    a time in any order, under an environment that says which faults and
    answers may occur.  [Effects.wp] is a rely-guarantee logic for the second:
    programs own holds and stable facts, and [reachable_safe] composes their
    proofs; [guards] is its special case for statements that obey a relation.
    [interp] runs a program in terms of other effects: it puts both services,
    their workers and the network on one state ([System]), the auth service, the
    gateway and [System] on another ([Site]), and a gateway client behind
    payment's interface ([Gateway]).  [reachable_view] carries a theorem over
    [reachable] from one concurrent system to another that hides some of its
    state.

    ** Files

    - [Prelude] and [Effects]: the generic part described above.
    - [TimeText]: the calendar and RFC 3339 texts; [Json]: JSON values, request
      bodies, [strconv.Atoi] and the validator library, which is a parameter
      with laws; [Sha256]: SHA-256 and base64 as the services use them; [Dto]:
      [pkg/dto] with the wire form of every event, and [pkg/http].
    - [Kafka]: the consumer of [pkg/kafka] with its pool of workers,
      [EnsureTopics] and the trace headers; [Outbox]: [pkg/outbox] and the
      producer; [Telemetry]: [pkg/telemetry], [pkg/log], the request log and
      the traces across the broker.
    - [TicketDB]: tables and repositories of ticketing
      ([internal/domain], [internal/postgres]); [Booking]:
      [application/booking], [internal/payment], [internal/kafka]; [Event]:
      [application/event]; [TicketHandler]: [internal/handler].
    - [Seats], [SeatSafety]: the accounting of seats and its proof;
      [Races]: executions outside its hypotheses that sell a seat twice;
      [Transactions]: the repository's transactions statement by statement,
      with row locks, as what [TicketDB] runs in one step;
      [ReserveSpec], [TransitionSpec], [BookingLifecycle], [EventSpec]: the
      behaviour of each operation; [TicketHttp]: the routes.
    - [PayDB], [Payment], [PayHandler]: the payment service in the same layers;
      [PaymentSafety], [PaymentSpec], [PayHttp]: its theorems; [Gateway]: the
      mock and the Xendit client of [internal/processor].
    - [System]: ticketing, payment, both workers, the consumers, the broker
      and the network as one concurrent system; [SystemSafety]: its invariant;
      [SystemSpec]: the theorems about a sale in every such execution;
      [SystemFlows]: the ways of a message from one service to the other.
    - [AuthDB], [Auth], [AuthHandler]: the auth service, with the JWT and
      bcrypt libraries as parameters; [AuthSpec]: its theorems; [AuthSeed]: the
      administrators seeded at start-up.
    - [Config]: the configurations and their checks; [Pool]: the connection
      pool of [pkg/db]; [Startup]: the [main] functions; [Deployment]: what
      they give the running system.
    - [Edge]: Traefik's routers ([traefik/dynamic.yml]), the forward
      authentication and the routers of the services behind it; [Site]: clients
      whose requests pass that gateway, the three services and what runs behind
      them, as one concurrent system; [Accounts]: its invariant, and the
      theorems about the accounts in every such execution.
    - [Rows]: the loops over the rows of a query, and what the statements above
      assume of them.
    - [TestInfra], [Fixtures]: [pkg/testinfra] and the [testfixtures] of the
      services; [Redis]: the client of [pkg/redis], which no service uses.
    - [Responses]: the envelope and the JSON of what the handlers of the three
      services answer, and its readers.
    - [TicketSamples], [AuthSamples]: concrete states and libraries on which
      the theorems are instantiated.

    ** What the theorems show

    Over every interleaving of both services: a confirmed booking and a
    published ticket have been paid in full ([confirmed_paid], [tickets_paid]),
    the one transaction of an expired booking has expired ([expired_unpaid]),
    the customer is asked for the price of the booking ([charged_price]) and
    refunded over it when the event is cancelled ([cancelled_in_full]), and
    every message is on a topic that exists and that carries its type
    ([topics_typed]).  All this holds of the whole site, whose executions show
    the two services an execution of theirs ([site_refines_system]); there a
    booking was made by a request with a token of the account it is for, which
    is a customer's ([bookings_have_accounts]), what that account has paid is
    what confirmed it ([confirmed_for_account]) and nobody else has it charged
    ([sessions_by_owners]).
    Over every interleaving of one service: while payment answers with success
    and no statement's answer is lost, seats are not oversold through the HTTP
    interface ([http_no_oversell], by the invariant [Seats.seats_inv]: for each
    ticket type the counter, the seats of active bookings and the seats a
    running reservation has taken stay within the quantity); bookings and transactions stay on their state machines
    ([booking_lifecycle], [txn_lifecycle]); a payment is reported at most once
    and as its row says ([settled_once]), refunded at most once per reason
    ([refunded_once]); a message marked delivered has been published
    ([outbox_at_least_once]); accounts are not changed and nobody becomes an
    administrator over HTTP ([accounts_safe]); a consumer handles what it reads
    once and its shutdown ends ([consume_handles_once], [consume_in_order],
    [consume_terminates]); the in-flight gauge counts the requests being served
    ([requests_recorded]).  Below a statement, the transactions of the booking
    repository cannot be told from atomic ones ([transactions_atomic]).

    For single requests: what success means and what a failure leaves behind,
    for reservations ([reserve_ok], [reserve_then_get], [reserve_succeeds],
    [reserve_soldout_atomic]), payment callbacks ([confirm_issues],
    [expire_releases], [cancel_bookings], ...), the event workflow
    ([create_event_capacity], [approve_opens], [event_refusals], ...), payments
    ([process_payment_ok], [webhook_settles], [poll_expires],
    [cancellation_refunds], ...), the gateways ([xendit_create_session],
    [xendit_refuses]; the in-memory one is a function of the reference, also
    under interleaving, and stores each session it gave: [mock_equivalent]) and
    tokens
    ([register_then_login], [refresh_rotates]); that the routes implement an
    access policy ([ticketing_routes_guarded], [payment_routes_guarded]); and
    the call from ticketing to payment from both ends ([client_retries],
    [initiate_over_http]).  A request that came through the gateway is on a
    public route, acts for the subject and the role of its token, or is on one
    of the routes where the client's own headers count ([edge_authenticated],
    [edge_roles]; [own_word_route] lists them), down to the booking it makes
    ([edge_reserve]).  When nothing fails, a payment reaches its booking
    ([payment_flow]), a reservation that is not paid gives its seats back
    ([expiry_flow], [abandoned_released]) and a cancelled event is undone in
    both services ([cancellation_flow]); these assume consistent tables and a
    backlog within one batch.  A worker drains its backlog
    ([outbox_drains]), events survive their JSON form ([messages_roundtrip]) and
    keep their trace ([trace_continues]), and clients read an answer with a
    body back exactly when its dates can be written ([responses_readable]).

    For a deployment: a service comes up in order or exits, and a server that
    fails later ends the process at once ([payment_starts], [ticketing_starts], [auth_starts], [ensure_topics],
    [telemetry_init]); seeding adds only administrators and is idempotent
    ([seeds_idempotent]); the secrets are enforced ([secrets_enforced]), the
    internal keys have to agree ([internal_keys_agree]); intervals and channel
    lists are read as documented within their bounds ([intervals_positive],
    [export_interval], [enabled_methods]); the pool keeps its limits whatever
    the DSN says ([new_pool_bounded]); the histograms have the buckets of the
    views ([metric_views]); and the public key a service prints verifies the
    tokens it signs ([public_key_verifies]).  For the integration suites: what
    [Start] opens is handed out or closed, but for the containers it drops by
    the error beside them, and [Close] closes the rest
    ([start_leaves_nothing]); migrations are the nearest above the working
    directory and are applied in order ([migrations_dir_nearest],
    [migrate_in_order]); and the tables take the default users and events
    ([default_user_stored], [default_event_stored]).

    Against the intent of the code: [reserve_mismatch_leaks],
    [lost_payment_answer_oversells], [double_approval_oversells],
    [stale_edit_unpublishes], [late_payment_race], [refresh_reused],
    [second_request_voids_session], [me_spoofed] and [transitions_deadlock]
    exhibit executions in which seats, a payment, a session, a token or a
    profile end up where they should not, or two transactions wait for each
    other; [cut_short_keeps_seats], [container_leaked] and
    [unanswered_client_leaks] exhibit seats, a container and a client that are
    never given back, [default_booking_refused] and [fixture_transaction_refused]
    fixtures that the tables do not take.  They also show that the hypotheses of
    the safety theorems are needed.

    ** Bounds and fuel

    Programs are finite trees, so every run ends; loops follow the structure of
    the list they walk.  The payment client's two attempts, the trimming of
    white space and SHA-256's blocks carry fuel no smaller than their number, so
    it never runs out ([Config.trim_forms_clean]).  A batch of the worker is 100
    rows and a poll 100 transactions, as in the code; [Worker_Run] is cut off
    after a number of ticks, and [outbox_drains] says how many are enough.

    ** Left out

    The Kafka broker itself (partitions and offsets: in [System] a consumer
    handles any message of its topic, in any order and any number of times); the
    databases' query plans and isolation below a statement; the OpenTelemetry
    SDK; CORS and the rate limit of the gateway; the bytes of a JSON text, which
    is its value here; the generated mocks and the helpers of the integration
    suites; the web application.  UUID columns hold any text.  A query is
    answered with all its rows or with an error: [read_in_full] says that the
    loops of the code do so as long as the rows arrive, and
    [cut_short_keeps_seats] what the loops that do not ask for [rows.Err] do
    when they stop arriving.  A request that a client sends to a service past
    the gateway is not part of [Site], except payment's internal route. *)
From stdpp Require Export base gmap strings list fin_maps sorting pretty relations.

Global Open Scope string_scope.
Global Open Scope list_scope.
Global Open Scope Z_scope.

(** ** Machine integers

    Go's [int] is 64 bits wide on every target the services build for, and its
    arithmetic wraps; PostgreSQL's [INT] is 32 bits wide, and a value outside
    it makes the statement fail. *)

Definition wrap64 (z : Z) : Z := (z + 2 ^ 63) `mod` 2 ^ 64 - 2 ^ 63.
Definition int_add (a b : Z) : Z := wrap64 (a + b).
Definition int_mul (a b : Z) : Z := wrap64 (a * b).

Definition in_int64 (z : Z) : Prop := - 2 ^ 63 ≤ z < 2 ^ 63.
Definition in_int4 (z : Z) : Prop := - 2 ^ 31 ≤ z < 2 ^ 31.
#[export] Instance in_int64_dec z : Decision (in_int64 z).
Proof. unfold in_int64. apply _. Defined.
#[export] Instance in_int4_dec z : Decision (in_int4 z).
Proof. unfold in_int4. apply _. Defined.

Declare Scope goint_scope.
Delimit Scope goint_scope with goint.
Infix "+" := int_add : goint_scope.
Infix "*" := int_mul : goint_scope.

Lemma wrap64_id z : in_int64 z → wrap64 z = z.
Proof. unfold wrap64, in_int64. intros ?. rewrite Z.mod_small; lia. Qed.

Lemma wrap64_range z : in_int64 (wrap64 z).
Proof.
  unfold wrap64, in_int64.
  pose proof (Z.mod_pos_bound (z + 2 ^ 63) (2 ^ 64)). lia.
Qed.

Lemma wrap64_add_l a b : wrap64 (wrap64 a + b) = wrap64 (a + b).
Proof.
  unfold wrap64. f_equal.
  replace ((a + 2 ^ 63) `mod` 2 ^ 64 - 2 ^ 63 + b + 2 ^ 63)
    with ((a + 2 ^ 63) `mod` 2 ^ 64 + b) by lia.
  rewrite Z.add_mod_idemp_l by lia. f_equal. lia.
Qed.

Lemma wrap64_add_r a b : wrap64 (a + wrap64 b) = wrap64 (a + b).
Proof. by rewrite Z.add_comm, wrap64_add_l, Z.add_comm. Qed.

#[export] Hint Resolve wrap64_range : core.

(** ** Go errors

    A sentinel is a package-level [errors.New] value and is identified by its
    text, the texts of one service being pairwise distinct.  [Wrapped] is
    [fmt.Errorf] with one [%w] verb: the text before it, the wrapped error and
    the formatted text after it.  [Plain] is an error no code tests for with
    [errors.Is].  [PgError] carries a SQLSTATE, [NoRows] is [pgx.ErrNoRows]. *)

Inductive error :=
  | Sentinel (text : string)
  | Wrapped (pre : string) (e : error) (post : string)
  | Plain (text : string)
  | PgError (code : string)
  | NoRows.

#[export] Instance error_eq_dec : EqDecision error.
Proof. solve_decision. Defined.

(** [err.Error()]. *)
Fixpoint error_text (e : error) : string :=
  match e with
  | Sentinel t => t
  | Wrapped pre e post => pre +:+ error_text e +:+ post
  | Plain t => t
  | PgError c => "ERROR (SQLSTATE " +:+ c +:+ ")"
  | NoRows => "no rows in result set"
  end.

(** [errors.Is(err, target)]: the chain of unwrapped errors holds the target. *)
Fixpoint errors_Is (e target : error) : bool :=
  bool_decide (e = target) ||
  match e with
  | Wrapped _ e' _ => errors_Is e' target
  | _ => false
  end.

(** SQLSTATE codes the statements of the repositories can raise. *)
Definition unique_violation : error := PgError "23505".
Definition foreign_key_violation : error := PgError "23503".
Definition check_violation : error := PgError "23514".
Definition numeric_out_of_range : error := PgError "22003".

(** Go's pair of a value and an error, of which exactly one is meaningful. *)
Inductive res (A : Type) :=
  | Ok (a : A)
  | Err (e : error).
Arguments Ok {A} a.
Arguments Err {A} e.

Lemma Ok_inj {A} (a b : A) : Ok a = Ok b → a = b.
Proof. by intros [= ->]. Qed.

Definition is_ok {A} (r : res A) : bool := if r is Ok _ then true else false.

Definition res_map {A B} (f : A → B) (r : res A) : res B :=
  match r with Ok a => Ok (f a) | Err e => Err e end.

(** ** Time

    Instants are nanoseconds since the Unix epoch. *)
Definition Second : Z := 1000000000.
Definition Minute : Z := 60 * Second.
Definition Hour : Z := 60 * Minute.

(** A [TIMESTAMPTZ] column keeps microseconds: pgx truncates the rest. *)
Definition pg_timestamp (t : Z) : Z := t `div` 1000 * 1000.
(** [time.RFC3339] prints whole seconds. *)
Definition rfc3339 (t : Z) : Z := t `div` Second * Second.

Lemma pg_timestamp_bounds t : t - 1000 < pg_timestamp t ≤ t.
Proof.
  unfold pg_timestamp.
  pose proof (Z.mod_pos_bound t 1000). pose proof (Z.div_mod t 1000). lia.
Qed.

Lemma rfc3339_bounds t : t - Second < rfc3339 t ≤ t.
Proof.
  unfold rfc3339, Second.
  pose proof (Z.mod_pos_bound t 1000000000). pose proof (Z.div_mod t 1000000000). lia.
Qed.

(** ** Sums over lists and tables *)

Definition lsum {A} (f : A → Z) (l : list A) : Z := foldr (λ a acc, f a + acc) 0 l.

Definition msum {A} (f : A → Z) (m : gmap string A) : Z :=
  map_fold (λ _ a acc, f a + acc) 0 m.

Section lsum.
Context {A : Type}.
Implicit Types (f g : A → Z) (l k : list A).

Lemma lsum_app f l k : lsum f (l ++ k) = lsum f l + lsum f k.
Proof. unfold lsum. induction l as [|a l IH]; cbn in *; [done|]. rewrite IH. lia. Qed.

Lemma lsum_nonneg f l : (∀ a, a ∈ l → 0 ≤ f a) → 0 ≤ lsum f l.
Proof.
  induction l as [|a l IH]; intros Hf; cbn; [lia|].
  pose proof (Hf a ltac:(set_solver)). pose proof (IH ltac:(set_solver)).
  unfold lsum in *. lia.
Qed.

Lemma lsum_ext f g l : (∀ a, a ∈ l → f a = g a) → lsum f l = lsum g l.
Proof.
  induction l as [|a l IH]; intros Hf; cbn; [done|].
  unfold lsum in IH. rewrite (Hf a), IH; set_solver.
Qed.

#[export] Instance lsum_perm f : Proper ((≡ₚ) ==> (=)) (lsum f).
Proof. intros l k Hlk. unfold lsum. induction Hlk; cbn in *; lia. Qed.

Lemma lsum_concat f (ls : list (list A)) : lsum f (concat ls) = lsum (lsum f) ls.
Proof.
  induction ls as [|l ls IH]; [done|].
  cbn [concat]. rewrite lsum_app, IH. done.
Qed.
End lsum.

(** A running [int] sum is the exact sum, wrapped once. *)
Lemma foldl_int_add {A} (f : A → Z) z l :
  foldl (λ acc a, (acc + f a)%goint) (wrap64 z) l = wrap64 (z + lsum f l).
Proof.
  revert z. induction l as [|a l IH]; intros z; unfold lsum; cbn.
  { f_equal. lia. }
  unfold int_add. rewrite wrap64_add_l, IH. f_equal. unfold lsum. lia.
Qed.

Section msum.
Context {A : Type}.
Implicit Types (f g : A → Z) (m : gmap string A).

Lemma msum_empty f : msum f ∅ = 0.
Proof. apply map_fold_empty. Qed.

Lemma msum_insert_None f m k a :
  m !! k = None → msum f (<[k:=a]> m) = f a + msum f m.
Proof. intros Hk. unfold msum. rewrite map_fold_insert_L; [done|intros; lia|done]. Qed.

Lemma msum_delete f m k a : m !! k = Some a → msum f m = f a + msum f (delete k m).
Proof.
  intros Hk. rewrite <- (insert_delete_id m k a Hk) at 1.
  apply msum_insert_None, lookup_delete_eq.
Qed.

Lemma msum_insert_Some f m k a b :
  m !! k = Some b → msum f (<[k:=a]> m) = msum f m - f b + f a.
Proof.
  intros Hk. rewrite <- insert_delete_eq, msum_insert_None by apply lookup_delete_eq.
  rewrite (msum_delete f m k b Hk). lia.
Qed.

Lemma msum_nonneg f m : (∀ k a, m !! k = Some a → 0 ≤ f a) → 0 ≤ msum f m.
Proof.
  induction m as [|k a m Hk IH] using map_ind; intros Hf; [by rewrite msum_empty|].
  rewrite msum_insert_None by done.
  pose proof (Hf k a (lookup_insert_eq _ _ _)).
  assert (0 ≤ msum f m); [|lia]. apply IH. intros k' a' Hk'.
  apply (Hf k'). rewrite lookup_insert_ne; [done|congruence].
Qed.

Lemma msum_ext f g m : (∀ k a, m !! k = Some a → f a = g a) → msum f m = msum g m.
Proof.
  induction m as [|k a m Hk IH] using map_ind; intros Hf; [by rewrite !msum_empty|].
  rewrite !msum_insert_None by done.
  rewrite (Hf k a) by apply lookup_insert_eq. rewrite IH; [done|].
  intros k' a' Hk'. apply (Hf k'). rewrite lookup_insert_ne; [done|congruence].
Qed.

Lemma msum_0 f m : (∀ k a, m !! k = Some a → f a = 0) → msum f m = 0.
Proof.
  intros Hf. rewrite (msum_ext f (λ _, 0) m) by done. clear.
  induction m as [|k a m Hk IH] using map_ind; [apply msum_empty|].
  rewrite msum_insert_None by done. lia.
Qed.

Lemma msum_sub f g m : msum (λ a, f a - g a) m = msum f m - msum g m.
Proof.
  induction m as [|k a m Hk IH] using map_ind; [by rewrite !msum_empty|].
  rewrite !msum_insert_None by done. lia.
Qed.

(** A part of a table, listed without repetition, weighs at most the table. *)
Lemma msum_sublist f m (ks : list (string * A)) :
  (∀ k a, m !! k = Some a → 0 ≤ f a) →
  NoDup ks.*1 →
  (∀ k a, (k, a) ∈ ks → m !! k = Some a) →
  lsum (λ ka, f ka.2) ks ≤ msum f m.
Proof.
  revert m. induction ks as [|[k a] ks IH]; intros m Hf Hnd Hin; cbn.
  { by apply msum_nonneg. }
  apply NoDup_cons in Hnd as [Hk Hnd].
  rewrite (msum_delete f m k a) by (apply Hin; set_solver).
  assert (lsum (λ ka, f ka.2) ks ≤ msum f (delete k m)) as Hle; [|cbn in *; unfold lsum in Hle; lia].
  apply IH; [|done|].
  - intros k' a' [_ ?]%lookup_delete_Some. eauto.
  - intros k' a' Hk'. apply lookup_delete_Some. split; [|apply Hin; set_solver].
    intros ->. apply Hk. apply list_elem_of_fmap. by exists (k', a').
Qed.
End msum.

#[global] Arguments lsum : simpl never.
#[global] Arguments msum : simpl never.

(** ** Queries

    [rows P t] is [SELECT * FROM t WHERE P]; SQL leaves the order open when
    the statement has no [ORDER BY], and no theorem depends on the one chosen
    here.  [order_by] is [ORDER BY] on an integer key. *)

Definition rows {A} (P : A → bool) (t : gmap string A) : list A :=
  (map_to_list (filter (λ ka, P ka.2 = true) t)).*2.

Definition key_le {A} (key : A → Z) (x y : A) : Prop := key x ≤ key y.
#[export] Instance key_le_dec {A} (key : A → Z) : RelDecision (key_le key).
Proof. intros x y. unfold key_le. apply _. Defined.
#[export] Instance key_le_total {A} (key : A → Z) : Total (key_le key).
Proof. intros x y. unfold key_le. lia. Qed.
#[export] Instance key_le_trans {A} (key : A → Z) : Transitive (key_le key).
Proof. intros x y z. unfold key_le. lia. Qed.

Definition order_by {A} (key : A → Z) (l : list A) : list A := merge_sort (key_le key) l.
Definition order_by_desc {A} (key : A → Z) (l : list A) : list A :=
  order_by (λ a, - key a) l.

(** [UPDATE t SET ... WHERE P] on every row, with the number of rows changed. *)
Definition update_where {A} (P : A → bool) (g : A → A) (t : gmap string A) : gmap string A :=
  (λ a, if P a then g a else a) <$> t.

Lemma elem_of_rows {A} (P : A → bool) (t : gmap string A) a :
  a ∈ rows P t ↔ ∃ k, t !! k = Some a ∧ P a = true.
Proof.
  unfold rows. rewrite list_elem_of_fmap. split.
  - intros ([k b] & -> & Hin%elem_of_map_to_list).
    apply map_lookup_filter_Some in Hin as [? ?]. by exists k.
  - intros (k & Hk & HP). exists (k, a). split; [done|].
    apply elem_of_map_to_list, map_lookup_filter_Some. done.
Qed.

(** Rows that carry their key are listed without repetition. *)
Lemma rows_NoDup {A} (key : A → string) (P : A → bool) (t : gmap string A) :
  map_Forall (λ k a, key a = k) t → NoDup (key <$> rows P t).
Proof.
  intros Hkey. unfold rows. set (m := filter _ t).
  assert (key <$> (map_to_list m).*2 = (map_to_list m).*1) as ->; [|apply NoDup_fst_map_to_list].
  rewrite <- list_fmap_compose. apply list_fmap_ext. intros n [k a] Hka. cbn.
  apply list_elem_of_lookup_2, elem_of_map_to_list, map_lookup_filter_Some in Hka as [Hk _].
  by apply (Hkey k).
Qed.

Lemma rows_empty {A} (P : A → bool) : rows P ∅ = [].
Proof. unfold rows. by rewrite map_filter_empty, map_to_list_empty. Qed.

Lemma rows_insert {A} (P : A → bool) (t : gmap string A) k a :
  t !! k = None → rows P (<[k := a]> t) ≡ₚ (if P a then [a] else []) ++ rows P t.
Proof.
  intros Hk. unfold rows. destruct (P a) eqn:HP.
  - rewrite map_filter_insert_True by done. rewrite map_to_list_insert; [done|].
    apply map_lookup_filter_None. by left.
  - rewrite map_filter_insert_not' by (by cbn; rewrite ?HP; intros; simplify_eq). done.
Qed.

(** Summing the rows a query selects is summing over the table. *)
Lemma rows_sum {A} (P : A → bool) (f : A → Z) (t : gmap string A) :
  lsum f (rows P t) = msum (λ a, if P a then f a else 0) t.
Proof.
  induction t as [|k a t Hk IH] using map_ind.
  { by rewrite rows_empty, msum_empty. }
  rewrite rows_insert, lsum_app, msum_insert_None, IH by done.
  destruct (P a); unfold lsum; cbn; lia.
Qed.

Lemma order_by_perm {A} (key : A → Z) l : order_by key l ≡ₚ l.
Proof. apply merge_sort_Permutation. Qed.

Lemma elem_of_order_by {A} (key : A → Z) l a : a ∈ order_by key l ↔ a ∈ l.
Proof. by rewrite order_by_perm. Qed.

Lemma order_by_sorted {A} (key : A → Z) l : StronglySorted (key_le key) (order_by key l).
Proof. apply StronglySorted_merge_sort; apply _. Qed.

(** ** Automation *)

Create HintDb ticket.
Create Rewrite HintDb ticket_rw.

Ltac bool_cases :=
  repeat match goal with
  | H : bool_decide _ = true |- _ => apply bool_decide_eq_true in H
  | H : bool_decide _ = false |- _ => apply bool_decide_eq_false in H
  | H : (_ && _)%bool = true |- _ => apply andb_true_iff in H as [??]
  | H : negb _ = true |- _ => apply negb_true_iff in H
  | H : negb _ = false |- _ => apply negb_false_iff in H
  end.

(** Case analysis on the innermost [if] or [match] of the goal. *)
Ltac split_match :=
  match goal with
  | |- context [match ?x with _ => _ end] =>
      lazymatch x with
      | context [match _ with _ => _ end] => fail
      | _ => destruct x eqn:?
      end
  end.

Ltac split_match_in H :=
  match type of H with
  | context [match ?x with _ => _ end] =>
      lazymatch x with
      | context [match _ with _ => _ end] => fail
      | _ => destruct x eqn:?
      end
  end.
