(* ===== verification/Effects.v ===== *)
(** * Programs of a service and their two semantics

    A request handler, a consumer callback or a poller pass is a value of
    [prog]: a finite tree whose nodes are the effects the Go code performs, in
    the order it performs them.  [run] executes one program from start to end
    against an oracle for the clock, the UUID generator, the faults of the
    database connection and the answers of other systems.  [cstep] runs any
    number of programs concurrently, one effect at a time in any order, which
    is how the goroutines of a service interleave over the shared database.
    [wp] is a rely-guarantee logic for the second semantics: an invariant over
    the database and the holds the running programs own. *)
From S2P Require Import Prelude.

(** ** Programs *)

Inductive prog (E : Type → Type) (A : Type) : Type :=
  | Ret (a : A)
  | Vis {X : Type} (e : E X) (k : X → prog E A).
Arguments Ret {E A} a.
Arguments Vis {E A X} e k.

Fixpoint prog_bind {E A B} (f : A → prog E B) (p : prog E A) : prog E B :=
  match p with
  | Ret a => f a
  | Vis e k => Vis e (λ x, prog_bind f (k x))
  end.

#[export] Instance prog_mret E : MRet (prog E) := @Ret E.
#[export] Instance prog_mbind E : MBind (prog E) := @prog_bind E.

(** [x, err := p; if err != nil { return ..., err }]. *)
Notation "x ←? p ; q" :=
  (prog_bind (λ r, match r with Ok x => q | Err e => Ret (Err e) end) p)
  (at level 20, p at level 100, q at level 200, right associativity).

(** Runs a program in terms of other effects. *)
Section interp.
Context {E F : Type → Type} {A : Type} (h : ∀ B, E B → (B → prog F A) → prog F A).

Fixpoint interp (p : prog E A) : prog F A :=
  match p with
  | Ret a => Ret a
  | Vis e k => h _ e (λ x, interp (k x))
  end.
End interp.

(** What a SQL statement sent on its own, or a transaction that commits, does
    to the database [D]: it sees the server's [NOW()] and the whole database,
    and changes it in one step. *)
Definition stmt (D A : Type) : Type := Z → D → D * res A.

Section statements.
Context {D : Type}.

(** A transaction: its statements in order, rolled back at the first error. *)
Definition transaction (f : Z → D → res D) : stmt D unit := λ t d,
  match f t d with Ok d' => (d', Ok ()) | Err e => (d, Err e) end.

(** A statement outside a transaction that reports its row count. *)
Definition counted (f : D → res (D * Z)) : stmt D Z := λ _ d,
  match f d with Ok (d', n) => (d', Ok n) | Err e => (d, Err e) end.

(** A query. *)
Definition query {A} (f : D → res A) : stmt D A := λ _ d, (d, f d).
End statements.

(** The first row, or [pgx.ErrNoRows]. *)
Definition row_or_error {A} (o : option A) : res A :=
  match o with Some a => Ok a | None => Err NoRows end.

Inductive eff (D : Type) (X : Type → Type) : Type → Type :=
  | Sql {A} (f : stmt D A) : eff D X (res A)
  | Now : eff D X Z
  | NewUUID : eff D X string
  | Ext {A} (x : X A) : eff D X A.
Arguments Sql {D X A} f.
Arguments Now {D X}.
Arguments NewUUID {D X}.
Arguments Ext {D X A} x.

(** What the connection makes of a statement: it is executed and its answer
    arrives; it is not executed and the caller gets an error (a broken
    connection, a cancelled context, a value PostgreSQL refuses); it is executed but the caller
    gets an error (the answer is lost). *)
Inductive fault :=
  | FDone
  | FFail (e : error)
  | FLost (e : error).

Definition sql_outcome {D A} (f : stmt D A) (t : Z) (flt : fault) (d : D) : D * res A :=
  match flt with
  | FDone => f t d
  | FFail e => (d, Err e)
  | FLost e => ((f t d).1, Err e)
  end.

Section programs.
Context {D : Type} {X : Type → Type}.

Definition sql {A} (f : stmt D A) : prog (eff D X) (res A) := Vis (Sql f) Ret.
Definition time_Now : prog (eff D X) Z := Vis Now Ret.
Definition uuid_NewString : prog (eff D X) string := Vis NewUUID Ret.
Definition call {A} (x : X A) : prog (eff D X) A := Vis (Ext x) Ret.

(** Run a program for its effects; a background loop ignores the result. *)
Definition discard {A} (p : prog (eff D X) A) : prog (eff D X) unit :=
  prog_bind (λ _, Ret ()) p.
End programs.

(** ** Sequential execution *)

Record oracle (X : Type → Type) := {
  o_now : nat → Z;
  o_uuid : nat → string;
  o_fault : nat → fault;
  o_ext : nat → ∀ A, X A → A;
}.
Arguments o_now {X}.
Arguments o_uuid {X}.
Arguments o_fault {X}.
Arguments o_ext {X}.

Section run.
Context {D : Type} {X : Type → Type} (o : oracle X).

Definition eff_run {A} (e : eff D X A) (n : nat) (d : D) : D * A :=
  match e in eff _ _ A' return D * A' with
  | Sql f => sql_outcome f (o_now o n) (o_fault o n) d
  | Now => (d, o_now o n)
  | NewUUID => (d, o_uuid o n)
  | Ext x => (d, o_ext o n _ x)
  end.

(** The [n]-th effect of an execution takes the [n]-th answer of the oracle. *)
Fixpoint run {A} (p : prog (eff D X) A) (n : nat) (d : D) : nat * D * A :=
  match p with
  | Ret a => (n, d, a)
  | Vis e k => let '(d', x) := eff_run e n d in run (k x) (S n) d'
  end.

Definition exec {A} (p : prog (eff D X) A) (d : D) : D * A :=
  let '(_, d', a) := run p 0 d in (d', a).

Lemma run_bind {A B} (f : A → prog (eff D X) B) p n d :
  run (prog_bind f p) n d = let '(n', d', a) := run p n d in run (f a) n' d'.
Proof.
  revert n d. induction p as [a|Y e k IH]; intros n d; [done|].
  cbn. destruct (eff_run e n d) as [d' x]. apply IH.
Qed.

Lemma run_mbind {A B} (f : A → prog (eff D X) B) p n d :
  run (p ≫= f) n d = let '(n', d', a) := run p n d in run (f a) n' d'.
Proof. apply run_bind. Qed.

(** [runs p n d Φ]: the execution of [p] ends in a state that satisfies [Φ]. *)
Definition runs {A} (p : prog (eff D X) A) (n : nat) (d : D) (Φ : nat → D → A → Prop) : Prop :=
  let '(n', d', a) := run p n d in Φ n' d' a.

Lemma runs_bind {A B} (f : A → prog (eff D X) B) p n d Φ :
  runs p n d (λ n' d' a, runs (f a) n' d' Φ) → runs (prog_bind f p) n d Φ.
Proof. unfold runs. rewrite run_bind. by destruct (run p n d) as [[n' d'] a]. Qed.

Lemma runs_mono {A} (p : prog (eff D X) A) n d (Φ Ψ : nat → D → A → Prop) :
  (∀ n' d' a, Φ n' d' a → Ψ n' d' a) → runs p n d Φ → runs p n d Ψ.
Proof. unfold runs. destruct (run p n d) as [[n' d'] a]. auto. Qed.

Lemma runs_exec {A} (p : prog (eff D X) A) d d' a (Φ : D → A → Prop) :
  runs p 0 d (λ _, Φ) → exec p d = (d', a) → Φ d' a.
Proof. unfold runs, exec. destruct (run p 0 d) as [[n1 d1] a1]. by intros ? [= <- <-]. Qed.

Lemma exec_runs {A} (p : prog (eff D X) A) d (Φ : D → A → Prop) :
  runs p 0 d (λ _, Φ) → Φ (exec p d).1 (exec p d).2.
Proof. unfold runs, exec. by destruct (run p 0 d) as [[n1 d1] a1]. Qed.

Lemma exec_eq {A} (p : prog (eff D X) A) d d' a :
  runs p 0 d (λ _ d1 a1, d1 = d' ∧ a1 = a) → exec p d = (d', a).
Proof. unfold runs, exec. destruct (run p 0 d) as [[n1 d1] a1]. by intros [-> ->]. Qed.

Lemma exec_ex {A} (p : prog (eff D X) A) d a (Q : D → Prop) :
  runs p 0 d (λ _ d' a', a' = a ∧ Q d') → ∃ d', exec p d = (d', a) ∧ Q d'.
Proof. unfold runs, exec. destruct (run p 0 d) as [[n1 d1] a1]. intros [-> HQ]. by exists d1. Qed.

Lemma exec_ok {A} (p : prog (eff D X) (res A)) d (Q : D → A → Prop) :
  runs p 0 d (λ _ d' r, ∃ a, r = Ok a ∧ Q d' a) → ∃ d' a, exec p d = (d', Ok a) ∧ Q d' a.
Proof.
  unfold runs, exec. destruct (run p 0 d) as [[n1 d1] a1]. intros (a & -> & HQ). by exists d1, a.
Qed.

Lemma runs_ret {A} (a : A) n d (Φ : nat → D → A → Prop) : Φ n d a → runs (Ret a) n d Φ.
Proof. done. Qed.

Lemma runs_now n d (Φ : nat → D → Z → Prop) :
  Φ (S n) d (o_now o n) → runs time_Now n d Φ.
Proof. done. Qed.

Lemma runs_uuid n d (Φ : nat → D → string → Prop) :
  Φ (S n) d (o_uuid o n) → runs uuid_NewString n d Φ.
Proof. done. Qed.

Lemma runs_call {A} (x : X A) n d (Φ : nat → D → A → Prop) :
  Φ (S n) d (o_ext o n A x) → runs (call x) n d Φ.
Proof. done. Qed.

(** A statement: executed and answered, not executed, or executed unanswered. *)
Lemma runs_sql {A} (f : stmt D A) n d (Φ : nat → D → res A → Prop) :
  Φ (S n) (f (o_now o n) d).1 (f (o_now o n) d).2 →
  (∀ e, Φ (S n) d (Err e)) → (∀ e, Φ (S n) (f (o_now o n) d).1 (Err e)) →
  runs (sql f) n d Φ.
Proof.
  intros H1 H2 H3. unfold runs. cbn. destruct (o_fault o n); cbn; [|done|done].
  by destruct (f _ d).
Qed.

Lemma runs_sql_calm {A} (f : stmt D A) n d (Φ : nat → D → res A → Prop) :
  (∀ n, o_fault o n = FDone) →
  Φ (S n) (f (o_now o n) d).1 (f (o_now o n) d).2 → runs (sql f) n d Φ.
Proof. intros Hcalm H. unfold runs. cbn. rewrite Hcalm. cbn. by destruct (f _ d). Qed.

(** A statement that leaves the database as it is. *)
Lemma runs_query {A} (f : stmt D A) n d (Φ : nat → D → res A → Prop) :
  (f (o_now o n) d).1 = d →
  Φ (S n) d (f (o_now o n) d).2 → (∀ e, Φ (S n) d (Err e)) → runs (sql f) n d Φ.
Proof. intros Hd H1 H2. apply runs_sql; by rewrite ?Hd. Qed.
End run.

(** An oracle whose database never fails, with a frozen clock, fresh UUIDs and
    a fixed answer for the other systems. *)
Definition calm_uuid (n : nat) : string := "id-" +:+ pretty n.
Definition calm {X} (now : Z) (answer : ∀ A, X A → A) : oracle X :=
  {| o_now := λ _, now; o_uuid := calm_uuid; o_fault := λ _, FDone; o_ext := λ _, answer |}.

Definition faultless {X} (o : oracle X) : Prop := ∀ n, o_fault o n = FDone.

(** ** Concurrent execution *)

Record envspec (X : Type → Type) := {
  e_fault : fault → Prop;
  e_ext : ∀ A, X A → A → Prop;
}.
Arguments e_fault {X}.
Arguments e_ext {X}.

(** Anything may happen. *)
Definition any_env X : envspec X := {| e_fault := λ _, True; e_ext := λ _ _ _, True |}.
(** A statement whose caller sees an error has not been executed. *)
Definition no_lost_ack (f : fault) : Prop := if f is FLost _ then False else True.

Section concurrent.
Context {D : Type} {X : Type → Type} (ev : envspec X).
Implicit Types (d : D).

Definition eff_out {A} (e : eff D X A) (d d' : D) (a : A) : Prop :=
  match e in eff _ _ A' return A' → Prop with
  | Sql f => λ r, ∃ t flt, e_fault ev flt ∧ sql_outcome f t flt d = (d', r)
  | Now => λ _, d' = d
  | NewUUID => λ _, d' = d
  | Ext x => λ r, d' = d ∧ e_ext ev _ x r
  end a.

(** One effect of one program. *)
Definition pstep {A} (p : prog (eff D X) A) (d : D) (p' : prog (eff D X) A) (d' : D) : Prop :=
  match p with
  | Ret _ => False
  | Vis e k => ∃ a, eff_out e d d' a ∧ p' = k a
  end.

(** Requests arrive at any time; any running program may perform its next effect. *)
Inductive cstep (entry : prog (eff D X) unit → Prop) :
    relation (list (prog (eff D X) unit) * D) :=
  | C_spawn p ps d :
      entry p → cstep entry (ps, d) (p :: ps, d)
  | C_step ps1 p ps2 d p' d' :
      pstep p d p' d' → cstep entry (ps1 ++ p :: ps2, d) (ps1 ++ p' :: ps2, d').

(** The databases a service can reach from [d0] with any number of requests. *)
Definition reachable entry (d0 d : D) : Prop :=
  ∃ ps, rtc (cstep entry) ([], d0) (ps, d).
End concurrent.

(** ** Programs of obedient statements *)

Section guards.
Context {D : Type} {X : Type → Type} (R : relation D).

(** Every statement of the program obeys [R]. *)
Fixpoint guards {A} (p : prog (eff D X) A) : Prop :=
  match p with
  | Ret _ => True
  | Vis e k =>
      match e with
      | Sql f => ∀ t d, R d (f t d).1
      | _ => True
      end ∧ ∀ a, guards (k a)
  end.

Lemma guards_bind {A B} (f : A → prog (eff D X) B) p :
  guards p → (∀ a, guards (f a)) → guards (prog_bind f p).
Proof.
  intros Hp Hf. induction p as [a|Y e k IH]; cbn; [apply Hf|].
  destruct Hp as [He Hk]. split; [done|]. intros a. apply IH, Hk.
Qed.

Lemma guards_query {A} (f : D → res A) : Reflexive R → guards (sql (query f)).
Proof. intros HR. by split. Qed.

End guards.

Lemma guards_mono {D X A} (R R' : relation D) (p : prog (eff D X) A) :
  (∀ d d', R d d' → R' d d') → guards R p → guards R' p.
Proof.
  intros HR. induction p as [a|Y e k IH]; cbn; [done|]. intros [He Hk].
  split; [destruct e; auto|]. intros a. by apply IH.
Qed.

(** A program that only reads. *)
Abbreviation reads := (guards eq).

(** ** Rely-guarantee logic

    [I d L] is the invariant when the running programs own the holds [L]
    together; [R] is what one step of any program may do to the database.  A
    program owns a list of holds and a fact [P] about the database that no step
    of another program can undo. *)

Section logic.
Context {D : Type} {X : Type → Type} {Hold : Type}.
Context (ev : envspec X) (I : D → list Hold → Prop) (R : relation D).

Definition stable (P : D → Prop) : Prop := ∀ d d', R d d' → P d → P d'.

Fixpoint wp {A} (p : prog (eff D X) A) (L : list Hold) (P : D → Prop)
    (Q : A → list Hold → (D → Prop) → Prop) : Prop :=
  match p with
  | Ret a => Q a L P
  | Vis e k => ∀ d F d' a,
      I d (L ++ F) → P d → eff_out ev e d d' a →
      R d d' ∧ ∃ L' P',
        stable P' ∧ P' d' ∧ I d' (L' ++ F) ∧ wp (k a) L' P' Q
  end.

Definition safe {A} (p : prog (eff D X) A) (L : list Hold) (P : D → Prop) : Prop :=
  wp p L P (λ _ _ _, True).

Lemma wp_mono {A} (p : prog (eff D X) A) L P (Q Q' : A → list Hold → (D → Prop) → Prop) :
  (∀ a L' P', Q a L' P' → Q' a L' P') → wp p L P Q → wp p L P Q'.
Proof.
  intros HQ. revert L P. induction p as [a|Y e k IH]; intros L P; cbn; [apply HQ|].
  intros Hwp d F d' a HI HP Hout.
  destruct (Hwp d F d' a HI HP Hout) as (HR & L' & P' & Hst & HP' & HI' & Hk).
  split; [done|]. exists L', P'. auto.
Qed.

Lemma wp_bind {A B} (f : A → prog (eff D X) B) p L P Q :
  wp p L P (λ a L' P', wp (f a) L' P' Q) → wp (prog_bind f p) L P Q.
Proof.
  revert L P. induction p as [a|Y e k IH]; intros L P; cbn; [done|].
  intros Hwp d F d' a HI HP Hout.
  destruct (Hwp d F d' a HI HP Hout) as (HR & L' & P' & Hst & HP' & HI' & Hk).
  split; [done|]. exists L', P'. auto.
Qed.

(** A program runs as well beside holds it does not own; facts may be forgotten. *)
Lemma wp_frame {A} (p : prog (eff D X) A) L P Q L0 P0 :
  stable P → stable P0 → (∀ d, P0 d → P d) → wp p L P Q →
  wp p (L ++ L0) P0 (λ _ _ P', stable P').
Proof.
  revert L P P0. induction p as [a|Y e k IH]; intros L P P0 Hst Hst0 HP0; cbn; [done|].
  intros Hwp d F d' a HI HP Hout. rewrite <- (assoc (++)) in HI.
  destruct (Hwp d _ d' a HI (HP0 d HP) Hout) as (HR & L' & P' & Hst' & HP' & HI' & Hk).
  split; [done|]. exists (L' ++ L0), P'. rewrite <- (assoc (++)). split_and!; [done..|].
  by eapply IH.
Qed.

(** A program runs as well under a stronger fact. *)
Lemma wp_weaken {A} (p : prog (eff D X) A) L (P P0 : D → Prop) Q :
  (∀ d, P0 d → P d) → (∀ a L, Q a L P → Q a L P0) → wp p L P Q → wp p L P0 Q.
Proof.
  intros HP HQ. destruct p as [a|Y e k]; cbn; [apply HQ|].
  intros Hwp d F d' a HI HP0. by apply Hwp; [|apply HP].
Qed.

Context `{!Reflexive R}.

(** A read of the clock or a fresh UUID changes nothing. *)
Lemma wp_time {A} (k : Z → prog (eff D X) A) L P Q :
  stable P → (∀ t, wp (k t) L P Q) → wp (Vis Now k) L P Q.
Proof.
  intros Hst Hk d F d' t HI HP Hout. cbn in Hout. subst d'. split; [done|].
  exists L, P. auto.
Qed.

Lemma wp_uuid {A} (k : string → prog (eff D X) A) L P Q :
  stable P → (∀ s, wp (k s) L P Q) → wp (Vis NewUUID k) L P Q.
Proof.
  intros Hst Hk d F d' t HI HP Hout. cbn in Hout. subst d'. split; [done|].
  exists L, P. auto.
Qed.

Lemma wp_ext {A B} (x : X B) (k : B → prog (eff D X) A) L P Q :
  stable P → (∀ r, e_ext ev _ x r → wp (k r) L P Q) → wp (Vis (Ext x) k) L P Q.
Proof.
  intros Hst Hk d F d' r HI HP [-> Hr]. split; [done|].
  exists L, P. auto.
Qed.

(** A statement: what it does when it is executed, and what follows when the
    caller sees its answer, or an error after it, or an error instead of it. *)
Lemma wp_sql {A B} (f : stmt D B) (k : res B → prog (eff D X) A) L P Q :
  stable P →
  (∀ d F t, I d (L ++ F) → P d →
     let '(d', r) := f t d in
     R d d' ∧ ∃ L' P', stable P' ∧ P' d' ∧ I d' (L' ++ F) ∧ wp (k r) L' P' Q ∧
       ∀ e, e_fault ev (FLost e) → wp (k (Err e)) L' P' Q) →
  (∀ e, wp (k (Err e)) L P Q) →
  wp (Vis (Sql f) k) L P Q.
Proof.
  intros Hst Hdone Hfail d F d' r HI HP (t & flt & Hflt & Hout).
  pose proof (Hdone d F t HI HP) as Hd.
  destruct flt as [|e|e]; cbn in Hout.
  - rewrite Hout in Hd.
    destruct Hd as (HR & L' & P' & Hst' & HP' & HI' & Hk & _).
    split; [done|]. by exists L', P'.
  - injection Hout as <- <-. split; [done|]. exists L, P. auto.
  - destruct (f t d) as [d1 r1]. injection Hout as <- <-.
    destruct Hd as (HR & L' & P' & Hst' & HP' & HI' & _ & Hk).
    split; [done|]. exists L', P'. auto.
Qed.

(** A statement that leaves the database as it is. *)
Lemma wp_query {A B} (f : stmt D B) (k : res B → prog (eff D X) A) L P Q :
  stable P →
  (∀ t d, (f t d).1 = d) →
  (∀ d F t, I d (L ++ F) → P d → ∃ P', stable P' ∧ P' d ∧ wp (k (f t d).2) L P' Q) →
  (∀ e, wp (k (Err e)) L P Q) →
  wp (Vis (Sql f) k) L P Q.
Proof.
  intros Hst Hid Hdone Hfail d F d' r HI HP (t & flt & Hflt & Hout).
  destruct (Hdone d F t HI HP) as (P' & Hst' & HP' & Hk).
  specialize (Hid t d). destruct (f t d) as [d1 r1] eqn:Hf. cbn in Hid, Hk. subst d1.
  destruct flt as [|e|e]; cbn in Hout; rewrite ?Hf in Hout; injection Hout as <- <-.
  - split; [done|]. exists L, P'. auto.
  - split; [done|]. exists L, P. auto.
  - split; [done|]. exists L, P. auto.
Qed.

(** Steps after which every state of the invariant is still one. *)
Definition keeps (d d' : D) : Prop := R d d' ∧ ∀ L, I d L → I d' L.

(** A program of such statements can be run at any point. *)
Lemma wp_keeps {A} (p : prog (eff D X) A) L P Q :
  guards keeps p →
  stable P → (∀ a, Q a L P) → wp p L P Q.
Proof.
  revert L P. induction p as [a|Y e k IH]; intros L P.
  { intros _ _ HQ. apply HQ. }
  intros [He Hk] Hst HQ. cbn. intros d F d' a HI HP Hout.
  assert (keeps d d') as [HR HN].
  { destruct e as [B f| | |B x]; cbn in Hout; [|by subst|by subst|by destruct Hout as [-> _]].
    destruct Hout as (t & flt & _ & Hout). specialize (He t d).
    destruct flt; cbn in Hout; [by rewrite Hout in He|by simplify_eq|by simplify_eq]. }
  split; [done|]. exists L, P. split_and!; [done|by eapply Hst|by apply HN|]. by apply IH.
Qed.

Context `{!∀ d, Proper ((≡ₚ) ==> iff) (I d)}.

Definition pool_ok (ps : list (prog (eff D X) unit)) (d : D) : Prop :=
  ∃ Ls, Forall2 (λ p L, ∃ P, stable P ∧ P d ∧ safe p L P) ps Ls ∧ I d (concat Ls).

Lemma pool_ok_step entry c c' :
  (∀ p, entry p → safe p [] (λ _, True)) →
  cstep ev entry c c' → pool_ok c.1 c.2 → pool_ok c'.1 c'.2 ∧ R c.2 c'.2.
Proof.
  intros Hentry Hstep (Ls & Hps & HI).
  destruct Hstep as [p ps d Hp|ps1 p ps2 d p' d' Hp]; cbn in *.
  { split; [|done]. exists ([] :: Ls). split; [|done]. constructor; [|done].
    exists (λ _, True). split_and!; [by intros ???|done|by apply Hentry]. }
  apply Forall2_app_inv_l in Hps as (Ls1 & Ls' & H1 & H2 & ->).
  apply Forall2_cons_inv_l in H2 as (L & Ls2 & (P & Hst & HP & Hsafe) & H2 & ->).
  destruct p as [a|Y e k]; [done|]. destruct Hp as (a & Hout & ->).
  assert (concat (Ls1 ++ L :: Ls2) ≡ₚ L ++ concat (Ls1 ++ Ls2)) as Heq.
  { rewrite !concat_app. cbn. rewrite !(assoc (++)), (Permutation_app_comm (concat Ls1)).
    by rewrite <- !(assoc (++)). }
  rewrite Heq in HI.
  destruct (Hsafe d _ d' a HI HP Hout) as (HR & L' & P' & Hst' & HP' & HI' & Hk).
  split; [|done]. exists (Ls1 ++ L' :: Ls2). split.
  - apply Forall2_app; [|constructor; [by exists P'|]].
    + eapply Forall2_impl; [done|]. intros q Lq (Pq & Hq1 & Hq2 & Hq3). exists Pq. eauto.
    + eapply Forall2_impl; [done|]. intros q Lq (Pq & Hq1 & Hq2 & Hq3). exists Pq. eauto.
  - assert (concat (Ls1 ++ L' :: Ls2) ≡ₚ L' ++ concat (Ls1 ++ Ls2)) as ->; [|done].
    rewrite !concat_app. cbn. rewrite !(assoc (++)), (Permutation_app_comm (concat Ls1)).
    by rewrite <- !(assoc (++)).
Qed.

(** Soundness: programs proved safe one by one keep the invariant however
    they interleave, and take the database through [R]-steps only. *)
Lemma reachable_safe `{!Transitive R} entry d0 d :
  (∀ p, entry p → safe p [] (λ _, True)) →
  I d0 [] → reachable ev entry d0 d → (∃ L, I d L) ∧ R d0 d.
Proof.
  intros Hentry HI0 (ps & Hrtc).
  assert (∀ c c', rtc (cstep ev entry) c c' → pool_ok c.1 c.2 →
    pool_ok c'.1 c'.2 ∧ R c.2 c'.2) as Hgen.
  { clear ps Hrtc. induction 1 as [c|c1 c2 c3 Hc _ IH]; [done|]. intros Hok.
    destruct (pool_ok_step entry c1 c2 Hentry Hc Hok) as [Hok2 HR].
    destruct (IH Hok2). split; [done|]. by etrans. }
  destruct (Hgen _ _ Hrtc) as [(Ls & _ & HI) HR]; [|split; [by exists (concat Ls)|done]].
  exists []. split; [constructor|done].
Qed.

Lemma reachable_inv `{!Transitive R} entry d0 d :
  (∀ p, entry p → safe p [] (λ _, True)) →
  I d0 [] → reachable ev entry d0 d → ∃ L, I d L.
Proof. intros ? ? ?. by eapply reachable_safe. Qed.
End logic.

(** Programs of which every statement obeys [R] take the database through
    [R]-steps only, however they interleave. *)
Section guarantee.
Context {D : Type} {X : Type → Type} (R : relation D) `{!PreOrder R}.

Lemma pstep_guards (ev : envspec X) {A} (p p' : prog (eff D X) A) d d' :
  guards R p → pstep ev p d p' d' → R d d' ∧ guards R p'.
Proof.
  destruct p as [a|Y e k]; [done|]. intros [He Hk] (a & Hout & ->).
  split; [|apply Hk]. destruct e as [B f| | |B x]; cbn in Hout.
  - destruct Hout as (t & flt & _ & Hout).
    destruct flt; cbn in Hout; try (injection Hout as <- _); [|done|apply He].
    specialize (He t d). by rewrite Hout in He.
  - by subst.
  - by subst.
  - by destruct Hout as [-> _].
Qed.

Lemma reachable_guards (ev : envspec X) entry d0 d :
  (∀ p, entry p → guards R p) → reachable ev entry d0 d → R d0 d.
Proof.
  intros Hentry (ps & Hrtc).
  assert (∀ c c', rtc (cstep ev entry) c c' →
    Forall (guards R) c.1 → R c.2 c'.2) as Hgen; [|apply (Hgen _ _ Hrtc); constructor].
  clear ps Hrtc. induction 1 as [c|c1 c2 c3 Hc _ IH]; intros Hok; [done|].
  destruct Hc as [p ps d1 Hp|ps1 p ps2 d1 p' d1' Hp]; cbn in *.
  - apply IH. constructor; eauto.
  - apply Forall_app in Hok as [Hok1 Hok2]. apply Forall_cons in Hok2 as [Hok2 Hok3].
    destruct (pstep_guards ev p p' d1 d1' Hok2 Hp) as [HR Hg].
    etrans; [exact HR|]. apply IH. apply Forall_app. auto.
Qed.

Lemma run_guards (o : oracle X) {A} (p : prog (eff D X) A) n d :
  guards R p → R d (run o p n d).1.2.
Proof.
  revert n d. induction p as [a|Y e k IH]; intros n d; cbn; [done|]. intros [He Hk].
  destruct (eff_run o e n d) as [d' x] eqn:Hrun.
  etrans; [|by apply IH]. destruct e as [B f| | |B x']; cbn in Hrun; try by simplify_eq.
  specialize (He (o_now o n) d).
  destruct (o_fault o n); cbn in Hrun; [by rewrite Hrun in He|by simplify_eq|by simplify_eq].
Qed.
End guarantee.

(** ** The calls of a program *)

(** The calls a program can make satisfy [P]. *)
Fixpoint calls {D X A} (P : ∀ B, X B → Prop) (p : prog (eff D X) A) : Prop :=
  match p with
  | Ret _ => True
  | Vis e k => match e with Ext x => P _ x | _ => True end ∧ ∀ b, calls P (k b)
  end.

Lemma calls_bind {D X A B} (P : ∀ B, X B → Prop) (f : A → prog (eff D X) B) p :
  calls P p → (∀ a, calls P (f a)) → calls P (prog_bind f p).
Proof.
  intros Hp Hf. induction p as [a|Y e k IH]; cbn; [apply Hf|].
  destruct Hp as [He Hk]. split; [done|]. intros b. apply IH, Hk.
Qed.

Lemma calls_mono {D X A} (P Q : ∀ B, X B → Prop) (p : prog (eff D X) A) :
  (∀ B x, P B x → Q B x) → calls P p → calls Q p.
Proof.
  intros HPQ. induction p as [a|Y e k IH]; cbn; [done|]. intros [He Hk]. split; [|auto].
  destruct e; auto.
Qed.

(** ** Executions and schedules are interleavings *)

Section schedules.
Context {D : Type} {X : Type → Type} (ev : envspec X) (o : oracle X).

(** The oracle answers as the environment may. *)
Definition allowed : Prop :=
  (∀ n, e_fault ev (o_fault o n)) ∧ ∀ n A (x : X A), e_ext ev A x (o_ext o n A x).

Lemma eff_run_out {A} (e : eff D X A) n d d' a :
  allowed → eff_run o e n d = (d', a) → eff_out ev e d d' a.
Proof.
  intros [Hf Hx]. destruct e as [B f| | |B x]; cbn.
  - intros Hrun. by exists (o_now o n), (o_fault o n).
  - by intros [= <- <-].
  - by intros [= <- <-].
  - by intros [= <- <-].
Qed.

Lemma run_cstep entry ps1 ps2 (p : prog (eff D X) unit) n d :
  allowed → let '(_, d', a) := run o p n d in
  rtc (cstep ev entry) (ps1 ++ p :: ps2, d) (ps1 ++ Ret a :: ps2, d').
Proof.
  intros Hal. revert n d. induction p as [a|Y e k IH]; intros n d; cbn; [done|].
  destruct (eff_run o e n d) as [d1 x] eqn:Hrun. specialize (IH x (S n) d1).
  destruct (run o (k x) (S n) d1) as [[n2 d2] a]. eapply rtc_l; [|exact IH].
  apply C_step. exists x. split; [by eapply eff_run_out|done].
Qed.

(** One program run from start to end after others. *)
Lemma reachable_run (entry : prog (eff D X) unit → Prop) d0 d p n :
  allowed → entry p → reachable ev entry d0 d →
  reachable ev entry d0 (run o p n d).1.2.
Proof.
  intros Hal Hp (ps & Hps). pose proof (run_cstep entry [] ps p n d Hal) as Hrun.
  destruct (run o p n d) as [[n' d'] a]. exists (Ret a :: ps).
  etrans; [exact Hps|]. eapply rtc_l; [by apply C_spawn|exact Hrun].
Qed.

(** A schedule: which of the programs performs the next effect. *)
Definition step_at (i n : nat) (ps : list (prog (eff D X) unit)) (d : D) :
    list (prog (eff D X) unit) * D :=
  match ps !! i with
  | Some (Vis e k) => let '(d', a) := eff_run o e n d in (<[i := k a]> ps, d')
  | _ => (ps, d)
  end.

Fixpoint schedule (steps : list nat) (n : nat) (ps : list (prog (eff D X) unit)) (d : D) :
    list (prog (eff D X) unit) * D :=
  match steps with
  | [] => (ps, d)
  | i :: steps => let '(ps', d') := step_at i n ps d in schedule steps (S n) ps' d'
  end.

Lemma step_at_cstep entry i n ps d :
  allowed → rtc (cstep ev entry) (ps, d) (step_at i n ps d).
Proof.
  intros Hal. unfold step_at. destruct (ps !! i) as [[a|Y e k]|] eqn:Hi; [done| |done].
  destruct (eff_run o e n d) as [d' a] eqn:Hrun. apply rtc_once.
  rewrite <- (take_drop_middle ps i _ Hi) at 1.
  rewrite insert_take_drop by (by eapply lookup_lt_Some).
  apply C_step. exists a. split; [by eapply eff_run_out|done].
Qed.

Lemma schedule_reachable entry steps ps d :
  allowed → Forall entry ps →
  reachable ev entry d (snd (schedule steps 0 ps d)).
Proof.
  intros Hal Hps. exists (schedule steps 0 ps d).1.
  assert (rtc (cstep ev entry) ([], d) (ps, d)) as Hspawn.
  { induction Hps as [|p ps Hp _ IH]; [done|].
    eapply rtc_r; [exact IH|by apply C_spawn]. }
  etrans; [exact Hspawn|]. generalize 0%nat as n. clear Hspawn Hps. revert ps d.
  induction steps as [|i steps IH]; intros ps d n; [done|]. cbn [schedule].
  pose proof (step_at_cstep entry i n ps d Hal) as H1.
  destruct (step_at i n ps d) as [ps' d']. etrans; [exact H1|]. apply IH.
Qed.
End schedules.

(** ** One system inside another

    A system over [D1] that contains one over [D2]: [view] is the part of its
    state that belongs to the inner system.  A program of the outer one may run
    a program of the inner one, start one, or do something the inner system does
    not see.  Then what the outer system reaches, the inner one reaches. *)

Section projection.
Context {D1 D2 : Type} {X1 X2 : Type → Type} (ev1 : envspec X1) (ev2 : envspec X2).
Context (view : D1 → D2) (entry2 : prog (eff D2 X2) unit → Prop).

(** The inner program at work, and what one outer step makes of it. *)
Definition covers (o o' : option (prog (eff D2 X2) unit)) (d d' : D2) : Prop :=
  match o, o' with
  | None, None => d' = d
  | None, Some p => d' = d ∧ entry2 p
  | Some p, Some p' => pstep ev2 p d p' d'
  | Some _, None => False
  end.

Fixpoint tracks (p : prog (eff D1 X1) unit) (o : option (prog (eff D2 X2) unit)) : Prop :=
  match p with
  | Ret _ => True
  | Vis e k => ∀ d d' a, eff_out ev1 e d d' a → ∃ o', covers o o' (view d) (view d') ∧ tracks (k a) o'
  end.

Definition starts (p : prog (eff D1 X1) unit) : Prop :=
  ∃ o, (∀ p2, o = Some p2 → entry2 p2) ∧ tracks p o.

(** A program the inner system does not see. *)
Lemma tracks_hidden p : guards (λ d d', view d' = view d) p → tracks p None.
Proof.
  induction p as [a|Y e k IH]; [done|]. intros [He Hk] d d' a Hout. exists None. split; [|by apply IH].
  destruct e as [B f| | |B x]; cbn in *; [|by subst..|by destruct Hout as [-> _]].
  destruct Hout as (t & flt & _ & Hout). specialize (He t d).
  destruct flt; cbn in Hout; destruct (f t d); by simplify_eq.
Qed.

Lemma starts_hidden p : guards (λ d d', view d' = view d) p → starts p.
Proof. intros Hp. exists None. split; [done|by apply tracks_hidden]. Qed.

(** The step after which the inner program is known. *)
Lemma starts_step {B} (e : eff D1 X1 B) k :
  (∀ d d' a, eff_out ev1 e d d' a → view d' = view d) → (∀ a, starts (k a)) → starts (Vis e k).
Proof.
  intros He Hk. exists None. split; [done|]. intros d d' a Hout. destruct (Hk a) as (o & Ho & Ht).
  exists o. split; [|done]. specialize (He d d' a Hout). destruct o as [p|]; cbn; auto.
Qed.

Lemma cstep_perm {D} {X : Type → Type} (ev : envspec X) entry ps qs (d : D) ps' d' :
  ps ≡ₚ qs → cstep ev entry (ps, d) (ps', d') → ∃ qs', ps' ≡ₚ qs' ∧ cstep ev entry (qs, d) (qs', d').
Proof.
  intros Hperm Hstep. inversion Hstep as [p ps1 d1 Hp|ps1 p ps2 d1 p' d2 Hp]; subst.
  - exists (p :: qs). split; [by rewrite Hperm|by constructor].
  - assert (p ∈ qs) as Hin by (rewrite <- Hperm; apply elem_of_app; right; left).
    apply list_elem_of_split in Hin as (qs1 & qs2 & ->).
    exists (qs1 ++ p' :: qs2). split; [|by constructor].
    rewrite <- !Permutation_middle in Hperm |- *. by apply Permutation_cons_inv in Hperm as ->.
Qed.

Lemma tracked_step entry1 os ps d ps' d' qs :
  (∀ p, entry1 p → starts p) → cstep ev1 entry1 (ps, d) (ps', d') →
  Forall2 tracks ps os → omap id os ≡ₚ qs →
  ∃ os' qs', Forall2 tracks ps' os' ∧ omap id os' ≡ₚ qs' ∧
    rtc (cstep ev2 entry2) (qs, view d) (qs', view d').
Proof.
  intros Hentry Hstep Hps Hqs. inversion Hstep as [p ps1 d1 Hp|ps1 p ps2 d1 p' d2 Hp]; subst.
  - destruct (Hentry p Hp) as (o & Ho & Ht). exists (o :: os). destruct o as [p2|]; cbn.
    + exists (p2 :: qs). split_and!; [by constructor|by rewrite Hqs|]. apply rtc_once.
      constructor. by apply Ho.
    + exists qs. split_and!; [by constructor|done|done].
  - apply Forall2_app_inv_l in Hps as (os1 & os' & H1 & H2 & ->).
    apply Forall2_cons_inv_l in H2 as (o & os2 & Ht & H2 & ->).
    destruct p as [a|Y e k]; [done|]. destruct Hp as (a & Hout & ->).
    destruct (Ht _ _ _ Hout) as (o' & Hc & Ht'). exists (os1 ++ o' :: os2).
    rewrite omap_app in Hqs |- *. cbn in Hqs |- *.
    assert (Forall2 tracks (ps1 ++ k a :: ps2) (os1 ++ o' :: os2)) as Hall
      by (apply Forall2_app; [done|by constructor]).
    destruct o as [p2|], o' as [p2'|]; cbn in *; try done.
    + destruct (cstep_perm ev2 entry2 _ _ (view d) (omap id os1 ++ p2' :: omap id os2) (view d') Hqs)
        as (qs' & Hqs' & Hrun); [by constructor|].
      exists qs'. split_and!; [done|done|by apply rtc_once].
    + destruct Hc as [-> Hp2]. exists (p2' :: qs). split_and!; [done| |by apply rtc_once; constructor].
      by rewrite <- Permutation_middle, Hqs.
    + exists qs. rewrite Hc. by split_and!.
Qed.

Lemma reachable_view entry1 d0 d :
  (∀ p, entry1 p → starts p) → reachable ev1 entry1 d0 d → reachable ev2 entry2 (view d0) (view d).
Proof.
  intros Hentry (ps & Hrun).
  assert (∀ c c', rtc (cstep ev1 entry1) c c' → ∀ os qs, Forall2 tracks c.1 os → omap id os ≡ₚ qs →
    ∃ qs', rtc (cstep ev2 entry2) (qs, view c.2) (qs', view c'.2)) as Hgen.
  { clear ps Hrun. induction 1 as [c|[ps1 d1] [ps2 d2] c3 Hc _ IH]; intros os qs Hps Hqs; [by exists qs|].
    destruct (tracked_step _ _ _ _ _ _ _ Hentry Hc Hps Hqs) as (os' & qs' & Hps' & Hqs' & Hr).
    destruct (IH os' qs' Hps' Hqs') as [qs3 Hr3]. exists qs3. by etrans. }
  destruct (Hgen _ _ Hrun [] []) as [qs Hqs]; [constructor|done|by exists qs].
Qed.
End projection.

(** ** The calls of a program, in order *)

(** What a program calls, and its result, when [answer] answers. *)
Fixpoint traced {E A} (answer : ∀ B, E B → B) (p : prog E A) : list {B & E B} * A :=
  match p with
  | Ret a => ([], a)
  | Vis e k => let '(tr, a) := traced answer (k (answer _ e)) in (existT _ e :: tr, a)
  end.

Lemma traced_bind {E A B} answer (p : prog E A) (f : A → prog E B) :
  traced answer (p ≫= f) =
  ((traced answer p).1 ++ (traced answer (f (traced answer p).2)).1,
   (traced answer (f (traced answer p).2)).2).
Proof.
  change (p ≫= f) with (prog_bind f p).
  induction p as [a|B' e k IH]; cbn; [by destruct (traced answer (f a))|].
  rewrite IH. destruct (traced answer (k _)) as [tr a]. done.
Qed.
