(* ===== verification/TimeText.v ===== *)
(** * Times as text: RFC 3339

    What the services use of package [time] to put instants into JSON and to
    read them back: the proleptic Gregorian calendar, [Format(time.RFC3339)],
    [MarshalJSON] (with nanoseconds), [time.Parse(time.RFC3339, ...)] and the
    stricter [UnmarshalJSON].  Instants are nanoseconds since 1970, written in
    UTC. *)
From S2P Require Import Prelude.
From Stdlib Require Import Ascii.

(** [lia] solves divisions by constants here. *)
#[local] Ltac Zify.zify_post_hook ::= Z.to_euclidean_division_equations.

(** ** Decimal digits *)

Definition digit (c : ascii) : option Z :=
  let n := Z.of_nat (nat_of_ascii c) in
  if bool_decide (48 ≤ n ≤ 57) then Some (n - 48) else None.
Definition digit_char (d : Z) : ascii := ascii_of_nat (Z.to_nat (48 + d)).

(** The last [w] digits of [n]. *)
Fixpoint dec (w : nat) (n : Z) : string :=
  match w with
  | O => ""
  | S w => String (digit_char ((n / 10 ^ Z.of_nat w) `mod` 10)) (dec w n)
  end.

(** Exactly [k] digits. *)
Fixpoint num (k : nat) (acc : Z) (s : string) : option (Z * string) :=
  match k, s with
  | O, _ => Some (acc, s)
  | S k, String c s =>
      match digit c with Some d => num k (acc * 10 + d) s | None => None end
  | S _, EmptyString => None
  end.

Lemma digit_digit_char d : 0 ≤ d < 10 → digit (digit_char d) = Some d.
Proof.
  intros Hd. assert (d ∈ [0; 1; 2; 3; 4; 5; 6; 7; 8; 9]) as Hin.
  { rewrite !elem_of_cons, elem_of_nil. lia. }
  clear Hd. revert d Hin. apply Forall_forall. by repeat constructor.
Qed.

Lemma mod_split n w :
  n `mod` 10 ^ Z.of_nat (S w) =
  (n / 10 ^ Z.of_nat w) `mod` 10 * 10 ^ Z.of_nat w + n `mod` 10 ^ Z.of_nat w.
Proof.
  rewrite Nat2Z.inj_succ, Z.pow_succ_r, (Z.mul_comm 10), Z.rem_mul_r by lia. lia.
Qed.

Lemma num_dec k n acc s : num k acc (dec k n +:+ s) = Some (acc * 10 ^ Z.of_nat k + n `mod` 10 ^ Z.of_nat k, s).
Proof.
  revert acc. induction k as [|k IH]; intros acc; [cbn; do 2 f_equal; rewrite Z.mod_1_r; lia|].
  change (dec (S k) n +:+ s) with (String (digit_char ((n / 10 ^ Z.of_nat k) `mod` 10)) (dec k n +:+ s)).
  cbn [num]. rewrite digit_digit_char by (apply Z.mod_pos_bound; lia).
  rewrite IH, mod_split, Nat2Z.inj_succ, Z.pow_succ_r by lia. do 2 f_equal. lia.
Qed.

Lemma num_dec_id k n s : 0 ≤ n < 10 ^ Z.of_nat k → num k 0 (dec k n +:+ s) = Some (n, s).
Proof. intros Hn. rewrite num_dec, Z.mod_small by done. done. Qed.

(** ** The calendar *)

Definition leap (y : Z) : bool :=
  bool_decide (y `mod` 4 = 0) &&
  (negb (bool_decide (y `mod` 100 = 0)) || bool_decide (y `mod` 400 = 0)).

Definition months (leap : bool) : list Z :=
  [31; if leap then 29 else 28; 31; 30; 31; 30; 31; 31; 30; 31; 30; 31].
Definition daysIn (leap : bool) (m : Z) : Z := nth (Z.to_nat (m - 1)) (months leap) 0.

(** Month and day of a day of the year, by walking the months. *)
Fixpoint month_day (ms : list Z) (m yday : Z) : Z * Z :=
  match ms with
  | [] => (m, yday + 1)
  | n :: ms => if bool_decide (yday < n) then (m, yday + 1) else month_day ms (m + 1) (yday - n)
  end.
Definition before (leap : bool) (m : Z) : Z := lsum id (take (Z.to_nat (m - 1)) (months leap)).

(** The year of a day since 0001-01-01, and the day within it: cycles of 400,
    100, 4 years and one year; the last of a cycle may be a day longer. *)
Definition year_day (days : Z) : Z * Z :=
  let n400 := days / 146097 in
  let d := days `mod` 146097 in
  let n100 := d / 36524 - d / 36524 / 4 in
  let d := d - 36524 * n100 in
  let n4 := d / 1461 in
  let d := d - 1461 * n4 in
  let n1 := d / 365 - d / 365 / 4 in
  (400 * n400 + 100 * n100 + 4 * n4 + n1 + 1, d - 365 * n1).

Definition civil (days : Z) : Z * Z * Z :=
  let '(y, yday) := year_day days in
  let '(m, d) := month_day (months (leap y)) 1 yday in (y, m, d).

(** Days from 0001-01-01 to the first of January of a year, and to a date. *)
Definition year_start (y : Z) : Z :=
  365 * (y - 1) + (y - 1) / 4 - (y - 1) / 100 + (y - 1) / 400.
Definition days_of (y m d : Z) : Z := year_start y + before (leap y) m + (d - 1).

Lemma leap_cycle a b c e :
  0 ≤ b ≤ 3 → 0 ≤ c ≤ 24 → 0 ≤ e ≤ 3 →
  leap (400 * a + 100 * b + 4 * c + e + 1) = true ↔ e = 3 ∧ (c = 24 → b = 3).
Proof.
  intros Hb Hc He. unfold leap.
  rewrite andb_true_iff, orb_true_iff, negb_true_iff, !bool_decide_eq_true, bool_decide_eq_false.
  lia.
Qed.

Lemma year_day_spec days y yday :
  year_day days = (y, yday) →
  year_start y + yday = days ∧ 0 ≤ yday < (if leap y then 366 else 365).
Proof.
  unfold year_day. set (n400 := days / 146097). set (d := days `mod` 146097).
  assert (days = 146097 * n400 + d ∧ 0 ≤ d < 146097) as [Hd Hdb].
  { unfold n400, d. split; [apply Z.div_mod|apply Z.mod_pos_bound]; lia. }
  clearbody n400 d.
  set (n100 := d / 36524 - d / 36524 / 4). set (d1 := d - 36524 * n100).
  assert (0 ≤ n100 ≤ 3 ∧ 0 ≤ d1 ∧ d1 < 36525 ∧ (n100 ≠ 3 → d1 < 36524)) as (H100 & Hd1 & Hd1' & Hl100).
  { unfold d1, n100. clear -Hdb. lia. }
  assert (d = 36524 * n100 + d1) as Hdd by lia. clearbody n100 d1.
  set (n4 := d1 / 1461). set (d2 := d1 - 1461 * n4).
  assert (0 ≤ n4 ≤ 24 ∧ 0 ≤ d2 < 1461 ∧ (n4 = 24 → n100 ≠ 3 → d2 < 1460)) as (H4 & Hd2 & Hl4).
  { unfold d2, n4. clear -Hd1 Hd1' Hl100. lia. }
  assert (d1 = 1461 * n4 + d2) as Hdd1 by lia. clearbody n4 d2.
  set (n1 := d2 / 365 - d2 / 365 / 4). set (r := d2 - 365 * n1).
  assert (0 ≤ n1 ≤ 3 ∧ 0 ≤ r < 366 ∧ (r = 365 → n1 = 3 ∧ d2 = 1460)) as (H1 & Hr & Hlr).
  { unfold r, n1. clear -Hd2. lia. }
  assert (d2 = 365 * n1 + r) as Hdd2 by lia. clearbody n1 r.
  intros [= <- <-].
  replace (year_start _) with (146097 * n400 + 36524 * n100 + 1461 * n4 + 365 * n1)
    by (unfold year_start; clear -H100 H4 H1; lia).
  split; [lia|]. pose proof (leap_cycle n400 n100 n4 n1 H100 H4 H1) as Hleap.
  destruct (decide (r = 365)) as [->|]; [|destruct (leap _); lia].
  destruct Hleap as [_ ->]; lia.
Qed.

Lemma month_day_spec ms m0 yd m d :
  month_day ms m0 yd = (m, d) → 0 ≤ yd < lsum id ms →
  m0 ≤ m < m0 + Z.of_nat (length ms) ∧ 1 ≤ d ≤ nth (Z.to_nat (m - m0)) ms 0 ∧
  lsum id (take (Z.to_nat (m - m0)) ms) + (d - 1) = yd.
Proof.
  revert m0 yd. induction ms as [|n ms IH]; intros m0 yd; cbn [month_day]; [unfold lsum; cbn; lia|].
  case_bool_decide as Hn.
  - intros [= <- <-] Hyd. rewrite Z.sub_diag. change (Z.to_nat 0) with O. unfold lsum. cbn. unfold id in *. lia.
  - intros Hmd Hyd. unfold lsum in Hyd. cbn in Hyd. destruct (IH (m0 + 1) (yd - n) Hmd) as (Hm & Hd & Hs).
    { unfold lsum, id in *. lia. }
    replace (Z.to_nat (m - m0)) with (S (Z.to_nat (m - (m0 + 1)))) by lia.
    unfold lsum in *. cbn in *. unfold id in *. lia.
Qed.

Lemma civil_spec days y m d :
  civil days = (y, m, d) →
  days_of y m d = days ∧ 1 ≤ m ≤ 12 ∧ 1 ≤ d ≤ daysIn (leap y) m.
Proof.
  unfold civil. destruct (year_day days) as [y' yd] eqn:Hy.
  destruct (month_day _ 1 yd) as [m' d'] eqn:Hmd. intros [= -> -> ->].
  apply year_day_spec in Hy as [Hst Hyd].
  apply month_day_spec in Hmd as (Hm & Hd & Hs).
  - change (Z.of_nat (length (months (leap y)))) with 12 in Hm.
    unfold days_of, before, daysIn. lia.
  - unfold lsum. destruct (leap y); vm_compute foldr; lia.
Qed.

(** ** [Format] *)

(** Days from 0001-01-01 to 1970-01-01. *)
Definition epoch_days : Z := 719162.

(** The wall clock of an instant, in UTC. *)
Record clock := mkClock {
  ck_year : Z; ck_month : Z; ck_day : Z; ck_hour : Z; ck_min : Z; ck_sec : Z; ck_nsec : Z;
}.
Definition clock_of (t : Z) : clock :=
  let sec := t / Second in
  let '(y, m, d) := civil (sec / 86400 + epoch_days) in
  let tod := sec `mod` 86400 in
  mkClock y m d (tod / 3600) ((tod / 60) `mod` 60) (tod `mod` 60) (t `mod` Second).
Definition instant (c : clock) : Z :=
  ((days_of (ck_year c) (ck_month c) (ck_day c) - epoch_days) * 86400
   + ck_hour c * 3600 + ck_min c * 60 + ck_sec c) * Second + ck_nsec c.

Definition clock_ok (c : clock) : bool :=
  bool_decide (1 ≤ ck_month c ≤ 12) &&
  bool_decide (1 ≤ ck_day c ≤ daysIn (leap (ck_year c)) (ck_month c)) &&
  bool_decide (0 ≤ ck_hour c < 24) && bool_decide (0 ≤ ck_min c < 60) &&
  bool_decide (0 ≤ ck_sec c < 60) && bool_decide (0 ≤ ck_nsec c < Second).

#[local] Arguments daysIn : simpl never.

#[local] Opaque civil.

Lemma clock_of_ok t : clock_ok (clock_of t) = true ∧ instant (clock_of t) = t.
Proof.
  unfold clock_of. destruct (civil _) as [[y m] d] eqn:Hc.
  apply civil_spec in Hc as (Hdays & Hm & Hd). unfold clock_ok, instant. cbn.
  rewrite Hdays. unfold Second in *. clear Hdays. set (sec := t / 1000000000). set (tod := sec `mod` 86400).
  assert (0 ≤ tod < 86400) by (unfold tod; lia). split.
  2: { assert (sec = sec / 86400 * 86400 + tod) by (unfold tod; lia).
       assert (tod = tod / 3600 * 3600 + (tod / 60) `mod` 60 * 60 + tod `mod` 60) by lia.
       assert (t = sec * 1000000000 + t `mod` 1000000000) by (unfold sec; lia). lia. }
  rewrite !andb_true_iff, !bool_decide_eq_true. split_and!; lia.
Qed.

(** The year in at least four digits. *)
Definition year_text (y : Z) : string :=
  if bool_decide (0 ≤ y < 10000) then dec 4 y
  else if bool_decide (y < 0) then
    "-" +:+ (if bool_decide (-10000 < y) then dec 4 (- y) else pretty (- y))
  else pretty y.

Definition date_text (c : clock) : string :=
  year_text (ck_year c) +:+ "-" +:+ dec 2 (ck_month c) +:+ "-" +:+ dec 2 (ck_day c) +:+ "T" +:+
  dec 2 (ck_hour c) +:+ ":" +:+ dec 2 (ck_min c) +:+ ":" +:+ dec 2 (ck_sec c).

(** The first [k] digits after the point, without the zeros at the end. *)
Fixpoint frac_text (k : nat) (n : Z) : string :=
  match k with
  | O => ""
  | S k =>
      if bool_decide (n = 0) then ""
      else String (digit_char (n / 10 ^ Z.of_nat k)) (frac_text k (n `mod` 10 ^ Z.of_nat k))
  end.
Definition nano_text (n : Z) : string :=
  if bool_decide (n = 0) then "" else "." +:+ frac_text 9 n.

(** [t.UTC().Format(time.RFC3339)] and the text of [t.MarshalJSON]. *)
Definition FormatRFC3339 (t : Z) : string := date_text (clock_of t) +:+ "Z".
Definition FormatRFC3339Nano (t : Z) : string :=
  date_text (clock_of t) +:+ nano_text (ck_nsec (clock_of t)) +:+ "Z".

(** ** [time.Parse(time.RFC3339, s)]

    The hour may have one digit, the fraction may follow a comma, and an
    offset may be up to 24 hours and 60 minutes. *)

Definition lit (c : ascii) (s : string) : option string :=
  match s with
  | String c' s => if bool_decide (c' = c) then Some s else None
  | EmptyString => None
  end.

(** One digit, or two. *)
Definition num12 (s : string) : option (Z * string) :=
  match num 2 0 s with Some r => Some r | None => num 1 0 s end.

(** A run of digits; those after the ninth are dropped. *)
Fixpoint frac_digits (k : nat) (acc : Z) (s : string) : Z * string :=
  match s with
  | String c s' =>
      match digit c with
      | Some d =>
          match k with
          | O => frac_digits O acc s'
          | S k => frac_digits k (acc * 10 + d) s'
          end
      | None => (acc * 10 ^ Z.of_nat k, s)
      end
  | EmptyString => (acc * 10 ^ Z.of_nat k, s)
  end.
Definition fraction (s : string) : Z * string :=
  match s with
  | String p (String c _ as s') =>
      if (bool_decide (p = "."%char) || bool_decide (p = ","%char)) && bool_decide (is_Some (digit c))
      then frac_digits 9 0 s' else (0, s)
  | _ => (0, s)
  end.

(** The offset in seconds, and the end of the text. *)
Definition zone (s : string) : option Z :=
  match s with
  | String sg s =>
      if bool_decide (sg = "Z"%char) then (if bool_decide (s = "") then Some 0 else None)
      else
        '(h, s) ← num 2 0 s; s ← lit ":" s; '(m, s) ← num 2 0 s;
        if negb (bool_decide (s = "" ∧ h ≤ 24 ∧ m ≤ 60)) then None
        else if bool_decide (sg = "+"%char) then Some (h * 3600 + m * 60)
        else if bool_decide (sg = "-"%char) then Some (- (h * 3600 + m * 60))
        else None
  | EmptyString => None
  end.

Definition ParseRFC3339 (s : string) : option Z :=
  '(y, s) ← num 4 0 s; s ← lit "-" s;
  '(mo, s) ← num 2 0 s; s ← lit "-" s;
  '(d, s) ← num 2 0 s; s ← lit "T" s;
  '(h, s) ← num12 s; s ← lit ":" s;
  '(mi, s) ← num 2 0 s; s ← lit ":" s;
  '(sec, s) ← num 2 0 s;
  let '(ns, s) := fraction s in
  off ← zone s;
  let c := mkClock y mo d h mi sec ns in
  if clock_ok c then Some (instant c - off * Second) else None.

(** ** Reading back what was printed *)

Lemma string_app_assoc (a b c : string) : (a +:+ b) +:+ c = a +:+ (b +:+ c).
Proof. induction a as [|x a IH]; [done|]. apply (f_equal (String x) IH). Qed.

Lemma frac_digits_text k n acc rest :
  0 ≤ n < 10 ^ Z.of_nat k → (∀ c s, rest = String c s → digit c = None) →
  frac_digits k acc (frac_text k n +:+ rest) = (acc * 10 ^ Z.of_nat k + n, rest).
Proof.
  intros Hn Hrest. assert (∀ k acc, frac_digits k acc rest = (acc * 10 ^ Z.of_nat k, rest)) as Hend.
  { intros j a. destruct rest as [|c s]; [by destruct j|].
    specialize (Hrest _ _ eq_refl). destruct j; cbn [frac_digits]; by rewrite Hrest. }
  revert n acc Hn. induction k as [|k IH]; intros n acc Hn.
  { cbn [frac_text]. change ("" +:+ rest) with rest. rewrite Hend. f_equal. cbn in *. lia. }
  cbn [frac_text]. case_bool_decide as H0.
  { subst. change ("" +:+ rest) with rest. rewrite Hend. f_equal. lia. }
  rewrite Nat2Z.inj_succ, Z.pow_succ_r in * by lia.
  set (p := 10 ^ Z.of_nat k) in *. assert (0 < p) by (unfold p; lia).
  change (String ?c ?a +:+ rest) with (String c (a +:+ rest)). cbn [frac_digits].
  rewrite digit_digit_char.
  2: { split; [apply Z.div_pos; lia|apply Z.div_lt_upper_bound; lia]. }
  rewrite IH by (apply Z.mod_pos_bound; lia). f_equal. fold p.
  pose proof (Z.div_mod n p). lia.
Qed.

Lemma frac_text_S k n :
  n ≠ 0 →
  frac_text (S k) n =
  String (digit_char (n / 10 ^ Z.of_nat k)) (frac_text k (n `mod` 10 ^ Z.of_nat k)).
Proof. intros. cbn [frac_text]. by rewrite bool_decide_false. Qed.

Lemma fraction_nano n rest :
  0 ≤ n < Second → (∀ c s, rest = String c s → digit c = None ∧ c ≠ "."%char ∧ c ≠ ","%char) →
  fraction (nano_text n +:+ rest) = (n, rest).
Proof.
  intros Hn Hrest. unfold nano_text. case_bool_decide as H0.
  - subst. change ("" +:+ rest) with rest. unfold fraction.
    destruct rest as [|p [|c s]]; [done..|]. destruct (Hrest _ _ eq_refl) as (_ & Hp & Hc).
    by rewrite !bool_decide_false by done.
  - rewrite string_app_assoc. pose proof (frac_digits_text 9 n 0 rest) as Hd.
    rewrite (frac_text_S 8 n H0) in *. set (c := digit_char _) in *. set (tl := frac_text _ _) in *.
    change ("." +:+ _) with (String "." (String c (tl +:+ rest))). unfold fraction.
    assert (digit c = Some (n / 10 ^ Z.of_nat 8)) as Hc.
    { apply digit_digit_char. change (10 ^ Z.of_nat 8) with 100000000. unfold Second in Hn. clear -Hn. lia. }
    rewrite (bool_decide_true (is_Some (digit c))) by (rewrite Hc; eauto).
    rewrite (bool_decide_true ("."%char = "."%char)) by reflexivity. cbn [orb andb].
    change (String c (tl +:+ rest)) with (String c tl +:+ rest).
    rewrite Hd; [reflexivity|exact Hn|]. intros c' s' Heq. by destruct (Hrest _ _ Heq).
Qed.

Lemma num_step {A} k n rest (f : Z * string → option A) :
  0 ≤ n < 10 ^ Z.of_nat k → num k 0 (dec k n +:+ rest) ≫= f = f (n, rest).
Proof. intros. by rewrite num_dec_id. Qed.
Lemma num12_step {A} n rest (f : Z * string → option A) :
  0 ≤ n < 100 → num12 (dec 2 n +:+ rest) ≫= f = f (n, rest).
Proof. intros. unfold num12. by rewrite num_dec_id. Qed.
Lemma lit_step {A} c rest (f : string → option A) : lit c (String c "" +:+ rest) ≫= f = f rest.
Proof. change (String c "" +:+ rest) with (String c rest). unfold lit. by rewrite bool_decide_true. Qed.

Lemma nth_le (l : list Z) b n : 0 ≤ b → Forall (λ x, x ≤ b) l → nth n l 0 ≤ b.
Proof. intros Hb Hl. revert n. induction Hl; intros [|n]; cbn; auto. Qed.
Lemma daysIn_le l m : daysIn l m ≤ 31.
Proof. apply nth_le; [done|]. by destruct l; repeat constructor. Qed.

Lemma parse_text c n :
  clock_ok (mkClock (ck_year c) (ck_month c) (ck_day c) (ck_hour c) (ck_min c) (ck_sec c) n) = true →
  0 ≤ ck_year c < 10000 →
  ParseRFC3339 (date_text c +:+ nano_text n +:+ "Z") =
  Some (instant (mkClock (ck_year c) (ck_month c) (ck_day c) (ck_hour c) (ck_min c) (ck_sec c) n)).
Proof.
  intros Hok Hy. pose proof Hok as Hok'. unfold clock_ok in Hok'. cbn in Hok'.
  rewrite !andb_true_iff, !bool_decide_eq_true in Hok'.
  assert (daysIn (leap (ck_year c)) (ck_month c) ≤ 31) as H31.
  { apply daysIn_le. }
  unfold date_text, year_text. rewrite bool_decide_true by done. rewrite !string_app_assoc.
  unfold ParseRFC3339. rewrite num_step by lia.
  repeat first [rewrite lit_step | rewrite num12_step by lia | rewrite num_step by (cbn; lia)].
  rewrite fraction_nano; [|lia|].
  2: { intros ? ? [= <- <-]. done. }
  change (zone "Z") with (Some 0). cbn [mbind option_bind]. by rewrite Hok, Z.mul_0_l, Z.sub_0_r.
Qed.

Definition year_of (t : Z) : Z := ck_year (clock_of t).

Lemma parse_format_nano t :
  0 ≤ year_of t < 10000 → ParseRFC3339 (FormatRFC3339Nano t) = Some t.
Proof.
  intros Hy. destruct (clock_of_ok t) as [Hok Hinst]. unfold FormatRFC3339Nano.
  rewrite parse_text; [|by destruct (clock_of t)|done].
  f_equal. etrans; [|exact Hinst]. by destruct (clock_of t).
Qed.

Lemma clock_of_nsec t : ck_nsec (clock_of t) = t `mod` Second.
Proof. unfold clock_of. by destruct (civil _) as [[??]?]. Qed.

Lemma clock_trunc c :
  let c0 := mkClock (ck_year c) (ck_month c) (ck_day c) (ck_hour c) (ck_min c) (ck_sec c) 0 in
  (clock_ok c = true → clock_ok c0 = true) ∧ instant c0 = instant c - ck_nsec c.
Proof.
  destruct c; cbn. split; [|unfold instant; cbn; lia].
  unfold clock_ok. cbn. rewrite !andb_true_iff, !bool_decide_eq_true. unfold Second. lia.
Qed.

Lemma parse_format t :
  0 ≤ year_of t < 10000 → ParseRFC3339 (FormatRFC3339 t) = Some (rfc3339 t).
Proof.
  intros Hy. destruct (clock_of_ok t) as [Hok Hinst]. pose proof (clock_of_nsec t) as Hns.
  unfold FormatRFC3339. unfold year_of in Hy. revert Hok Hinst Hns Hy.
  generalize (clock_of t) as c. intros c Hok Hinst Hns Hy.
  destruct (clock_trunc c) as [Hok0 H0]. replace "Z" with (nano_text 0 +:+ "Z") by reflexivity.
  rewrite parse_text by auto. f_equal. rewrite H0, Hinst, Hns. unfold rfc3339.
  pose proof (Z.div_mod t Second). unfold Second in *. lia.
Qed.

Lemma parse_empty : ParseRFC3339 "" = None.
Proof. reflexivity. Qed.

(** Proofs use the lemmas, never the texts. *)
#[global] Opaque ParseRFC3339 FormatRFC3339 FormatRFC3339Nano year_of.
