(* ===== verification/Json.v ===== *)
(** * Request bodies, validation and query values

    What the handlers use of [encoding/json] (decoding a body into a struct of
    strings, integers, times and slices), of [strconv.Atoi] and of the
    validator library, which is a parameter. *)
From S2P Require Import Prelude TimeText.
From Stdlib Require Import Ascii.
Set Warnings "-register-all".

(** ** Bodies

    A JSON text, parsed.  [JTime] is a string that is an RFC 3339 timestamp,
    with the instant it denotes; [JFrac] is a number that is no integer
    literal.  A body that is not JSON is [None]. *)

Inductive json :=
  | JNull
  | JBool (b : bool)
  | JNum (z : Z)
  | JFrac (text : string)
  | JStr (s : string)
  | JTime (text : string) (t : Z)
  | JArr (l : list json)
  | JObj (fields : list (string * json)).

(** A JSON string: it is a timestamp when [time.Parse] reads it as one.
    [json.Marshal] writes strings, integers and times so; it refuses a time
    whose year has not four digits. *)
Definition str_json (s : string) : json :=
  match ParseRFC3339 s with Some t => JTime s t | None => JStr s end.
Definition marshal_error : error := Plain "json: error calling MarshalJSON for type time.Time".
Definition time_json (t : Z) : res json :=
  if bool_decide (0 ≤ year_of t < 10000) then Ok (str_json (FormatRFC3339Nano t))
  else Err marshal_error.

Definition syntax_error : error := Plain "invalid character".
Definition type_error : error := Plain "json: cannot unmarshal".

(** Keys match the tag of a field up to ASCII case. *)
Definition lower_ascii (c : ascii) : ascii :=
  let n := nat_of_ascii c in
  if bool_decide (65 ≤ n ∧ n ≤ 90)%nat then ascii_of_nat (n + 32) else c.
Fixpoint fold_key (s : string) : string :=
  match s with
  | EmptyString => EmptyString
  | String c s => String (lower_ascii c) (fold_key s)
  end.

(** The values an object gives a field, in the order of the text. *)
Definition values_of (name : string) (o : list (string * json)) : list json :=
  (filter (λ kv, fold_key kv.1 = name) o).*2.

(** Each value overwrites the field; the first that does not fit is an error. *)
Fixpoint dec_all {A} (dec : A → json → res A) (a : A) (vs : list json) : res A :=
  match vs with
  | [] => Ok a
  | v :: vs => match dec a v with Ok a' => dec_all dec a' vs | Err e => Err e end
  end.

Definition dec_string (old : string) (j : json) : res string :=
  match j with
  | JNull => Ok old
  | JStr s | JTime s _ => Ok s
  | _ => Err type_error
  end.
Definition dec_int (old : Z) (j : json) : res Z :=
  match j with
  | JNull => Ok old
  | JNum z => if bool_decide (in_int64 z) then Ok z else Err type_error
  | _ => Err type_error
  end.
Definition dec_time (old : Z) (j : json) : res Z :=
  match j with
  | JNull => Ok old
  | JTime _ t => Ok t
  | _ => Err type_error
  end.

Fixpoint dec_elems {A} (dec : json → res A) (l : list json) : res (list A) :=
  match l with
  | [] => Ok []
  | j :: l =>
      match dec j, dec_elems dec l with
      | Ok a, Ok l' => Ok (a :: l')
      | Err e, _ | _, Err e => Err e
      end
  end.
Definition dec_slice {A} (dec : json → res A) (_ : list A) (j : json) : res (list A) :=
  match j with
  | JNull => Ok []
  | JArr l => dec_elems dec l
  | _ => Err type_error
  end.

Definition string_field (name : string) (o : list (string * json)) : res string :=
  dec_all dec_string "" (values_of name o).
Definition int_field (name : string) (o : list (string * json)) : res Z :=
  dec_all dec_int 0 (values_of name o).
(** The zero [time.Time] is the first of January of year one. *)
Definition zero_time : Z := -62135596800 * Second.
Definition time_field (name : string) (o : list (string * json)) : res Z :=
  dec_all dec_time zero_time (values_of name o).
Definition slice_field {A} (name : string) (dec : json → res A) (o : list (string * json)) :
    res (list A) :=
  dec_all (dec_slice dec) [] (values_of name o).

(** A struct: [null] leaves it as it is, an object fills its fields. *)
Definition dec_struct {A} (f : list (string * json) → res A) (j : json) : res A :=
  match j with
  | JNull => f []
  | JObj o => f o
  | _ => Err type_error
  end.

(** [json.NewDecoder(r.Body).Decode(&req)]. *)
Definition Decode {A} (dec : json → res A) (body : option json) : res A :=
  match body with
  | None => Err syntax_error
  | Some j => dec j
  end.

(** [x ←! r; q]: the next field, unless this one was wrong. *)
Notation "x ←! r ; q" :=
  (match r with Ok x => q | Err e => Err e end)
  (at level 20, r at level 100, q at level 200, right associativity).

Lemma dec_str_json old s : dec_string old (str_json s) = Ok s.
Proof. unfold str_json. by destruct (ParseRFC3339 s). Qed.

Lemma dec_time_json old t j : time_json t = Ok j → dec_time old j = Ok t.
Proof.
  unfold time_json. case_bool_decide as Hy; [|done]. intros <-%Ok_inj.
  unfold str_json. by rewrite parse_format_nano.
Qed.

(** ** Validation

    A struct as the validator sees it: its fields with their [validate] tags. *)

Inductive fieldval :=
  | VString (s : string)
  | VInt (z : Z)
  | VTime (t : Z)
  | VSlice (elems : list (list (string * string * fieldval))).

Abbreviation fields := (list (string * string * fieldval)).

(** [validate.Struct]: [None], or the text of the error. *)
Class Validator := validate_Struct : fields → option string.

(** What the services rely on: a field tagged [oneof] holds one of the words,
    and a field tagged with a minimum of one is at least one. *)
Class ValidatorLaws `{!Validator} : Prop := {
  oneof_holds fs name s :
    validate_Struct fs = None → (name, "oneof=customer eo", VString s) ∈ fs →
    s = "customer" ∨ s = "eo";
  min1_holds fs name z :
    validate_Struct fs = None → (name, "required,min=1", VInt z) ∈ fs → 1 ≤ z;
  dive_holds fs name elems e :
    validate_Struct fs = None → (name, "required,min=1,dive", VSlice elems) ∈ fs →
    e ∈ elems → validate_Struct e = None;
}.

(** ** Strings *)

(** [strings.SplitN(email, "@", 2)[0]]. *)
Fixpoint before_at (s : string) : string :=
  match s with
  | EmptyString => ""
  | String c s => if bool_decide (c = "@"%char) then "" else String c (before_at s)
  end.

(** [strings.TrimSuffix(baseURL, "/")]. *)
Definition trim_slash (s : string) : string :=
  let n := String.length s in
  if bool_decide (String.substring (n - 1) 1 s = "/") then String.substring 0 (n - 1) s else s.

(** ** Query values *)

Fixpoint digits_from (acc : Z) (s : string) : option Z :=
  match s with
  | EmptyString => Some acc
  | String c s => match digit c with Some k => digits_from (acc * 10 + k) s | None => None end
  end.
Definition digits (s : string) : option Z :=
  if bool_decide (s = "") then None else digits_from 0 s.

(** [strconv.Atoi] with its error dropped: zero on a syntax error, the nearest
    [int] on a value out of range. *)
Definition clamp64 (z : Z) : Z := Z.max (- 2 ^ 63) (Z.min (2 ^ 63 - 1) z).
Definition Atoi (s : string) : Z :=
  match s with
  | String "-"%char s' => match digits s' with Some z => clamp64 (- z) | None => 0 end
  | String "+"%char s' => match digits s' with Some z => clamp64 z | None => 0 end
  | _ => match digits s with Some z => clamp64 z | None => 0 end
  end.

Lemma Atoi_range s : in_int64 (Atoi s).
Proof.
  assert (∀ o, in_int64 (match o with Some z => clamp64 z | None => 0 end)) as Hpos.
  { intros [z|]; unfold in_int64, clamp64; lia. }
  assert (∀ o, in_int64 (match o with Some z => clamp64 (- z) | None => 0 end)) as Hneg.
  { intros [z|]; unfold in_int64, clamp64; lia. }
  unfold Atoi. repeat (split_match; auto).
Qed.

(** ** A validator that obeys the laws

    The tags of the request structs, read as the library documents them:
    [required] refuses the zero value, [min] bounds an integer, the characters
    of a string or the length of a slice, [dive] validates the elements. *)

Fixpoint split_on (sep : ascii) (cur s : string) : list string :=
  match s with
  | EmptyString => [cur]
  | String c s =>
      if bool_decide (c = sep) then cur :: split_on sep "" s
      else split_on sep (cur +:+ String c "") s
  end.

Definition is_zero (v : fieldval) : bool :=
  match v with
  | VString s => bool_decide (s = "")
  | VInt z => bool_decide (z = 0)
  | VTime t => bool_decide (t = zero_time)
  | VSlice l => false
  end.
Definition size_of (v : fieldval) : Z :=
  match v with
  | VString s => Z.of_nat (String.length s)
  | VInt z => z
  | VTime t => t
  | VSlice l => Z.of_nat (length l)
  end.

(** One rule of a tag; [email] asks for a part on each side of an at sign. *)
Definition rule_holds (v : fieldval) (rule : string) : bool :=
  match split_on "="%char "" rule with
  | ["required"] => negb (is_zero v)
  | ["min"; n] => bool_decide (Atoi n ≤ size_of v)
  | ["oneof"; ws] =>
      match v with VString s => bool_decide (s ∈ split_on " "%char "" ws) | _ => false end
  | ["email"] =>
      match v with
      | VString s =>
          match split_on "@"%char "" s with
          | [a; b] => negb (bool_decide (a = "")) && negb (bool_decide (b = ""))
          | _ => false
          end
      | _ => false
      end
  | _ => true
  end.
Definition tag_holds (tag : string) (v : fieldval) : bool :=
  match split_on ","%char "" tag with
  | "omitempty" :: rules => is_zero v || forallb (rule_holds v) rules
  | rules => forallb (rule_holds v) rules
  end.

Fixpoint value_valid (tag : string) (v : fieldval) : bool :=
  tag_holds tag v &&
  match v with
  | VSlice elems =>
      negb (bool_decide ("dive" ∈ split_on ","%char "" tag)) ||
      forallb (forallb (λ f, value_valid f.1.2 f.2)) elems
  | _ => true
  end.

Definition sample_validator : Validator := λ fs,
  if forallb (λ f, value_valid f.1.2 f.2) fs then None else Some "validation failed".

Lemma sample_validator_field fs name tag v :
  sample_validator fs = None → (name, tag, v) ∈ fs → value_valid tag v = true.
Proof.
  unfold sample_validator. destruct (forallb _ fs) eqn:Hall; [|done].
  rewrite forallb_forall in Hall. intros _ Hin%list_elem_of_In. by apply Hall in Hin.
Qed.

Lemma oneof_rule s :
  value_valid "oneof=customer eo" (VString s) = true → s = "customer" ∨ s = "eo".
Proof.
  change (value_valid "oneof=customer eo" (VString s))
    with (bool_decide (s ∈ ["customer"; "eo"]) && true && true).
  rewrite !andb_true_r, bool_decide_eq_true. set_solver.
Qed.

Lemma min1_rule z : value_valid "required,min=1" (VInt z) = true → 1 ≤ z.
Proof.
  change (value_valid "required,min=1" (VInt z))
    with (negb (bool_decide (z = 0)) && (bool_decide (1 ≤ z) && true) && true).
  intros. bool_cases. done.
Qed.

Lemma dive_rule elems :
  value_valid "required,min=1,dive" (VSlice elems) = true →
  forallb (forallb (λ f, value_valid f.1.2 f.2)) elems = true.
Proof.
  change (value_valid "required,min=1,dive" (VSlice elems))
    with (tag_holds "required,min=1,dive" (VSlice elems) &&
          forallb (forallb (λ f, value_valid f.1.2 f.2)) elems).
  by intros [_ ?]%andb_true_iff.
Qed.

Lemma sample_validator_laws : @ValidatorLaws sample_validator.
Proof.
  split.
  - intros fs name s Hok Hin. by eapply oneof_rule, sample_validator_field.
  - intros fs name z Hok Hin. by eapply min1_rule, sample_validator_field.
  - intros fs name elems e Hok Hin He.
    pose proof (dive_rule _ (sample_validator_field fs _ _ _ Hok Hin)) as Hv.
    rewrite forallb_forall in Hv. unfold validate_Struct, sample_validator.
    rewrite Hv; [done|by apply list_elem_of_In].
Qed.
