(* ===== verification/Sha256.v ===== *)
(** * SHA-256 and base64

    What [service/auth/internal/jwt] uses of [crypto/sha256] and
    [encoding/base64] to store refresh tokens by their hash.  Bytes are integers
    below 256, words are integers below [2 ^ 32]. *)
From S2P Require Import Prelude.
From Stdlib Require Import Ascii.

Definition bytes_of (s : string) : list Z :=
  Z.of_nat ∘ nat_of_ascii <$> String.list_ascii_of_string s.

(** ** SHA-256 *)

Module Sha256.

Definition w32 (z : Z) : Z := Z.land z 0xffffffff.
Definition add32 (a b : Z) : Z := w32 (a + b).
Definition rotr (n x : Z) : Z := Z.lor (Z.shiftr x n) (w32 (Z.shiftl x (32 - n))).

Definition Sigma0 x := Z.lxor (Z.lxor (rotr 2 x) (rotr 13 x)) (rotr 22 x).
Definition Sigma1 x := Z.lxor (Z.lxor (rotr 6 x) (rotr 11 x)) (rotr 25 x).
Definition sigma0 x := Z.lxor (Z.lxor (rotr 7 x) (rotr 18 x)) (Z.shiftr x 3).
Definition sigma1 x := Z.lxor (Z.lxor (rotr 17 x) (rotr 19 x)) (Z.shiftr x 10).
Definition Ch x y z := Z.lxor (Z.land x y) (Z.land (Z.lxor x 0xffffffff) z).
Definition Maj x y z := Z.lxor (Z.lxor (Z.land x y) (Z.land x z)) (Z.land y z).

(** The constants of FIPS 180-4, from their definition there: the first 32 bits
    of the fractional parts of the cube roots of the first 64 primes, and of the
    square roots of the first eight. *)
Definition prime (n : Z) : bool :=
  forallb (λ d : nat, negb (bool_decide (n `mod` Z.of_nat d = 0))) (seq 2 (Z.to_nat n - 2)).
Definition primes : list Z := filter prime (Z.of_nat <$> seq 2 310).

(** The integer part of the [k]-th root of [n], a bit at a time from bit [b]. *)
Fixpoint root (k n : Z) (b : nat) (r : Z) : Z :=
  let r' := r + 2 ^ Z.of_nat b in
  let r := if bool_decide (r' ^ k ≤ n) then r' else r in
  match b with O => r | S b => root k n b r end.
Definition frac_root (k p : Z) : Z := w32 (root k (p * 2 ^ (32 * k)) 40 0).

Definition K : list Z := Eval vm_compute in frac_root 3 <$> primes.
Definition init : list Z := Eval vm_compute in frac_root 2 <$> take 8 primes.

(** The message, the bit one, zeros up to 56 modulo 64 and the length in bits. *)
Definition be64 (n : Z) : list Z :=
  (λ i : nat, Z.land (Z.shiftr n (8 * (7 - Z.of_nat i))) 255) <$> seq 0 8.
Definition pad (m : list Z) : list Z :=
  let n := Z.of_nat (length m) in
  m ++ 128 :: replicate (Z.to_nat ((55 - n) `mod` 64)) 0 ++ be64 (8 * n).

Fixpoint words (m : list Z) : list Z :=
  match m with
  | a :: b :: c :: d :: m =>
      Z.lor (Z.shiftl a 24) (Z.lor (Z.shiftl b 16) (Z.lor (Z.shiftl c 8) d)) :: words m
  | _ => []
  end.

(** The message schedule: sixteen words extended to sixty-four.  [w] holds the
    words so far, the last first. *)
Fixpoint extend (n : nat) (w : list Z) : list Z :=
  match n with
  | O => w
  | S n =>
      extend n (add32 (add32 (sigma1 (nth 1 w 0)) (nth 6 w 0))
                      (add32 (sigma0 (nth 14 w 0)) (nth 15 w 0)) :: w)
  end.
Definition schedule (block : list Z) : list Z := reverse (extend 48 (reverse block)).

Definition round (s : list Z) (kw : Z * Z) : list Z :=
  match s with
  | [a; b; c; d; e; f; g; h] =>
      let t1 := add32 (add32 (add32 h (Sigma1 e)) (add32 (Ch e f g) kw.1)) kw.2 in
      let t2 := add32 (Sigma0 a) (Maj a b c) in
      [add32 t1 t2; a; b; c; add32 d t1; e; f; g]
  | _ => s
  end.
Definition compress (h block : list Z) : list Z :=
  zip_with add32 h (foldl round h (zip K (schedule block))).

Fixpoint blocks (fuel : nat) (h ws : list Z) : list Z :=
  match fuel with
  | O => h
  | S fuel =>
      match ws with
      | [] => h
      | _ => blocks fuel (compress h (take 16 ws)) (drop 16 ws)
      end
  end.

Definition be32 (w : Z) : list Z :=
  (λ i : nat, Z.land (Z.shiftr w (8 * (3 - Z.of_nat i))) 255) <$> seq 0 4.

(** [sha256.Sum256]; the padded message has [length ws / 16] blocks, so the
    fuel is never the reason to stop. *)
Definition Sum256 (m : list Z) : list Z :=
  let ws := words (pad m) in
  blocks (length ws) init ws ≫= be32.
End Sha256.

(** The digest of "abc" of FIPS 180-4. *)
Lemma sha256_abc :
  Sha256.Sum256 (bytes_of "abc") =
  [0xba; 0x78; 0x16; 0xbf; 0x8f; 0x01; 0xcf; 0xea; 0x41; 0x41; 0x40; 0xde; 0x5d; 0xae; 0x22;
   0x23; 0xb0; 0x03; 0x61; 0xa3; 0x96; 0x17; 0x7a; 0x9c; 0xb4; 0x10; 0xff; 0x61; 0xf2; 0x00;
   0x15; 0xad].
Proof. vm_compute. done. Qed.

(** ** [base64.URLEncoding] *)

Module Base64.

(** The letter of a six-bit value: [A-Za-z0-9], then the last two of the
    alphabet, [+/] of [StdEncoding] and [-_] of [URLEncoding]. *)
Definition letter (c62 c63 : Z) (z : Z) : ascii :=
  ascii_of_nat (Z.to_nat
    (if bool_decide (z < 26) then z + 65
     else if bool_decide (z < 52) then z + 71
     else if bool_decide (z < 62) then z - 4
     else if bool_decide (z = 62) then c62 else c63)).

Fixpoint encode_with (letter : Z → ascii) (l : list Z) : string :=
  match l with
  | [] => ""
  | [a] =>
      String (letter (Z.shiftr a 2)) (String (letter (Z.shiftl (Z.land a 3) 4)) "==")
  | [a; b] =>
      String (letter (Z.shiftr a 2))
        (String (letter (Z.lor (Z.shiftl (Z.land a 3) 4) (Z.shiftr b 4)))
          (String (letter (Z.shiftl (Z.land b 15) 2)) "="))
  | a :: b :: c :: l =>
      String (letter (Z.shiftr a 2))
        (String (letter (Z.lor (Z.shiftl (Z.land a 3) 4) (Z.shiftr b 4)))
          (String (letter (Z.lor (Z.shiftl (Z.land b 15) 2) (Z.shiftr c 6)))
            (String (letter (Z.land c 63)) (encode_with letter l))))
  end.

Definition EncodeToString : list Z → string := encode_with (letter 45 95).
Definition StdEncodeToString : list Z → string := encode_with (letter 43 47).
End Base64.

Lemma base64_sample : Base64.EncodeToString (bytes_of "Man Ma") = "TWFuIE1h".
Proof. vm_compute. done. Qed.
