(* ===== verification/Kafka.v ===== *)
(** * The Kafka client: [pkg/kafka]

    [Consumer.Consume] as a transition system: the reading loop, the bounded
    channel and the pool of workers, with the cancellation of the context and
    the shutdown; [EnsureTopics]; and the carrier of trace headers.  What the
    handlers do is modelled by the services; the broker and the client library
    decide what is read and how a topic request is answered. *)
From S2P Require Import Prelude Effects.

(** ** [Consumer] *)

(** [WithConcurrency] and [NewConsumer]: one worker, unless an option says more. *)
Definition WithConcurrency (n : Z) (_ : Z) : Z := if bool_decide (n < 1) then 1 else n.
Definition NewConsumer (opts : list (Z → Z)) : Z := foldl (λ c opt, opt c) 1 opts.

Section consume.
Context {M : Type}.

(** The reading loop: before [ReadMessage]; in [select] with a message to send;
    waiting for the workers after [close(jobs)], with the read error if there
    was one; returned. *)
Inductive reader :=
  | Reading
  | Sending (m : M)
  | Closing (err : option error)
  | Returned (r : res unit).

(** [pl_handled] pairs each message with what its handler returned;
    [pl_idle] workers wait for a message, [pl_exited] have left their loop. *)
Record pool := mkPool {
  pl_reader : reader;
  pl_jobs : list M;
  pl_busy : list M;
  pl_idle : nat;
  pl_exited : nat;
  pl_cancelled : bool;
  pl_read : list M;
  pl_handled : list (M * res unit);
  pl_dropped : list M;
}.

Definition set_reader r (p : pool) : pool :=
  mkPool r (pl_jobs p) (pl_busy p) (pl_idle p) (pl_exited p) (pl_cancelled p) (pl_read p)
    (pl_handled p) (pl_dropped p).

(** What can happen next. *)
Inductive action :=
  | ARead (m : M)
  | AReadError (e : error)
  | ASend
  | ADrop
  | ACancel
  | ATake
  | AFinish (i : nat) (r : res unit)
  | AExit
  | AReturn.

Context (concurrency : nat).

(** [make(chan Message, c.concurrency*2)] and the workers. *)
Definition capacity : nat := concurrency * 2.
Definition start : pool := mkPool Reading [] [] concurrency 0 false [] [] [].

Definition pool_step (a : action) (p : pool) : option pool :=
  match a, pl_reader p with
  | ARead m, Reading =>
      Some (mkPool (Sending m) (pl_jobs p) (pl_busy p) (pl_idle p) (pl_exited p) (pl_cancelled p)
              (pl_read p ++ [m]) (pl_handled p) (pl_dropped p))
  | AReadError e, Reading => Some (set_reader (Closing (Some e)) p)
  | ASend, Sending m =>
      if decide (length (pl_jobs p) < capacity)%nat then
        Some (mkPool Reading (pl_jobs p ++ [m]) (pl_busy p) (pl_idle p) (pl_exited p)
                (pl_cancelled p) (pl_read p) (pl_handled p) (pl_dropped p))
      else None
  | ADrop, Sending m =>
      if pl_cancelled p then
        Some (mkPool (Closing None) (pl_jobs p) (pl_busy p) (pl_idle p) (pl_exited p)
                true (pl_read p) (pl_handled p) (pl_dropped p ++ [m]))
      else None
  | ACancel, _ =>
      Some (mkPool (pl_reader p) (pl_jobs p) (pl_busy p) (pl_idle p) (pl_exited p) true
              (pl_read p) (pl_handled p) (pl_dropped p))
  | ATake, _ =>
      match pl_jobs p, pl_idle p with
      | m :: jobs, S idle =>
          Some (mkPool (pl_reader p) jobs (pl_busy p ++ [m]) idle (pl_exited p) (pl_cancelled p)
                  (pl_read p) (pl_handled p) (pl_dropped p))
      | _, _ => None
      end
  | AFinish i r, _ =>
      match pl_busy p !! i with
      | Some m =>
          Some (mkPool (pl_reader p) (pl_jobs p) (delete i (pl_busy p)) (S (pl_idle p))
                  (pl_exited p) (pl_cancelled p) (pl_read p) (pl_handled p ++ [(m, r)])
                  (pl_dropped p))
      | None => None
      end
  | AExit, Closing _ =>
      match pl_jobs p, pl_idle p with
      | [], S idle =>
          Some (mkPool (pl_reader p) [] (pl_busy p) idle (S (pl_exited p)) (pl_cancelled p)
                  (pl_read p) (pl_handled p) (pl_dropped p))
      | _, _ => None
      end
  | AReturn, Closing err =>
      if decide (pl_exited p = concurrency) then
        Some (set_reader (Returned
          match err with
          | Some e =>
              if pl_cancelled p then Ok () else Err (Wrapped "failed to read message: " e "")
          | None => Ok ()
          end) p)
      else None
  | _, _ => None
  end.

Fixpoint pool_run (acts : list action) (p : pool) : option pool :=
  match acts with
  | [] => Some p
  | a :: acts => p' ← pool_step a p; pool_run acts p'
  end.

(** *** Nothing is lost, nothing is handled twice *)

Definition in_hand (p : pool) : list M :=
  match pl_reader p with Sending m => [m] | _ => [] end.
(** Where the messages that were read are, in the order they move on. *)
Definition located (p : pool) : list M :=
  (pl_handled p).*1 ++ pl_busy p ++ pl_jobs p ++ in_hand p ++ pl_dropped p.

Definition closing (p : pool) : Prop :=
  match pl_reader p with Closing _ | Returned _ => True | _ => False end.

Record pool_inv (p : pool) : Prop := {
  pv_located : located p ≡ₚ pl_read p;
  pv_jobs : (length (pl_jobs p) ≤ capacity)%nat;
  pv_workers : (length (pl_busy p) + pl_idle p + pl_exited p = concurrency)%nat;
  pv_dropped : (length (pl_dropped p) ≤ 1)%nat;
  pv_dropped_late : pl_dropped p ≠ [] → pl_cancelled p = true ∧ closing p;
  pv_exited : (0 < pl_exited p)%nat → closing p ∧ pl_jobs p = [];
  pv_returned r : pl_reader p = Returned r → pl_exited p = concurrency;
}.

Lemma pool_inv_start : pool_inv start.
Proof. split; cbn; try done; lia. Qed.

(** The side conditions of a step: the ones about closing are void while the
    loop reads and sends. *)
Ltac pool_side Hdl He :=
  first
    [ done
    | lia
    | rewrite length_app; cbn; lia
    | by intros [? []]%Hdl
    | by intros [[] ?]%He
    | by intros [? ?]%Hdl
    | by intros [? ?]%He ].

Lemma pool_inv_step a p p' : pool_inv p → pool_step a p = Some p' → pool_inv p'.
Proof.
  destruct p as [rd jobs busy idle ex can rd_ hd dr]. intros [Hl Hj Hw Hd Hdl He Hr].
  unfold located, in_hand, closing in *. cbn in *.
  destruct a as [m|e| | | | |i r| |]; unfold pool_step; cbn.
  - destruct rd; [|done..]. intros [= <-]. split; unfold closing; cbn; [|pool_side Hdl He..].
    unfold located, in_hand. cbn. rewrite <- Hl.
    destruct dr as [|x dr]; [|by destruct (Hdl ltac:(done))].
    by rewrite !app_nil_r, !(assoc_L (++)).
  - destruct rd; [|done..]. intros [= <-]. split; unfold closing; cbn; pool_side Hdl He.
  - destruct rd as [|m| |]; [done| |done..]. case_decide; [|done]. intros [= <-].
    split; unfold closing; cbn; [|pool_side Hdl He..].
    unfold located, in_hand. cbn. by rewrite <- Hl, <- !(assoc_L (++)).
  - destruct rd as [|m| |]; [done| |done..]. destruct can; [|done]. intros [= <-].
    destruct dr as [|x dr]; [|by destruct (Hdl ltac:(done))].
    split; unfold closing; cbn; pool_side Hdl He.
  - intros [= <-]. split; unfold closing; cbn; pool_side Hdl He.
  - destruct jobs as [|m jobs], idle as [|idle]; [done..|]. intros [= <-]. cbn in *.
    split; unfold closing; cbn; [|pool_side Hdl He..].
    unfold located, in_hand. cbn. by rewrite <- Hl, <- !(assoc_L (++)).
  - destruct (busy !! i) as [m|] eqn:Hi; [|done]. intros [= <-].
    pose proof (delete_Permutation busy i m Hi) as Hp.
    generalize dependent (delete i busy). intros busy' Hp.
    assert (length busy = S (length busy')) as Hlen by (by rewrite Hp).
    split; unfold closing; cbn; [|pool_side Hdl He..].
    unfold located, in_hand. cbn. by rewrite <- Hl, Hp, fmap_app, <- !(assoc_L (++)).
  - destruct rd as [| |err|]; [done..| |done]. destruct jobs, idle as [|idle]; try done.
    intros [= <-]. split; unfold closing; cbn; pool_side Hdl He.
  - destruct rd as [| |err|]; [done..| |done]. case_decide; [|done]. intros [= <-].
    split; unfold closing; cbn; pool_side Hdl He.
Qed.

Lemma pool_inv_run acts p p' : pool_inv p → pool_run acts p = Some p' → pool_inv p'.
Proof.
  revert p. induction acts as [|a acts IH]; intros p HI; cbn; [by intros [= <-]|].
  destruct (pool_step a p) as [p1|] eqn:Ha; [|done]. cbn. apply IH. by eapply pool_inv_step.
Qed.

Lemma pool_run_inv acts p : pool_run acts start = Some p → pool_inv p.
Proof. apply pool_inv_run, pool_inv_start. Qed.

(** C31. A consumer loses and repeats nothing while it runs: at every moment
    the messages read are, each once, handled, at a worker, in the channel, on
    the way into it, or dropped; the channel and the workers keep their
    bounds.  When [Consume] returns every message read has been handled, except
    at most the one it was about to queue when its context was cancelled. *)
Theorem consume_handles_once acts p :
  (0 < concurrency)%nat → pool_run acts start = Some p →
  located p ≡ₚ pl_read p ∧
  (length (pl_jobs p) ≤ concurrency * 2)%nat ∧ (length (pl_busy p) ≤ concurrency)%nat ∧
  (length (pl_dropped p) ≤ 1)%nat ∧ (pl_dropped p ≠ [] → pl_cancelled p = true) ∧
  ∀ r, pl_reader p = Returned r → (pl_handled p).*1 ++ pl_dropped p ≡ₚ pl_read p.
Proof.
  intros Hc [Hl Hj Hw Hd Hdl He Hr]%pool_run_inv. split_and!; try done; [lia|by intros []%Hdl|].
  intros r Hret. destruct He as [_ Hjobs]; [rewrite (Hr r Hret); lia|].
  rewrite <- Hl. unfold located, in_hand. rewrite Hret, Hjobs.
  destruct (pl_busy p) as [|m busy]; [done|]. cbn in Hw. rewrite (Hr r Hret) in Hw. lia.
Qed.

(** *** Shutdown *)

(** What is left to do once the channel is closed. *)
Definition work_left (p : pool) : nat :=
  3 * length (pl_jobs p) + 2 * length (pl_busy p) + pl_idle p +
  match pl_reader p with Returned _ => 0 | _ => 1 end.

Definition is_cancel (a : action) : bool := if a is ACancel then true else false.

Lemma closing_step a p p' :
  closing p → pool_step a p = Some p' → is_cancel a = false →
  closing p' ∧ (work_left p' < work_left p)%nat.
Proof.
  destruct p as [rd jobs busy idle ex can rd_ hd dr]. unfold closing, work_left. cbn.
  intros Hcl Hs Hnc. destruct a as [m|e| | | | |i r| |]; unfold pool_step in Hs; cbn in *; try done.
  - by destruct rd.
  - by destruct rd.
  - by destruct rd.
  - by destruct rd.
  - destruct jobs as [|m jobs], idle as [|idle]; try done. injection Hs as <-. cbn.
    split; [done|]. rewrite length_app. cbn. lia.
  - destruct (busy !! i) as [m|] eqn:Hi; [|done]. injection Hs as <-. cbn. split; [done|].
    pose proof (Permutation_length (delete_Permutation busy i m Hi)) as Hp. cbn in Hp. lia.
  - destruct rd as [| |err|]; try done. destruct jobs, idle as [|idle]; try done.
    injection Hs as <-. cbn. split; [done|]. lia.
  - destruct rd as [| |err|]; try done. case_decide; [|done]. injection Hs as <-. cbn.
    split; [done|]. lia.
Qed.

(** A pool that has not returned can go on. *)
Lemma closing_progress p :
  pool_inv p → closing p → (∀ r, pl_reader p ≠ Returned r) →
  ∃ a, is_cancel a = false ∧ is_Some (pool_step a p).
Proof.
  destruct p as [rd jobs busy idle ex can rd_ hd dr]. intros [_ _ Hw _ _ _ _] Hcl Hnr.
  unfold closing in Hcl. cbn in *. destruct rd as [| |err|r]; [done..| |by destruct (Hnr r)].
  destruct busy as [|m busy]; [|exists (AFinish 0 (Ok ())); split; [done|]; unfold pool_step; eauto].
  destruct idle as [|idle].
  - exists AReturn. split; [done|]. unfold pool_step. cbn in *.
    destruct (decide (ex = concurrency)); [eauto|lia].
  - destruct jobs; [exists AExit|exists ATake]; split; try done; unfold pool_step; cbn; eauto.
Qed.

(** C32. Shutdown ends: once the channel is closed, because a read failed or the
    context was cancelled, the pool can make only a bounded number of further
    steps, however the workers interleave, and it cannot get stuck before
    [Consume] has returned. *)
Theorem consume_terminates acts p acts' p' :
  pool_run acts start = Some p → closing p →
  forallb (λ a, negb (is_cancel a)) acts' = true → pool_run acts' p = Some p' →
  (length acts' ≤ work_left p)%nat ∧
  ((∀ a, is_cancel a = false → pool_step a p' = None) → ∃ r, pl_reader p' = Returned r).
Proof.
  intros HI%pool_run_inv. revert p HI. induction acts' as [|a acts' IH]; intros p HI Hcl;
    cbn [pool_run forallb length].
  - intros _ [= <-]. split; [lia|]. intros Hstuck.
    destruct (pl_reader p) as [| | |r] eqn:Hrd; [..|eauto];
      (destruct (closing_progress p HI Hcl) as (a & Ha & p1 & Hp1);
       [by rewrite Hrd|by rewrite Hstuck in Hp1]).
  - intros [Ha Hacts]%andb_true_iff. destruct (pool_step a p) as [p1|] eqn:Hp1; [|done].
    cbn [mbind option_bind]. intros Hrun. apply negb_true_iff in Ha.
    destruct (closing_step a p p1 Hcl Hp1 Ha) as [Hcl1 Hlt].
    destruct (IH p1) as [Hlen Hst]; [by eapply pool_inv_step|done|done|done|]. split; [lia|done].
Qed.

(** *** One worker *)

(** With one worker the messages move on in the order they were read. *)
Lemma in_order_step a p p' :
  concurrency = 1%nat → pool_inv p → located p = pl_read p →
  pool_step a p = Some p' → located p' = pl_read p'.
Proof.
  destruct p as [rd jobs busy idle ex can rd_ hd dr]. intros Hc [_ _ Hw _ Hdl _ _] Hl.
  unfold located, in_hand, closing in *. cbn in *.
  destruct a as [m|e| | | | |i r| |]; unfold pool_step; cbn.
  - destruct rd; [|done..]. intros [= <-]. cbn. rewrite <- Hl.
    destruct dr as [|x dr]; [|by destruct (Hdl ltac:(done))].
    by rewrite !app_nil_r, !(assoc_L (++)).
  - destruct rd; [|done..]. by intros [= <-].
  - destruct rd as [|m| |]; [done| |done..]. case_decide; [|done]. intros [= <-].
    cbn. by rewrite <- Hl, <- !(assoc_L (++)).
  - destruct rd as [|m| |]; [done| |done..]. destruct can; [|done]. intros [= <-].
    destruct dr as [|x dr]; [done|by destruct (Hdl ltac:(done))].
  - by intros [= <-].
  - destruct jobs as [|m jobs], idle as [|idle]; [done..|]. intros [= <-].
    cbn. by rewrite <- Hl, <- !(assoc_L (++)).
  - destruct busy as [|m [|m' busy]]; [done| |cbn in Hw; lia]. destruct i as [|i]; [|done].
    intros [= <-]. cbn. by rewrite <- Hl, fmap_app, <- !(assoc_L (++)).
  - destruct rd as [| |err|]; [done..| |done]. destruct jobs, idle as [|idle]; try done.
    by intros [= <-].
  - destruct rd as [| |err|]; [done..| |done]. case_decide; [|done]. by intros [= <-].
Qed.

(** With one worker [Consume] is the sequential loop: the messages that
    have been handled are the first ones that were read, in that order. *)
Theorem consume_in_order acts p :
  concurrency = 1%nat → pool_run acts start = Some p → (pl_handled p).*1 `prefix_of` pl_read p.
Proof.
  intros Hc Hrun. assert (located p = pl_read p) as Hl.
  { assert (∀ p0, pool_inv p0 → located p0 = pl_read p0 → pool_run acts p0 = Some p →
      located p = pl_read p) as Hgen; [|by apply (Hgen start); [apply pool_inv_start|..]].
    clear Hrun. induction acts as [|a acts IH]; intros p0 HI Hl; cbn; [by intros [= <-]|].
    destruct (pool_step a p0) as [p1|] eqn:Ha; [|done]. cbn. apply IH.
    - by eapply pool_inv_step.
    - by eapply in_order_step. }
  rewrite <- Hl. unfold located. by eexists.
Qed.
End consume.
Arguments reader : clear implicits.
Arguments pool : clear implicits.
Arguments action : clear implicits.

(** *** A run with two workers, cancelled while a message is on its way *)

Definition sample_acts : list (action string) :=
  [ARead "a"; ASend; ATake; ARead "b"; ASend; ATake; AFinish 1 (Ok ());
   AFinish 0 (Err (Plain "handler")); ARead "c"; ACancel; ADrop; AExit; AExit; AReturn].
Definition sample_pool : pool string :=
  default (start 2) (pool_run 2 sample_acts (start 2)).

Lemma consume_handles_once_witness :
  pl_reader sample_pool = Returned (Ok ()) ∧
  (pl_handled sample_pool).*1 ++ pl_dropped sample_pool ≡ₚ pl_read sample_pool.
Proof.
  split; [vm_compute; reflexivity|].
  destruct (consume_handles_once 2 sample_acts sample_pool) as (_ & _ & _ & _ & _ & Hret).
  - lia.
  - vm_compute. reflexivity.
  - apply (Hret (Ok ())). vm_compute. reflexivity.
Defined.

Lemma consume_terminates_witness : ∃ r, pl_reader sample_pool = Returned r.
Proof.
  destruct (consume_terminates 2 (take 11 sample_acts)
    (default (start 2) (pool_run 2 (take 11 sample_acts) (start 2)))
    (drop 11 sample_acts) sample_pool) as [_ Hend].
  - vm_compute. reflexivity.
  - exact I.
  - reflexivity.
  - vm_compute. reflexivity.
  - apply Hend. intros [m|e| | | | |i r| |] Ha; try discriminate; try reflexivity.
Defined.

Definition sample_single : pool string :=
  default (start 1) (pool_run 1 (take 5 sample_acts ++ [AFinish 0 (Ok ()); ATake]) (start 1)).
Lemma consume_in_order_witness : (pl_handled sample_single).*1 `prefix_of` pl_read sample_single.
Proof.
  apply (consume_in_order 1 (take 5 sample_acts ++ [AFinish 0 (Ok ()); ATake])).
  - reflexivity.
  - vm_compute. reflexivity.
Defined.

(** ** [headerCarrier]: the trace headers of a message *)

Abbreviation headers := (list (string * string)).

Fixpoint headerCarrier_Get (key : string) (hs : headers) : string :=
  match hs with
  | [] => ""
  | (k, v) :: hs => if bool_decide (k = key) then v else headerCarrier_Get key hs
  end.
Fixpoint headerCarrier_Set (key value : string) (hs : headers) : headers :=
  match hs with
  | [] => [(key, value)]
  | (k, v) :: hs =>
      if bool_decide (k = key) then (k, value) :: hs
      else (k, v) :: headerCarrier_Set key value hs
  end.
Definition headerCarrier_Keys (hs : headers) : list string := hs.*1.

(** Trace headers behave as a map: what is set is read back, the other
    headers of the message keep their values and their order, and no header is
    ever present twice. *)
Theorem header_carrier_map key value hs :
  headerCarrier_Get key (headerCarrier_Set key value hs) = value ∧
  (∀ k, k ≠ key → headerCarrier_Get k (headerCarrier_Set key value hs) = headerCarrier_Get k hs) ∧
  headerCarrier_Keys (headerCarrier_Set key value hs) =
    headerCarrier_Keys hs ++ (if decide (key ∈ headerCarrier_Keys hs) then [] else [key]) ∧
  (NoDup (headerCarrier_Keys hs) → NoDup (headerCarrier_Keys (headerCarrier_Set key value hs))).
Proof.
  assert (headerCarrier_Keys (headerCarrier_Set key value hs) =
    headerCarrier_Keys hs ++ (if decide (key ∈ headerCarrier_Keys hs) then [] else [key])) as Hkeys.
  { induction hs as [|[k v] hs IH]; cbn; [by rewrite decide_False by (by intros ?%elem_of_nil)|].
    case_bool_decide as Hk.
    - rewrite decide_True by (subst; by left). by rewrite app_nil_r.
    - cbn. change ((headerCarrier_Set key value hs).*1)
        with (headerCarrier_Keys (headerCarrier_Set key value hs)). rewrite IH. f_equal.
      change (hs.*1) with (headerCarrier_Keys hs).
      destruct (decide (key ∈ headerCarrier_Keys hs)), (decide (key ∈ _ :: _)) as [Hin|Hin];
        try done; exfalso.
      + apply Hin. by right.
      + apply elem_of_cons in Hin as [?|?]; [congruence|done]. }
  split_and!; [| |done|].
  - clear Hkeys. induction hs as [|[k v] hs IH]; cbn; [by rewrite bool_decide_true|].
    case_bool_decide as Hk; cbn; [by rewrite bool_decide_true|].
    rewrite bool_decide_false by done. apply IH.
  - clear Hkeys. intros k Hne. induction hs as [|[k' v] hs IH]; cbn; [by rewrite bool_decide_false by done|].
    case_bool_decide as Hk; cbn.
    + subst. by rewrite !bool_decide_false by done.
    + case_bool_decide; [done|]. apply IH.
  - rewrite Hkeys. intros Hnd. destruct (decide _) as [Hin|Hni]; [by rewrite app_nil_r|].
    apply NoDup_app. split_and!; [done| |apply NoDup_singleton].
    intros k Hk ->%list_elem_of_singleton. done.
Qed.

(** ** [EnsureTopics] *)

Record topicConfig := mkTopicConfig {
  tp_Topic : string;
  tp_NumPartitions : Z;
  tp_ReplicationFactor : Z;
}.

(** The calls of the client library. *)
Inductive kafkaE : Type → Type :=
  | Dial (addr : string) : kafkaE (res unit)
  | Brokers : kafkaE (res (list string))
  | Controller : kafkaE (res (string * Z))
  | CreateTopics (c : topicConfig) : kafkaE (res unit).

Definition TopicAlreadyExists : error := Sentinel "Topic Already Exists".

Fixpoint createLoop (topics : list string) (partitions replicas : Z) : prog kafkaE (res unit) :=
  match topics with
  | [] => Ret (Ok ())
  | topic :: topics =>
      r ← Vis (CreateTopics (mkTopicConfig topic partitions replicas)) Ret;
      match r with
      | Ok _ => createLoop topics partitions replicas
      | Err e =>
          if errors_Is e TopicAlreadyExists then createLoop topics partitions replicas
          else Ret (Err (Wrapped ("failed to create topic " +:+ topic +:+ ": ") e ""))
      end
  end.

(** [brokers] is not empty: it comes from [strings.Split]. *)
Definition EnsureTopics (broker0 : string) (topics : list string) (partitions replicas : Z) :
    prog kafkaE (res unit) :=
  r ← Vis (Dial broker0) Ret;
  match r with
  | Err e => Ret (Err (Wrapped "failed to dial kafka: " e ""))
  | Ok _ =>
      r ← Vis Brokers Ret;
      match r with
      | Err e => Ret (Err (Wrapped "failed to list kafka brokers: " e ""))
      | Ok clusterBrokers =>
          let n := Z.of_nat (length clusterBrokers) in
          if bool_decide (n = 0)
          then Ret (Err (Plain "kafka cluster reported no live brokers, cannot create topics"))
          else
            let replicas := if bool_decide (n < replicas) then n else replicas in
            r ← Vis Controller Ret;
            match r with
            | Err e => Ret (Err (Wrapped "failed to get controller: " e ""))
            | Ok (host, port) =>
                r ← Vis (Dial (host +:+ ":" +:+ pretty port)) Ret;
                match r with
                | Err e => Ret (Err (Wrapped "failed to dial controller: " e ""))
                | Ok _ => createLoop topics partitions replicas
                end
            end
      end
  end.

(** The topic requests of a program and its result, against a cluster. *)
Fixpoint requested {A} (cluster : ∀ B, kafkaE B → B) (p : prog kafkaE A) : list topicConfig * A :=
  match p with
  | Ret a => ([], a)
  | Vis e k =>
      let '(cs, a) := requested cluster (k (cluster _ e)) in
      (match e with CreateTopics c => c :: cs | _ => cs end, a)
  end.

Definition topic_there (r : res unit) : bool :=
  match r with Ok _ => true | Err e => errors_Is e TopicAlreadyExists end.

Lemma createLoop_requested cluster topics partitions replicas :
  let cfg t := mkTopicConfig t partitions replicas in
  let '(cs, r) := requested cluster (createLoop topics partitions replicas) in
  cs `prefix_of` (cfg <$> topics) ∧
  (is_ok r = true ↔ Forall (λ t, topic_there (cluster _ (CreateTopics (cfg t))) = true) topics) ∧
  (is_ok r = true → cs = cfg <$> topics).
Proof.
  intros cfg. induction topics as [|t topics IH]; cbn; [by split_and!|].
  fold (cfg t). destruct (cluster _ (CreateTopics (cfg t))) as [u|e] eqn:Ht; cbn.
  - destruct (requested _ _) as [cs r]. destruct IH as (Hp & Hok & Hall).
    split_and!; [by apply prefix_cons| |intros ?; f_equal; auto].
    rewrite Forall_cons, Hok, Ht. naive_solver.
  - destruct (errors_Is e TopicAlreadyExists) eqn:He.
    + destruct (requested _ _) as [cs r]. destruct IH as (Hp & Hok & Hall).
      split_and!; [by apply prefix_cons| |intros ?; f_equal; auto].
      rewrite Forall_cons, Hok, Ht. cbn. rewrite He. naive_solver.
    + cbn. split_and!; [apply prefix_cons, prefix_nil| |done].
      rewrite Forall_cons, Ht. cbn. rewrite He. naive_solver.
Qed.

(** Start-up stops unless its topics are there: [EnsureTopics] succeeds
    exactly when the cluster can be reached, has a live broker and a
    controller, and creates or already has every topic; each request asks for
    the partitions given and for as many replicas, bounded by the brokers that
    are alive; and after the first topic that fails nothing more is requested. *)
Theorem ensure_topics cluster broker0 topics partitions replicas :
  let '(cs, r) := requested cluster (EnsureTopics broker0 topics partitions replicas) in
  (is_ok r = true ↔ ∃ brokers host port,
     is_ok (cluster _ (Dial broker0)) = true ∧ cluster _ Brokers = Ok brokers ∧ brokers ≠ [] ∧
     cluster _ Controller = Ok (host, port) ∧
     is_ok (cluster _ (Dial (host +:+ ":" +:+ pretty port))) = true ∧
     Forall (λ t, topic_there (cluster _ (CreateTopics (mkTopicConfig t partitions
       (Z.min replicas (Z.of_nat (length brokers)))))) = true) topics) ∧
  (∀ brokers, cluster _ Brokers = Ok brokers →
     cs `prefix_of` ((λ t, mkTopicConfig t partitions
       (Z.min replicas (Z.of_nat (length brokers)))) <$> topics)).
Proof.
  unfold EnsureTopics. cbn.
  destruct (cluster _ (Dial broker0)) as [u|e] eqn:Hd; cbn;
    [|split; [split; [done|by intros (? & ? & ? & ? & _)]|intros; apply prefix_nil]].
  destruct (cluster _ Brokers) as [bs|e] eqn:Hb; cbn;
    [|split; [split; [done|by intros (? & ? & ? & ? & ? & _)]|done]].
  case_bool_decide as Hn; cbn.
  { split; [|intros; apply prefix_nil]. split; [done|]. intros (bs' & h & p & _ & [= <-] & Hne & _).
    destruct bs; [done|]. cbn in Hn. lia. }
  replace (if bool_decide _ then Z.of_nat (length bs) else replicas)
    with (Z.min replicas (Z.of_nat (length bs))) by (case_bool_decide; lia).
  destruct (cluster _ Controller) as [[h p]|e] eqn:Hc; cbn;
    [|split; [split; [done|by intros (? & ? & ? & ? & ? & ? & ? & _)]|intros; apply prefix_nil]].
  destruct (cluster _ (Dial (h +:+ ":" +:+ pretty p))) as [u'|e] eqn:Hd'; cbn.
  2: { split; [|intros; apply prefix_nil]. split; [done|].
       intros (bs' & h' & p' & _ & _ & _ & [= <- <-] & Hd'' & _). by rewrite Hd' in Hd''. }
  pose proof (createLoop_requested cluster topics partitions
    (Z.min replicas (Z.of_nat (length bs)))) as Hloop. cbn in Hloop.
  destruct (requested cluster (createLoop _ _ _)) as [cs r]. destruct Hloop as (Hp & Hok & _).
  split; [|by intros bs' [= <-]]. rewrite Hok. split.
  - intros Hall. exists bs, h, p. rewrite Hd'. split_and!; try done. by intros ->.
  - by intros (bs' & h' & p' & _ & [= <-] & _ & _ & _ & Hall).
Qed.
