(* ===== verification/Dto.v ===== *)
(** * Shared schemas and HTTP plumbing: [pkg/dto] and [pkg/http]

    Roles, event statuses, the payloads of the four Kafka topics the services
    use, the request context, the role middleware and the response helpers. *)
From S2P Require Import Prelude Json.

(** ** [pkg/dto] *)

Definition Role := string.
Definition RoleAdmin : Role := "admin".
Definition RoleEO : Role := "eo".
Definition RoleCustomer : Role := "customer".

Definition EventStatus := string.
Definition EventStatusDraft : EventStatus := "draft".
Definition EventStatusPending : EventStatus := "pending".
Definition EventStatusPublished : EventStatus := "published".
Definition EventStatusRejected : EventStatus := "rejected".
Definition EventStatusCancelled : EventStatus := "cancelled".

(** *** Event payloads

    A payload marshals to a JSON object and unmarshals from one; integers are
    Go's [int]. *)
Class Wire (A : Type) := {
  Marshal : A → res json;
  Unmarshal : json → res A;
  fits : A → Prop;
}.
(** What a producer relies on: the consumer reads what was written. *)
Class WireLaw (A : Type) `{!Wire A} : Prop :=
  unmarshal_marshal a j : fits a → Marshal a = Ok j → Unmarshal j = Ok a.

(** The fields of an object, up to the first that does not marshal. *)
Fixpoint object (fs : list (string * res json)) : res (list (string * json)) :=
  match fs with
  | [] => Ok []
  | (k, r) :: fs => v ←! r; o ←! object fs; Ok ((k, v) :: o)
  end.
Definition marshal_object (fs : list (string * res json)) : res json :=
  o ←! object fs; Ok (JObj o).

Record EventCreated := mkEventCreated {
  er_EventID : string;
  er_Status : string;
  er_At : Z;
}.
#[export] Instance Wire_EventCreated : Wire EventCreated := {
  Marshal e := marshal_object [
    ("event_id", Ok (str_json (er_EventID e))); ("status", Ok (str_json (er_Status e)));
    ("at", time_json (er_At e))];
  Unmarshal := dec_struct (λ o,
    x0 ←! string_field "event_id" o; x1 ←! string_field "status" o; x2 ←! time_field "at" o;
    Ok (mkEventCreated x0 x1 x2));
  fits e := True;
}.

Record TicketTypeInfo := mkTicketTypeInfo {
  tti_TicketTypeID : string;
  tti_Name : string;
  tti_Quantity : Z;
  tti_PriceRupiah : Z;
}.
#[export] Instance Wire_TicketTypeInfo : Wire TicketTypeInfo := {
  Marshal e := marshal_object [
    ("ticket_type_id", Ok (str_json (tti_TicketTypeID e)));
    ("name", Ok (str_json (tti_Name e))); ("quantity", Ok (JNum (tti_Quantity e)));
    ("price_rupiah", Ok (JNum (tti_PriceRupiah e)))];
  Unmarshal := dec_struct (λ o,
    x0 ←! string_field "ticket_type_id" o; x1 ←! string_field "name" o;
    x2 ←! int_field "quantity" o; x3 ←! int_field "price_rupiah" o;
    Ok (mkTicketTypeInfo x0 x1 x2 x3));
  fits e := in_int64 (tti_Quantity e) ∧ in_int64 (tti_PriceRupiah e);
}.

Fixpoint marshal_elems {A} `{!Wire A} (l : list A) : res (list json) :=
  match l with
  | [] => Ok []
  | a :: l => j ←! Marshal a; js ←! marshal_elems l; Ok (j :: js)
  end.
Definition marshal_slice {A} `{!Wire A} (l : list A) : res json :=
  js ←! marshal_elems l; Ok (JArr js).

Record EventApproved := mkEventApproved {
  ea_EventID : string;
  ea_TicketTypes : list TicketTypeInfo;
  ea_At : Z;
}.
#[export] Instance Wire_EventApproved : Wire EventApproved := {
  Marshal e := marshal_object [
    ("event_id", Ok (str_json (ea_EventID e)));
    ("ticket_types", marshal_slice (ea_TicketTypes e)); ("at", time_json (ea_At e))];
  Unmarshal := dec_struct (λ o,
    x0 ←! string_field "event_id" o; x1 ←! slice_field "ticket_types" Unmarshal o;
    x2 ←! time_field "at" o;
    Ok (mkEventApproved x0 x1 x2));
  fits e := Forall fits (ea_TicketTypes e);
}.

Record EventRejected := mkEventRejected {
  ej_EventID : string;
  ej_Reason : string;
  ej_At : Z;
}.
#[export] Instance Wire_EventRejected : Wire EventRejected := {
  Marshal e := marshal_object [
    ("event_id", Ok (str_json (ej_EventID e))); ("reason", Ok (str_json (ej_Reason e)));
    ("at", time_json (ej_At e))];
  Unmarshal := dec_struct (λ o,
    x0 ←! string_field "event_id" o; x1 ←! string_field "reason" o; x2 ←! time_field "at" o;
    Ok (mkEventRejected x0 x1 x2));
  fits e := True;
}.

Record EventUpdated := mkEventUpdated { eu_EventID : string; eu_At : Z }.
#[export] Instance Wire_EventUpdated : Wire EventUpdated := {
  Marshal e := marshal_object [
    ("event_id", Ok (str_json (eu_EventID e))); ("at", time_json (eu_At e))];
  Unmarshal := dec_struct (λ o,
    x0 ←! string_field "event_id" o; x1 ←! time_field "at" o;
    Ok (mkEventUpdated x0 x1));
  fits e := True;
}.

Record EventCancelled := mkEventCancelled { ec_EventID : string; ec_At : Z }.
#[export] Instance Wire_EventCancelled : Wire EventCancelled := {
  Marshal e := marshal_object [
    ("event_id", Ok (str_json (ec_EventID e))); ("at", time_json (ec_At e))];
  Unmarshal := dec_struct (λ o,
    x0 ←! string_field "event_id" o; x1 ←! time_field "at" o;
    Ok (mkEventCancelled x0 x1));
  fits e := True;
}.

Record PaymentInitiated := mkPaymentInitiated {
  pi_TransactionID : string;
  pi_BookingID : string;
  pi_EventID : string;
  pi_UserID : string;
  pi_AmountRupiah : Z;
  pi_At : Z;
}.
#[export] Instance Wire_PaymentInitiated : Wire PaymentInitiated := {
  Marshal e := marshal_object [
    ("transaction_id", Ok (str_json (pi_TransactionID e)));
    ("booking_id", Ok (str_json (pi_BookingID e)));
    ("event_id", Ok (str_json (pi_EventID e))); ("user_id", Ok (str_json (pi_UserID e)));
    ("amount_rupiah", Ok (JNum (pi_AmountRupiah e))); ("at", time_json (pi_At e))];
  Unmarshal := dec_struct (λ o,
    x0 ←! string_field "transaction_id" o; x1 ←! string_field "booking_id" o;
    x2 ←! string_field "event_id" o; x3 ←! string_field "user_id" o;
    x4 ←! int_field "amount_rupiah" o; x5 ←! time_field "at" o;
    Ok (mkPaymentInitiated x0 x1 x2 x3 x4 x5));
  fits e := in_int64 (pi_AmountRupiah e);
}.

Record PaymentCompleted := mkPaymentCompleted {
  pc_TransactionID : string;
  pc_BookingID : string;
  pc_EventID : string;
  pc_UserID : string;
  pc_At : Z;
}.
#[export] Instance Wire_PaymentCompleted : Wire PaymentCompleted := {
  Marshal e := marshal_object [
    ("transaction_id", Ok (str_json (pc_TransactionID e)));
    ("booking_id", Ok (str_json (pc_BookingID e)));
    ("event_id", Ok (str_json (pc_EventID e))); ("user_id", Ok (str_json (pc_UserID e)));
    ("at", time_json (pc_At e))];
  Unmarshal := dec_struct (λ o,
    x0 ←! string_field "transaction_id" o; x1 ←! string_field "booking_id" o;
    x2 ←! string_field "event_id" o; x3 ←! string_field "user_id" o; x4 ←! time_field "at" o;
    Ok (mkPaymentCompleted x0 x1 x2 x3 x4));
  fits e := True;
}.

Record PaymentExpired := mkPaymentExpired {
  pe_TransactionID : string;
  pe_BookingID : string;
  pe_EventID : string;
  pe_UserID : string;
  pe_Reason : string;
  pe_At : Z;
}.
#[export] Instance Wire_PaymentExpired : Wire PaymentExpired := {
  Marshal e := marshal_object [
    ("transaction_id", Ok (str_json (pe_TransactionID e)));
    ("booking_id", Ok (str_json (pe_BookingID e)));
    ("event_id", Ok (str_json (pe_EventID e))); ("user_id", Ok (str_json (pe_UserID e)));
    ("reason", Ok (str_json (pe_Reason e))); ("at", time_json (pe_At e))];
  Unmarshal := dec_struct (λ o,
    x0 ←! string_field "transaction_id" o; x1 ←! string_field "booking_id" o;
    x2 ←! string_field "event_id" o; x3 ←! string_field "user_id" o;
    x4 ←! string_field "reason" o; x5 ←! time_field "at" o;
    Ok (mkPaymentExpired x0 x1 x2 x3 x4 x5));
  fits e := True;
}.

Record TicketIssued := mkTicketIssued {
  ti_TicketID : string;
  ti_BookingID : string;
  ti_UserID : string;
  ti_EventID : string;
  ti_TicketTypeID : string;
}.
#[export] Instance Wire_TicketIssued : Wire TicketIssued := {
  Marshal e := marshal_object [
    ("ticket_id", Ok (str_json (ti_TicketID e)));
    ("booking_id", Ok (str_json (ti_BookingID e))); ("user_id", Ok (str_json (ti_UserID e)));
    ("event_id", Ok (str_json (ti_EventID e)));
    ("ticket_type_id", Ok (str_json (ti_TicketTypeID e)))];
  Unmarshal := dec_struct (λ o,
    x0 ←! string_field "ticket_id" o; x1 ←! string_field "booking_id" o;
    x2 ←! string_field "user_id" o; x3 ←! string_field "event_id" o;
    x4 ←! string_field "ticket_type_id" o;
    Ok (mkTicketIssued x0 x1 x2 x3 x4));
  fits e := True;
}.

Record OrganizerCreated := mkOrganizerCreated {
  oc_UserID : string;
  oc_Name : string;
  oc_Description : string;
  oc_ProfileLink : string;
  oc_ContactEmail : string;
  oc_At : Z;
}.
#[export] Instance Wire_OrganizerCreated : Wire OrganizerCreated := {
  Marshal e := marshal_object [
    ("user_id", Ok (str_json (oc_UserID e))); ("name", Ok (str_json (oc_Name e)));
    ("description", Ok (str_json (oc_Description e)));
    ("profile_link", Ok (str_json (oc_ProfileLink e)));
    ("contact_email", Ok (str_json (oc_ContactEmail e))); ("at", time_json (oc_At e))];
  Unmarshal := dec_struct (λ o,
    x0 ←! string_field "user_id" o; x1 ←! string_field "name" o;
    x2 ←! string_field "description" o; x3 ←! string_field "profile_link" o;
    x4 ←! string_field "contact_email" o; x5 ←! time_field "at" o;
    Ok (mkOrganizerCreated x0 x1 x2 x3 x4 x5));
  fits e := True;
}.

(** The payload of an outbox row or of a message: what was marshalled into it,
    one of the four events the services publish. *)
Inductive payload :=
  | PEventCancelled (m : EventCancelled)
  | PPaymentCompleted (m : PaymentCompleted)
  | PPaymentExpired (m : PaymentExpired)
  | PTicketIssued (m : TicketIssued).

Definition Marshal_payload (p : payload) : res json :=
  match p with
  | PEventCancelled m => Marshal m
  | PPaymentCompleted m => Marshal m
  | PPaymentExpired m => Marshal m
  | PTicketIssued m => Marshal m
  end.

(** [json.Unmarshal(msg.Value, &event)]: the bytes of a message tell nothing of
    the type they were marshalled from. *)
Definition Unmarshal_payload {A} `{!Wire A} (p : payload) : res A :=
  j ←! Marshal_payload p; Unmarshal j.

#[export] Instance EventCancelled_eq_dec : EqDecision EventCancelled.
Proof. solve_decision. Defined.
#[export] Instance PaymentCompleted_eq_dec : EqDecision PaymentCompleted.
Proof. solve_decision. Defined.
#[export] Instance PaymentExpired_eq_dec : EqDecision PaymentExpired.
Proof. solve_decision. Defined.
#[export] Instance TicketIssued_eq_dec : EqDecision TicketIssued.
Proof. solve_decision. Defined.
#[export] Instance payload_eq_dec : EqDecision payload.
Proof. solve_decision. Defined.

(** *** Reading back *)

Lemma object_cons k (r : res json) fs o :
  object ((k, r) :: fs) = Ok o → ∃ v o', r = Ok v ∧ object fs = Ok o' ∧ o = (k, v) :: o'.
Proof.
  cbn. destruct r as [v|]; [|done]. destruct (object fs) as [o'|]; [|done].
  intros [= <-]. eauto.
Qed.

(** Opens a marshalled object into its fields. *)
Ltac open_object :=
  unfold marshal_object;
  match goal with |- match object ?fs with _ => _ end = Ok _ → _ =>
    destruct (object fs) as [?o|] eqn:?Ho; [intros <-%Ok_inj|done] end;
  repeat match goal with
    | H : object (_ :: _) = Ok _ |- _ =>
        apply object_cons in H as (? & ? & ? & H & ->)
    | H : object [] = Ok _ |- _ => injection H as <-
    | H : Ok _ = Ok _ |- _ => apply Ok_inj in H
    end.

Lemma dec_int_num old z : in_int64 z → dec_int old (JNum z) = Ok z.
Proof. intros. unfold dec_int. by rewrite bool_decide_true. Qed.

Lemma dec_marshal_slice `{!Wire A, !WireLaw A} (old l : list A) j :
  Forall fits l → marshal_slice l = Ok j → dec_slice Unmarshal old j = Ok l.
Proof.
  intros Hfit. unfold marshal_slice. destruct (marshal_elems l) as [js|] eqn:Hjs; [|done].
  intros <-%Ok_inj. cbn [dec_slice]. revert js Hjs.
  induction Hfit as [|a l Ha Hl IH]; intros js; [by intros <-%Ok_inj|].
  cbn [marshal_elems]. destruct (Marshal a) as [x|] eqn:Hx; [|done].
  destruct (marshal_elems l) as [xs|]; [|done]. intros <-%Ok_inj.
  cbn [dec_elems]. by rewrite (unmarshal_marshal a x Ha Hx), (IH xs).
Qed.

(** Reads each field of an object back. *)
Ltac read_object :=
  cbn [dec_struct]; unfold string_field, time_field, int_field, slice_field;
  repeat match goal with |- context [values_of ?k ?o] =>
    let vs := eval vm_compute in (values_of k o) in change (values_of k o) with vs end;
  cbn [dec_all]; subst;
  repeat first
    [ rewrite dec_str_json
    | erewrite dec_time_json by eassumption
    | rewrite dec_int_num by tauto
    | erewrite dec_marshal_slice by first [eassumption|tauto] ].
Tactic Notation "wire_law" reference(w) :=
  intros [] j; cbn [Marshal Unmarshal fits w]; intros Hfit; open_object;
  read_object; reflexivity.

#[export] Instance WireLaw_EventCreated : WireLaw EventCreated.
Proof. wire_law Wire_EventCreated. Qed.
#[export] Instance WireLaw_TicketTypeInfo : WireLaw TicketTypeInfo.
Proof. wire_law Wire_TicketTypeInfo. Qed.
#[export] Instance WireLaw_EventApproved : WireLaw EventApproved.
Proof. wire_law Wire_EventApproved. Qed.
#[export] Instance WireLaw_EventRejected : WireLaw EventRejected.
Proof. wire_law Wire_EventRejected. Qed.
#[export] Instance WireLaw_EventUpdated : WireLaw EventUpdated.
Proof. wire_law Wire_EventUpdated. Qed.
#[export] Instance WireLaw_EventCancelled : WireLaw EventCancelled.
Proof. wire_law Wire_EventCancelled. Qed.
#[export] Instance WireLaw_PaymentInitiated : WireLaw PaymentInitiated.
Proof. wire_law Wire_PaymentInitiated. Qed.
#[export] Instance WireLaw_PaymentCompleted : WireLaw PaymentCompleted.
Proof. wire_law Wire_PaymentCompleted. Qed.
#[export] Instance WireLaw_PaymentExpired : WireLaw PaymentExpired.
Proof. wire_law Wire_PaymentExpired. Qed.
#[export] Instance WireLaw_TicketIssued : WireLaw TicketIssued.
Proof. wire_law Wire_TicketIssued. Qed.
#[export] Instance WireLaw_OrganizerCreated : WireLaw OrganizerCreated.
Proof. wire_law Wire_OrganizerCreated. Qed.

(** ** [pkg/http] *)

(** The values a [context.Context] carries: the three user keys, and the trace
    parent the text-map propagator would inject (empty when tracing is off). *)
Record context := mkContext {
  ctx_user_id : option string;
  ctx_user_role : option Role;
  ctx_user_email : option string;
  ctx_traceparent : string;
}.

Definition background : context := mkContext None None None "".

(** The parts of a request the handlers read.  A missing header, path
    parameter or query value is the empty string, as in Go; the body is its
    JSON value, [None] when it is not JSON. *)
Record request := mkRequest {
  r_ctx : context;
  r_header : string → string;
  r_param : string → string;
  r_query : string → string;
  r_body : option json;
}.

Definition with_ctx (r : request) (c : context) : request :=
  mkRequest c (r_header r) (r_param r) (r_query r) (r_body r).

Definition nonempty (s : string) (old : option string) : option string :=
  if bool_decide (s = "") then old else Some s.

(** [WithUserContext]: the headers the gateway sets override the context. *)
Definition WithUserContext {A} (next : request → A) (r : request) : A :=
  let c := r_ctx r in
  next (with_ctx r (mkContext
    (nonempty (r_header r "X-Authenticated-User-ID") (ctx_user_id c))
    (nonempty (r_header r "X-Authenticated-User-Role") (ctx_user_role c))
    (nonempty (r_header r "X-Authenticated-User-Email") (ctx_user_email c))
    (ctx_traceparent c))).

Definition UserIDFromContext (c : context) : string := default "" (ctx_user_id c).
Definition UserRoleFromContext (c : context) : Role := default "" (ctx_user_role c).
Definition UserEmailFromContext (c : context) : string := default "" (ctx_user_email c).

(** The JSON envelope [Response]: data or an error message, with the status. *)
Inductive response (A : Type) :=
  | RData (status : Z) (data : A)
  | RError (status : Z) (message : string).
Arguments RData {A} status data.
Arguments RError {A} status message.

Definition response_status {A} (r : response A) : Z :=
  match r with RData s _ | RError s _ => s end.

Definition OK {A} (data : A) : response A := RData 200 data.
Definition Created {A} (data : A) : response A := RData 201 data.
Definition Error {A} (status : Z) (message : string) : response A := RError status message.
Definition BadRequest {A} (message : string) : response A := Error 400 message.
Definition Unauthorized {A} (message : string) : response A := Error 401 message.
Definition Forbidden {A} (message : string) : response A := Error 403 message.
Definition NotFound {A} (message : string) : response A := Error 404 message.
Definition InternalServerError {A} (message : string) : response A := Error 500 message.

(** [RequireRole]: the handler runs only for one of the listed roles. *)
Definition RequireRole {A B} (ret : response B → A) (roles : list Role)
    (next : request → A) (r : request) : A :=
  if existsb (λ allowed, bool_decide (UserRoleFromContext (r_ctx r) = allowed)) roles
  then next r
  else ret (Forbidden "insufficient permissions").

Lemma default_nonempty x : default "" (nonempty x None) = x.
Proof. unfold nonempty. by case_bool_decide. Qed.

(** Only one of the listed roles gets past [RequireRole]; a request from the
    network has no user values in its context yet. *)
Lemma RequireRole_denied {A B} (ret : response B → A) role next r :
  r_ctx r = background → r_header r "X-Authenticated-User-Role" ≠ role →
  WithUserContext (RequireRole ret [role] next) r = ret (Forbidden "insufficient permissions").
Proof.
  intros Hctx Hrole. unfold WithUserContext, RequireRole, UserRoleFromContext. cbn.
  rewrite Hctx. cbn. rewrite default_nonempty, bool_decide_eq_false_2 by done. done.
Qed.
