(* ===== verification/Outbox.v ===== *)
(** * The transactional outbox: [pkg/outbox], and the broker it publishes to

    Both services keep an [outbox] table; [HasOutbox] is the access the store
    and the worker need to it.  The worker's world is the service's database
    and the broker's log. *)
From S2P Require Import Prelude Effects TimeText Json Dto.

(** ** The table *)

Record outboxRow := mkOutboxRow {
  ob_ID : Z;
  ob_Topic : string;
  ob_Key : string;
  ob_Payload : payload;
  ob_TraceContext : option string;
  ob_delivered : bool;
  ob_created_at : Z;
}.

(** [outbox_seq] is the last value of the [BIGSERIAL] sequence; rows are kept
    in insertion order. *)
Record outboxTable := mkOutbox { outbox_seq : Z; outbox_rows : list outboxRow }.

Class HasOutbox (D : Type) := {
  get_outbox : D → outboxTable;
  set_outbox : outboxTable → D → D;
  get_set_outbox t d : get_outbox (set_outbox t d) = t;
  set_set_outbox t t' d : set_outbox t (set_outbox t' d) = set_outbox t d;
  set_get_outbox d : set_outbox (get_outbox d) d = d;
}.
#[export] Hint Rewrite @get_set_outbox @set_set_outbox @set_get_outbox : ticket_rw.

(** ** [Store] *)

Section store.
Context {D : Type} `{!HasOutbox D} {X : Type → Type}.

(** [INSERT INTO outbox (topic, key, payload, trace_context) VALUES ...]; the
    column holds the JSON of the payload. *)
Definition insert_outbox (topic key : string) (p : payload) (tc : option string) :
    stmt D unit := λ t d,
  let ob := get_outbox d in
  let id := outbox_seq ob + 1 in
  (set_outbox (mkOutbox id (outbox_rows ob ++ [mkOutboxRow id topic key p tc false t])) d,
   Ok ()).

(** [Store.Insert]: nothing is written when the payload does not marshal. *)
Definition outbox_Insert (ctx : context) (topic key : string) (p : payload) :
    prog (eff D X) (res unit) :=
  let traceContext :=
    if bool_decide (ctx_traceparent ctx = "") then None else Some (ctx_traceparent ctx) in
  match Marshal_payload p with
  | Err e => Ret (Err e)
  | Ok _ => sql (insert_outbox topic key p traceContext)
  end.

(** A property of [Insert] holds of both its outcomes. *)
Lemma outbox_Insert_cases (P : prog (eff D X) (res unit) → Prop) ctx topic key p :
  (∀ e, P (Ret (Err e))) → (∀ tc, P (sql (insert_outbox topic key p tc))) →
  P (outbox_Insert ctx topic key p).
Proof. intros He Hs. unfold outbox_Insert. destruct (Marshal_payload p); auto. Qed.
End store.

(** A clock whose years have four digits, as [MarshalJSON] asks. *)
Definition dated {X} (o : oracle X) : Prop := ∀ n, 0 ≤ year_of (o_now o n) < 10000.

(** When a payload marshals. *)
Definition payload_dated (p : payload) : Prop :=
  match p with
  | PEventCancelled m => 0 ≤ year_of (ec_At m) < 10000
  | PPaymentCompleted m => 0 ≤ year_of (pc_At m) < 10000
  | PPaymentExpired m => 0 ≤ year_of (pe_At m) < 10000
  | PTicketIssued _ => True
  end.

Lemma marshal_dated p : payload_dated p → ∃ j, Marshal_payload p = Ok j.
Proof.
  destruct p as [[]|[]|[]|[]]; cbn; intros Hd; [..|eauto];
    unfold time_json; rewrite bool_decide_true by done; eauto.
Qed.

(** The consumer of a topic, told the type of its events, reads [p] back. *)
Definition decodes (p : payload) : Prop :=
  match p with
  | PEventCancelled m => Unmarshal_payload p = Ok m
  | PPaymentCompleted m => Unmarshal_payload p = Ok m
  | PPaymentExpired m => Unmarshal_payload p = Ok m
  | PTicketIssued m => Unmarshal_payload p = Ok m
  end.

Lemma dated_decodes p : payload_dated p → decodes p.
Proof.
  intros [j Hj]%marshal_dated. destruct p as [m|m|m|m]; cbn [decodes];
    unfold Unmarshal_payload; rewrite Hj; by apply (unmarshal_marshal m j).
Qed.

Lemma undated_refused p : ¬ payload_dated p → Marshal_payload p = Err marshal_error.
Proof.
  destruct p as [[]|[]|[]|[]]; cbn; intros Hd; [..|by destruct (Hd I)];
    unfold time_json; by rewrite bool_decide_false.
Qed.

(** A consumer that reads the payload of its own topic gets the event. *)
Lemma unmarshal_completed e e' : Unmarshal_payload (PPaymentCompleted e) = Ok e' → e' = e.
Proof.
  destruct (decide (payload_dated (PPaymentCompleted e))) as [Hd|Hd].
  - rewrite (dated_decodes _ Hd). by intros <-%Ok_inj.
  - unfold Unmarshal_payload. by rewrite undated_refused.
Qed.

Lemma unmarshal_expired e e' : Unmarshal_payload (PPaymentExpired e) = Ok e' → e' = e.
Proof.
  destruct (decide (payload_dated (PPaymentExpired e))) as [Hd|Hd].
  - rewrite (dated_decodes _ Hd). by intros <-%Ok_inj.
  - unfold Unmarshal_payload. by rewrite undated_refused.
Qed.

(** C29. Events cross the broker unchanged: an event whose time has a
    four-digit year is marshalled into the outbox and unmarshalled by the
    consumer of its topic to the same ids, reason and instant, to the
    nanosecond; any other is refused when it is inserted, so that no message
    in the log is unreadable. *)
Theorem messages_roundtrip {D X} `{!HasOutbox D} ctx topic key p :
  (payload_dated p → decodes p) ∧
  (¬ payload_dated p →
     outbox_Insert (D := D) (X := X) ctx topic key p = Ret (Err marshal_error)).
Proof.
  split; [apply dated_decodes|]. intros Hd. unfold outbox_Insert. by rewrite undated_refused.
Qed.

Lemma runs_Insert {D X} `{!HasOutbox D} (o : oracle X) ctx topic key p n (d : D)
    (Φ : nat → D → res unit → Prop) :
  payload_dated p →
  runs o (sql (insert_outbox topic key p (if bool_decide (ctx_traceparent ctx = "") then None
    else Some (ctx_traceparent ctx)))) n d Φ →
  runs o (outbox_Insert ctx topic key p) n d Φ.
Proof. intros [j Hj]%marshal_dated H. unfold outbox_Insert. by rewrite Hj. Qed.

Ltac insert_cases :=
  match goal with
  | |- ?P (outbox_Insert _ _ _ _) => apply (outbox_Insert_cases P); [done|intros ?tc]
  end.

(** Walks a program and discharges its statements from the hint database. *)
Ltac guards_solve :=
  repeat first
    [ progress intros
    | apply guards_bind
    | insert_cases
    | progress cbn [guards sql time_Now uuid_NewString call]
    | split; [auto with ticket|]
    | done
    | case_match ].

(** The same for the calls of a program. *)
Ltac calls_solve :=
  repeat first
    [ progress intros
    | apply calls_bind
    | insert_cases
    | progress cbn [calls sql time_Now uuid_NewString call]
    | done
    | split; [done|]
    | case_match ].

(** ** The broker *)

Record message := mkMessage { msg_Topic : string; msg_Key : string; msg_Value : payload }.

Abbreviation broker := (list message).

Definition row_message (r : outboxRow) : message :=
  mkMessage (ob_Topic r) (ob_Key r) (ob_Payload r).

(** ** [Worker] *)

Definition Millisecond : Z := 1000000.

(** [NewWorker]: at least one goroutine, and a positive interval. *)
Record Worker := mkWorker { wk_concurrency : Z; wk_pollInterval : Z }.
Definition NewWorker (concurrency pollMs : Z) : Worker :=
  let pollInterval := wrap64 (pollMs * Millisecond) in
  mkWorker (if bool_decide (concurrency < 1) then 1 else concurrency)
    (if bool_decide (pollInterval ≤ 0) then 200 * Millisecond else pollInterval).

Definition noExt : Type → Type := λ _, Empty_set.

Section worker.
Context {D : Type} `{!HasOutbox D}.

(** The worker acts on the database and on the broker; it calls nothing else. *)
Local Abbreviation world := (D * broker)%type.
Local Abbreviation wprog := (prog (eff world noExt)).

Definition on_db {A} (f : stmt D A) : stmt world A := λ t w,
  let '(d', r) := f t w.1 in ((d', w.2), r).

(** [Producer.Produce]: one write of one message, acknowledged or not. *)
Definition produce (m : message) : stmt world unit := λ _ w, ((w.1, w.2 ++ [m]), Ok ()).

(** [SELECT ... WHERE delivered = false ORDER BY id LIMIT 100]. *)
Definition batch_limit : nat := 100.
Definition undelivered (ob : outboxTable) : list outboxRow :=
  filter (λ r, ob_delivered r = false) (outbox_rows ob).
Definition select_batch : stmt D (list outboxRow) := λ _ d,
  (d, Ok (take batch_limit (order_by ob_ID (undelivered (get_outbox d))))).

(** [UPDATE outbox SET delivered = true WHERE id = $1]. *)
Definition deliver (id : Z) (r : outboxRow) : outboxRow :=
  if bool_decide (ob_ID r = id)
  then mkOutboxRow (ob_ID r) (ob_Topic r) (ob_Key r) (ob_Payload r) (ob_TraceContext r)
         true (ob_created_at r)
  else r.
Definition mark_delivered (id : Z) : stmt D unit := λ _ d,
  let ob := get_outbox d in
  (set_outbox (mkOutbox (outbox_seq ob) (deliver id <$> outbox_rows ob)) d, Ok ()).

(** [Worker.publish]; the producer span changes nothing the model has. *)
Definition publish (row : outboxRow) : wprog (res unit) := sql (produce (row_message row)).

(** The body of a worker goroutine for one row it takes from the channel. *)
Definition processRow (row : outboxRow) : wprog unit :=
  r ← publish row;
  match r with
  | Err _ => Ret ()
  | Ok _ => _ ← sql (on_db (mark_delivered (ob_ID row))); Ret ()
  end.

Fixpoint drain (batch : list outboxRow) : wprog unit :=
  match batch with
  | [] => Ret ()
  | row :: batch => _ ← processRow row; drain batch
  end.

(** [Worker.processBatch] with one goroutine; with more, the calls of
    [processRow] interleave. *)
Definition processBatch : wprog unit :=
  r ← sql (on_db select_batch);
  match r with
  | Err _ => Ret ()
  | Ok batch => drain batch
  end.

(** [Worker.Run], cancelled after some ticks. *)
Fixpoint Worker_Run (ticks : nat) : wprog unit :=
  match ticks with
  | O => Ret ()
  | S ticks => _ ← processBatch; Worker_Run ticks
  end.
End worker.

(** Programs of the worker of a service with database [D]. *)
Abbreviation wprog D := (prog (eff (D * broker) noExt)).

(** ** At-least-once delivery *)

Section delivery.
Context {D : Type} `{!HasOutbox D}.
Implicit Types (w : D * broker).

(** Row ids come from the sequence: strictly increasing, none above its last value. *)
Definition outbox_wf (ob : outboxTable) : Prop :=
  StronglySorted Z.lt (ob_ID <$> outbox_rows ob) ∧
  Forall (λ r, ob_ID r ≤ outbox_seq ob) (outbox_rows ob).

(** The row is the one the table has, or had, under its id. *)
Definition row_known (row : outboxRow) (w : D * broker) : Prop :=
  ob_ID row ≤ outbox_seq (get_outbox w.1) ∧
  ∀ r, r ∈ outbox_rows (get_outbox w.1) → ob_ID r = ob_ID row →
    row_message r = row_message row.

(** Every row marked delivered is in the broker's log. *)
Definition delivered_published (w : D * broker) : Prop :=
  ∀ r, r ∈ outbox_rows (get_outbox w.1) → ob_delivered r = true → row_message r ∈ w.2.

Definition outbox_inv (batch : list outboxRow) (w : D * broker) (_ : list unit) : Prop :=
  outbox_wf (get_outbox w.1) ∧ delivered_published w ∧ Forall (λ r, row_known r w) batch.

Lemma deliver_message id r : row_message (deliver id r) = row_message r.
Proof. unfold deliver. by case_bool_decide. Qed.

Lemma deliver_ID id r : ob_ID (deliver id r) = ob_ID r.
Proof. unfold deliver. by case_bool_decide. Qed.

Lemma deliver_eq r : ob_delivered (deliver (ob_ID r) r) = true.
Proof. unfold deliver. by rewrite bool_decide_eq_true_2. Qed.

Lemma deliver_mono id r : ob_delivered r = true → ob_delivered (deliver id r) = true.
Proof. unfold deliver. by case_bool_decide. Qed.

Lemma deliver_inv id r :
  ob_delivered (deliver id r) = true → ob_delivered r = true ∨ ob_ID r = id.
Proof. unfold deliver. case_bool_decide; auto. Qed.

Lemma insert_outbox_wf topic key p tc t (d : D) :
  outbox_wf (get_outbox d) →
  outbox_wf (get_outbox (insert_outbox topic key p tc t d).1).
Proof.
  intros [Hs Hle]. unfold insert_outbox. cbn. rewrite get_set_outbox. split; cbn.
  - rewrite fmap_app. apply StronglySorted_app. cbn. split_and!; [|done|by repeat constructor].
    intros x y Hx ->%list_elem_of_singleton.
    apply list_elem_of_fmap in Hx as (r & -> & Hr).
    rewrite Forall_forall in Hle. specialize (Hle r Hr). lia.
  - apply Forall_app. split; [|by repeat constructor; cbn; lia].
    eapply Forall_impl; [done|]. intros r ?. cbn in *. lia.
Qed.

Lemma mark_delivered_wf id t (d : D) :
  outbox_wf (get_outbox d) → outbox_wf (get_outbox (mark_delivered id t d).1).
Proof.
  intros [Hs Hle]. unfold mark_delivered. cbn. rewrite get_set_outbox. split; cbn.
  - rewrite <- list_fmap_compose. erewrite list_fmap_ext; [exact Hs|].
    intros i r _. apply deliver_ID.
  - apply Forall_fmap. eapply Forall_impl; [done|]. intros r Hr. cbn in *.
    by rewrite deliver_ID.
Qed.

(** What a step of a worker, or an insertion by the service, may do. *)
Definition worker_step (w w' : D * broker) : Prop :=
  w.2 `prefix_of` w'.2 ∧
  outbox_seq (get_outbox w.1) ≤ outbox_seq (get_outbox w'.1) ∧
  ∀ r', r' ∈ outbox_rows (get_outbox w'.1) →
    (∃ r, r ∈ outbox_rows (get_outbox w.1) ∧ ob_ID r = ob_ID r' ∧
       row_message r = row_message r') ∨
    outbox_seq (get_outbox w.1) < ob_ID r'.

#[export] Instance worker_step_refl : Reflexive worker_step.
Proof. intros w. split_and!; [done|done|]. eauto. Qed.

#[export] Instance worker_step_trans : Transitive worker_step.
Proof.
  intros w1 w2 w3 (Hp1 & Hs1 & Hr1) (Hp2 & Hs2 & Hr2). split_and!; [by etrans|lia|].
  intros r3 Hr3. destruct (Hr2 r3 Hr3) as [(r2 & Hin2 & Hid2 & Hm2)|Hlt]; [|right; lia].
  destruct (Hr1 r2 Hin2) as [(r1 & Hin1 & Hid1 & Hm1)|Hlt]; [left|right; lia].
  exists r1. split_and!; [done|congruence|congruence].
Qed.

#[export] Instance outbox_inv_proper batch w : Proper ((≡ₚ) ==> iff) (outbox_inv batch w).
Proof. by intros ???. Qed.

Lemma worker_step_mark id t w : worker_step w (on_db (mark_delivered id) t w).1.
Proof.
  unfold on_db, mark_delivered. cbn. split_and!; cbn; [done|by rewrite get_set_outbox|].
  rewrite get_set_outbox. cbn. intros r' (r & -> & Hr)%list_elem_of_fmap.
  left. exists r. rewrite deliver_ID, deliver_message. auto.
Qed.

Lemma worker_step_produce m t w : worker_step w (produce m t w).1.
Proof. split_and!; cbn; [by apply prefix_app_r|done|eauto]. Qed.

Lemma worker_step_insert topic key p tc t w :
  worker_step w (on_db (insert_outbox topic key p tc) t w).1.
Proof.
  unfold on_db, insert_outbox. cbn. split_and!; cbn; [done|rewrite get_set_outbox; cbn; lia|].
  rewrite get_set_outbox. cbn. intros r' [Hr| ->%list_elem_of_singleton]%elem_of_app.
  - eauto.
  - right. cbn. lia.
Qed.

Lemma row_known_stable row : stable worker_step (row_known row).
Proof.
  intros w w' (_ & Hseq & Hrows) [Hle Hk]. split; [lia|]. intros r' Hr' Hid.
  destruct (Hrows r' Hr') as [(r & Hr & Hid' & <-)|?]; [apply Hk; congruence|lia].
Qed.

Lemma published_stable row :
  stable worker_step (λ w, row_known row w ∧ row_message row ∈ w.2).
Proof.
  intros w w' Hstep [Hk Hin]. split; [by eapply row_known_stable|].
  destruct Hstep as ([ms ->] & _). set_solver.
Qed.

Lemma true_stable : stable worker_step (λ _, True).
Proof. by intros ???. Qed.

Lemma batch_known_stable batch :
  stable worker_step (λ w, Forall (λ r, row_known r w) batch).
Proof.
  intros w w' Hstep Hk. eapply Forall_impl; [done|]. intros r ?. by eapply row_known_stable.
Qed.

Lemma outbox_wf_known w r :
  outbox_wf (get_outbox w.1) → r ∈ outbox_rows (get_outbox w.1) → row_known r w.
Proof.
  intros [Hs Hle] Hr. split; [by eapply Forall_forall in Hle|].
  intros r' Hr' Hid. f_equal. clear Hle. revert Hs Hr Hr'.
  induction (outbox_rows (get_outbox w.1)) as [|r0 l IH]; [set_solver|]. cbn.
  intros [Hs Hlt]%StronglySorted_inv. rewrite Forall_fmap, Forall_forall in Hlt.
  intros [->|Hr]%elem_of_cons [->|Hr']%elem_of_cons; [done| | |by apply IH].
  - specialize (Hlt r' Hr'). cbn in Hlt. lia.
  - specialize (Hlt r Hr). cbn in Hlt. lia.
Qed.

Lemma produce_inv batch m t w L : outbox_inv batch w L → outbox_inv batch (produce m t w).1 L.
Proof.
  intros (Hwf & Hdel & Hb). split_and!; [done| |].
  - intros r Hr Hd. cbn. apply elem_of_app. left. by apply Hdel.
  - eapply batch_known_stable; [apply worker_step_produce|done].
Qed.

Lemma mark_inv batch row t w L :
  outbox_inv batch w L → row_known row w → row_message row ∈ w.2 →
  outbox_inv batch (on_db (mark_delivered (ob_ID row)) t w).1 L.
Proof.
  intros (Hwf & HI & Hb) [_ Hk] Hin. split_and!.
  - unfold on_db. pose proof (mark_delivered_wf (ob_ID row) t w.1 Hwf).
    by destruct (mark_delivered _ t w.1).
  - intros r. unfold on_db, mark_delivered. cbn. rewrite get_set_outbox. cbn.
    intros (r0 & -> & Hr0)%list_elem_of_fmap [Hd|Hid]%deliver_inv;
      rewrite deliver_message; [by apply HI|]. by rewrite (Hk r0 Hr0 Hid).
  - eapply batch_known_stable; [apply worker_step_mark|done].
Qed.

Lemma insert_inv batch topic key p tc t w L :
  outbox_inv batch w L →
  outbox_inv batch (on_db (insert_outbox topic key p tc) t w).1 L.
Proof.
  intros (Hwf & HI & Hb). split_and!.
  - unfold on_db. pose proof (insert_outbox_wf topic key p tc t w.1 Hwf).
    by destruct (insert_outbox _ _ _ _ t w.1).
  - intros r. unfold on_db, insert_outbox. cbn. rewrite get_set_outbox. cbn.
    intros [Hr| ->%list_elem_of_singleton]%elem_of_app; [by apply HI|done].
  - eapply batch_known_stable; [apply worker_step_insert|done].
Qed.

Abbreviation worker_wp batch := (wp (any_env noExt) (outbox_inv batch) worker_step).

Lemma processRow_wp batch row P (Q : unit → list unit → (D * broker → Prop) → Prop) :
  stable worker_step P → (∀ w, P w → row_known row w) →
  (∀ P', stable worker_step P' → (∀ w, P' w → P w) → Q () [] P') →
  worker_wp batch (processRow row) [] P Q.
Proof.
  intros Hst HPk HQ. unfold processRow, publish.
  apply wp_bind, wp_sql; [apply _|done| |by intros e; apply HQ].
  intros w F t HI HP. pose proof (worker_step_produce (row_message row) t w) as Hstep.
  pose proof (produce_inv batch (row_message row) t w ([] ++ F) HI) as HI1.
  assert (stable worker_step (λ w, P w ∧ row_message row ∈ w.2)) as Hst1.
  { intros w1 w2 H12 [H1 H2]. split; [by eapply Hst|].
    destruct H12 as ([ms ->] & _). set_solver. }
  assert (P (produce (row_message row) t w).1) as HP1 by (by eapply Hst).
  split; [done|]. exists [], (λ w, P w ∧ row_message row ∈ w.2).
  split_and!; [done|done|cbn; set_solver|done| |by intros e _; apply HQ; [|intros ? []]].
  apply wp_bind, wp_sql; [apply _|done| |by intros e; apply HQ; [|intros ? []]].
  intros w' F' t' HI' [HP' Hin].
  pose proof (worker_step_mark (ob_ID row) t' w') as Hstep'.
  pose proof (mark_inv batch row t' w' _ HI' (HPk _ HP') Hin) as HI2.
  pose proof (Hst _ _ Hstep' HP') as HP2.
  destruct (on_db _ t' w') as [w1 r1]. split; [done|]. exists [], P.
  split_and!; [done|done|exact HI2|by apply HQ|]. intros e _. by apply HQ.
Qed.

Lemma drain_wp batch rs P (Q : unit → list unit → (D * broker → Prop) → Prop) :
  stable worker_step P → (∀ w r, P w → r ∈ rs → row_known r w) →
  (∀ P', stable worker_step P' → (∀ w, P' w → P w) → Q () [] P') →
  worker_wp batch (drain rs) [] P Q.
Proof.
  revert P. induction rs as [|r rs IH]; intros P Hst HPk HQ; cbn [drain]; [by apply HQ|].
  apply wp_bind, processRow_wp; [done|intros w HP; apply HPk; set_solver|].
  intros P1 Hst1 HP1. apply IH; [done|intros w r' HP'; set_solver|].
  intros P2 Hst2 HP2. apply HQ; [done|]. eauto.
Qed.

Lemma select_batch_elem t (d : D) b r :
  (select_batch t d).2 = Ok b → r ∈ b → r ∈ outbox_rows (get_outbox d).
Proof.
  unfold select_batch. cbn. intros [= <-] Hr%elem_of_take.
  destruct Hr as (i & Hr & _). apply list_elem_of_lookup_2 in Hr.
  apply elem_of_order_by in Hr. unfold undelivered in Hr.
  by apply list_elem_of_filter in Hr as [_ ?].
Qed.

Lemma processBatch_wp batch :
  safe (any_env noExt) (outbox_inv batch) worker_step processBatch [] (λ _, True).
Proof.
  unfold safe, processBatch.
  apply wp_bind, wp_query; [apply _|apply true_stable|by intros t []| |done].
  intros w F t (Hwf & _) _. cbn.
  set (b := take _ _).
  exists (λ w, Forall (λ r, row_known r w) b). split_and!; [apply batch_known_stable| |].
  - apply Forall_forall. intros r Hr. apply outbox_wf_known; [done|].
    by eapply (select_batch_elem t).
  - apply drain_wp; [apply batch_known_stable| |done].
    intros w' r Hb Hr. by eapply Forall_forall in Hb.
Qed.
End delivery.

(** The programs that touch a service's outbox: passes of any number of worker
    instances, the goroutines of a pass over rows of the starting table, and
    insertions by the service. *)
Inductive outbox_entry {D} `{!HasOutbox D} (batch : list outboxRow) : wprog D unit → Prop :=
  | OE_pass : outbox_entry batch processBatch
  | OE_row row : row ∈ batch → outbox_entry batch (processRow row)
  | OE_insert topic key p tc :
      outbox_entry batch (discard (sql (on_db (insert_outbox topic key p tc)))).

Lemma outbox_entry_safe {D} `{!HasOutbox D} batch (p : wprog D unit) :
  outbox_entry batch p →
  safe (any_env noExt) (outbox_inv batch) worker_step p [] (λ _, True).
Proof.
  destruct 1 as [|row Hrow|topic key p tc].
  - apply processBatch_wp.
  - unfold safe. intros w F w' a (Hwf & Hdel & Hb) _ Hout.
    (* the row is known from the invariant at the first effect *)
    assert (row_known row w) as Hk by (by eapply Forall_forall in Hb).
    eapply (processRow_wp batch row (row_known row) (λ _ _ _, True));
      [apply row_known_stable|done|done|split_and!; done|done|done].
  - unfold safe, discard. apply wp_bind, wp_sql; [apply _|apply true_stable| |done].
    intros w F t HI _. pose proof (worker_step_insert topic key p tc t w) as Hstep.
    pose proof (insert_inv batch topic key p tc t w _ HI) as HI1.
    destruct (on_db _ t w) as [w1 r1]. split; [done|].
    exists [], (λ _, True). split_and!; [apply true_stable|done|exact HI1|done|done].
Qed.

(** *** A pass of the worker *)

Section pass.
Context {D : Type} `{!HasOutbox D} (o : oracle noExt) (Hcalm : faultless o).
Implicit Types (d : D).

Lemma undelivered_head rs r l :
  StronglySorted Z.lt (ob_ID <$> rs) →
  filter (λ r, ob_delivered r = false) rs = r :: l →
  filter (λ r, ob_delivered r = false) (deliver (ob_ID r) <$> rs) = l.
Proof.
  induction rs as [|r0 rs IH]; [done|]. cbn [fmap list_fmap].
  intros [Hs Hlt]%StronglySorted_inv. rewrite Forall_fmap, Forall_forall in Hlt.
  rewrite !filter_cons. case_decide as Hd.
  - intros [= -> <-]. rewrite decide_False by (by rewrite deliver_eq).
    f_equal. rewrite <- (list_fmap_id rs) at 2. apply list_fmap_ext.
    intros i r1 Hr1%list_elem_of_lookup_2. specialize (Hlt r1 Hr1). cbn in Hlt.
    unfold deliver. rewrite bool_decide_eq_false_2; [done|lia].
  - intros Hf. rewrite decide_False; [by apply IH|].
    intros Hd'. apply Hd. apply not_true_is_false. intros Ht.
    by rewrite deliver_mono in Hd'.
Qed.

Lemma processRow_run row n d log :
  run o (processRow row) n (d, log) =
  (S (S n), ((mark_delivered (ob_ID row) (o_now o (S n)) d).1, log ++ [row_message row]), ()).
Proof.
  unfold processRow, publish. cbn. rewrite !Hcalm. cbn. by rewrite Hcalm.
Qed.

Lemma drain_run k n d log :
  outbox_wf (get_outbox d) →
  ∃ n' d', run o (drain (take k (undelivered (get_outbox d)))) n (d, log) =
    (n', (d', log ++ (row_message <$> take k (undelivered (get_outbox d)))), ()) ∧
    undelivered (get_outbox d') = drop k (undelivered (get_outbox d)) ∧
    outbox_wf (get_outbox d').
Proof.
  revert n d log. induction k as [|k IH]; intros n d log Hwf.
  { exists n, d. cbn. by rewrite app_nil_r. }
  destruct (undelivered (get_outbox d)) as [|r l] eqn:Hu.
  { exists n, d. cbn. by rewrite app_nil_r. }
  cbn [take drain]. pose proof (processRow_run r n d log) as Hrow.
  set (d1 := (mark_delivered (ob_ID r) (o_now o (S n)) d).1) in *.
  assert (undelivered (get_outbox d1) = l) as Hl.
  { unfold d1, mark_delivered, undelivered. cbn. rewrite get_set_outbox. cbn.
    apply undelivered_head; [apply Hwf|done]. }
  destruct (IH (S (S n)) d1 (log ++ [row_message r])) as (n' & d' & Hrun & Hd').
  { by apply mark_delivered_wf. }
  exists n', d'. rewrite Hl in Hrun, Hd'. split; [|done].
  rewrite run_mbind, Hrow. cbv iota beta. rewrite Hrun. cbn. by rewrite <- (assoc (++)).
Qed.

Lemma order_by_undelivered d :
  outbox_wf (get_outbox d) →
  order_by ob_ID (undelivered (get_outbox d)) = undelivered (get_outbox d).
Proof.
  intros [Hs _].
  assert (StronglySorted (key_le ob_ID) (undelivered (get_outbox d)) ∧
    ∀ x y, x ∈ outbox_rows (get_outbox d) → y ∈ outbox_rows (get_outbox d) →
      ob_ID x = ob_ID y → x = y) as [Hsort Huniq].
  { unfold undelivered. induction (outbox_rows (get_outbox d)) as [|r l IH].
    { split; [constructor|set_solver]. }
    cbn [fmap list_fmap] in Hs. apply StronglySorted_inv in Hs as [Hs Hlt].
    rewrite Forall_fmap, Forall_forall in Hlt. destruct (IH Hs) as [IH1 IH2]. split.
    - rewrite filter_cons. case_decide; [|done]. constructor; [done|].
      apply Forall_forall. intros y [_ Hy]%list_elem_of_filter.
      specialize (Hlt y Hy). unfold key_le. cbn in Hlt. lia.
    - intros x y [->|Hx]%elem_of_cons [->|Hy]%elem_of_cons Heq; [done| | |eauto].
      + specialize (Hlt y Hy). cbn in Hlt. lia.
      + specialize (Hlt x Hx). cbn in Hlt. lia. }
  eapply StronglySorted_unique_strong; [|apply order_by_sorted|done|apply order_by_perm].
  intros x y Hx Hy Hxy Hyx. unfold key_le in *.
  apply elem_of_order_by in Hx. unfold undelivered in Hx, Hy.
  apply list_elem_of_filter in Hx as [_ Hx], Hy as [_ Hy]. apply Huniq; [done|done|lia].
Qed.

Lemma processBatch_run n d log :
  outbox_wf (get_outbox d) →
  ∃ n' d', run o processBatch n (d, log) =
    (n', (d', log ++ (row_message <$> take batch_limit (undelivered (get_outbox d)))), ()) ∧
    undelivered (get_outbox d') = drop batch_limit (undelivered (get_outbox d)) ∧
    outbox_wf (get_outbox d').
Proof.
  intros Hwf. unfold processBatch. cbn -[batch_limit]. rewrite Hcalm.
  cbn -[batch_limit]. rewrite order_by_undelivered by done.
  destruct (drain_run batch_limit (S n) d log Hwf) as (n' & d' & Hrun & Hd').
  exists n', d'. by rewrite Hrun.
Qed.

Lemma processBatch_exec d log :
  outbox_wf (get_outbox d) →
  ∃ d', exec o processBatch (d, log) =
    ((d', log ++ (row_message <$> take batch_limit (undelivered (get_outbox d)))), ()) ∧
    undelivered (get_outbox d') = drop batch_limit (undelivered (get_outbox d)).
Proof.
  intros Hwf. destruct (processBatch_run 0 d log Hwf) as (n' & d' & Hrun & Hd' & _).
  exists d'. unfold exec. by rewrite Hrun.
Qed.

Lemma Run_run ticks n d log :
  outbox_wf (get_outbox d) → (length (undelivered (get_outbox d)) ≤ ticks * batch_limit)%nat →
  ∃ n' d', run o (Worker_Run ticks) n (d, log) =
    (n', (d', log ++ (row_message <$> undelivered (get_outbox d))), ()) ∧
    undelivered (get_outbox d') = [].
Proof.
  revert n d log. induction ticks as [|ticks IH]; intros n d log Hwf Hlen.
  { exists n, d. destruct (undelivered (get_outbox d)); [|cbn in Hlen; lia]. cbn.
    by rewrite app_nil_r. }
  destruct (processBatch_run n d log Hwf) as (n1 & d1 & Hrun & Hd1 & Hwf1).
  destruct (IH n1 d1 (log ++ (row_message <$> take batch_limit (undelivered (get_outbox d)))))
    as (n' & d' & Hrun' & Hd'); [done|rewrite Hd1, length_drop; lia|].
  exists n', d'. split; [|done]. cbn [Worker_Run]. rewrite run_mbind, Hrun. cbv iota beta.
  rewrite Hrun', Hd1, <- (assoc_L (++)), <- fmap_app, take_drop. done.
Qed.
End pass.

(** *** A sample: a database that is an outbox, with two rows to publish *)

#[export] Instance outboxTable_outbox : HasOutbox outboxTable.
Proof. by refine {| get_outbox ob := ob; set_outbox ob _ := ob |}. Defined.

Definition unsent_row (id : Z) (ev : string) : outboxRow :=
  mkOutboxRow id "event.cancelled" ev (PEventCancelled (mkEventCancelled ev 7)) None false 7.
Definition sample_outbox : outboxTable := mkOutbox 2 [unsent_row 1 "ev1"; unsent_row 2 "ev2"].

Definition quiet_oracle : oracle noExt := calm 8 (λ A x, Empty_set_rect (λ _, A) x).

Lemma sample_outbox_wf : outbox_wf (get_outbox sample_outbox).
Proof. split; cbn; repeat constructor; cbn; lia. Qed.

(** C27. At-least-once delivery: however the worker passes of any number of
    instances, their goroutines and the service's insertions interleave, and
    whichever statements and broker writes fail or lose their answers, a row
    the table marks delivered has been written to the broker's log. *)
Theorem outbox_at_least_once {D} `{!HasOutbox D} (d0 d : D) (log0 log : broker) r :
  outbox_wf (get_outbox d0) →
  (∀ r, r ∈ outbox_rows (get_outbox d0) → ob_delivered r = true → row_message r ∈ log0) →
  reachable (any_env noExt) (outbox_entry (outbox_rows (get_outbox d0))) (d0, log0) (d, log) →
  r ∈ outbox_rows (get_outbox d) → ob_delivered r = true → row_message r ∈ log.
Proof.
  intros Hwf Hdel Hreach Hr Hd.
  eapply (reachable_inv (any_env noExt) (outbox_inv (outbox_rows (get_outbox d0))) worker_step)
    in Hreach as (L & _ & Hpub & _);
    [by apply Hpub|apply outbox_entry_safe|].
  split_and!; [done|done|]. apply Forall_forall. intros r' ?. by apply outbox_wf_known.
Qed.

Lemma outbox_at_least_once_witness :
  ∃ d log, reachable (any_env noExt) (outbox_entry (outbox_rows (get_outbox sample_outbox)))
      (sample_outbox, []) (d, log) ∧
    deliver 2 (unsent_row 2 "ev2") ∈ outbox_rows (get_outbox d) ∧
    row_message (unsent_row 2 "ev2") ∈ log.
Proof.
  set (w := (run quiet_oracle processBatch 0 (sample_outbox, [])).1.2).
  assert (reachable (any_env noExt) (outbox_entry (outbox_rows (get_outbox sample_outbox)))
    (sample_outbox, []) w) as Hreach.
  { apply reachable_run; [by split|apply OE_pass|exists []; apply rtc_refl]. }
  assert (deliver 2 (unsent_row 2 "ev2") ∈ outbox_rows (get_outbox w.1)) as Hin.
  { vm_compute. right. left. }
  exists w.1, w.2. split_and!; [done|done|].
  change (row_message (deliver 2 (unsent_row 2 "ev2")) ∈ w.2).
  apply (outbox_at_least_once sample_outbox w.1 [] w.2);
    [apply sample_outbox_wf| |exact Hreach|exact Hin|reflexivity].
  intros r Hr Hd. exfalso. revert Hd.
  apply elem_of_cons in Hr as [->|[->|Hr%elem_of_nil]%elem_of_cons]; [discriminate|discriminate|done].
Defined.

(** C28. Progress of the worker: ticks of one goroutine whose statements and
    writes succeed publish the whole backlog, in the order of the ids and each
    row once, a hundred rows at a time; no row is left undelivered. *)
Theorem outbox_drains {D} `{!HasOutbox D} (o : oracle noExt) ticks (d : D) (log : broker) :
  faultless o → outbox_wf (get_outbox d) →
  (length (undelivered (get_outbox d)) ≤ ticks * batch_limit)%nat →
  ∃ d', exec o (Worker_Run ticks) (d, log) =
    ((d', log ++ (row_message <$> undelivered (get_outbox d))), ()) ∧
    undelivered (get_outbox d') = [].
Proof.
  intros Hcalm Hwf Hlen. destruct (Run_run o Hcalm ticks 0 d log Hwf Hlen) as (n' & d' & Hrun & Hd').
  exists d'. unfold exec. by rewrite Hrun.
Qed.

Lemma outbox_drains_witness :
  ∃ d', exec quiet_oracle (Worker_Run 1) (sample_outbox, []) =
    ((d', [row_message (unsent_row 1 "ev1"); row_message (unsent_row 2 "ev2")]), ()) ∧
    undelivered (get_outbox d') = [].
Proof.
  refine (outbox_drains quiet_oracle 1 sample_outbox [] (λ n, eq_refl) sample_outbox_wf _).
  apply Nat.leb_le. vm_compute. reflexivity.
Defined.
