(* ===== verification/Telemetry.v ===== *)
(** * Observability: traces, metrics and the request log

    What [pkg/telemetry], [pkg/http/requestlog.go] and [pkg/kafka/otel.go]
    promise: a trace continues across the outbox and the broker, the in-flight
    gauge counts the requests being served, and a failing exporter of metrics
    does not take a service down.  The OpenTelemetry SDK is a parameter. *)
From Stdlib Require Import Ascii.
From S2P Require Import Prelude Effects TimeText Json Kafka Dto Outbox.

(** ** Traces across the broker *)

Record spanContext := mkSpanContext { sc_TraceID : string; sc_SpanID : string }.

(** The W3C trace-context propagator: a span context and its header. *)
Class Propagator := {
  traceparent : spanContext → string;
  parse_traceparent : string → option spanContext;
}.
Class PropagatorLaws `{!Propagator} : Prop := {
  traceparent_parsed sc : parse_traceparent (traceparent sc) = Some sc;
  traceparent_ne sc : traceparent sc ≠ "";
  no_traceparent : parse_traceparent "" = None;
}.

(** [tracer.Start]: with a provider, a new span in the parent's trace or in a
    new one; without, the parent's context. *)
Definition start_span (provider : bool) (parent : option spanContext) (fresh : spanContext) :
    option spanContext :=
  if provider
  then Some (mkSpanContext (if parent is Some p then sc_TraceID p else sc_TraceID fresh)
               (sc_SpanID fresh))
  else parent.

Section tracing.
Context `{!Propagator} (provider : bool).

(** [injectContext]; no span, no header. *)
Definition injectContext (span : option spanContext) (hs : headers) : headers :=
  match span with
  | Some sc => headerCarrier_Set "traceparent" (traceparent sc) hs
  | None => hs
  end.

(** The context of [Store.Insert] inside a span. *)
Definition in_span (span : option spanContext) (c : context) : context :=
  mkContext (ctx_user_id c) (ctx_user_role c) (ctx_user_email c)
    (if span is Some sc then traceparent sc else "").

(** [Worker.publish]: the trace of the request restored, the producer span and
    the headers [Produce] sends. *)
Definition publish_headers (row : outboxRow) (fresh : spanContext) : headers :=
  let parent :=
    match ob_TraceContext row with
    | Some tc => if bool_decide (tc = "") then None else parse_traceparent tc
    | None => None
    end in
  injectContext (start_span provider parent fresh) [].

(** [startConsumerSpan]. *)
Definition startConsumerSpan (hs : headers) (fresh : spanContext) : option spanContext :=
  start_span provider (parse_traceparent (headerCarrier_Get "traceparent" hs)) fresh.
End tracing.

(** One trace from the request to the consumer: a message inserted inside
    a span, published later by the worker and handled in another service is
    handled in the trace of that span, whether or not the process between
    exports spans; outside of any span the consumer's span, if there is one, is
    in the trace the worker has started. *)
Theorem trace_continues `{!Propagator, !PropagatorLaws} {D X} `{!HasOutbox D} (o : oracle X)
    provider span c topic key p (d d' : D) f1 f2 :
  exec o (outbox_Insert (in_span span c) topic key p) d = (d', Ok ()) →
  ∃ row, outbox_rows (get_outbox d') = outbox_rows (get_outbox d) ++ [row] ∧
    sc_TraceID <$> startConsumerSpan provider (publish_headers provider row f1) f2 =
    match span with
    | Some sc => Some (sc_TraceID sc)
    | None => if (provider : bool) then Some (sc_TraceID f1) else None
    end.
Proof.
  unfold outbox_Insert. destruct (Marshal_payload p) as [j|e]; [|done]. unfold exec. cbn.
  destruct (o_fault o 0); cbn; [|done|done]. intros [= <-]. rewrite get_set_outbox. cbn.
  eexists. split; [done|]. unfold publish_headers, startConsumerSpan. cbn.
  destruct span as [sc|]; cbn.
  - rewrite !bool_decide_eq_false_2, traceparent_parsed by apply traceparent_ne.
    destruct provider; cbn; by rewrite bool_decide_eq_true_2, traceparent_parsed.
  - rewrite bool_decide_eq_true_2 by done.
    destruct provider; cbn; [by rewrite bool_decide_eq_true_2, traceparent_parsed|].
    by rewrite no_traceparent.
Qed.

(** A propagator that obeys the laws: each character of the trace id marked. *)
Fixpoint mark_chars (tid sid : string) : string :=
  match tid with
  | EmptyString => String "0"%char sid
  | String ch tid => String "1"%char (String ch (mark_chars tid sid))
  end.
Fixpoint read_chars (s : string) : option spanContext :=
  match s with
  | String "0"%char sid => Some (mkSpanContext "" sid)
  | String "1"%char (String ch s) =>
      sc ← read_chars s; Some (mkSpanContext (String ch (sc_TraceID sc)) (sc_SpanID sc))
  | _ => None
  end.
Definition sample_propagator : Propagator := {|
  traceparent sc := mark_chars (sc_TraceID sc) (sc_SpanID sc);
  parse_traceparent := read_chars;
|}.
Lemma sample_propagator_laws : @PropagatorLaws sample_propagator.
Proof.
  split; [|by intros [[] ?]|done]. intros [tid sid]. cbn.
  induction tid as [|ch tid IH]; cbn; [done|]. by rewrite IH.
Qed.

Definition sample_ticket_issued : payload := PTicketIssued (mkTicketIssued "t" "b" "u" "ev" "vip").

Definition traced_insert : prog (eff outboxTable noExt) (res unit) :=
  outbox_Insert (@in_span sample_propagator (Some (mkSpanContext "t1" "s1")) background)
    "ticket.issued" "t" sample_ticket_issued.

Lemma trace_continues_witness : ∃ row,
  outbox_rows (exec quiet_oracle traced_insert sample_outbox).1 =
    outbox_rows sample_outbox ++ [row] ∧
  sc_TraceID <$> @startConsumerSpan sample_propagator true
    (@publish_headers sample_propagator true row (mkSpanContext "t2" "s2")) (mkSpanContext "t3" "s3")
    = Some "t1".
Proof.
  refine (@trace_continues sample_propagator sample_propagator_laws outboxTable noExt _ quiet_oracle
    true (Some (mkSpanContext "t1" "s1")) background "ticket.issued" "t" sample_ticket_issued
    sample_outbox (exec quiet_oracle traced_insert sample_outbox).1
    (mkSpanContext "t2" "s2") (mkSpanContext "t3" "s3") _).
  unfold traced_insert, outbox_Insert.
  destruct (marshal_dated sample_ticket_issued I) as [j ->]. reflexivity.
Defined.

(** ** Metrics and the request log *)

Record HTTPMetrics := mkHTTPMetrics { hm_haveInFl : bool; hm_haveMetric : bool }.

(** [NewHTTPMetrics], told whether the SDK accepts the two instruments. *)
Definition NewHTTPMetrics (requests inFlight : res unit) : HTTPMetrics :=
  mkHTTPMetrics (is_ok inFlight) (is_ok requests).

(** What is recorded: the gauge, the counter's observations and the log lines,
    each with method, route and status. *)
Record recorded := mkRecorded {
  rc_inFlight : Z;
  rc_requests : list (string * string * Z);
  rc_lines : list (string * string * Z);
}.
Definition nothing_recorded : recorded := mkRecorded 0 [] [].

(** A nil [*HTTPMetrics] is [None]. *)
Definition add_inFlight (h : option HTTPMetrics) (n : Z) (st : recorded) : recorded :=
  match h with
  | Some h =>
      if hm_haveInFl h then mkRecorded (rc_inFlight st + n) (rc_requests st) (rc_lines st) else st
  | None => st
  end.
Definition Started (h : option HTTPMetrics) : recorded → recorded := add_inFlight h 1.
Definition Unstarted (h : option HTTPMetrics) : recorded → recorded := add_inFlight h (-1).
Definition Observed (h : option HTTPMetrics) (method route : string) (status : Z) (st : recorded) :
    recorded :=
  match h with
  | Some h =>
      if hm_haveMetric h
      then mkRecorded (rc_inFlight st) (rc_requests st ++ [(method, route, status)]) (rc_lines st)
      else st
  | None => st
  end.

(** A request as the middleware sees it once it is routed. *)
Record served := mkServed { sv_Method : string; sv_Pattern : string; sv_Path : string }.
(** The end of the handler: a status, or a panic that is passed on. *)
Inductive outcome :=
  | Answered (status : Z)
  | Panicked.

(** [strings.HasSuffix]. *)
Definition HasSuffix (s suffix : string) : bool :=
  let n := String.length s in
  let k := String.length suffix in
  bool_decide (k ≤ n)%nat && bool_decide (String.substring (n - k) k s = suffix).

Definition logged_path (r : served) : string :=
  if bool_decide (sv_Pattern r = "") then sv_Path r else sv_Pattern r.

(** [RequestLogger], before and after [next.ServeHTTP]; [Unstarted] is deferred. *)
Definition log_before (h : option HTTPMetrics) : recorded → recorded := Started h.
Definition log_after (h : option HTTPMetrics) (r : served) (out : outcome) (st : recorded) :
    recorded :=
  Unstarted h
    match out with
    | Panicked => st
    | Answered status =>
        let path := logged_path r in
        if HasSuffix path "/health" then st
        else
          let st := Observed h (sv_Method r) path status st in
          mkRecorded (rc_inFlight st) (rc_requests st)
            (rc_lines st ++ [(sv_Method r, path, status)])
    end.

(** The line a request deserves. *)
Definition line_of (x : served * outcome) : option (string * string * Z) :=
  match x.2 with
  | Answered status =>
      if HasSuffix (logged_path x.1) "/health" then None
      else Some (sv_Method x.1, logged_path x.1, status)
  | Panicked => None
  end.

(** Requests come and end in any order: what is recorded, the requests in
    progress and those that have ended. *)
Inductive serving (h : option HTTPMetrics) :
    recorded * list served * list (served * outcome) →
    recorded * list served * list (served * outcome) → Prop :=
  | Serve_start r st active ended : serving h (st, active, ended) (log_before h st, r :: active, ended)
  | Serve_end r out st before after ended :
      serving h (st, before ++ r :: after, ended)
        (log_after h r out st, before ++ after, ended ++ [(r, out)]).

Definition recording_ok (h : option HTTPMetrics)
    (x : recorded * list served * list (served * outcome)) : Prop :=
  let '(st, active, ended) := x in
  rc_inFlight st =
    (if h is Some h then if hm_haveInFl h then Z.of_nat (length active) else 0 else 0) ∧
  rc_lines st = omap line_of ended ∧
  rc_requests st = (if h is Some h then if hm_haveMetric h then rc_lines st else [] else []).

Lemma serving_ok h x x' : serving h x x' → recording_ok h x → recording_ok h x'.
Proof.
  destruct 1 as [r st active ended|r out st bef aft ended]; unfold recording_ok;
    intros (Hg & Hl & Hr).
  - destruct h as [[[] hm]|]; cbn; rewrite ?Hg; split_and!; try done. cbn. lia.
  - rewrite omap_app, <- Hl. unfold log_after, Unstarted, line_of. cbn.
    destruct out as [status|]; [destruct (HasSuffix (logged_path r) "/health")|];
      destruct h as [[[] []]|]; cbn in *; rewrite ?app_nil_r, ?Hg, ?Hr, ?length_app; cbn;
      split_and!; try done; rewrite ?length_app; cbn; lia.
Qed.

(** The gauge is the number of requests being served: however requests
    start and end, by an answer or a panic, it counts those in progress, and is
    zero when there is none; the log has one line per answered request that is
    no health check, with its method, route and status, in the order they end,
    and the counter, when it exists, has exactly the same observations. *)
Theorem requests_recorded h st active ended :
  rtc (serving h) (nothing_recorded, [], []) (st, active, ended) →
  rc_inFlight st =
    (if h is Some h then if hm_haveInFl h then Z.of_nat (length active) else 0 else 0) ∧
  rc_lines st = omap line_of ended ∧
  rc_requests st = (if h is Some h then if hm_haveMetric h then rc_lines st else [] else []).
Proof.
  intros Hsteps. change (recording_ok h (st, active, ended)).
  assert (recording_ok h (nothing_recorded, [], [])) as Hinit.
  { split_and!; [by destruct h as [[[] ?]|]|done|by destruct h as [[? []]|]]. }
  revert Hsteps Hinit. generalize (nothing_recorded, @nil served, @nil (served * outcome)).
  induction 1 as [x|x y z Hstep _ IH]; [done|]. intros Hx. apply IH. by eapply serving_ok.
Qed.

Definition health_check : served := mkServed "GET" "/api/auth/health" "/api/auth/health".
Definition booking_get : served := mkServed "GET" "/api/bookings/{id}" "/api/bookings/b1".
Definition sample_metrics : option HTTPMetrics := Some (NewHTTPMetrics (Ok ()) (Ok ())).
Definition after_two : recorded :=
  log_after sample_metrics health_check (Answered 200)
    (log_after sample_metrics booking_get (Answered 404)
       (log_before sample_metrics (log_before sample_metrics nothing_recorded))).

Lemma requests_recorded_witness :
  rc_inFlight after_two = 0 ∧ rc_requests after_two = rc_lines after_two ∧
  rc_lines after_two = [("GET", "/api/bookings/{id}", 404)].
Proof.
  destruct (requests_recorded sample_metrics after_two []
    [(booking_get, Answered 404); (health_check, Answered 200)]) as (Hg & Hl & Hr).
  - eapply rtc_l; [apply (Serve_start _ health_check)|].
    eapply rtc_l; [apply (Serve_start _ booking_get)|].
    eapply rtc_l; [apply (Serve_end _ booking_get (Answered 404) _ [] [health_check] [])|].
    eapply rtc_l; [apply (Serve_end _ health_check (Answered 200) _ [] [] [_])|].
    apply rtc_refl.
  - exact (conj Hg (conj Hr Hl)).
Defined.

(** ** [Init] and the shutdown it returns *)

Inductive signal := Traces | Metrics.
#[export] Instance signal_eq_dec : EqDecision signal.
Proof. solve_decision. Defined.

Definition tracesEnabled (endpoint : string) : bool := negb (bool_decide (endpoint = "")).

(** The providers it installs (the propagator always is), the providers its
    shutdown flushes, in order, the instruments and the error. *)
Record initResult := mkInitResult {
  in_installed : list signal;
  in_shutdown : list signal;
  in_metrics : option HTTPMetrics;
  in_error : option error;
}.

(** [newMeterProvider]: the provider, nothing when it is disabled, or an error. *)
Definition newMeterProvider (endpoint : string) (exporter : res unit) : res bool :=
  if negb (tracesEnabled endpoint) then Ok false
  else match exporter with Err e => Err e | Ok _ => Ok true end.

(** [Init], told [OTEL_EXPORTER_OTLP_ENDPOINT], whether the SDK can build the
    two exporters, and the instruments. *)
Definition Init (endpoint : string) (traceExporter metricExporter : res unit)
    (instruments : HTTPMetrics) : initResult :=
  if negb (tracesEnabled endpoint) then mkInitResult [] [] None None
  else
    match traceExporter with
    | Err e => mkInitResult [] [] None (Some e)
    | Ok _ =>
        match newMeterProvider endpoint metricExporter with
        | Err _ => mkInitResult [Traces] [Traces] None None
        | Ok meter =>
            mkInitResult (Traces :: if meter then [Metrics] else [])
              ((if meter then [Metrics] else []) ++ [Traces]) (Some instruments) None
        end
    end.

(** The shutdown: every provider is asked, whatever the others answer, and
    the errors are joined ([errors.Join] with the traces' error first). *)
Fixpoint shutdown (providers : list signal) (flush : signal → res unit) :
    list signal * list error :=
  match providers with
  | [] => ([], [])
  | p :: providers =>
      let '(asked, errs) := shutdown providers flush in
      (p :: asked, errs ++ (if flush p is Err e then [e] else []))
  end.

Lemma shutdown_spec ps flush :
  (shutdown ps flush).1 = ps ∧
  ((shutdown ps flush).2 = [] ↔ Forall (λ p, is_ok (flush p) = true) ps).
Proof.
  induction ps as [|p ps [IH1 IH2]]; cbn; [done|].
  destruct (shutdown ps flush) as [asked errs]. cbn in *. subst asked. split; [done|].
  rewrite Forall_cons, <- IH2. destruct (flush p), errs; cbn; intuition congruence.
Qed.

(** Telemetry comes up as far as it can: [Init] fails only when an endpoint
    is set and the exporter of traces cannot be built; the failure of metrics
    leaves traces on and the service without instruments; with an endpoint
    unset nothing is installed; and the shutdown asks every provider that was
    installed to flush, metrics first, each also when the other fails, and
    reports an error exactly when one of them did. *)
Theorem telemetry_init endpoint traceExporter metricExporter instruments flush :
  let r := Init endpoint traceExporter metricExporter instruments in
  (in_error r = None ↔ endpoint = "" ∨ is_ok traceExporter = true) ∧
  in_installed r = (if bool_decide (endpoint = "") || negb (is_ok traceExporter) then []
                    else if is_ok metricExporter then [Traces; Metrics] else [Traces]) ∧
  (in_metrics r = Some instruments ↔ Metrics ∈ in_installed r) ∧
  (shutdown (in_shutdown r) flush).1 = reverse (in_installed r) ∧
  ((shutdown (in_shutdown r) flush).2 = [] ↔
     ∀ p, p ∈ in_installed r → is_ok (flush p) = true).
Proof.
  cbv zeta. set (r := Init _ _ _ _).
  destruct (shutdown_spec (in_shutdown r) flush) as [-> ->].
  assert (in_shutdown r = reverse (in_installed r) ∧
    (in_error r = None ↔ endpoint = "" ∨ is_ok traceExporter = true) ∧
    in_installed r = (if bool_decide (endpoint = "") || negb (is_ok traceExporter) then []
                      else if is_ok metricExporter then [Traces; Metrics] else [Traces]) ∧
    (in_metrics r = Some instruments ↔ Metrics ∈ in_installed r)) as (-> & He & Hi & Hm).
  { subst r. unfold Init, newMeterProvider, tracesEnabled.
    case_bool_decide; cbn; [split_and!; set_solver|].
    destruct traceExporter as [[]|e]; cbn; [|split_and!; set_solver].
    destruct metricExporter as [[]|e]; cbn; split_and!; set_solver. }
  split_and!; [done..|]. rewrite Forall_reverse. apply Forall_forall.
Qed.

(** ** Views

    The boundaries are the decimal literals of the source, in thousandths of a
    second. *)

Inductive aggregation :=
  | AggregationExplicitBucketHistogram (boundaries : list Z) (noMinMax : bool)
  | AggregationDrop.
Record view := mkView { vw_Name : string; vw_Aggregation : aggregation }.

Definition httpDurationBuckets : list Z :=
  [5; 10; 25; 50; 75; 100; 250; 500; 750; 1000; 2500; 5000; 7500; 10000].
Definition dbDurationBuckets : list Z := [1; 5; 10; 50; 100; 500; 1000; 5000; 10000].

Definition bucketedView (name : string) (boundaries : list Z) : view :=
  mkView name (AggregationExplicitBucketHistogram boundaries true).
Definition dropView (name : string) : view := mkView name AggregationDrop.

Definition metricViews : list view :=
  [bucketedView "http.server.request.duration" httpDurationBuckets;
   bucketedView "http.client.request.duration" httpDurationBuckets;
   bucketedView "db.client.operation.duration" dbDurationBuckets;
   dropView "http.server.request.body.size";
   dropView "http.server.response.body.size";
   dropView "http.client.request.body.size"].

(** The bucket a value is counted in: the first boundary that is not below it. *)
Fixpoint bucket_of (boundaries : list Z) (v : Z) : nat :=
  match boundaries with
  | [] => 0
  | b :: bs => if bool_decide (v ≤ b) then 0 else S (bucket_of bs v)
  end.

Definition increasing (l : list Z) : Prop := ∀ i j x y, l !! i = Some x → l !! j = Some y → (i < j)%nat → x < y.

Lemma bucket_of_spec bs v i :
  increasing bs → bucket_of bs v = i ↔
    (∀ b, bs !! i = Some b → v ≤ b) ∧ (i ≤ length bs)%nat ∧
    (∀ j b, (j < i)%nat → bs !! j = Some b → b < v).
Proof.
  revert i. induction bs as [|b bs IH]; intros i Hinc; cbn [bucket_of length].
  { split; [intros <-; split_and!; [done|lia|]; intros; lia|]. intros (_ & Hi & _). lia. }
  assert (increasing bs) as Hinc' by (intros j k x y Hj Hk Hlt; by apply (Hinc (S j) (S k)); [..|lia]).
  case_bool_decide as Hb.
  - split.
    + intros <-. split_and!; [by intros x [= <-]|lia|intros; lia].
    + intros (_ & _ & Hlow). destruct i as [|i]; [done|].
      specialize (Hlow 0%nat b ltac:(lia) eq_refl). lia.
  - destruct i as [|i].
    + split; [done|]. intros (Hhi & _). specialize (Hhi b eq_refl). lia.
    + trans (bucket_of bs v = i); [split; [by intros [= ->]|by intros ->]|].
      rewrite (IH i Hinc'). cbn [lookup list_lookup]. split.
      * intros (Hhi & Hlen & Hlow). split_and!; [done|lia|]. intros [|j] x Hj Hx; [injection Hx as <-; lia|].
        apply (Hlow j); [lia|done].
      * intros (Hhi & Hlen & Hlow). split_and!; [done|lia|]. intros j x Hj Hx. by apply (Hlow (S j)); [lia|].
Qed.

(** Every latency histogram has boundaries the SDK accepts, no instrument has
    two views, and a request that takes longer than ten seconds is told apart
    from one that does not. *)
Theorem metric_views :
  NoDup (vw_Name <$> metricViews) ∧
  ∀ w bs b, w ∈ metricViews → vw_Aggregation w = AggregationExplicitBucketHistogram bs b →
    increasing bs ∧ b = true ∧ ∀ v, bucket_of bs v = length bs ↔ 10000 < v.
Proof.
  split; [apply (bool_decide_unpack (NoDup (vw_Name <$> metricViews))); by vm_compute|].
  assert (∀ bs, Sorted.StronglySorted Z.lt bs → increasing bs) as Hsort.
  { intros bs Hs. induction Hs as [|x bs Hs IH Hx]; [by intros i j x y Hi|].
    intros [|i] [|j] u v Hi Hj Hlt; cbn in Hi, Hj; try lia.
    - injection Hi as <-. rewrite Forall_forall in Hx. apply Hx. by eapply list_elem_of_lookup_2.
    - by apply (IH i j); [..|lia]. }
  assert (∀ bs, Sorted.StronglySorted Z.lt bs → last bs = Some 10000 →
    increasing bs ∧ ∀ v, bucket_of bs v = length bs ↔ 10000 < v) as Hbs.
  { intros bs Hs Hlast. split; [by apply Hsort|]. intros v. rewrite bucket_of_spec by auto.
    rewrite last_lookup in Hlast. split.
    - intros (_ & _ & Hlow). apply (Hlow (pred (length bs))); [|done].
      destruct bs; [done|cbn; lia].
    - intros Hv. split_and!; [by intros b ?%lookup_lt_Some; lia|done|].
      intros j b Hj Hb. destruct (decide (j = pred (length bs))) as [->|Hne]; [congruence|].
      specialize (Hsort bs Hs j (pred (length bs)) b 10000 Hb Hlast ltac:(lia)). lia. }
  assert (Sorted.StronglySorted Z.lt httpDurationBuckets ∧ Sorted.StronglySorted Z.lt dbDurationBuckets)
    as [Hh Hd] by (split; repeat constructor; lia).
  destruct (Hbs _ Hh eq_refl), (Hbs _ Hd eq_refl).
  intros w bs b Hw Hagg. repeat (apply elem_of_cons in Hw as [->|Hw]; [cbn in Hagg; simplify_eq; auto|]).
  by apply elem_of_nil in Hw.
Qed.

(** ** The export interval *)

(** [strconv.Atoi], its error kept. *)
Definition Atoi_res (s : string) : res Z :=
  let signed := match s with
    | String "-"%char s' => option_map Z.opp (digits s')
    | String "+"%char s' => digits s'
    | _ => digits s
    end in
  match signed with
  | Some z => if bool_decide (in_int64 z) then Ok z else Err (Plain "value out of range")
  | None => Err (Plain "invalid syntax")
  end.

Definition defaultExportInterval : Z := 60 * Second.
Definition exportInterval (raw : string) : Z :=
  if bool_decide (raw = "") then defaultExportInterval
  else match Atoi_res raw with
       | Err _ => defaultExportInterval
       | Ok ms =>
           if bool_decide (ms ≤ 0) then defaultExportInterval else wrap64 (ms * Millisecond)
       end.

(** The export interval: an interval of up to 9223372036854 milliseconds
    is used as it is, and any text that is no positive number gives the default;
    a longer one is accepted too and overflows, to an interval that is not
    positive. *)
Theorem export_interval raw :
  exportInterval raw =
    match Atoi_res raw with
    | Ok ms => if bool_decide (ms ≤ 0) then defaultExportInterval
               else if bool_decide (ms ≤ 9223372036854) then ms * Millisecond
               else wrap64 (ms * Millisecond)
    | Err _ => defaultExportInterval
    end ∧
  ((∀ ms, Atoi_res raw = Ok ms → ms ≤ 9223372036854) → 0 < exportInterval raw) ∧
  exportInterval "9223372036855" < 0.
Proof.
  assert (exportInterval raw =
    match Atoi_res raw with
    | Ok ms => if bool_decide (ms ≤ 0) then defaultExportInterval
               else if bool_decide (ms ≤ 9223372036854) then ms * Millisecond
               else wrap64 (ms * Millisecond)
    | Err _ => defaultExportInterval
    end) as Heq.
  { unfold exportInterval. case_bool_decide; [by subst|].
    destruct (Atoi_res raw) as [ms|e]; [|done]. repeat case_bool_decide; try done.
    apply wrap64_id. unfold in_int64, Millisecond. lia. }
  split_and!; [done| |by vm_compute]. intros Hms. rewrite Heq.
  destruct (Atoi_res raw) as [ms|e]; [|by vm_compute]. specialize (Hms ms eq_refl).
  case_bool_decide; [by vm_compute|]. rewrite bool_decide_eq_true_2 by done.
  unfold Millisecond. lia.
Qed.

(** ** The log level *)

Inductive level := LevelDebug | LevelInfo | LevelWarn | LevelError.

(** [log.New]: the service name every line carries, and the level. *)
Record logger := mkLogger { lg_service : string; lg_level : level }.
Definition log_New (serviceName text : string) : logger :=
  mkLogger serviceName
    (if bool_decide (text = "debug") then LevelDebug
     else if bool_decide (text = "warn") then LevelWarn
     else if bool_decide (text = "error") then LevelError
     else LevelInfo).
