(* ===== verification/TicketDB.v ===== *)
(** * The ticketing database and its repositories

    The tables of [migrations/ticketing] with their constraints, one statement
    per SQL text of [service/ticketing/internal/postgres], and the repositories
    [BookingRepo], [EventRepo], [EventStatusRepo], [SeatCounter] and
    [SeatReader] over them.  UUID columns hold their text form. *)
From S2P Require Import Prelude Effects Dto Outbox.

(** ** Domain types ([service/ticketing/internal/domain]) *)

Record Event := mkEvent {
  ev_ID : string;
  ev_OrganizerID : string;
  ev_Title : string;
  ev_Description : string;
  ev_VenueName : string;
  ev_VenueAddress : string;
  ev_VenueCapacity : Z;
  ev_StartAt : Z;
  ev_EndAt : Z;
  ev_Status : EventStatus;
  ev_ReviewedBy : option string;
  ev_ReviewedAt : option Z;
  ev_CreatedAt : Z;
  ev_UpdatedAt : Z;
}.

Record TicketType := mkTicketType {
  tt_ID : string;
  tt_EventID : string;
  tt_Name : string;
  tt_PriceRupiah : Z;
  tt_Quantity : Z;
  tt_Available : Z;
  tt_MaxPerOrder : Z;
}.

Record BookingItem := mkBookingItem {
  bi_ID : string;
  bi_BookingID : string;
  bi_TicketTypeID : string;
  bi_Quantity : Z;
  bi_UnitPriceRupiah : Z;
  bi_TotalPriceRupiah : Z;
}.

Record Booking := mkBooking {
  bk_ID : string;
  bk_UserID : string;
  bk_EventID : string;
  bk_Status : string;
  bk_ExpiresAt : option Z;
  bk_TotalRupiah : Z;
  bk_PaymentID : string;
  bk_RefundStatus : string;
  bk_Items : list BookingItem;
  bk_CreatedAt : Z;
}.

Record Reservation := mkReservation {
  rs_BookingID : string;
  rs_UserID : string;
  rs_EventID : string;
  rs_Items : list BookingItem;
  rs_TotalRupiah : Z;
  rs_Status : string;
  rs_ExpiresAt : Z;
  rs_CreatedAt : Z;
}.

#[export] Instance BookingItem_eq_dec : EqDecision BookingItem.
Proof. solve_decision. Defined.

(** [domain/errors.go]: the sentinels the services return. *)
Definition ErrEventNotFound : error := Sentinel "event not found".
Definition ErrEventNotEditable : error := Sentinel "event is not in an editable state".
Definition ErrEventNotApprovable : error :=
  Sentinel "only pending events can be approved or rejected".
Definition ErrEventNotCancellable : error :=
  Sentinel "only published events can be cancelled".
Definition ErrEventNotCancelled : error :=
  Sentinel "only cancelled events can be reprocessed".
Definition ErrNotEventOwner : error := Sentinel "you do not own this event".
Definition ErrTicketTypesEmpty : error := Sentinel "at least one ticket type is required".
Definition ErrCapacityExceeded : error :=
  Sentinel "total ticket quantity exceeds venue capacity".
Definition ErrNoSeatsAvailable : error := Sentinel "not enough seats available".
Definition ErrReservationNotFound : error := Sentinel "reservation not found or expired".
Definition ErrInvalidQuantity : error := Sentinel "invalid quantity".
Definition ErrPriceMismatch : error :=
  Sentinel "unit_price_rupiah does not match ticket type price".
Definition ErrPaymentUnavailable : error := Sentinel "payment service unavailable".

(** ** Tables *)

Record bookingRow := mkBookingRow {
  br_id : string;
  br_user_id : string;
  br_event_id : string;
  br_status : string;
  br_expires_at : option Z;
  br_created_at : Z;
}.

Record itemRow := mkItemRow {
  ir_id : string;
  ir_booking_id : string;
  ir_ticket_type_id : string;
  ir_quantity : Z;
  ir_total_price_rupiah : Z;
}.

Record TicketDB := mkTicketDB {
  events : gmap string Event;
  ticket_types : gmap string TicketType;
  bookings : gmap string bookingRow;
  booking_items : gmap string itemRow;
  ticket_outbox : outboxTable;
}.

Definition set_events m (d : TicketDB) : TicketDB :=
  mkTicketDB m (ticket_types d) (bookings d) (booking_items d) (ticket_outbox d).
Definition set_ticket_types m (d : TicketDB) : TicketDB :=
  mkTicketDB (events d) m (bookings d) (booking_items d) (ticket_outbox d).
Definition set_bookings m (d : TicketDB) : TicketDB :=
  mkTicketDB (events d) (ticket_types d) m (booking_items d) (ticket_outbox d).
Definition set_booking_items m (d : TicketDB) : TicketDB :=
  mkTicketDB (events d) (ticket_types d) (bookings d) m (ticket_outbox d).

#[export] Instance TicketDB_outbox : HasOutbox TicketDB.
Proof.
  refine {| get_outbox := ticket_outbox;
    set_outbox ob d :=
      mkTicketDB (events d) (ticket_types d) (bookings d) (booking_items d) ob |};
  by intros; try destruct d.
Defined.

(** [CHECK] constraints of the migrations. *)
Definition event_check (e : Event) : bool :=
  bool_decide (ev_Status e ∈ ["draft"; "pending"; "published"; "rejected"; "cancelled"]) &&
  bool_decide (0 ≤ ev_VenueCapacity e).
Definition ticket_type_check (ty : TicketType) : bool :=
  bool_decide (0 ≤ tt_PriceRupiah ty) && bool_decide (0 < tt_Quantity ty) &&
  bool_decide (0 ≤ tt_Available ty ≤ tt_Quantity ty) && bool_decide (0 < tt_MaxPerOrder ty).
Definition booking_check (b : bookingRow) : bool :=
  bool_decide (br_status b ∈ ["confirmed"; "pending"; "expired"; "cancelled"]) &&
  (negb (bool_decide (br_status b = "pending")) || bool_decide (is_Some (br_expires_at b))).
Definition item_check (i : itemRow) : bool :=
  bool_decide (0 < ir_quantity i) && bool_decide (0 ≤ ir_total_price_rupiah i).

(** ** Statements *)

(** [INSERT INTO bookings]. *)
Definition insert_booking (b : bookingRow) (d : TicketDB) : res TicketDB :=
  if negb (booking_check b) then Err check_violation
  else if bool_decide (is_Some (bookings d !! br_id b)) then Err unique_violation
  else if bool_decide (is_Some (events d !! br_event_id b))
  then Ok (set_bookings (<[br_id b := b]> (bookings d)) d)
  else Err foreign_key_violation.

(** [INSERT INTO booking_items]; [ticket_type_id] has no foreign key. *)
Definition insert_item (i : itemRow) (d : TicketDB) : res TicketDB :=
  if negb (bool_decide (in_int4 (ir_quantity i))) then Err numeric_out_of_range
  else if negb (item_check i) then Err check_violation
  else if bool_decide (is_Some (booking_items d !! ir_id i)) then Err unique_violation
  else if bool_decide (is_Some (bookings d !! ir_booking_id i))
  then Ok (set_booking_items (<[ir_id i := i]> (booking_items d)) d)
  else Err foreign_key_violation.

Fixpoint insert_items (its : list itemRow) (d : TicketDB) : res TicketDB :=
  match its with
  | [] => Ok d
  | i :: its => match insert_item i d with Ok d' => insert_items its d' | Err e => Err e end
  end.

(** [UPDATE bookings SET status=$1 WHERE id=$2 AND status=$3], with the number of rows. *)
Definition set_status (s : string) (b : bookingRow) : bookingRow :=
  mkBookingRow (br_id b) (br_user_id b) (br_event_id b) s (br_expires_at b) (br_created_at b).
Definition update_booking_status (id from to : string) (d : TicketDB) : res (TicketDB * Z) :=
  match bookings d !! id with
  | Some b =>
      if bool_decide (br_status b = from) then
        if booking_check (set_status to b)
        then Ok (set_bookings (<[id := set_status to b]> (bookings d)) d, 1)
        else Err check_violation
      else Ok (d, 0)
  | None => Ok (d, 0)
  end.

Definition set_available (n : Z) (ty : TicketType) : TicketType :=
  mkTicketType (tt_ID ty) (tt_EventID ty) (tt_Name ty) (tt_PriceRupiah ty) (tt_Quantity ty)
    n (tt_MaxPerOrder ty).
Definition set_price (n : Z) (ty : TicketType) : TicketType :=
  mkTicketType (tt_ID ty) (tt_EventID ty) (tt_Name ty) n (tt_Quantity ty)
    (tt_Available ty) (tt_MaxPerOrder ty).

(** [UPDATE ticket_types SET ... WHERE id = $n AND cond], with the number of rows. *)
Definition update_ticket_type (id : string) (cond : TicketType → bool)
    (g : TicketType → TicketType) (d : TicketDB) : res (TicketDB * Z) :=
  match ticket_types d !! id with
  | Some ty =>
      if cond ty then
        if ticket_type_check (g ty)
        then Ok (set_ticket_types (<[id := g ty]> (ticket_types d)) d, 1)
        else Err check_violation
      else Ok (d, 0)
  | None => Ok (d, 0)
  end.

(** [SET available_seat = LEAST(quantity, available_seat + $1) WHERE id = $2];
    the sum is computed in 32 bits. *)
Definition release_seats (id : string) (qty : Z) (d : TicketDB) : res (TicketDB * Z) :=
  match ticket_types d !! id with
  | Some ty =>
      if bool_decide (in_int4 qty) && bool_decide (in_int4 (tt_Available ty + qty)) then
        update_ticket_type id (λ _, true)
          (λ ty, set_available (Z.min (tt_Quantity ty) (tt_Available ty + qty)) ty) d
      else Err numeric_out_of_range
  | None => if bool_decide (in_int4 qty) then Ok (d, 0) else Err numeric_out_of_range
  end.

(** ** [BookingRepo] *)

Definition item_row (i : BookingItem) : itemRow :=
  let totalPrice :=
    if bool_decide (bi_TotalPriceRupiah i = 0)
    then (bi_UnitPriceRupiah i * bi_Quantity i)%goint
    else bi_TotalPriceRupiah i in
  mkItemRow (bi_ID i) (bi_BookingID i) (bi_TicketTypeID i) (bi_Quantity i) totalPrice.

Definition booking_row (t : Z) (b : Booking) : bookingRow :=
  mkBookingRow (bk_ID b) (bk_UserID b) (bk_EventID b) (bk_Status b)
    (pg_timestamp <$> bk_ExpiresAt b) t.

(** A row of [booking_items] as the repositories scan it. *)
Definition scan_item (r : itemRow) : BookingItem :=
  mkBookingItem (ir_id r) (ir_booking_id r) (ir_ticket_type_id r) (ir_quantity r)
    (if bool_decide (0 < ir_quantity r)
     then ir_total_price_rupiah r `quot` ir_quantity r else 0)
    (ir_total_price_rupiah r).

Definition scan_booking (r : bookingRow) : Booking :=
  mkBooking (br_id r) (br_user_id r) (br_event_id r) (br_status r) (br_expires_at r)
    0 "" "" [] (br_created_at r).

(** [b.TotalRupiah += ...; b.Items = append(b.Items, item)]. *)
Definition append_item (b : Booking) (r : itemRow) : Booking :=
  let item := scan_item r in
  mkBooking (bk_ID b) (bk_UserID b) (bk_EventID b) (bk_Status b) (bk_ExpiresAt b)
    (bk_TotalRupiah b + bi_TotalPriceRupiah item)%goint (bk_PaymentID b) (bk_RefundStatus b)
    (bk_Items b ++ [item]) (bk_CreatedAt b).

Definition items_of (id : string) (d : TicketDB) : list itemRow :=
  rows (λ i, bool_decide (ir_booking_id i = id)) (booking_items d).

(** The transaction of [Create]. *)
Definition create_booking (b : Booking) : stmt TicketDB unit := transaction (λ t d,
  match insert_booking (booking_row t b) d with
  | Err e => Err e
  | Ok d' => insert_items (item_row <$> bk_Items b) d'
  end).

Section BookingRepo.
Context {X : Type → Type}.
Local Abbreviation M := (prog (eff TicketDB X)).

Definition BookingRepo_Create (b : Booking) : M (res unit) := sql (create_booking b).

(** [loadItems]: the items query the readers share. *)
Definition BookingRepo_loadItems (b : Booking) : M (res Booking) :=
  its ←? sql (query (λ d, Ok (items_of (bk_ID b) d)));
  Ret (Ok (foldl append_item b its)).

Definition BookingRepo_FindByID (id : string) : M (res Booking) :=
  b ←? sql (query (λ d, row_or_error (bookings d !! id)));
  BookingRepo_loadItems (scan_booking b).

Fixpoint load_all (bs : list Booking) : M (res (list Booking)) :=
  match bs with
  | [] => Ret (Ok [])
  | b :: bs =>
      b' ←? BookingRepo_loadItems b;
      bs' ←? load_all bs;
      Ret (Ok (b' :: bs'))
  end.

Definition BookingRepo_ListByUser (userID : string) : M (res (list Booking)) :=
  bs ←? sql (query (λ d, Ok (order_by_desc br_created_at
           (rows (λ b, bool_decide (br_user_id b = userID)) (bookings d)))));
  load_all (scan_booking <$> bs).

Definition BookingRepo_ListByEventID (eventID : string) : M (res (list Booking)) :=
  bs ←? sql (query (λ d, Ok (order_by_desc br_created_at
           (rows (λ b, bool_decide (br_event_id b = eventID)) (bookings d)))));
  load_all (scan_booking <$> bs).

Definition BookingRepo_UpdateStatusIfPending (bookingID status : string) : M (res bool) :=
  n ←? sql (counted (update_booking_status bookingID "pending" status));
  Ret (Ok (bool_decide (n = 1))).

Fixpoint release_items (its : list BookingItem) (d : TicketDB) : res TicketDB :=
  match its with
  | [] => Ok d
  | i :: its =>
      match release_seats (bi_TicketTypeID i) (bi_Quantity i) d with
      | Ok (d', _) => release_items its d'
      | Err e => Err e
      end
  end.

(** The transaction of [TransitionAndReleaseSeats]; [Ok false] is the early
    return on no row, whose deferred rollback has nothing to undo. *)
Definition transition_and_release (b : Booking) (to : string) : stmt TicketDB bool := λ _ d,
  match update_booking_status (bk_ID b) (bk_Status b) to d with
  | Err e => (d, Err e)
  | Ok (d', n) =>
      if bool_decide (n = 0) then (d, Ok false)
      else match release_items (bk_Items b) d' with
           | Ok d'' => (d'', Ok true)
           | Err e => (d, Err e)
           end
  end.

Definition BookingRepo_TransitionAndReleaseSeats (b : Booking) (toStatus : string) :
    M (res bool) :=
  sql (transition_and_release b toStatus).

(** [DELETE FROM bookings WHERE id=$1 AND status='pending']: the foreign key of
    [booking_items] has no [ON DELETE] action, so it refuses a booking that
    still has items. *)
Definition delete_booking (id : string) (d : TicketDB) : res (TicketDB * Z) :=
  match bookings d !! id with
  | Some b =>
      if bool_decide (br_status b = "pending") then
        if bool_decide (items_of id d = [])
        then Ok (set_bookings (delete id (bookings d)) d, 1)
        else Err foreign_key_violation
      else Ok (d, 0)
  | None => Ok (d, 0)
  end.

Definition BookingRepo_Delete (bookingID : string) : M (res unit) :=
  _ ←? sql (counted (delete_booking bookingID)); Ret (Ok ()).

(** ** [EventStatusRepo] *)

Definition EventStatusRepo_IsPublished (eventID : string) : M (res bool) :=
  r ← sql (query (λ d, row_or_error (ev_Status <$> events d !! eventID)));
  match r with
  | Ok status => Ret (Ok (bool_decide (status = "published")))
  | Err e => if errors_Is e NoRows then Ret (Ok false) else Ret (Err e)
  end.

(** ** [SeatCounter] *)

Definition SeatCounter_Init (eventID ticketTypeID : string) (total : Z) : M (res unit) :=
  _ ←? sql (counted (λ d,
         if bool_decide (in_int4 total)
         then update_ticket_type ticketTypeID (λ _, true) (set_available total) d
         else Err numeric_out_of_range));
  Ret (Ok ()).

(** [SET available_seat = available_seat - $1 WHERE id = $2 AND available_seat >= $1]. *)
Definition reserve_seats (id : string) (qty : Z) (d : TicketDB) : res (TicketDB * Z) :=
  if bool_decide (in_int4 qty)
  then update_ticket_type id (λ ty, bool_decide (qty ≤ tt_Available ty))
         (λ ty, set_available (tt_Available ty - qty) ty) d
  else Err numeric_out_of_range.

Definition SeatCounter_Reserve (eventID ticketTypeID : string) (qty : Z) : M (res unit) :=
  n ←? sql (counted (reserve_seats ticketTypeID qty));
  Ret (if bool_decide (n = 0) then Err ErrNoSeatsAvailable else Ok ()).

Definition SeatCounter_Release (eventID ticketTypeID : string) (qty : Z) : M (res unit) :=
  _ ←? sql (counted (release_seats ticketTypeID qty)); Ret (Ok ()).

Definition SeatCounter_Available (eventID ticketTypeID : string) : M (res Z) :=
  r ← sql (query (λ d, row_or_error (tt_Available <$> ticket_types d !! ticketTypeID)));
  match r with
  | Ok available => Ret (Ok available)
  | Err e => if errors_Is e NoRows then Ret (Err ErrReservationNotFound) else Ret (Err e)
  end.

Definition SeatCounter_SetPrice (eventID ticketTypeID : string) (price : Z) : M (res unit) :=
  _ ←? sql (counted (update_ticket_type ticketTypeID (λ _, true) (set_price price)));
  Ret (Ok ()).

Definition SeatCounter_GetPrice (eventID ticketTypeID : string) : M (res Z) :=
  r ← sql (query (λ d, row_or_error (tt_PriceRupiah <$> ticket_types d !! ticketTypeID)));
  match r with
  | Ok price => Ret (Ok price)
  | Err e => if errors_Is e NoRows then Ret (Err ErrReservationNotFound) else Ret (Err e)
  end.

(** ** [SeatReader] *)

Definition SeatReader_Available (eventID ticketTypeID : string) : M Z :=
  r ← sql (query (λ d, row_or_error (tt_Available <$> ticket_types d !! ticketTypeID)));
  match r with
  | Ok available => Ret available
  | Err _ => Ret 0
  end.
End BookingRepo.

(** ** [EventRepo] *)

Definition insert_event (e : Event) : stmt TicketDB unit := λ t d,
  if negb (bool_decide (in_int4 (ev_VenueCapacity e))) then (d, Err numeric_out_of_range)
  else if negb (event_check e) then (d, Err check_violation)
  else if bool_decide (is_Some (events d !! ev_ID e)) then (d, Err unique_violation)
  else
    let row := mkEvent (ev_ID e) (ev_OrganizerID e) (ev_Title e) (ev_Description e)
      (ev_VenueName e) (ev_VenueAddress e) (ev_VenueCapacity e)
      (pg_timestamp (ev_StartAt e)) (pg_timestamp (ev_EndAt e)) (ev_Status e)
      None None t t in
    (set_events (<[ev_ID e := row]> (events d)) d, Ok ()).

(** [UPDATE events SET title, description, start_at, end_at, status,
    reviewed_by, reviewed_at, updated_at WHERE id]: the whole row as the caller
    read it, whatever the table holds now. *)
Definition overwrite_event (e : Event) (now : Z) (row : Event) : Event :=
  mkEvent (ev_ID row) (ev_OrganizerID row) (ev_Title e) (ev_Description e)
    (ev_VenueName row) (ev_VenueAddress row) (ev_VenueCapacity row)
    (pg_timestamp (ev_StartAt e)) (pg_timestamp (ev_EndAt e)) (ev_Status e)
    (ev_ReviewedBy e) (pg_timestamp <$> ev_ReviewedAt e)
    (ev_CreatedAt row) (pg_timestamp now).
Definition update_event (e : Event) (now : Z) : stmt TicketDB unit := λ _ d,
  match events d !! ev_ID e with
  | Some row =>
      let row' := overwrite_event e now row in
      if event_check row' then (set_events (<[ev_ID e := row']> (events d)) d, Ok ())
      else (d, Err check_violation)
  | None => (d, Ok ())
  end.

(** [INSERT INTO ticket_types]; [available_seat] takes its default, 0. *)
Definition insert_ticket_type (ty : TicketType) : stmt TicketDB unit := λ _ d,
  let row := set_available 0 ty in
  if negb (bool_decide (in_int4 (tt_Quantity ty)) && bool_decide (in_int4 (tt_MaxPerOrder ty)))
  then (d, Err numeric_out_of_range)
  else if negb (ticket_type_check row) then (d, Err check_violation)
  else if bool_decide (is_Some (ticket_types d !! tt_ID ty)) then (d, Err unique_violation)
  else if bool_decide (is_Some (events d !! tt_EventID ty))
  then (set_ticket_types (<[tt_ID ty := row]> (ticket_types d)) d, Ok ())
  else (d, Err foreign_key_violation).

(** The columns a list query selects: the review columns are left out. *)
Definition list_event (e : Event) : Event :=
  mkEvent (ev_ID e) (ev_OrganizerID e) (ev_Title e) (ev_Description e)
    (ev_VenueName e) (ev_VenueAddress e) (ev_VenueCapacity e) (ev_StartAt e) (ev_EndAt e)
    (ev_Status e) None None (ev_CreatedAt e) (ev_UpdatedAt e).

(** [LIMIT $1 OFFSET $2]; PostgreSQL refuses negative values. *)
Definition limit_offset {A} (limit offset : Z) (l : list A) : res (list A) :=
  if bool_decide (limit < 0) then Err (PgError "2201W")
  else if bool_decide (offset < 0) then Err (PgError "2201X")
  else Ok (take (Z.to_nat limit) (drop (Z.to_nat offset) l)).

Definition count_events (P : Event → bool) : stmt TicketDB Z :=
  query (λ d, Ok (Z.of_nat (length (rows P (events d))))).
Definition page_events (P : Event → bool) (order : list Event → list Event)
    (limit offset : Z) : stmt TicketDB (list Event) :=
  query (λ d, res_map (fmap list_event)
    (limit_offset limit offset (order (rows P (events d))))).

Section EventRepo.
Context {X : Type → Type}.
Local Abbreviation M := (prog (eff TicketDB X)).

Definition EventRepo_CreateEvent (e : Event) : M (res unit) := sql (insert_event e).

Definition EventRepo_UpdateEvent (e : Event) : M (res unit) :=
  now ← time_Now; sql (update_event e now).

Definition EventRepo_FindEventByID (id : string) : M (res Event) :=
  sql (query (λ d, row_or_error (events d !! id))).

(** A page and the total; the error of the count is not looked at. *)
Definition paged (P : Event → bool) (order : list Event → list Event) (limit offset : Z) :
    M (res (list Event * Z)) :=
  c ← sql (count_events P);
  let total := match c with Ok n => n | Err _ => 0 end in
  es ←? sql (page_events P order limit offset);
  Ret (Ok (es, total)).

Definition EventRepo_ListPublished (limit offset : Z) : M (res (list Event * Z)) :=
  paged (λ e, bool_decide (ev_Status e = "published")) (order_by ev_StartAt) limit offset.

Definition EventRepo_ListByOrganizer (organizerID : string) : M (res (list Event)) :=
  sql (query (A := list Event) (λ d, Ok (list_event <$> order_by_desc ev_CreatedAt
    (rows (λ e, bool_decide (ev_OrganizerID e = organizerID)) (events d))))).

Definition EventRepo_ListPending (limit offset : Z) : M (res (list Event * Z)) :=
  paged (λ e, bool_decide (ev_Status e = "pending")) (order_by ev_CreatedAt) limit offset.

Definition EventRepo_FindAll (status : string) (limit offset : Z) :
    M (res (list Event * Z)) :=
  paged (λ e, bool_decide (status = "") || bool_decide (ev_Status e = status))
    (order_by_desc ev_CreatedAt) limit offset.

(** One statement per ticket type, outside any transaction. *)
Fixpoint EventRepo_CreateTicketTypes (types : list TicketType) : M (res unit) :=
  match types with
  | [] => Ret (Ok ())
  | ty :: types => _ ←? sql (insert_ticket_type ty); EventRepo_CreateTicketTypes types
  end.

(** The query does not select [available_seat]. *)
Definition EventRepo_ListTicketTypesByEvent (eventID : string) : M (res (list TicketType)) :=
  sql (query (A := list TicketType) (λ d, Ok (set_available 0 <$>
    rows (λ ty, bool_decide (tt_EventID ty = eventID)) (ticket_types d)))).
End EventRepo.
