(* ===== verification/Booking.v ===== *)
(** * The booking service of ticketing

    [BookingService] ([service/ticketing/internal/application/booking]), the
    HTTP client it creates payment transactions with
    ([service/ticketing/internal/payment]) and the Kafka consumer that drives
    its transitions ([service/ticketing/internal/kafka]). *)
From S2P Require Import Prelude Effects Json Dto Outbox TicketDB.

(** ** The payment client *)

(** The body, path and key of the one request the client sends.  The deadline
    travels in RFC 3339 form, which has whole seconds. *)
Record initiateRequest := mkInitiateRequest {
  iq_URL : string;
  iq_InternalKey : string;
  iq_BookingID : string;
  iq_EventID : string;
  iq_UserID : string;
  iq_Email : string;
  iq_AmountRupiah : Z;
  iq_ExpiresAt : Z;
}.

(** The only system ticketing calls: an HTTP exchange that yields a status code. *)
Inductive ticketE : Type → Type :=
  | HttpDo (req : initiateRequest) : ticketE (res Z).

Abbreviation tprog := (prog (eff TicketDB ticketE)).

(** [Client]: [cl_url_ok] is whether net/url accepts the endpoint's URL, and
    [cl_Timeout] the bound on one exchange, none when it is not positive. *)
Record Client := mkClient {
  cl_baseURL : string;
  cl_apiKey : string;
  cl_Timeout : Z;
  cl_url_ok : bool;
}.

Definition NewClient (baseURL apiKey : string) (timeoutSec : Z) (url_ok : bool) : Client :=
  mkClient (trim_slash baseURL) apiKey (wrap64 (timeoutSec * Second)) url_ok.

(** The loop [for attempt := 0; attempt < 2; attempt++]. *)
Fixpoint attempt_loop (req : initiateRequest) (attempt fuel : nat) : tprog (res unit) :=
  match fuel with
  | O => Ret (Err ErrPaymentUnavailable)
  | S fuel =>
      resp ← call (HttpDo req);
      match resp with
      | Err err =>
          if bool_decide (attempt = 0%nat) then attempt_loop req (S attempt) fuel
          else Ret (Err (Wrapped "" ErrPaymentUnavailable (": " +:+ error_text err)))
      | Ok code =>
          if bool_decide (200 ≤ code < 300) then Ret (Ok ())
          else if bool_decide (attempt = 0%nat) && bool_decide (500 ≤ code)
          then attempt_loop req (S attempt) fuel
          else Ret (Err (Wrapped "" ErrPaymentUnavailable
                           (": payment returned " +:+ pretty code)))
      end
  end.

Definition Client_InitiateTxnForBooking (c : Client) (bookingID eventID userID email : string)
    (amountRupiah expiresAt : Z) : tprog (res unit) :=
  if negb (cl_url_ok c)
  then Ret (Err (Wrapped "" ErrPaymentUnavailable ": invalid URL"))
  else attempt_loop
         (mkInitiateRequest (cl_baseURL c +:+ "/api/payments/internal") (cl_apiKey c)
            bookingID eventID userID email amountRupiah (rfc3339 expiresAt)) 0 2.

(** ** [BookingService] *)

Record BookingService := mkBookingService {
  bs_paymentClient : Client;
  bs_reservationTTL : Z;
}.

Section service.
Context (s : BookingService) (ctx : context).

Definition GetBooking (bookingID : string) : tprog (res Booking) :=
  BookingRepo_FindByID bookingID.

Definition ListMyBookings (userID : string) : tprog (res (list Booking)) :=
  BookingRepo_ListByUser userID.

(** *** [reserve_service.go] *)

Fixpoint calculateTotal_from (total : Z) (items : list BookingItem) : Z :=
  match items with
  | [] => total
  | item :: items =>
      calculateTotal_from
        (total + (bi_UnitPriceRupiah item * bi_Quantity item)%goint)%goint items
  end.
Definition calculateTotal (items : list BookingItem) : Z := calculateTotal_from 0 items.

Fixpoint rollbackSeats (eventID : string) (items : list BookingItem) : tprog unit :=
  match items with
  | [] => Ret ()
  | item :: items =>
      _ ← SeatCounter_Release eventID (bi_TicketTypeID item) (bi_Quantity item);
      rollbackSeats eventID items
  end.

(** The rollback inside the loop of [Reserve]: release in order until an item
    of the failed item's ticket type is met. *)
Fixpoint rollbackBefore (eventID : string) (item : BookingItem) (items : list BookingItem) :
    tprog unit :=
  match items with
  | [] => Ret ()
  | rb :: items =>
      if bool_decide (bi_TicketTypeID rb = bi_TicketTypeID item) then Ret ()
      else
        _ ← SeatCounter_Release eventID (bi_TicketTypeID rb) (bi_Quantity rb);
        rollbackBefore eventID item items
  end.

(** The loop of [Reserve] over [todo]; [items] is the whole request. *)
Fixpoint reserveLoop (eventID : string) (items todo : list BookingItem) : tprog (res unit) :=
  match todo with
  | [] => Ret (Ok ())
  | item :: todo =>
      realPrice ←? SeatCounter_GetPrice eventID (bi_TicketTypeID item);
      if negb (bool_decide (bi_UnitPriceRupiah item = realPrice)) then
        Ret (Err (Wrapped "" ErrPriceMismatch (": expected " +:+ pretty realPrice +:+
                    ", got " +:+ pretty (bi_UnitPriceRupiah item))))
      else
        r ← SeatCounter_Reserve eventID (bi_TicketTypeID item) (bi_Quantity item);
        match r with
        | Err err =>
            _ ← rollbackBefore eventID item items;
            Ret (Err (Wrapped "" ErrNoSeatsAvailable (": " +:+ error_text err)))
        | Ok _ => reserveLoop eventID items todo
        end
  end.

(** [res.Items[i].ID = ...; .BookingID = ...; .TotalPriceRupiah = ...]. *)
Definition stampItem (bookingID id : string) (i : BookingItem) : BookingItem :=
  mkBookingItem id bookingID (bi_TicketTypeID i) (bi_Quantity i) (bi_UnitPriceRupiah i)
    (bi_UnitPriceRupiah i * bi_Quantity i)%goint.

Fixpoint stampItems (bookingID : string) (items : list BookingItem) :
    tprog (list BookingItem) :=
  match items with
  | [] => Ret []
  | i :: items =>
      id ← uuid_NewString;
      rest ← stampItems bookingID items;
      Ret (stampItem bookingID id i :: rest)
  end.

Definition Reserve (userID userEmail eventID : string) (items : list BookingItem) :
    tprog (res Reservation) :=
  if bool_decide (items = []) then Ret (Err ErrInvalidQuantity)
  else
    _ ←? reserveLoop eventID items items;
    now ← time_Now;
    let expiresAt := now + wrap64 (bs_reservationTTL s * Second) in
    bookingID ← uuid_NewString;
    createdAt ← time_Now;
    items' ← stampItems bookingID items;
    let rsv := mkReservation bookingID userID eventID items' (calculateTotal items)
      "pending" expiresAt createdAt in
    let booking := mkBooking bookingID userID eventID "pending" (Some expiresAt)
      0 "" "" items' 0 in
    r ← BookingRepo_Create booking;
    match r with
    | Err err => _ ← rollbackSeats eventID items'; Ret (Err err)
    | Ok _ =>
        r ← Client_InitiateTxnForBooking (bs_paymentClient s) bookingID eventID userID
              userEmail (rs_TotalRupiah rsv) expiresAt;
        match r with
        | Err err =>
            _ ← BookingRepo_Delete bookingID;
            _ ← rollbackSeats eventID items';
            Ret (Err err)
        | Ok _ => Ret (Ok rsv)
        end
    end.

(** *** [transitions_service.go] *)

(** [nil] stands for a booking that is missing or no longer pending. *)
Definition loadPendingBooking (bookingID : string) : tprog (res (option Booking)) :=
  r ← BookingRepo_FindByID bookingID;
  match r with
  | Err _ => Ret (Ok None)
  | Ok booking =>
      if negb (bool_decide (bk_Status booking = "pending")) then Ret (Ok None)
      else Ret (Ok (Some booking))
  end.

Fixpoint issueTickets (bookingID : string) (booking : Booking) (items : list BookingItem) :
    tprog unit :=
  match items with
  | [] => Ret ()
  | item :: items =>
      _ ← outbox_Insert ctx "ticket.issued" (bookingID +:+ "-" +:+ bi_ID item)
            (PTicketIssued (mkTicketIssued (bi_ID item) bookingID (bk_UserID booking)
                              (bk_EventID booking) (bi_TicketTypeID item)));
      issueTickets bookingID booking items
  end.

Definition Confirm (bookingID paymentID : string) : tprog (res unit) :=
  ob ←? loadPendingBooking bookingID;
  match ob with
  | None => Ret (Ok ())
  | Some booking =>
      published ←? EventStatusRepo_IsPublished (bk_EventID booking);
      if negb published then
        _ ←? BookingRepo_TransitionAndReleaseSeats booking "cancelled"; Ret (Ok ())
      else
        applied ←? BookingRepo_UpdateStatusIfPending bookingID "confirmed";
        if negb applied then Ret (Ok ())
        else
          _ ← issueTickets bookingID booking (bk_Items booking);
          Ret (Ok ())
  end.

Definition releaseReservation (bookingID status : string) : tprog (res unit) :=
  ob ←? loadPendingBooking bookingID;
  match ob with
  | None => Ret (Ok ())
  | Some booking =>
      _ ←? BookingRepo_TransitionAndReleaseSeats booking status; Ret (Ok ())
  end.

Definition ExpireOnPaymentExpired (bookingID : string) : tprog (res unit) :=
  releaseReservation bookingID "expired".

Fixpoint cancelLoop (bookings : list Booking) : tprog (res unit) :=
  match bookings with
  | [] => Ret (Ok ())
  | b :: bookings =>
      if negb (bool_decide (bk_Status b = "confirmed")) &&
         negb (bool_decide (bk_Status b = "pending"))
      then cancelLoop bookings
      else
        _ ←? BookingRepo_TransitionAndReleaseSeats b "cancelled";
        cancelLoop bookings
  end.

Definition CancelBookings (eventID : string) : tprog (res unit) :=
  bookings ←? BookingRepo_ListByEventID eventID;
  cancelLoop bookings.

(** *** The consumer: [StartConsumers] and [TicketingConsumer.Start]

    The callback of a topic gets the ids the message carries, whatever was
    marshalled into it; a message that does not decode is an error. *)
Definition onPaymentCompleted (m : message) : tprog (res unit) :=
  match Unmarshal_payload (A := PaymentCompleted) (msg_Value m) with
  | Ok e => Confirm (pc_BookingID e) (pc_TransactionID e)
  | Err e => Ret (Err e)
  end.
Definition onPaymentExpired (m : message) : tprog (res unit) :=
  match Unmarshal_payload (A := PaymentExpired) (msg_Value m) with
  | Ok e => ExpireOnPaymentExpired (pe_BookingID e)
  | Err e => Ret (Err e)
  end.
Definition onEventCancelled (m : message) : tprog (res unit) :=
  match Unmarshal_payload (A := EventCancelled) (msg_Value m) with
  | Ok e => CancelBookings (ec_EventID e)
  | Err e => Ret (Err e)
  end.
End service.

(** ** [Consumer.Consume] of [pkg/kafka], with one worker

    Each message goes to the handler once; an error is printed and the next
    message is read, its offset being committed by then. *)
Section consume.
Context {D : Type} {X : Type → Type}.

Fixpoint Consume (handler : message → prog (eff D X) (res unit)) (ms : list message) :
    prog (eff D X) unit :=
  match ms with
  | [] => Ret ()
  | m :: ms => _ ← handler m; Consume handler ms
  end.
End consume.
