(* ===== verification/TicketSamples.v ===== *)
(** * Sample states of the ticketing service

    One published event with two ticket types, a reservation request and the
    payment service's answers: the concrete inputs of the witnesses. *)
From S2P Require Import Prelude Effects Dto Outbox TicketDB Booking.

Definition sample_time : Z := 1767225600 * Second.

Definition sample_event (status : EventStatus) : Event :=
  mkEvent "ev" "eo" "Concert" "" "Hall" "" 10 (sample_time + 24 * Hour)
    (sample_time + 27 * Hour) status None None sample_time sample_time.

(** Two VIP seats and three regular ones; the counters as approval leaves them. *)
Definition sample_vip (available : Z) : TicketType :=
  mkTicketType "vip" "ev" "VIP" 500 2 available 2.
Definition sample_reg (available : Z) : TicketType :=
  mkTicketType "reg" "ev" "Regular" 100 3 available 3.

Definition sample_db_with (status : EventStatus) (vip reg : Z) : TicketDB :=
  mkTicketDB {[ "ev" := sample_event status ]}
    (<[ "vip" := sample_vip vip ]> {[ "reg" := sample_reg reg ]}) ∅ ∅ (mkOutbox 0 []).
Definition sample_db : TicketDB := sample_db_with EventStatusPublished 2 3.

Definition sample_service : BookingService :=
  mkBookingService (NewClient "http://payment:8083/" "key" 10 true) 900.

Definition sample_item (ty : string) (qty price : Z) : BookingItem :=
  mkBookingItem "" "" ty qty price 0.
Definition sample_items : list BookingItem :=
  [sample_item "vip" 2 500; sample_item "reg" 1 100].

(** The payment service accepts, or is down. *)
Definition payment_accepts : ∀ A, ticketE A → A := λ A x,
  match x with HttpDo _ => Ok 201 end.
Definition payment_down : ∀ A, ticketE A → A := λ A x,
  match x with HttpDo _ => Ok 503 end.

Definition sample_oracle : oracle ticketE := calm sample_time payment_accepts.
Definition outage_oracle : oracle ticketE := calm sample_time payment_down.

Lemma sample_dated : dated sample_oracle.
Proof. intros n. change (o_now sample_oracle n) with sample_time. by vm_compute. Qed.

(** The database after one reservation of [sample_items]. *)
Definition reserved_db : TicketDB :=
  (exec sample_oracle (Reserve sample_service "u" "u@mail" "ev" sample_items) sample_db).1.
(** The id the oracle gives the booking of that reservation. *)
Definition sample_booking_id : string := "id-5".
