(* ===== verification/Transactions.v ===== *)
(** * The transactions of the booking repository, statement by statement

    [BookingRepo.Create] and [TransitionAndReleaseSeats] run several statements
    between [Begin] and [Commit].  Here many of them run at once, under the
    READ COMMITTED isolation pgx asks for: a statement sees what is committed
    and what its own transaction has written, and waits for the rows it touches
    to be unlocked; written rows stay locked until the end.  The theorem is
    that nobody can tell this from the single statements [create_booking] and
    [transition_and_release] of [TicketDB], which is how every other file runs
    them. *)
From S2P Require Import Prelude Effects Dto Outbox TicketDB TicketSamples.

(** ** Rows *)

Inductive row :=
  | RType (id : string)
  | RBooking (id : string)
  | RItem (id : string).

#[export] Instance row_eq_dec : EqDecision row.
Proof. solve_decision. Defined.

Definition same_at (r : row) (d d' : TicketDB) : Prop :=
  match r with
  | RType id => ticket_types d !! id = ticket_types d' !! id
  | RBooking id => bookings d !! id = bookings d' !! id
  | RItem id => booking_items d !! id = booking_items d' !! id
  end.
Definition agree (L : list row) (d d' : TicketDB) : Prop := ∀ r, r ∈ L → same_at r d d'.

(** No service deletes an event; an inserted booking would keep it from being
    deleted in any case. *)
Definition events_kept (d d' : TicketDB) : Prop :=
  ∀ e, is_Some (events d !! e) → is_Some (events d' !! e).

#[export] Instance same_at_equiv r : Equivalence (same_at r).
Proof. split; destruct r; unfold same_at; congruence. Qed.

Lemma same_everywhere d d' :
  events d = events d' → ticket_outbox d = ticket_outbox d' → (∀ r, same_at r d d') → d = d'.
Proof.
  destruct d, d'. cbn. intros -> -> Hr. f_equal; apply map_eq; intros id.
  - apply (Hr (RType id)).
  - apply (Hr (RBooking id)).
  - apply (Hr (RItem id)).
Qed.

(** ** What a transaction sees *)

Section pick.
Context {A : Type} (P : string → Prop) `{∀ k, Decision (P k)}.

Definition pick (m1 m2 : gmap string A) : gmap string A :=
  filter (λ kv, P kv.1) m1 ∪ filter (λ kv, ¬ P kv.1) m2.

Lemma lookup_pick m1 m2 k : pick m1 m2 !! k = if decide (P k) then m1 !! k else m2 !! k.
Proof.
  unfold pick. rewrite lookup_union, !map_lookup_filter.
  case_decide; destruct (m1 !! k), (m2 !! k); cbn; repeat case_guard; done || tauto.
Qed.
End pick.

(** The committed tables [d] under the rows [L] that the transaction has
    locked, as it left them in [v]. *)
Definition overlay (L : list row) (v d : TicketDB) : TicketDB :=
  mkTicketDB (events d)
    (pick (λ k, RType k ∈ L) (ticket_types v) (ticket_types d))
    (pick (λ k, RBooking k ∈ L) (bookings v) (bookings d))
    (pick (λ k, RItem k ∈ L) (booking_items v) (booking_items d))
    (ticket_outbox d).

Lemma overlay_in L v d r : r ∈ L → same_at r (overlay L v d) v.
Proof. destruct r; cbn; intros Hr; by rewrite lookup_pick, decide_True. Qed.

Lemma overlay_out L v d r : r ∉ L → same_at r (overlay L v d) d.
Proof. destruct r; cbn; intros Hr; by rewrite lookup_pick, decide_False. Qed.

Lemma overlay_unique L v d d' :
  events d' = events d → ticket_outbox d' = ticket_outbox d → agree L d' v →
  (∀ r, r ∉ L → same_at r d' d) → d' = overlay L v d.
Proof.
  intros He Ho Hin Hout. apply same_everywhere; [done|done|]. intros r.
  destruct (decide (r ∈ L)) as [Hr|Hr].
  - rewrite overlay_in by done. by apply Hin.
  - rewrite overlay_out by done. by apply Hout.
Qed.

Lemma overlay_nil v d : overlay [] v d = d.
Proof. symmetry. apply overlay_unique; try done. by intros r ?%elem_of_nil. Qed.

Lemma overlay_absorb L v d d' : overlay L (overlay L v d) d' = overlay L v d'.
Proof.
  apply overlay_unique; [done|done| |].
  - intros r Hr. rewrite overlay_in by done. by apply overlay_in.
  - intros r Hr. by apply overlay_out.
Qed.

(** ** Statements and transactions *)

Inductive tstmt :=
  | SetStatus (id from to : string)
  | Release (id : string) (qty : Z)
  | InsertBooking (b : bookingRow)
  | InsertItem (i : itemRow).

(** The rows a statement locks.  A row that is not there cannot be locked, but
    ticket types, bookings and items get fresh UUIDs, so none appears.  The
    booking of an item is the one its own transaction has inserted. *)
Definition footprint (s : tstmt) : list row :=
  match s with
  | SetStatus id _ _ => [RBooking id]
  | Release id _ => [RType id]
  | InsertBooking b => [RBooking (br_id b)]
  | InsertItem i => [RItem (ir_id i); RBooking (ir_booking_id i)]
  end.
Definition locks (ss : list tstmt) : list row := ss ≫= footprint.

(** [Ok None] is the early return on no row. *)
Definition exec_stmt (s : tstmt) (d : TicketDB) : res (option TicketDB) :=
  match s with
  | SetStatus id from to =>
      match update_booking_status id from to d with
      | Ok (d', n) => Ok (if bool_decide (n = 0) then None else Some d')
      | Err e => Err e
      end
  | Release id qty =>
      match release_seats id qty d with Ok (d', _) => Ok (Some d') | Err e => Err e end
  | InsertBooking b => match insert_booking b d with Ok d' => Ok (Some d') | Err e => Err e end
  | InsertItem i => match insert_item i d with Ok d' => Ok (Some d') | Err e => Err e end
  end.

Fixpoint exec_stmts (ss : list tstmt) (d : TicketDB) : res (option TicketDB) :=
  match ss with
  | [] => Ok (Some d)
  | s :: ss =>
      match exec_stmt s d with
      | Ok (Some d') => exec_stmts ss d'
      | r => r
      end
  end.

Lemma exec_stmts_app ss1 ss2 d :
  exec_stmts (ss1 ++ ss2) d =
  match exec_stmts ss1 d with Ok (Some d') => exec_stmts ss2 d' | r => r end.
Proof.
  revert d. induction ss1 as [|s ss1 IH]; intros d; [done|]. cbn.
  destruct (exec_stmt s d) as [[d'|]|e]; [apply IH|done|done].
Qed.

(** ** Statements look at the rows they lock, and at nothing else *)

(** [v] is what [f] makes of [d], and would make, on the rows [L], of any
    tables that agree with [d] there. *)
Definition local (L : list row) (f : TicketDB → res (option TicketDB)) (d v : TicketDB) : Prop :=
  v = overlay L v d ∧
  ∀ d2, agree L d d2 → events_kept d d2 → f d2 = Ok (Some (overlay L v d2)).

Lemma local_update L f d v :
  events v = events d → ticket_outbox v = ticket_outbox d →
  (∀ r, r ∉ L → same_at r v d) →
  (∀ d2, agree L d d2 → events_kept d d2 → ∃ v2, f d2 = Ok (Some v2) ∧
     events v2 = events d2 ∧ ticket_outbox v2 = ticket_outbox d2 ∧ agree L v2 v ∧
     ∀ r, r ∉ L → same_at r v2 d2) →
  local L f d v.
Proof.
  intros He Ho Hout Hf.
  split; [by apply overlay_unique; [..|intros r _; reflexivity|]|]. intros d2 Ha Hk.
  destruct (Hf d2 Ha Hk) as (v2 & -> & ? & ? & ? & ?). do 2 f_equal. by apply overlay_unique.
Qed.

Ltac rows_solve :=
  repeat match goal with
  | |- agree _ _ _ => let r := fresh "r" in let H := fresh "H" in intros r H
  | |- ∀ r, _ ∉ _ → same_at _ _ _ => let r := fresh "r" in let H := fresh "H" in intros r H
  | H : _ ∈ _ :: _ |- _ => apply elem_of_cons in H as [->|H]
  | H : _ ∈ [] |- _ => by apply elem_of_nil in H
  end;
  try match goal with |- same_at ?r _ _ => is_var r; destruct r end;
  cbn; rewrite ?lookup_insert_eq; try done;
  try (rewrite lookup_insert_ne; [done|]; intros Heq; rewrite Heq in *; set_solver).

Lemma release_seats_Ok id qty d v n :
  release_seats id qty d = Ok (v, n) →
  (ticket_types d !! id = None ∧ in_int4 qty ∧ v = d) ∨
  ∃ ty, ticket_types d !! id = Some ty ∧
    let ty' := set_available (Z.min (tt_Quantity ty) (tt_Available ty + qty)) ty in
    v = set_ticket_types (<[id := ty']> (ticket_types d)) d ∧
    ∀ d2, ticket_types d2 !! id = Some ty →
      release_seats id qty d2 = Ok (set_ticket_types (<[id := ty']> (ticket_types d2)) d2, 1).
Proof.
  unfold release_seats, update_ticket_type. destruct (ticket_types d !! id) as [ty|] eqn:Hty.
  - destruct (_ && _) eqn:Hr; [|done]. destruct (ticket_type_check _) eqn:Hc; [|done].
    intros [= <- _]. right. exists ty. split; [done|]. split; [done|].
    intros d2 Hd2. rewrite Hd2, Hr. cbv beta in *. by rewrite Hc.
  - case_bool_decide; [|done]. intros [= <- _]. by left.
Qed.

Lemma exec_stmt_local s d v :
  exec_stmt s d = Ok (Some v) → local (footprint s) (exec_stmt s) d v.
Proof.
  destruct s as [id from to|id qty|b|i]; cbn [exec_stmt footprint].
  - unfold update_booking_status. destruct (bookings d !! id) as [r|] eqn:Hr; [|done].
    case_bool_decide as Hs; [|done]. destruct (booking_check _) eqn:Hc; [|done].
    intros [= <-]. apply local_update; [done|done|rows_solve|].
    intros d2 Ha _. pose proof (Ha (RBooking id) ltac:(by left)) as Hd2. cbn in Hd2.
    exists (set_bookings (<[id := set_status to r]> (bookings d2)) d2).
    cbn [exec_stmt]. unfold update_booking_status.
    rewrite <- Hd2, Hr, bool_decide_eq_true_2, Hc by done. split_and!; [done..|rows_solve|rows_solve].
  - destruct (release_seats id qty d) as [[d' n]|e] eqn:Hrel; [|done]. intros [= <-].
    destruct (release_seats_Ok _ _ _ _ _ Hrel) as [(Hno & Hq & ->)|(ty & Hty & -> & Hall)].
    + apply local_update; [done|done|done|]. intros d2 Ha _.
      pose proof (Ha (RType id) ltac:(by left)) as Hd2. cbn in Hd2. exists d2.
      cbn [exec_stmt]. unfold release_seats.
      rewrite <- Hd2, Hno, bool_decide_eq_true_2 by done. split_and!; [done..| |done].
      intros r Hin. symmetry. by apply Ha.
    + apply local_update; [done|done|rows_solve|]. intros d2 Ha _.
      pose proof (Ha (RType id) ltac:(by left)) as Hd2. cbn in Hd2.
      eexists. cbn [exec_stmt]. rewrite Hall by congruence. split_and!; [done..|rows_solve|rows_solve].
  - unfold insert_booking. destruct (negb _) eqn:Hc; [done|]. case_bool_decide as Hno; [done|].
    case_bool_decide as He; [|done]. intros [= <-]. apply local_update; [done|done|rows_solve|].
    intros d2 Ha Hk. pose proof (Ha (RBooking (br_id b)) ltac:(by left)) as Hd2. cbn in Hd2.
    exists (set_bookings (<[br_id b := b]> (bookings d2)) d2).
    cbn [exec_stmt]. unfold insert_booking. rewrite Hc.
    rewrite <- Hd2, bool_decide_eq_false_2, bool_decide_eq_true_2 by auto.
    split_and!; [done..|rows_solve|rows_solve].
  - unfold insert_item. destruct (negb (bool_decide (in_int4 _))) eqn:Hq; [done|].
    destruct (negb (item_check i)) eqn:Hc; [done|].
    destruct (bool_decide (is_Some (booking_items d !! _))) eqn:Hno; [done|].
    destruct (bool_decide (is_Some (bookings d !! _))) eqn:Hb; [|done]. intros [= <-].
    apply local_update; [done|done|rows_solve|]. intros d2 Ha Hk.
    pose proof (Ha (RItem (ir_id i)) ltac:(by left)) as Hd2. cbn in Hd2.
    pose proof (Ha (RBooking (ir_booking_id i)) ltac:(by right; left)) as Hd3. cbn in Hd3.
    exists (set_booking_items (<[ir_id i := i]> (booking_items d2)) d2).
    cbn [exec_stmt]. unfold insert_item. rewrite Hq, Hc.
    rewrite <- Hd2, <- Hd3, Hno, Hb.
    split_and!; [done..|rows_solve|rows_solve].
Qed.

(** A transaction as a whole looks at the rows it has locked, so what it has
    done so far would come out the same now. *)
Lemma exec_stmts_local ss d v :
  exec_stmts ss d = Ok (Some v) → local (locks ss) (exec_stmts ss) d v.
Proof.
  revert d. induction ss as [|s ss IH]; intros d; cbn [exec_stmts].
  { intros [= <-]. split; [by rewrite overlay_nil|]. intros d2 _ _. by rewrite overlay_nil. }
  destruct (exec_stmt s d) as [[v1|]|e] eqn:Hs; [|done|done]. intros Hss.
  destruct (exec_stmt_local s d v1 Hs) as [Hv1 Hf1]. destruct (IH v1 Hss) as [Hv Hf].
  assert (∀ r, r ∉ locks ss → same_at r v v1) as Hkeep.
  { intros r Hr. rewrite Hv. by apply overlay_out. }
  change (locks (s :: ss)) with (footprint s ++ locks ss). split.
  - apply overlay_unique.
    + by rewrite Hv, Hv1.
    + by rewrite Hv, Hv1.
    + intros r _. reflexivity.
    + intros r Hr. rewrite elem_of_app in Hr. rewrite Hkeep by tauto. rewrite Hv1.
      apply overlay_out. tauto.
  - intros d2 Ha Hk. cbn [exec_stmts]. rewrite Hf1; [|intros r Hr; apply Ha, elem_of_app; by left|done].
    set (u := overlay (footprint s) v1 d2).
    assert (∀ r, r ∈ footprint s → same_at r u v1) as Hin by (intros r; apply overlay_in).
    assert (∀ r, r ∉ footprint s → same_at r u d2) as Hout by (intros r; apply overlay_out).
    rewrite Hf.
    + do 2 f_equal. apply overlay_unique; [done|done| |].
      * intros r Hr. destruct (decide (r ∈ locks ss)) as [Hl|Hl]; [by apply overlay_in|].
        rewrite overlay_out by done. rewrite Hkeep by done. apply Hin.
        apply elem_of_app in Hr as [?|?]; done.
      * intros r Hr. rewrite elem_of_app in Hr. rewrite overlay_out by tauto. apply Hout. tauto.
    + intros r Hr. destruct (decide (r ∈ footprint s)) as [Hl|Hl]; [symmetry; by apply Hin|].
      rewrite Hout by done. rewrite Hv1, overlay_out by done. apply Ha.
      apply elem_of_app. by right.
    + rewrite Hv1. intros e. cbn. apply Hk.
Qed.

(** ** Many transactions at once *)

Inductive txcall :=
  | Create (b : Booking)
  | Transition (b : Booking) (to : string).

(** The statements between [Begin] and [Commit]; [t] is PostgreSQL's [now()],
    the time the transaction began. *)
Definition tx_body (c : txcall) (t : Z) : list tstmt :=
  match c with
  | Create b => InsertBooking (booking_row t b) :: (InsertItem ∘ item_row <$> bk_Items b)
  | Transition b to =>
      SetStatus (bk_ID b) (bk_Status b) to ::
      ((λ i, Release (bi_TicketTypeID i) (bi_Quantity i)) <$> bk_Items b)
  end.

(** The single statement the other files run in its place. *)
Definition tx_stmt (c : txcall) : stmt TicketDB bool :=
  match c with
  | Create b => λ t d,
      let '(d', r) := create_booking b t d in
      (d', match r with Ok _ => Ok true | Err e => Err e end)
  | Transition b to => transition_and_release b to
  end.

Inductive client :=
  | Running (c : txcall) (t : Z) (dn todo : list tstmt) (view : TicketDB)
  | Ended (c : txcall) (r : res bool).

Definition held (c : client) : list row :=
  match c with Running _ _ dn _ _ => locks dn | Ended _ _ => [] end.

(** Nobody but client [i] holds a lock on these rows. *)
Definition unlocked (i : nat) (L : list row) (cs : list client) : Prop :=
  Forall (λ jc : nat * client, jc.1 = i ∨ Forall (λ r, r ∉ L) (held jc.2)) (imap pair cs).

Definition fine : Type := TicketDB * list client.

(** One step of the concurrent execution.  [others] is what everything else
    commits: it cannot touch locked rows. *)
Inductive fine_step (others : TicketDB → TicketDB → Prop) : fine → fine → Prop :=
  | FS_other d d' cs :
      others d d' → events_kept d d' → Forall (λ c, agree (held c) d d') cs →
      fine_step others (d, cs) (d', cs)
  | FS_begin c t d cs :
      fine_step others (d, cs) (d, cs ++ [Running c t [] (tx_body c t) d])
  | FS_stmt d cs i c t dn s todo v v' :
      cs !! i = Some (Running c t dn (s :: todo) v) → unlocked i (footprint s) cs →
      exec_stmt s (overlay (locks dn) v d) = Ok (Some v') →
      fine_step others (d, cs) (d, <[i := Running c t (dn ++ [s]) todo v']> cs)
  | FS_return d cs i c t dn s todo v :
      cs !! i = Some (Running c t dn (s :: todo) v) → unlocked i (footprint s) cs →
      exec_stmt s (overlay (locks dn) v d) = Ok None →
      fine_step others (d, cs) (d, <[i := Ended c (Ok false)]> cs)
  | FS_error d cs i c t dn s todo v e :
      cs !! i = Some (Running c t dn (s :: todo) v) → unlocked i (footprint s) cs →
      exec_stmt s (overlay (locks dn) v d) = Err e →
      fine_step others (d, cs) (d, <[i := Ended c (Err e)]> cs)
  | FS_commit d cs i c t dn v r :
      cs !! i = Some (Running c t dn [] v) → (r = Ok true ∨ ∃ e, r = Err e) →
      fine_step others (d, cs) (overlay (locks dn) v d, <[i := Ended c r]> cs)
  | FS_abort d cs i c t dn todo v e :
      cs !! i = Some (Running c t dn todo v) →
      fine_step others (d, cs) (d, <[i := Ended c (Err e)]> cs).

(** The same with every transaction in one step, failing as any statement may. *)
Inductive aclient :=
  | Waiting (c : txcall) (t : Z)
  | Returned (c : txcall) (r : res bool).

Inductive atomic_step (others : TicketDB → TicketDB → Prop) :
    TicketDB * list aclient → TicketDB * list aclient → Prop :=
  | AS_other d d' cs : others d d' → atomic_step others (d, cs) (d', cs)
  | AS_begin c t d cs : atomic_step others (d, cs) (d, cs ++ [Waiting c t])
  | AS_run d cs i c t flt d' r :
      cs !! i = Some (Waiting c t) → sql_outcome (tx_stmt c) t flt d = (d', r) →
      atomic_step others (d, cs) (d', <[i := Returned c r]> cs).

(** *** The single statement is the sequence of statements, run alone *)

Lemma exec_releases its d :
  exec_stmts ((λ i, Release (bi_TicketTypeID i) (bi_Quantity i)) <$> its) d =
  match release_items its d with Ok d' => Ok (Some d') | Err e => Err e end.
Proof.
  revert d. induction its as [|i its IH]; intros d; [done|]. cbn.
  destruct (release_seats _ _ d) as [[d' n]|e]; [apply IH|done].
Qed.

Lemma exec_inserts its d :
  exec_stmts (InsertItem ∘ item_row <$> its) d =
  match insert_items (item_row <$> its) d with Ok d' => Ok (Some d') | Err e => Err e end.
Proof.
  revert d. induction its as [|i its IH]; intros d; [done|]. cbn -[item_row insert_item].
  destruct (insert_item _ d) as [d'|e]; [apply IH|done].
Qed.

Lemma tx_stmt_body c t d :
  tx_stmt c t d =
  match exec_stmts (tx_body c t) d with
  | Ok (Some d') => (d', Ok true)
  | Ok None => (d, Ok false)
  | Err e => (d, Err e)
  end.
Proof.
  destruct c as [b|b to]; cbn [tx_stmt tx_body exec_stmts exec_stmt].
  - unfold create_booking, transaction. destruct (insert_booking _ d) as [d1|e]; [|done].
    rewrite exec_inserts. by destruct (insert_items _ d1).
  - unfold transition_and_release. destruct (update_booking_status _ _ _ d) as [[d1 n]|e]; [|done].
    case_bool_decide; [done|]. rewrite exec_releases. by destruct (release_items _ d1).
Qed.

(** *** The simulation *)

(** What a client has done so far would come out the same on the tables as
    they are now. *)
Definition client_inv (d : TicketDB) (c : client) : Prop :=
  match c with
  | Running _ _ dn _ v => exec_stmts dn d = Ok (Some (overlay (locks dn) v d))
  | Ended _ _ => True
  end.
Definition client_match (c : client) (a : aclient) : Prop :=
  match c, a with
  | Running c t dn todo _, Waiting c' t' => c = c' ∧ t = t' ∧ tx_body c t = dn ++ todo
  | Ended c r, Returned c' r' => c = c' ∧ r = r'
  | _, _ => False
  end.

Record sim (s : fine) (a : TicketDB * list aclient) : Prop := {
  sm_db : s.1 = a.1;
  sm_clients : Forall2 client_match s.2 a.2;
  sm_inv : Forall (client_inv s.1) s.2;
  sm_locks i j ci cj : s.2 !! i = Some ci → s.2 !! j = Some cj → i ≠ j →
    ∀ r, r ∈ held ci → r ∉ held cj;
}.

Lemma client_inv_kept d d' c :
  client_inv d c → agree (held c) d d' → events_kept d d' → client_inv d' c.
Proof.
  destruct c as [c t dn todo v|]; [|done]. cbn. intros Hex Ha Hk.
  destruct (exec_stmts_local _ _ _ Hex) as [_ Hf]. rewrite (Hf d' Ha Hk). by rewrite overlay_absorb.
Qed.

Lemma unlocked_spec i L cs j c :
  unlocked i L cs → cs !! j = Some c → j ≠ i → ∀ r, r ∈ held c → r ∉ L.
Proof.
  unfold unlocked. rewrite Forall_lookup. intros Hall Hj Hne.
  destruct (Hall j (j, c)) as [?|Hc]; [by rewrite list_lookup_imap, Hj|done|].
  by rewrite Forall_forall in Hc.
Qed.

Lemma sim_begin c t d cs acs :
  sim (d, cs) (d, acs) →
  sim (d, cs ++ [Running c t [] (tx_body c t) d]) (d, acs ++ [Waiting c t]).
Proof.
  intros [_ Hc Hi Hl]. cbn in *. split; cbn.
  - done.
  - apply Forall2_app; [done|]. by repeat constructor.
  - apply Forall_app. split; [done|]. constructor; [|constructor]. cbn. by rewrite overlay_nil.
  - intros i j ci cj Hi' Hj' Hne r Hr.
    apply lookup_snoc_Some in Hi' as [[_ Hi']|[_ <-]]; [|by apply (elem_of_nil r) in Hr].
    apply lookup_snoc_Some in Hj' as [[_ Hj']|[_ <-]]; [exact (Hl i j ci cj Hi' Hj' Hne r Hr)|]. by intros ?%(elem_of_nil r).
Qed.

(** A client that ends gives its locks back. *)
Lemma sim_end d d' cs acs i c c0 t t0 dn todo v r :
  sim (d, cs) (d, acs) → cs !! i = Some (Running c t dn todo v) →
  acs !! i = Some (Waiting c0 t0) →
  Forall (client_inv d') (<[i := Ended c r]> cs) →
  sim (d', <[i := Ended c r]> cs) (d', <[i := Returned c r]> acs).
Proof.
  intros [_ Hc Hi Hl] Hci Hai Hinv. cbn in *. split; cbn.
  - done.
  - by apply Forall2_insert.
  - done.
  - intros j k cj ck Hj Hk Hne x Hx.
    apply list_lookup_insert_Some in Hj as [(<- & <- & _)|[_ Hj]]; [by apply (elem_of_nil x) in Hx|].
    apply list_lookup_insert_Some in Hk as [(<- & <- & _)|[_ Hk]]; [by intros ?%(elem_of_nil x)|].
    exact (Hl j k cj ck Hj Hk Hne x Hx).
Qed.

Lemma sim_waiting s a i c t dn todo v :
  sim s a → s.2 !! i = Some (Running c t dn todo v) →
  a.2 !! i = Some (Waiting c t) ∧ tx_body c t = dn ++ todo ∧
  exec_stmts dn s.1 = Ok (Some (overlay (locks dn) v s.1)).
Proof.
  intros [Hd Hc Hi Hl] Hs. destruct (Forall2_lookup_l _ _ _ _ _ Hc Hs) as (ac & Ha & Hm).
  rewrite Forall_lookup in Hi. specialize (Hi i _ Hs). cbn in Hi, Hm.
  destruct ac as [c' t'|]; [|done]. destruct Hm as (<- & <- & Hb). done.
Qed.

(** The commit writes locked rows only, which the other clients do not hold. *)
Lemma commit_inv s a i c t dn todo v r :
  sim s a → s.2 !! i = Some (Running c t dn todo v) →
  Forall (client_inv (overlay (locks dn) v s.1)) (<[i := Ended c r]> s.2).
Proof.
  intros [Hd Hc Hi Hl] Hs. apply Forall_lookup. intros j cj Hj.
  apply list_lookup_insert_Some in Hj as [(_ & <- & _)|[Hne Hj]]; [done|].
  rewrite Forall_lookup in Hi. eapply client_inv_kept; [by eapply Hi| |by intros e].
  intros x Hx. symmetry. apply overlay_out. by apply (Hl j i cj _ Hj Hs ltac:(done)).
Qed.

Lemma stmt_fails ss1 s ss2 d v r :
  exec_stmts ss1 d = Ok (Some v) → exec_stmt s v = r → (∀ d', r ≠ Ok (Some d')) →
  exec_stmts (ss1 ++ s :: ss2) d = r.
Proof.
  intros H1 Hs Hr. rewrite exec_stmts_app, H1. cbn. rewrite Hs.
  destruct r as [[d'|]|e]; [by destruct (Hr d')|done|done].
Qed.

Lemma sim_stmt d cs acs i c t dn s todo v v' :
  sim (d, cs) (d, acs) → cs !! i = Some (Running c t dn (s :: todo) v) →
  unlocked i (footprint s) cs → exec_stmt s (overlay (locks dn) v d) = Ok (Some v') →
  sim (d, <[i := Running c t (dn ++ [s]) todo v']> cs) (d, acs).
Proof.
  intros Hsim Hs Hfree Hex. destruct (sim_waiting _ _ _ _ _ _ _ _ Hsim Hs) as (Ha & Hbody & Hdone).
  destruct Hsim as [_ Hc Hi Hl]. cbn in *.
  assert (exec_stmts (dn ++ [s]) d = Ok (Some v')) as Hrun.
  { rewrite exec_stmts_app, Hdone. cbn. by rewrite Hex. }
  assert (locks (dn ++ [s]) = locks dn ++ footprint s) as Hlocks.
  { unfold locks. rewrite bind_app. cbn. by rewrite app_nil_r. }
  split; cbn.
  - reflexivity.
  - rewrite <- (list_insert_id acs i (Waiting c t)) by exact Ha. apply Forall2_insert; [exact Hc|].
    split_and!; [reflexivity..|]. by rewrite Hbody, <- (assoc_L (++)).
  - apply Forall_insert; [exact Hi|]. cbn. rewrite Hrun. do 2 f_equal.
    apply (exec_stmts_local _ _ _ Hrun).
  - intros j k cj ck Hj Hk Hne x Hx.
    apply list_lookup_insert_Some in Hj as [(<- & <- & _)|[Hji Hj]];
      apply list_lookup_insert_Some in Hk as [(<- & <- & _)|[Hki Hk]]; [by destruct Hne| | |exact (Hl j k cj ck Hj Hk Hne x Hx)].
    + cbn in Hx. rewrite Hlocks in Hx. apply elem_of_app in Hx as [Hx|Hx].
      * by apply (Hl i k _ _ Hs Hk Hne).
      * intros Hin. by apply (unlocked_spec i _ cs k ck Hfree Hk ltac:(congruence) x).
    + cbn. rewrite Hlocks. intros [Hin|Hin]%elem_of_app.
      * by apply (Hl j i _ _ Hj Hs Hne x).
      * by apply (unlocked_spec i _ cs j cj Hfree Hj ltac:(congruence) x).
Qed.

Section refinement.
Context (others : TicketDB → TicketDB → Prop).

(** One step of the concurrent execution is one atomic step, or none. *)
Lemma step_simulated s a s' :
  sim s a → fine_step others s s' → ∃ a', rtc (atomic_step others) a a' ∧ sim s' a'.
Proof.
  destruct a as [d acs]. intros Hsim Hstep. pose proof (sm_db _ _ Hsim) as Hd. cbn in Hd.
  destruct Hstep as [d0 d' cs Ho Hk Hag|c t d0 cs|d0 cs i c t dn s todo v v' Hs Hf Hex
    |d0 cs i c t dn s todo v Hs Hf Hex|d0 cs i c t dn s todo v e Hs Hf Hex
    |d0 cs i c t dn v r Hs Hr|d0 cs i c t dn todo v e Hs]; cbn in Hd; subst d0;
    try (destruct (sim_waiting _ _ _ _ _ _ _ _ Hsim Hs) as (Ha & Hbody & Hdone); cbn [fst snd] in *).
  - exists (d', acs). split; [by apply rtc_once, AS_other|]. destruct Hsim as [_ Hc Hi Hl].
    split; [done|done| |done]. cbn in *. apply Forall_lookup. intros j cj Hj.
    rewrite Forall_lookup in Hi, Hag. eapply client_inv_kept; eauto.
  - exists (d, acs ++ [Waiting c t]). split; [by apply rtc_once, AS_begin|]. by apply sim_begin.
  - exists (d, acs). split; [done|]. by eapply sim_stmt.
  - exists (d, <[i := Returned c (Ok false)]> acs). split.
    + apply rtc_once. apply (AS_run _ _ _ i c t FDone); [done|]. cbn [sql_outcome].
      by rewrite tx_stmt_body, Hbody, (stmt_fails _ _ _ _ _ (Ok None) Hdone Hex).
    + eapply sim_end; [done..|]. apply Forall_insert; [apply Hsim|done].
  - exists (d, <[i := Returned c (Err e)]> acs). split.
    + apply rtc_once. apply (AS_run _ _ _ i c t FDone); [done|]. cbn [sql_outcome].
      by rewrite tx_stmt_body, Hbody, (stmt_fails _ _ _ _ _ (Err e) Hdone Hex).
    + eapply sim_end; [done..|]. apply Forall_insert; [apply Hsim|done].
  - exists (overlay (locks dn) v d, <[i := Returned c r]> acs). rewrite app_nil_r in Hbody. split.
    + apply rtc_once. destruct Hr as [->|[e ->]].
      * apply (AS_run _ _ _ i c t FDone); [done|]. cbn [sql_outcome]. by rewrite tx_stmt_body, Hbody, Hdone.
      * apply (AS_run _ _ _ i c t (FLost e)); [done|]. cbn [sql_outcome].
        by rewrite tx_stmt_body, Hbody, Hdone.
    + eapply sim_end; [done..|]. by apply (commit_inv (d, cs) (d, acs) i c t dn [] v).
  - exists (d, <[i := Returned c (Err e)]> acs). split.
    + apply rtc_once. by apply (AS_run _ _ _ i c t (FFail e)).
    + eapply sim_end; [done..|]. apply Forall_insert; [apply Hsim|done].
Qed.

Lemma runs_simulated s a s' :
  sim s a → rtc (fine_step others) s s' → ∃ a', rtc (atomic_step others) a a' ∧ sim s' a'.
Proof.
  intros Hsim Hrun. revert a Hsim. induction Hrun as [s|s s1 s2 Hstep _ IH]; intros a Hsim; [by exists a|].
  destruct (step_simulated s a s1 Hsim Hstep) as (a1 & Ha1 & Hsim1).
  destruct (IH a1 Hsim1) as (a2 & Ha2 & Hsim2). exists a2. split; [by etrans|done].
Qed.
End refinement.

Lemma sim_start d : sim (d, []) (d, []).
Proof. split; [done|constructor|constructor|]. by intros i j ci cj Hi. Qed.

(** *** Schedules *)

Inductive action :=
  | Begin (c : txcall) (t : Z)
  | Statement (i : nat)
  | Commit (i : nat).

Definition act (a : action) (s : fine) : option fine :=
  let '(d, cs) := s in
  match a with
  | Begin c t => Some (d, cs ++ [Running c t [] (tx_body c t) d])
  | Statement i =>
      match cs !! i with
      | Some (Running c t dn (s :: todo) v) =>
          if decide (unlocked i (footprint s) cs) then
            Some (d, <[i := match exec_stmt s (overlay (locks dn) v d) with
                            | Ok (Some v') => Running c t (dn ++ [s]) todo v'
                            | Ok None => Ended c (Ok false)
                            | Err e => Ended c (Err e)
                            end]> cs)
          else None
      | _ => None
      end
  | Commit i =>
      match cs !! i with
      | Some (Running c t dn [] v) => Some (overlay (locks dn) v d, <[i := Ended c (Ok true)]> cs)
      | _ => None
      end
  end.

Definition acts (l : list action) (s : fine) : option fine := foldl (λ o a, o ≫= act a) (Some s) l.

Lemma act_step others a s s' : act a s = Some s' → fine_step others s s'.
Proof.
  destruct s as [d cs], a as [c t|i|i]; cbn.
  - intros [= <-]. constructor.
  - destruct (cs !! i) as [[c t dn [|s todo] v|]|] eqn:Hi; [done| |done..].
    case_decide as Hf; [|done]. intros [= <-]. destruct (exec_stmt _ _) as [[v'|]|e] eqn:Hex.
    + by eapply FS_stmt.
    + by eapply FS_return.
    + by eapply FS_error.
  - destruct (cs !! i) as [[c t dn [|s todo] v|]|] eqn:Hi; [|done..]. intros [= <-].
    eapply FS_commit; [done|by left].
Qed.

Lemma acts_run others l s s' : acts l s = Some s' → rtc (fine_step others) s s'.
Proof.
  unfold acts. revert s. induction l as [|a l IH]; intros s; cbn [foldl].
  { by intros [= <-]. }
  cbn. destruct (act a s) as [s1|] eqn:Ha.
  - intros Hl. eapply rtc_l; [by eapply act_step|by apply IH].
  - clear. induction l as [|b l IH]; [done|apply IH].
Qed.

(** A seat release and a new booking, their statements interleaved: both commit. *)
Definition stored (id : string) (d : TicketDB) : Booking :=
  match exec sample_oracle (BookingRepo_FindByID id) d with
  | (_, Ok b) => b
  | (_, Err _) => mkBooking "" "" "" "" None 0 "" "" [] 0
  end.
Definition sample_transition : txcall := Transition (stored sample_booking_id reserved_db) "cancelled".
Definition sample_create : txcall :=
  Create (mkBooking "new" "v" "ev" "pending" (Some sample_time) 0 "" ""
    [mkBookingItem "i1" "new" "reg" 1 100 0; mkBookingItem "i2" "new" "vip" 1 500 0] 0).
Definition sample_schedule : list action :=
  [Begin sample_transition sample_time; Begin sample_create sample_time; Statement 0; Statement 1;
   Statement 0; Statement 1; Statement 1; Commit 1; Statement 0; Commit 0].
Definition interleaved : fine := default (reserved_db, []) (acts sample_schedule (reserved_db, [])).

Lemma interleaved_run : rtc (fine_step (λ _ _, False)) (reserved_db, []) interleaved.
Proof. apply (acts_run _ sample_schedule). vm_compute. reflexivity. Qed.

(** ** The theorems *)

(** C11. The repository's transactions are atomic: whatever transactions run
    at once, their statements interleaved in any way the row locks allow,
    aborted or their commit's answer lost, every committed state is reached
    with each transaction as one statement, at the time it commits or fails,
    and every caller gets the answer of that statement. *)
Theorem transactions_atomic (others : TicketDB → TicketDB → Prop) (d0 d : TicketDB) (cs : list client) :
  rtc (fine_step others) (d0, []) (d, cs) →
  ∃ acs, rtc (atomic_step others) (d0, []) (d, acs) ∧ Forall2 client_match cs acs.
Proof.
  intros Hrun. destruct (runs_simulated others _ _ _ (sim_start d0) Hrun) as ([d' acs] & Ha & Hsim).
  pose proof (sm_db _ _ Hsim) as Hd. cbn in Hd. subst d'. exists acs. split; [done|].
  by apply (sm_clients _ _ Hsim).
Qed.

Lemma transactions_atomic_witness : ∃ acs,
  rtc (atomic_step (λ _ _, False)) (reserved_db, []) (interleaved.1, acs) ∧
  acs = [Returned sample_transition (Ok true); Returned sample_create (Ok true)] ∧
  br_status <$> bookings interleaved.1 !! sample_booking_id = Some "cancelled" ∧
  br_status <$> bookings interleaved.1 !! "new" = Some "pending".
Proof.
  assert (rtc (fine_step (λ _ _, False)) (reserved_db, []) (interleaved.1, interleaved.2)) as Hrun
    by (rewrite <- surjective_pairing; exact interleaved_run).
  destruct (transactions_atomic (λ _ _, False) reserved_db interleaved.1 interleaved.2 Hrun)
    as (acs & Hacs & Hm).
  assert (interleaved.2 = [Ended sample_transition (Ok true); Ended sample_create (Ok true)]) as Hcs
    by (vm_compute; reflexivity).
  rewrite Hcs in Hm. apply Forall2_cons_inv_l in Hm as (a1 & l1 & H1 & Hm & ->).
  apply Forall2_cons_inv_l in Hm as (a2 & l2 & H2 & Hm & ->). apply Forall2_nil_inv_l in Hm as ->.
  destruct a1 as [|c1 r1]; [destruct H1|]. destruct H1 as [<- <-].
  destruct a2 as [|c2 r2]; [destruct H2|]. destruct H2 as [<- <-].
  eexists. split; [exact Hacs|]. split; [reflexivity|]. split; vm_compute; reflexivity.
Defined.

(** *** Two releases can wait for each other *)

(** Client [i] waits for a lock that another one holds. *)
Definition blocked (cs : list client) (i : nat) : Prop :=
  match cs !! i with
  | Some (Running _ _ _ (s :: _) _) => ¬ unlocked i (footprint s) cs
  | _ => False
  end.
#[export] Instance blocked_dec cs i : Decision (blocked cs i).
Proof. unfold blocked. repeat case_match; apply _. Defined.

Definition pending_row (id : string) : bookingRow :=
  mkBookingRow id "u" "ev" "pending" (Some sample_time) sample_time.
(** The same two ticket types, booked in either order. *)
Definition crossing_db : TicketDB :=
  mkTicketDB {[ "ev" := sample_event EventStatusPublished ]}
    (<[ "vip" := sample_vip 0 ]> {[ "reg" := sample_reg 1 ]})
    (<[ "b1" := pending_row "b1" ]> {[ "b2" := pending_row "b2" ]})
    (<[ "i1" := mkItemRow "i1" "b1" "vip" 1 500 ]> (<[ "i2" := mkItemRow "i2" "b1" "reg" 1 100 ]>
      (<[ "i3" := mkItemRow "i3" "b2" "reg" 1 100 ]> {[ "i4" := mkItemRow "i4" "b2" "vip" 1 500 ]})))
    (mkOutbox 0 []).

Definition fresh_tx (c : txcall) : client := Running c sample_time [] (tx_body c sample_time) crossing_db.
Definition crossing : fine :=
  (crossing_db, [fresh_tx (Transition (stored "b1" crossing_db) "expired");
                 fresh_tx (Transition (stored "b2" crossing_db) "cancelled")]).
(** Each has moved its booking and released its first item. *)
Definition crossed : list client :=
  from_option snd [] (acts [Statement 0; Statement 0; Statement 1; Statement 1] crossing).

(** [TransitionAndReleaseSeats] updates the ticket types in the order of the
    booking's items: releasing two bookings that hold the same two types in
    opposite orders, each as the repository loads it, can reach a state in
    which each transaction waits for a row the other has locked, and only
    aborting one of them lets the other go on. *)
Theorem transitions_deadlock : ∃ b1 b2 cs,
  exec sample_oracle (BookingRepo_FindByID "b1") crossing_db = (crossing_db, Ok b1) ∧
  exec sample_oracle (BookingRepo_FindByID "b2") crossing_db = (crossing_db, Ok b2) ∧
  rtc (fine_step (λ _ _, False))
    (crossing_db, [fresh_tx (Transition b1 "expired"); fresh_tx (Transition b2 "cancelled")])
    (crossing_db, cs) ∧
  blocked cs 0 ∧ blocked cs 1.
Proof.
  exists (stored "b1" crossing_db), (stored "b2" crossing_db), crossed.
  split; [vm_compute; reflexivity|]. split; [vm_compute; reflexivity|]. split.
  - apply (acts_run _ [Statement 0; Statement 0; Statement 1; Statement 1]). vm_compute. reflexivity.
  - split; [apply (bool_decide_unpack (blocked crossed 0))|apply (bool_decide_unpack (blocked crossed 1))];
      vm_compute; exact I.
Qed.
