(* ===== verification/Event.v ===== *)
(** * The event service of ticketing

    [EventService] ([service/ticketing/internal/application/event]): creation,
    editing, the approval workflow, cancellation and the queries. *)
From S2P Require Import Prelude Effects Dto Outbox TicketDB Booking.

Section service.
Context (ctx : context).

(** ** [event_service.go] *)

(** [totalQty += tt.Quantity] over the request. *)
Definition sumQuantities (ticketTypes : list TicketType) : Z :=
  foldl (λ totalQty ty, (totalQty + tt_Quantity ty)%goint) 0 ticketTypes.

(** [ticketTypes[i].ID = uuid.NewString(); ticketTypes[i].EventID = eventID]. *)
Fixpoint stampTypes (eventID : string) (types : list TicketType) : tprog (list TicketType) :=
  match types with
  | [] => Ret []
  | ty :: types =>
      id ← uuid_NewString;
      rest ← stampTypes eventID types;
      Ret (mkTicketType id eventID (tt_Name ty) (tt_PriceRupiah ty) (tt_Quantity ty)
             (tt_Available ty) (tt_MaxPerOrder ty) :: rest)
  end.

Definition CreateEvent (organizerID title description venueName venueAddress : string)
    (venueCapacity startAt endAt : Z) (ticketTypes : list TicketType) : tprog (res Event) :=
  if bool_decide (ticketTypes = []) then Ret (Err ErrTicketTypesEmpty)
  else if bool_decide (venueCapacity < sumQuantities ticketTypes)
  then Ret (Err ErrCapacityExceeded)
  else
    eventID ← uuid_NewString;
    let event := mkEvent eventID organizerID title description venueName venueAddress
      venueCapacity startAt endAt EventStatusPending None None 0 0 in
    _ ←? EventRepo_CreateEvent event;
    types ← stampTypes eventID ticketTypes;
    _ ←? EventRepo_CreateTicketTypes types;
    Ret (Ok event).

Definition UpdateEvent (eventID organizerID title description : string) (startAt endAt : Z) :
    tprog (res Event) :=
  r ← EventRepo_FindEventByID eventID;
  match r with
  | Err _ => Ret (Err ErrEventNotFound)
  | Ok e =>
      if negb (bool_decide (ev_OrganizerID e = organizerID)) then Ret (Err ErrNotEventOwner)
      else if negb (bool_decide (ev_Status e = EventStatusDraft)) &&
              negb (bool_decide (ev_Status e = EventStatusPending))
      then Ret (Err ErrEventNotEditable)
      else
        now ← time_Now;
        let e' := mkEvent (ev_ID e) (ev_OrganizerID e) title description (ev_VenueName e)
          (ev_VenueAddress e) (ev_VenueCapacity e) startAt endAt (ev_Status e)
          (ev_ReviewedBy e) (ev_ReviewedAt e) (ev_CreatedAt e) now in
        _ ←? EventRepo_UpdateEvent e';
        Ret (Ok e')
  end.

(** ** [lifecycle.go] *)

(** [event.Status = ...; event.ReviewedBy = &adminUserID; ...]. *)
Definition reviewed (e : Event) (status : EventStatus) (by_ : string) (now : Z) : Event :=
  mkEvent (ev_ID e) (ev_OrganizerID e) (ev_Title e) (ev_Description e) (ev_VenueName e)
    (ev_VenueAddress e) (ev_VenueCapacity e) (ev_StartAt e) (ev_EndAt e) status
    (Some by_) (Some now) (ev_CreatedAt e) now.

Definition with_status (e : Event) (status : EventStatus) (now : Z) : Event :=
  mkEvent (ev_ID e) (ev_OrganizerID e) (ev_Title e) (ev_Description e) (ev_VenueName e)
    (ev_VenueAddress e) (ev_VenueCapacity e) (ev_StartAt e) (ev_EndAt e) status
    (ev_ReviewedBy e) (ev_ReviewedAt e) (ev_CreatedAt e) now.

Fixpoint initSeats (eventID : string) (types : list TicketType) : tprog (res unit) :=
  match types with
  | [] => Ret (Ok ())
  | ty :: types =>
      _ ←? SeatCounter_Init eventID (tt_ID ty) (tt_Quantity ty);
      _ ←? SeatCounter_SetPrice eventID (tt_ID ty) (tt_PriceRupiah ty);
      initSeats eventID types
  end.

Definition ApproveEvent (eventID adminUserID : string) : tprog (res Event) :=
  r ← EventRepo_FindEventByID eventID;
  match r with
  | Err _ => Ret (Err ErrEventNotFound)
  | Ok e =>
      if negb (bool_decide (ev_Status e = EventStatusPending))
      then Ret (Err ErrEventNotApprovable)
      else
        now ← time_Now;
        let e' := reviewed e EventStatusPublished adminUserID now in
        _ ←? EventRepo_UpdateEvent e';
        types ←? EventRepo_ListTicketTypesByEvent eventID;
        _ ←? initSeats eventID types;
        Ret (Ok e')
  end.

(** The reason is not stored. *)
Definition RejectEvent (eventID adminUserID reason : string) : tprog (res Event) :=
  r ← EventRepo_FindEventByID eventID;
  match r with
  | Err _ => Ret (Err ErrEventNotFound)
  | Ok e =>
      if negb (bool_decide (ev_Status e = EventStatusPending))
      then Ret (Err ErrEventNotApprovable)
      else
        now ← time_Now;
        let e' := reviewed e EventStatusRejected adminUserID now in
        _ ←? EventRepo_UpdateEvent e';
        Ret (Ok e')
  end.

Definition CancelEvent (eventID userID : string) : tprog (res Event) :=
  r ← EventRepo_FindEventByID eventID;
  match r with
  | Err _ => Ret (Err ErrEventNotFound)
  | Ok e =>
      if negb (bool_decide (ev_Status e = EventStatusPublished))
      then Ret (Err ErrEventNotCancellable)
      else if negb (bool_decide (ev_OrganizerID e = userID)) then Ret (Err ErrNotEventOwner)
      else
        now ← time_Now;
        let e' := with_status e EventStatusCancelled now in
        _ ←? EventRepo_UpdateEvent e';
        at_ ← time_Now;
        _ ← outbox_Insert ctx "event.cancelled" (ev_ID e')
              (PEventCancelled (mkEventCancelled (ev_ID e') at_));
        Ret (Ok e')
  end.

Definition reprocessCancellation (eventID userID : string) (checkOwner : bool) :
    tprog (res Event) :=
  r ← EventRepo_FindEventByID eventID;
  match r with
  | Err _ => Ret (Err ErrEventNotFound)
  | Ok e =>
      if negb (bool_decide (ev_Status e = EventStatusCancelled))
      then Ret (Err ErrEventNotCancelled)
      else if checkOwner && negb (bool_decide (ev_OrganizerID e = userID))
      then Ret (Err ErrNotEventOwner)
      else
        at_ ← time_Now;
        _ ← outbox_Insert ctx "event.cancelled" (ev_ID e)
              (PEventCancelled (mkEventCancelled (ev_ID e) at_));
        Ret (Ok e)
  end.

Definition ReprocessCancellation (eventID userID : string) : tprog (res Event) :=
  reprocessCancellation eventID userID true.

Definition ReprocessCancellationAsAdmin (eventID : string) : tprog (res Event) :=
  reprocessCancellation eventID "" false.

(** ** [queries.go] *)

Fixpoint liveTypes (eventID : string) (types : list TicketType) : tprog (list TicketType) :=
  match types with
  | [] => Ret []
  | ty :: types =>
      available ← SeatReader_Available eventID (tt_ID ty);
      rest ← liveTypes eventID types;
      Ret (set_available available ty :: rest)
  end.

(** The error of the ticket-type query is dropped: the list is then empty. *)
Definition GetEvent (eventID : string) : tprog (res (Event * list TicketType)) :=
  r ← EventRepo_FindEventByID eventID;
  match r with
  | Err _ => Ret (Err ErrEventNotFound)
  | Ok e =>
      r ← EventRepo_ListTicketTypesByEvent eventID;
      let types := match r with Ok types => types | Err _ => [] end in
      types' ← liveTypes eventID types;
      Ret (Ok (e, types'))
  end.

Definition ListPublished (limit offset : Z) : tprog (res (list Event * Z)) :=
  EventRepo_ListPublished limit offset.
Definition ListByOrganizer (organizerID : string) : tprog (res (list Event)) :=
  EventRepo_ListByOrganizer organizerID.
Definition ListPending (limit offset : Z) : tprog (res (list Event * Z)) :=
  EventRepo_ListPending limit offset.
Definition ListAll (status : string) (limit offset : Z) : tprog (res (list Event * Z)) :=
  EventRepo_FindAll status limit offset.
End service.
