(* ===== verification/Seats.v ===== *)
(** * Seat accounting of the ticketing service

    The invariant behind "seats are never oversold": for every ticket type, the
    counter, the seats of pending and confirmed bookings and the seats held by
    reservations in flight together do not exceed the quantity.  It is proved
    for every interleaving of the service's programs. *)
From S2P Require Import Prelude Effects Dto Outbox TicketDB Booking Event.

(** ** The accounting *)

(** A booking in one of these statuses owns its seats. *)
Definition active (s : string) : bool :=
  bool_decide (s = "pending") || bool_decide (s = "confirmed").

Definition booking_active (d : TicketDB) (id : string) : bool :=
  match bookings d !! id with Some b => active (br_status b) | None => false end.

Definition item_seats (d : TicketDB) (id : string) (i : itemRow) : Z :=
  if bool_decide (ir_ticket_type_id i = id) && booking_active d (ir_booking_id i)
  then ir_quantity i else 0.

(** Seats of a ticket type owned by bookings. *)
Definition held (d : TicketDB) (id : string) : Z := msum (item_seats d id) (booking_items d).

(** A hold is a ticket type and a number of seats taken off its counter by a
    program that has not created the booking yet. *)
Abbreviation hold := (string * Z)%type.
Definition hold_seats (id : string) (h : hold) : Z := if bool_decide (h.1 = id) then h.2 else 0.
Definition holds (L : list hold) (id : string) : Z := lsum (hold_seats id) L.

Definition seat_avail (d : TicketDB) (id : string) : Z :=
  from_option tt_Available 0 (ticket_types d !! id).
Definition seat_total (d : TicketDB) (id : string) : Z :=
  from_option tt_Quantity 0 (ticket_types d !! id).

Record seats_inv (d : TicketDB) (L : list hold) : Prop := {
  si_count : ∀ id, 0 ≤ seat_avail d id ∧
    seat_avail d id + held d id + holds L id ≤ seat_total d id;
  si_items : ∀ k i, booking_items d !! k = Some i →
    ir_id i = k ∧ 0 < ir_quantity i ∧ is_Some (bookings d !! ir_booking_id i);
  si_holds : Forall (λ h, 0 ≤ h.2) L;
}.

(** No program of the service removes or rewrites a booking item. *)
Definition items_kept (d d' : TicketDB) : Prop :=
  ∀ k i, booking_items d !! k = Some i → booking_items d' !! k = Some i.

#[export] Instance items_kept_preorder : PreOrder items_kept.
Proof. split; [by intros d k i|]. intros d1 d2 d3 H12 H23 k i Hk. auto. Qed.

Definition hold_item (i : BookingItem) : hold := (bi_TicketTypeID i, bi_Quantity i).
Definition hold_row (i : itemRow) : hold := (ir_ticket_type_id i, ir_quantity i).

(** ** Arithmetic of holds *)

Lemma holds_cons h L id : holds (h :: L) id = hold_seats id h + holds L id.
Proof. done. Qed.

Lemma holds_app L1 L2 id : holds (L1 ++ L2) id = holds L1 id + holds L2 id.
Proof. apply lsum_app. Qed.

#[export] Instance holds_perm : Proper ((≡ₚ) ==> (=) ==> (=)) holds.
Proof. intros L1 L2 HL id ? <-. unfold holds. by rewrite HL. Qed.

Lemma hold_seats_nonneg id (h : hold) : 0 ≤ h.2 → 0 ≤ hold_seats id h.
Proof. unfold hold_seats. case_bool_decide; lia. Qed.

Lemma holds_nonneg L id : Forall (λ h : hold, 0 ≤ h.2) L → 0 ≤ holds L id.
Proof.
  intros HL. apply lsum_nonneg. intros h Hh. apply hold_seats_nonneg.
  by eapply Forall_forall in HL.
Qed.

#[export] Instance seats_inv_perm d : Proper ((≡ₚ) ==> iff) (seats_inv d).
Proof.
  assert (∀ L L', L ≡ₚ L' → seats_inv d L → seats_inv d L') as Himp.
  { intros L L' HL [Hc Hi Hh]. split; [|done|by rewrite <- HL].
    intros id. by rewrite <- HL. }
  intros L L' HL. split; [by apply Himp|]. apply Himp. by symmetry.
Qed.

Lemma seats_inv_drop d h L : seats_inv d (h :: L) → seats_inv d L.
Proof.
  intros [Hc Hi [Hh HL]%Forall_cons]. split; [|done|done].
  intros id. specialize (Hc id). rewrite holds_cons in Hc.
  pose proof (hold_seats_nonneg id h Hh). lia.
Qed.

Lemma item_seats_nonneg d L id k i :
  seats_inv d L → booking_items d !! k = Some i → 0 ≤ item_seats d id i.
Proof.
  intros [_ Hi _] Hk. destruct (Hi k i Hk) as (_ & ? & _). unfold item_seats.
  destruct (_ && _); lia.
Qed.

(** ** The counter statements *)

Lemma seat_avail_insert d id ty id' :
  seat_avail (set_ticket_types (<[id := ty]> (ticket_types d)) d) id' =
  if decide (id = id') then tt_Available ty else seat_avail d id'.
Proof. unfold seat_avail. cbn. rewrite lookup_insert. by case_decide. Qed.

Lemma seat_total_insert d id ty id' :
  seat_total (set_ticket_types (<[id := ty]> (ticket_types d)) d) id' =
  if decide (id = id') then tt_Quantity ty else seat_total d id'.
Proof. unfold seat_total. cbn. rewrite lookup_insert. by case_decide. Qed.

Lemma update_ticket_type_Ok id cond g d d' n :
  update_ticket_type id cond g d = Ok (d', n) →
  (n = 0 ∧ d' = d) ∨
  (n = 1 ∧ ∃ ty, ticket_types d !! id = Some ty ∧ cond ty = true ∧
     ticket_type_check (g ty) = true ∧
     d' = set_ticket_types (<[id := g ty]> (ticket_types d)) d).
Proof.
  unfold update_ticket_type. destruct (ticket_types d !! id) as [ty|] eqn:Hty.
  - destruct (cond ty) eqn:Hc; [destruct (ticket_type_check (g ty)) eqn:Hg|]; intros [= <- <-].
    + right. eauto 10.
    + by left.
  - intros [= <- <-]. by left.
Qed.

(** A counter update that moves seats between the counter and the holds. *)
Lemma seats_inv_counter d id ty ty' L L' :
  seats_inv d L → ticket_types d !! id = Some ty →
  tt_Quantity ty' = tt_Quantity ty → 0 ≤ tt_Available ty' →
  tt_Available ty' + holds L' id ≤ tt_Available ty + holds L id →
  (∀ id', id ≠ id' → holds L' id' ≤ holds L id') →
  Forall (λ h : hold, 0 ≤ h.2) L' →
  seats_inv (set_ticket_types (<[id := ty']> (ticket_types d)) d) L'.
Proof.
  intros [Hc Hi Hh] Hty Hq Ha Hid Hne HL'. split; [|done|done].
  intros id'. rewrite seat_avail_insert, seat_total_insert.
  change (held (set_ticket_types _ d) id') with (held d id').
  specialize (Hc id'). case_decide as Heq.
  - subst id'. unfold seat_avail, seat_total in Hc. rewrite Hty in Hc. cbn in Hc. lia.
  - specialize (Hne id' Heq). lia.
Qed.

Lemma reserve_seats_inv id q d L d' n :
  0 ≤ q → seats_inv d L → reserve_seats id q d = Ok (d', n) →
  if decide (n = 0) then d' = d else seats_inv d' ((id, q) :: L).
Proof.
  intros Hq HI. unfold reserve_seats. case_bool_decide; [|done].
  intros [[-> ->]|(-> & ty & Hty & Hcond & Hck & ->)]%update_ticket_type_Ok; [done|].
  rewrite decide_False by done. bool_cases. cbn.
  eapply seats_inv_counter; [done|done|done| | | |].
  - cbn. lia.
  - rewrite holds_cons. unfold hold_seats. cbn. rewrite bool_decide_eq_true_2 by done. lia.
  - intros id' Hne. rewrite holds_cons. unfold hold_seats. cbn.
    rewrite bool_decide_eq_false_2 by done. lia.
  - constructor; [done|apply HI].
Qed.

Lemma release_seats_inv id q d L d' n :
  0 ≤ q → seats_inv d ((id, q) :: L) → release_seats id q d = Ok (d', n) → seats_inv d' L.
Proof.
  intros Hq HI. unfold release_seats.
  destruct (ticket_types d !! id) as [ty0|] eqn:Hty0.
  2:{ case_bool_decide; [|done]. intros [= <- <-]. by eapply seats_inv_drop. }
  destruct (_ && _); [|done].
  intros [[-> ->]|(-> & ty & Hty & _ & Hck & ->)]%update_ticket_type_Ok;
    [by eapply seats_inv_drop|].
  pose proof HI as [Hc _ [_ HL]%Forall_cons]. specialize (Hc id).
  unfold seat_avail in Hc. rewrite Hty in Hc. cbn in Hc.
  eapply seats_inv_counter; [exact HI|done|done| | | |done]; cbn.
  - unfold ticket_type_check in Hck. bool_cases. cbn in *. lia.
  - rewrite holds_cons. unfold hold_seats. cbn. rewrite bool_decide_eq_true_2 by done. lia.
  - intros id' Hne. rewrite holds_cons. unfold hold_seats. cbn.
    rewrite bool_decide_eq_false_2 by done. lia.
Qed.

Lemma release_items_inv its d L d' :
  Forall (λ i, 0 ≤ bi_Quantity i) its →
  seats_inv d ((hold_item <$> its) ++ L) → release_items its d = Ok d' → seats_inv d' L.
Proof.
  revert d. induction its as [|i its IH]; intros d Hq HI; cbn; [by intros [= <-]|].
  apply Forall_cons in Hq as [Hq Hqs].
  destruct (release_seats _ _ d) as [[d1 n]|e] eqn:Hr; [|done].
  apply IH; [done|]. by eapply release_seats_inv in Hr.
Qed.

(** ** Bookings and their items *)

Lemma held_ext d d' id :
  booking_items d' = booking_items d →
  (∀ k i, booking_items d !! k = Some i →
     booking_active d' (ir_booking_id i) = booking_active d (ir_booking_id i)) →
  held d' id = held d id.
Proof.
  intros Hi Ha. unfold held. rewrite Hi. apply msum_ext. intros k i Hk.
  unfold item_seats. by rewrite (Ha k i Hk).
Qed.

(** Rewriting bookings without moving a booking with items between the active
    statuses and the others. *)
Lemma seats_inv_bookings d m L :
  seats_inv d L →
  (∀ k i, booking_items d !! k = Some i →
     is_Some (m !! ir_booking_id i) ∧
     booking_active (set_bookings m d) (ir_booking_id i) = booking_active d (ir_booking_id i)) →
  seats_inv (set_bookings m d) L.
Proof.
  intros [Hc Hi Hh] Hm. split; [| |done].
  2:{ intros k i Hk. destruct (Hi k i Hk) as (? & ? & _), (Hm k i Hk). done. }
  intros id. rewrite (held_ext d _ id); [apply Hc|done|]. intros k i Hk. by apply (Hm k i).
Qed.

Lemma insert_booking_inv b d d' L :
  seats_inv d L → insert_booking b d = Ok d' →
  seats_inv d' L ∧ d' = set_bookings (<[br_id b := b]> (bookings d)) d.
Proof.
  intros HI. unfold insert_booking. destruct (booking_check b); cbn; [|done].
  case_bool_decide as Hfree; [done|]. case_bool_decide; [|done]. intros [= <-].
  split; [|done]. apply seats_inv_bookings; [done|]. intros k i Hk.
  destruct (si_items _ _ HI k i Hk) as (_ & _ & Hb).
  assert (br_id b ≠ ir_booking_id i) by (by intros Heq; rewrite <- Heq in Hb).
  unfold booking_active. cbn. by rewrite lookup_insert_ne.
Qed.

Lemma insert_item_inv i d d' L :
  booking_active d (ir_booking_id i) = true →
  seats_inv d (hold_row i :: L) → insert_item i d = Ok d' →
  seats_inv d' L ∧ bookings d' = bookings d ∧ items_kept d d'.
Proof.
  intros Hact [Hc Hi Hh]. unfold insert_item. case_bool_decide; [|done]. cbn.
  destruct (item_check i) eqn:Hck; cbn; [|done]. case_bool_decide as Hfree; [done|].
  case_bool_decide as Hb; [|done]. intros [= <-].
  apply eq_None_not_Some in Hfree. unfold item_check in Hck. bool_cases.
  apply Forall_cons in Hh as [_ Hh]. split_and!; [|done|].
  - split; [| |done].
    + intros id. specialize (Hc id). unfold held. cbn.
      rewrite msum_insert_None by done. rewrite holds_cons in Hc.
      assert (item_seats (set_booking_items (<[ir_id i:=i]> (booking_items d)) d) id i
        = hold_seats id (hold_row i)) as ->.
      { unfold item_seats, hold_seats. cbn.
        change (booking_active (set_booking_items _ d)) with (booking_active d).
        rewrite Hact, andb_true_r. done. }
      unfold held in Hc. rewrite (msum_ext _ (item_seats d id)) by done.
      change (seat_avail (set_booking_items _ d) id) with (seat_avail d id).
      change (seat_total (set_booking_items _ d) id) with (seat_total d id). lia.
    + cbn. intros k i'. rewrite lookup_insert. case_decide; [|apply Hi].
      intros [= <-]. done.
  - intros k i' Hk. cbn. rewrite lookup_insert_ne; [done|]. intros <-. congruence.
Qed.

Lemma insert_items_inv its d d' L bid :
  Forall (λ i, ir_booking_id i = bid) its → booking_active d bid = true →
  seats_inv d ((hold_row <$> its) ++ L) → insert_items its d = Ok d' →
  seats_inv d' L ∧ items_kept d d'.
Proof.
  revert d. induction its as [|i its IH]; intros d Hbid Hact HI; cbn; [by intros [= <-]|].
  apply Forall_cons in Hbid as [Hi Hbid].
  destruct (insert_item i d) as [d1|e] eqn:Hins; [|done]. intros Hrest.
  destruct (insert_item_inv i d d1 ((hold_row <$> its) ++ L)) as (HI1 & Hb1 & Hk1);
    [by rewrite Hi|done|done|].
  destruct (IH d1) as [HI2 Hk2]; [done| |done|done|].
  { unfold booking_active. by rewrite Hb1. }
  split; [done|]. by etrans.
Qed.

(** Seats of a booking's items, by ticket type. *)
Definition booked (d : TicketDB) (bid id : string) : Z :=
  msum (λ i, if bool_decide (ir_booking_id i = bid) then hold_seats id (hold_row i) else 0)
    (booking_items d).

Lemma set_status_inv d L bid b to :
  seats_inv d L → bookings d !! bid = Some b → active (br_status b) = true →
  active to = false →
  let d' := set_bookings (<[bid := set_status to b]> (bookings d)) d in
  ∀ id, held d' id = held d id - booked d bid id.
Proof.
  intros HI Hb Hact Hto d' id. unfold held, booked. rewrite <- msum_sub.
  apply msum_ext. intros k i Hk. unfold item_seats, hold_seats, booking_active. cbn.
  destruct (decide (bid = ir_booking_id i)) as [<-|Hne].
  - rewrite lookup_insert_eq, Hb. cbn. rewrite Hact, Hto, andb_false_r, andb_true_r.
    rewrite (bool_decide_eq_true_2 (bid = bid)) by done. lia.
  - rewrite lookup_insert_ne by done. rewrite (bool_decide_eq_false_2 (_ = bid)) by done. lia.
Qed.

(** The items a program has read of a booking are in the table. *)
Definition items_known (b : Booking) (d : TicketDB) : Prop :=
  ∃ rs, bk_Items b = scan_item <$> rs ∧ NoDup (ir_id <$> rs) ∧
    ∀ r, r ∈ rs → booking_items d !! ir_id r = Some r ∧ ir_booking_id r = bk_ID b.

Lemma items_known_stable b : stable items_kept (items_known b).
Proof.
  intros d d' Hk (rs & Hrs & Hnd & Hin). exists rs. split_and!; [done|done|].
  intros r Hr. destruct (Hin r Hr). auto.
Qed.

Lemma items_known_booked b d L id :
  seats_inv d L → items_known b d →
  holds (hold_item <$> bk_Items b) id ≤ booked d (bk_ID b) id.
Proof.
  intros HI (rs & -> & Hnd & Hin). unfold booked.
  set (f := λ i, if bool_decide (ir_booking_id i = bk_ID b)
                 then hold_seats id (hold_row i) else 0).
  assert (holds (hold_item <$> (scan_item <$> rs)) id =
    lsum (λ ka, f ka.2) ((λ r, (ir_id r, r)) <$> rs)) as ->.
  { unfold holds. clear Hnd. induction rs as [|r rs IH]; [done|].
    unfold lsum in *. cbn. rewrite IH by (intros; apply Hin; by right).
    f_equal. unfold f. destruct (Hin r (list_elem_of_here _ _)) as [_ ->].
    by rewrite bool_decide_eq_true_2. }
  apply msum_sublist.
  - intros k i Hk. unfold f. case_bool_decide; [|done].
    apply hold_seats_nonneg. destruct (si_items _ _ HI k i Hk) as (_ & ? & _). cbn. lia.
  - by rewrite <- list_fmap_compose.
  - intros k i (r & [= -> ->] & Hr)%list_elem_of_fmap. by apply Hin.
Qed.

Lemma items_known_nonneg b d L :
  seats_inv d L → items_known b d → Forall (λ i, 0 ≤ bi_Quantity i) (bk_Items b).
Proof.
  intros HI (rs & -> & _ & Hin). apply Forall_fmap, Forall_forall. intros r Hr.
  destruct (Hin r Hr) as [Hk _]. destruct (si_items _ _ HI _ _ Hk) as (_ & ? & _). cbn. lia.
Qed.

Lemma release_items_same its d d' :
  release_items its d = Ok d' →
  bookings d' = bookings d ∧ booking_items d' = booking_items d ∧
  events d' = events d ∧ ticket_outbox d' = ticket_outbox d.
Proof.
  revert d. induction its as [|i its IH]; intros d; cbn; [by intros [= <-]|].
  destruct (release_seats _ _ d) as [[d1 n]|e] eqn:Hr; [|done]. intros Hd'.
  apply IH in Hd' as (-> & -> & -> & ->). unfold release_seats in Hr.
  destruct (ticket_types d !! _); [destruct (_ && _); [|done]|
    case_bool_decide; [|done]; by injection Hr as <- <-].
  apply update_ticket_type_Ok in Hr as [[_ ->]|(_ & ty & _ & _ & _ & ->)]; done.
Qed.

(** A booking that leaves the active statuses turns its seats into holds. *)
Lemma transition_holds b row to d L :
  seats_inv d L → items_known b d → bookings d !! bk_ID b = Some row →
  active (br_status row) = true → active to = false →
  seats_inv (set_bookings (<[bk_ID b := set_status to row]> (bookings d)) d)
    ((hold_item <$> bk_Items b) ++ L).
Proof.
  intros HI Hk Hrow Hact Hto. split.
  - intros id. destruct (si_count _ _ HI id) as [Ha Hc]. split; [done|].
    rewrite (set_status_inv d L (bk_ID b) row to HI Hrow Hact Hto).
    rewrite holds_app. pose proof (items_known_booked b d L id HI Hk).
    change (seat_avail (set_bookings _ d) id) with (seat_avail d id).
    change (seat_total (set_bookings _ d) id) with (seat_total d id). lia.
  - cbn. intros k i Hki. destruct (si_items _ _ HI k i Hki) as (? & ? & ?).
    split_and!; [done|done|]. destruct (decide (bk_ID b = ir_booking_id i)) as [<-|Hne].
    + rewrite lookup_insert_eq. by eexists.
    + by rewrite lookup_insert_ne.
  - apply Forall_app. split; [|apply HI]. apply Forall_fmap.
    eapply Forall_impl; [by eapply items_known_nonneg|]. done.
Qed.

Lemma transition_inv b to t d L :
  seats_inv d L → items_known b d → active (bk_Status b) = true → active to = false →
  seats_inv (transition_and_release b to t d).1 L ∧
  items_kept d (transition_and_release b to t d).1.
Proof.
  intros HI Hk Hact Hto. unfold transition_and_release.
  destruct (update_booking_status _ _ to d) as [[d1 n]|e] eqn:Hu; [|done].
  case_bool_decide as Hn; [done|].
  destruct (release_items (bk_Items b) d1) as [d2|e] eqn:Hrel; [|done]. cbn.
  unfold update_booking_status in Hu.
  destruct (bookings d !! bk_ID b) as [row|] eqn:Hrow; [|naive_solver].
  case_bool_decide as Hst; [|naive_solver].
  destruct (booking_check _); [|done]. injection Hu as <- <-.
  split; [|by intros k i Hki; destruct (release_items_same _ _ _ Hrel) as (_ & -> & _)].
  eapply release_items_inv; [by eapply items_known_nonneg| |exact Hrel].
  apply transition_holds; [done..|by rewrite Hst|done].
Qed.

(** ** Statements that move no seats *)

(** Steps after which every accounting that was right still is. *)
Definition neutral : relation TicketDB := keeps seats_inv items_kept.

#[export] Instance neutral_preorder : PreOrder neutral.
Proof.
  split; [by split|]. intros d1 d2 d3 [Hk1 HI1] [Hk2 HI2]. split; [by etrans|auto].
Qed.

Lemma neutral_same d d' :
  ticket_types d' = ticket_types d → bookings d' = bookings d →
  booking_items d' = booking_items d → neutral d d'.
Proof.
  intros Ht Hb Hi. split; [by intros k i; rewrite Hi|]. intros L [Hc Hit Hh].
  split; [|by rewrite Hi, Hb|done]. intros id.
  rewrite (held_ext d d' id Hi) by (intros; unfold booking_active; by rewrite Hb).
  unfold seat_avail, seat_total. rewrite Ht. apply Hc.
Qed.

Lemma neutral_query {A} (f : TicketDB → res A) t d : neutral d (query f t d).1.
Proof. done. Qed.

Lemma neutral_outbox topic key p tc t d : neutral d (insert_outbox topic key p tc t d).1.
Proof. by apply neutral_same. Qed.

Lemma neutral_insert_event e t d : neutral d (insert_event e t d).1.
Proof. unfold insert_event. repeat case_match; by apply neutral_same. Qed.

Lemma neutral_update_event e now t d : neutral d (update_event e now t d).1.
Proof.
  unfold update_event. destruct (events d !! _); [|done].
  destruct (event_check _); [by apply neutral_same|done].
Qed.

Lemma neutral_insert_ticket_type ty t d : neutral d (insert_ticket_type ty t d).1.
Proof.
  unfold insert_ticket_type. destruct (negb _); [done|].
  destruct (ticket_type_check _) eqn:Hck; cbn; [|done].
  case_bool_decide as Hfree; [done|]. case_bool_decide; [|done]. cbn.
  apply eq_None_not_Some in Hfree. split; [by intros k i|]. intros L HI.
  destruct HI as [Hc Hi Hh]. split; [|done|done]. intros id.
  rewrite seat_avail_insert, seat_total_insert.
  change (held (set_ticket_types _ d) id) with (held d id).
  specialize (Hc id). case_decide as Heq; [|done]. subst id.
  unfold seat_avail, seat_total in Hc. rewrite Hfree in Hc. cbn in *.
  unfold ticket_type_check in Hck. bool_cases. cbn in *. lia.
Qed.

Lemma neutral_confirm bid t d :
  neutral d (counted (update_booking_status bid "pending" "confirmed") t d).1.
Proof.
  unfold counted, update_booking_status. destruct (bookings d !! bid) as [b|] eqn:Hb; [|done].
  case_bool_decide as Hst; [|done]. destruct (booking_check _); [|done]. cbn.
  split; [by intros k i|]. intros L HI. apply seats_inv_bookings; [done|]. intros k i Hk.
  destruct (si_items _ _ HI k i Hk) as (_ & _ & Hex).
  destruct (decide (bid = ir_booking_id i)) as [<-|Hne].
  - unfold booking_active. cbn. rewrite lookup_insert_eq, Hb. cbn. by rewrite Hst.
  - unfold booking_active. cbn. by rewrite lookup_insert_ne.
Qed.

Lemma items_of_elem bid d r :
  r ∈ items_of bid d ↔ ∃ k, booking_items d !! k = Some r ∧ ir_booking_id r = bid.
Proof.
  unfold items_of. rewrite elem_of_rows. by setoid_rewrite bool_decide_eq_true.
Qed.

Lemma neutral_delete bid t d : neutral d (counted (delete_booking bid) t d).1.
Proof.
  unfold counted, delete_booking. destruct (bookings d !! bid) as [b|] eqn:Hb; [|done].
  case_bool_decide; [|done]. case_bool_decide as Hno; [|done]. cbn.
  split; [by intros k i|]. intros L HI. apply seats_inv_bookings; [done|]. intros k i Hk.
  assert (bid ≠ ir_booking_id i) as Hne.
  { intros ->. assert (i ∈ items_of (ir_booking_id i) d) as Hin; [|rewrite Hno in Hin; set_solver].
    apply items_of_elem. eauto. }
  destruct (si_items _ _ HI k i Hk) as (_ & _ & Hex).
  unfold booking_active. cbn. by rewrite lookup_delete_ne.
Qed.

#[export] Hint Resolve neutral_query neutral_outbox neutral_insert_event
  neutral_update_event neutral_insert_ticket_type neutral_confirm neutral_delete : ticket.

Lemma wp_neutral (ev : envspec ticketE) {A} (p : tprog A) L P Q :
  guards neutral p → stable items_kept P → (∀ a, Q a L P) →
  wp ev seats_inv items_kept p L P Q.
Proof. apply wp_keeps; apply _. Qed.

Lemma wp_neutral_bind (ev : envspec ticketE) {A B} (p : tprog A) (f : A → tprog B) L P Q :
  guards neutral p → stable items_kept P →
  (∀ a, wp ev seats_inv items_kept (f a) L P Q) →
  wp ev seats_inv items_kept (prog_bind f p) L P Q.
Proof. intros. by apply wp_bind, wp_neutral. Qed.
