(* ===== verification/SeatSafety.v ===== *)
(** * No overselling, under every interleaving

    Each program of the ticketing service is proved to keep the seat accounting
    of [Seats] with the holds it owns at each of its effects; the soundness of
    the logic of [Effects] then gives the invariant for any number of them
    running concurrently. *)
From S2P Require Import Prelude Effects Dto Outbox TicketDB Booking TicketSamples Event Seats.

(** The payment service answers with success. *)
Definition payment_up : ∀ A, ticketE A → A → Prop := λ A x,
  match x in ticketE A' return A' → Prop with
  | HttpDo _ => λ r, ∃ code, r = Ok code ∧ 200 ≤ code < 300
  end.

(** Statements may fail at any point, but only without effect. *)
Definition steady : envspec ticketE := {| e_fault := no_lost_ack; e_ext := payment_up |}.

Local Abbreviation twp := (wp steady seats_inv items_kept).

Section specs.
Implicit Types (L : list hold) (P : TicketDB → Prop).

Lemma wp_seat_reserve ev id q L P (Q : res unit → list hold → (TicketDB → Prop) → Prop) :
  0 ≤ q → stable items_kept P →
  Q (Ok ()) ((id, q) :: L) P → (∀ e, Q (Err e) L P) →
  twp (SeatCounter_Reserve ev id q) L P Q.
Proof.
  intros Hq Hst HQ HQe. unfold SeatCounter_Reserve.
  apply wp_bind, wp_sql; [apply _|done| |by intros e; apply HQe].
  intros d F t HI HP. unfold counted.
  destruct (reserve_seats id q d) as [[d' n]|e] eqn:Hr.
  2:{ split; [done|]. exists L, P. split_and!; [done|done|done|apply HQe|done]. }
  pose proof (reserve_seats_inv _ _ _ _ _ _ Hq HI Hr) as Hd'. case_decide as Hn.
  - subst. split; [done|]. exists L, P. split_and!; [done|done|done| |done].
    cbn. apply HQe.
  - assert (items_kept d d') as Hk.
    { intros k i. unfold reserve_seats in Hr. case_bool_decide; [|done].
      by apply update_ticket_type_Ok in Hr as [[_ ->]|(_ & ty & _ & _ & _ & ->)]. }
    split; [done|]. exists ((id, q) :: L), P. split_and!; [done|by eapply Hst|done| |done].
    cbn. by rewrite bool_decide_eq_false_2.
Qed.

Lemma wp_seat_release ev id q L L0 P (Q : res unit → list hold → (TicketDB → Prop) → Prop) :
  0 ≤ q → L ≡ₚ (id, q) :: L0 → stable items_kept P →
  Q (Ok ()) L0 P → (∀ e, Q (Err e) L P) →
  twp (SeatCounter_Release ev id q) L P Q.
Proof.
  intros Hq HL Hst HQ HQe. unfold SeatCounter_Release.
  apply wp_bind, wp_sql; [apply _|done| |by intros e; apply HQe].
  intros d F t HI HP. unfold counted.
  destruct (release_seats id q d) as [[d' n]|e] eqn:Hr.
  2:{ split; [done|]. exists L, P. split_and!; [done|done|done|apply HQe|done]. }
  rewrite HL in HI. cbn in HI.
  pose proof (release_seats_inv _ _ _ _ _ _ Hq HI Hr) as Hd'.
  assert (release_items [mkBookingItem "" "" id q 0 0] d = Ok d') as Hr'.
  { cbn. by rewrite Hr. }
  apply release_items_same in Hr' as (_ & Hi & _).
  assert (items_kept d d') as Hk by (intros k i; by rewrite Hi).
  split; [done|]. exists L0, P. split_and!; [done|by eapply Hst|done|done|done].
Qed.

Lemma wp_rollbackSeats ev items L L1 P Q :
  Forall (λ i, 0 ≤ bi_Quantity i) items → L ≡ₚ (hold_item <$> items) ++ L1 →
  stable items_kept P → (∀ L', Q () L' P) → twp (rollbackSeats ev items) L P Q.
Proof.
  revert L L1. induction items as [|i items IH]; intros L L1 Hq HL Hst HQ; [apply HQ|].
  apply Forall_cons in Hq as [Hq Hqs]. cbn [rollbackSeats]. cbn in HL.
  apply wp_bind. eapply wp_seat_release; [done|exact HL|done| |].
  - by eapply IH.
  - intros e. eapply IH with (L1 := hold_item i :: L1); [done| |done|done].
    rewrite HL. by rewrite Permutation_middle.
Qed.

Lemma wp_rollbackBefore ev item done todo L L1 P Q :
  Forall (λ i, 0 ≤ bi_Quantity i) done → L ≡ₚ (hold_item <$> done) ++ L1 →
  stable items_kept P → (∀ L', Q () L' P) →
  twp (rollbackBefore ev item (done ++ item :: todo)) L P Q.
Proof.
  revert L L1. induction done as [|i done IH]; intros L L1 Hq HL Hst HQ.
  { cbn [app rollbackBefore]. rewrite bool_decide_eq_true_2 by done. apply HQ. }
  apply Forall_cons in Hq as [Hq Hqs]. cbn [app rollbackBefore]. cbn in HL.
  case_bool_decide; [apply HQ|].
  apply wp_bind. eapply wp_seat_release; [done|exact HL|done| |].
  - by eapply IH.
  - intros e. eapply IH with (L1 := hold_item i :: L1); [done| |done|done].
    rewrite HL. by rewrite Permutation_middle.
Qed.

Lemma neutral_GetPrice ev id : guards neutral (SeatCounter_GetPrice (X := ticketE) ev id).
Proof. unfold SeatCounter_GetPrice. guards_solve. Qed.

Lemma wp_reserveLoop ev done todo L P Q :
  Forall (λ i, 0 ≤ bi_Quantity i) (done ++ todo) → L ≡ₚ hold_item <$> done →
  stable items_kept P →
  (∀ L', L' ≡ₚ hold_item <$> (done ++ todo) → Q (Ok ()) L' P) →
  (∀ e L', Q (Err e) L' P) →
  twp (reserveLoop ev (done ++ todo) todo) L P Q.
Proof.
  revert done L. induction todo as [|item todo IH]; intros done L Hq HL Hst HQ HQe.
  { cbn. apply HQ. by rewrite app_nil_r. }
  cbn [reserveLoop]. apply wp_neutral_bind; [apply neutral_GetPrice|done|].
  intros [price|e]; [|apply HQe]. destruct (negb _); [apply HQe|].
  pose proof Hq as [Hqd [Hqi Hqt]%Forall_cons]%Forall_app.
  apply wp_bind, wp_seat_reserve; [done|done| |].
  - replace (done ++ item :: todo) with ((done ++ [item]) ++ todo) in *
      by (by rewrite <- (assoc (++))).
    apply IH; [done| |done|done|done].
    rewrite fmap_app, HL. cbn. by rewrite Permutation_app_comm.
  - intros e. apply wp_bind. eapply (wp_rollbackBefore _ _ _ _ _ []); [done| |done|].
    + by rewrite app_nil_r.
    + intros L'. apply HQe.
Qed.

Lemma wp_Create b L L1 P Q :
  bk_Status b = "pending" → Forall (λ i, bi_BookingID i = bk_ID b) (bk_Items b) →
  L ≡ₚ (hold_item <$> bk_Items b) ++ L1 → stable items_kept P →
  Q (Ok ()) L1 P → (∀ e, Q (Err e) L P) →
  twp (BookingRepo_Create b) L P Q.
Proof.
  intros Hpend Hbid HL Hst HQ HQe. unfold BookingRepo_Create, create_booking.
  apply wp_sql; [apply _|done| |by intros e; apply HQe].
  intros d F t HI HP. unfold transaction.
  assert (∀ e : error, items_kept d d ∧ ∃ L' P', stable items_kept P' ∧ P' d ∧
    seats_inv d (L' ++ F) ∧ twp (Ret (Err e)) L' P' Q ∧
    ∀ e', e_fault steady (FLost e') → twp (Ret (Err e')) L' P' Q) as Herr.
  { intros e. split; [done|]. exists L, P. split_and!; [done|done|done|apply HQe|done]. }
  destruct (insert_booking (booking_row t b) d) as [d1|e] eqn:H1; [|apply Herr].
  destruct (insert_items (item_row <$> bk_Items b) d1) as [d2|e] eqn:H2; [|apply Herr].
  apply (insert_booking_inv _ _ _ (L ++ F)) in H1 as [HI1 Hd1]; [|done].
  assert (items_kept d d1) as Hk1 by (subst d1; by intros k i).
  apply (insert_items_inv _ _ _ (L1 ++ F) (bk_ID b)) in H2 as [HI2 Hk2].
  - split; [by etrans|]. exists L1, P.
    split_and!; [done| |done|done|done]. eapply Hst; [|done]. by etrans.
  - apply Forall_fmap. eapply Forall_impl; [done|]. done.
  - subst d1. unfold booking_active. cbn. rewrite lookup_insert_eq. cbn. by rewrite Hpend.
  - rewrite HL, <- (assoc (++)) in HI1. rewrite <- list_fmap_compose. exact HI1.
Qed.

Lemma stampItems_spec bid items L P (Q : list BookingItem → list hold → _ → Prop) :
  stable items_kept P →
  (∀ items', hold_item <$> items' = hold_item <$> items →
     Forall (λ i, bi_BookingID i = bid) items' → Q items' L P) →
  twp (stampItems bid items) L P Q.
Proof.
  intros Hst. revert Q. induction items as [|i items IH]; intros Q HQ; [by apply HQ|].
  cbn [stampItems]. apply wp_bind, wp_uuid; [apply _|done|]. intros id. cbn.
  apply wp_bind, IH. intros items' Hh Hb. apply HQ; [cbn; by rewrite Hh|].
  by constructor.
Qed.

Lemma wp_payment_up c bid ev u em amt exp L P Q :
  cl_url_ok c = true → stable items_kept P → Q (Ok ()) L P →
  twp (Client_InitiateTxnForBooking c bid ev u em amt exp) L P Q.
Proof.
  intros Hurl Hst HQ. unfold Client_InitiateTxnForBooking. rewrite Hurl. cbn [negb].
  cbn [attempt_loop]. apply wp_bind, wp_ext; [apply _|done|].
  intros r (code & -> & Hcode). cbn. by rewrite bool_decide_eq_true_2.
Qed.

Lemma safe_Reserve s u em ev items :
  cl_url_ok (bs_paymentClient s) = true → Forall (λ i, 1 ≤ bi_Quantity i) items →
  twp (Reserve s u em ev items) [] (λ _, True) (λ _ _ _, True).
Proof.
  intros Hurl Hq. unfold Reserve. case_bool_decide; [done|].
  assert (Forall (λ i, 0 ≤ bi_Quantity i) items) as Hq0.
  { eapply Forall_impl; [done|]. cbn. lia. }
  apply wp_bind. apply (wp_reserveLoop ev [] items); [done|done|done| |done].
  intros L HL. cbn in HL. apply wp_bind, wp_time; [apply _|done|]. intros now.
  apply wp_bind, wp_uuid; [apply _|done|]. intros bid.
  apply wp_bind, wp_time; [apply _|done|]. intros created.
  apply wp_bind, stampItems_spec; [done|]. intros items' Hh Hb.
  apply wp_bind. rewrite <- Hh in HL.
  apply (wp_Create _ L []); [done|done|by rewrite app_nil_r|done| |].
  - apply wp_bind, wp_payment_up; done.
  - intros e. apply wp_bind, (wp_rollbackSeats _ _ _ []); [|by rewrite app_nil_r|done|done].
    assert (Forall (λ h : hold, 0 ≤ h.2) (hold_item <$> items')) as Hn.
    { rewrite Hh. by apply Forall_fmap. }
    rewrite (Forall_fmap hold_item) in Hn. eapply Forall_impl; [exact Hn|done].
Qed.

(** What reading a booking teaches: its items are in the table. *)
Lemma foldl_append_item rs b :
  bk_Items (foldl append_item b rs) = bk_Items b ++ (scan_item <$> rs) ∧
  bk_ID (foldl append_item b rs) = bk_ID b ∧
  bk_Status (foldl append_item b rs) = bk_Status b ∧
  bk_EventID (foldl append_item b rs) = bk_EventID b.
Proof.
  revert b. induction rs as [|r rs IH]; intros b; cbn; [by rewrite app_nil_r|].
  destruct (IH (append_item b r)) as (-> & -> & -> & ->). cbn. by rewrite <- (assoc (++)).
Qed.

Lemma items_of_ids d L bid : seats_inv d L → NoDup (ir_id <$> items_of bid d).
Proof.
  intros HI. apply rows_NoDup. intros k i Hk. by apply (si_items _ _ HI).
Qed.

Lemma wp_loadItems b L P Q :
  bk_Items b = [] → stable items_kept P →
  (∀ b', bk_ID b' = bk_ID b → bk_Status b' = bk_Status b → bk_EventID b' = bk_EventID b →
     Q (Ok b') L (λ d, P d ∧ items_known b' d)) →
  (∀ e, Q (Err e) L P) →
  twp (BookingRepo_loadItems b) L P Q.
Proof.
  intros Hno Hst HQ HQe. unfold BookingRepo_loadItems.
  apply wp_bind, wp_query; [apply _|done|done| |by intros e; apply HQe].
  intros d F t HI HP. cbn. set (rs := items_of (bk_ID b) d).
  destruct (foldl_append_item rs b) as (Hits & Hid & Hstat & Hev).
  exists (λ d, P d ∧ items_known (foldl append_item b rs) d). split_and!.
  - intros d1 d2 H12 [HP1 Hk1]. split; [by eapply Hst|by eapply items_known_stable].
  - done.
  - exists rs. rewrite Hits, Hno, Hid. split_and!; [done|by eapply items_of_ids|].
    intros r (k & Hk & Hb)%items_of_elem.
    destruct (si_items _ _ HI k r Hk) as (Hrk & _). by rewrite Hrk.
  - by apply HQ.
Qed.

Lemma wp_FindByID bid L P Q :
  stable items_kept P →
  (∀ b', Q (Ok b') L (λ d, P d ∧ items_known b' d)) → (∀ e, Q (Err e) L P) →
  twp (BookingRepo_FindByID bid) L P Q.
Proof.
  intros Hst HQ HQe. unfold BookingRepo_FindByID.
  apply wp_bind, wp_query; [apply _|done|done| |by intros e; apply HQe].
  intros d F t HI HP. exists P. split_and!; [done|done|]. cbn [snd query].
  destruct (bookings d !! bid) as [row|]; cbn [row_or_error]; [|apply HQe].
  apply wp_loadItems; [done|done| |done]. intros b' _ _ _. apply HQ.
Qed.

Definition all_known (bs : list Booking) (d : TicketDB) : Prop := Forall (λ b, items_known b d) bs.

Lemma all_known_stable bs : stable items_kept (all_known bs).
Proof.
  intros d d' Hk Hbs. eapply Forall_impl; [exact Hbs|]. intros b. by apply items_known_stable.
Qed.

Lemma wp_load_all bs L P (Q : res (list Booking) → list hold → (TicketDB → Prop) → Prop) :
  Forall (λ b, bk_Items b = []) bs → stable items_kept P →
  (∀ bs' P', stable items_kept P' → (∀ d, P' d → P d ∧ all_known bs' d) → Q (Ok bs') L P') →
  (∀ e P', stable items_kept P' → Q (Err e) L P') →
  twp (load_all bs) L P Q.
Proof.
  revert P Q. induction bs as [|b bs IH]; intros P Q Hno Hst HQ HQe.
  { apply HQ; [done|]. intros d HP. split; [done|constructor]. }
  apply Forall_cons in Hno as [Hb Hno]. cbn [load_all].
  apply wp_bind, wp_loadItems; [done|done| |by intros e; apply HQe].
  intros b' _ _ _. apply wp_bind.
  assert (stable items_kept (λ d, P d ∧ items_known b' d)) as Hst'.
  { intros d1 d2 H12 [HP1 Hk1]. split; [by eapply Hst|by eapply items_known_stable]. }
  apply IH; [done|done| |by intros e P' ?; apply HQe].
  intros bs' P' Hst1 HP'. apply HQ; [done|]. intros d Hd.
  destruct (HP' d Hd) as [[? ?] ?]. split; [done|]. by constructor.
Qed.

Lemma wp_transition b to L P Q :
  active (bk_Status b) = true → active to = false →
  stable items_kept P → (∀ d, P d → items_known b d) → (∀ r, Q r L P) →
  twp (BookingRepo_TransitionAndReleaseSeats b to) L P Q.
Proof.
  intros Hact Hto Hst HPk HQ. unfold BookingRepo_TransitionAndReleaseSeats.
  apply wp_sql; [apply _|done| |by intros e; apply HQ].
  intros d F t HI HP.
  destruct (transition_inv b to t d (L ++ F) HI (HPk d HP) Hact Hto) as [HI' Hk].
  destruct (transition_and_release b to t d) as [d' r]. cbn in *.
  split; [done|]. exists L, P. split_and!; [done|by eapply Hst|done|apply HQ|done].
Qed.

Lemma known_stable b : stable items_kept (λ d, True ∧ items_known b d).
Proof. intros d1 d2 H12 [_ ?]. split; [done|by eapply items_known_stable]. Qed.

Lemma safe_Confirm ctx bid pid :
  twp (Confirm ctx bid pid) [] (λ _, True) (λ _ _ _, True).
Proof.
  unfold Confirm, loadPendingBooking. apply wp_bind, wp_bind, wp_FindByID; [done| |done].
  intros b. destruct (negb _) eqn:Hst; [done|]. bool_cases.
  apply wp_neutral_bind.
  { unfold EventStatusRepo_IsPublished. guards_solve. }
  { apply known_stable. }
  intros [[]|e]; cbn [negb]; [| |done].
  - apply wp_neutral; [|apply known_stable|done].
    apply guards_bind; [unfold BookingRepo_UpdateStatusIfPending; guards_solve|].
    intros [[]|e]; cbn [negb]; [|done|done]. apply guards_bind; [|done].
    induction (bk_Items b); cbn [issueTickets]; [done|]. apply guards_bind; [|done].
    guards_solve.
  - apply wp_bind, wp_transition; [by rewrite Hst|done|apply known_stable|by intros d []|].
    by intros [].
Qed.

Lemma safe_Expire bid :
  twp (ExpireOnPaymentExpired bid) [] (λ _, True) (λ _ _ _, True).
Proof.
  unfold ExpireOnPaymentExpired, releaseReservation, loadPendingBooking.
  apply wp_bind, wp_bind, wp_FindByID; [done| |done].
  intros b. destruct (negb _) eqn:Hst; [done|]. bool_cases.
  apply wp_bind, wp_transition; [by rewrite Hst|done|apply known_stable|by intros d []|].
  by intros [].
Qed.

Lemma safe_cancelLoop bs P :
  stable items_kept P → (∀ d, P d → all_known bs d) →
  twp (cancelLoop bs) [] P (λ _ _ _, True).
Proof.
  revert P. induction bs as [|b bs IH]; intros P Hst HPk; [done|]. cbn [cancelLoop].
  assert (∀ d, P d → items_known b d ∧ all_known bs d) as HPk'.
  { intros d Hd. specialize (HPk d Hd). by apply Forall_cons in HPk. }
  destruct (_ && _) eqn:Hskip; [by apply IH; [|intros d []%HPk']|].
  apply wp_bind, wp_transition; [|done|done|by intros d []%HPk'|].
  - unfold active. by destruct (bool_decide (_ = "pending")), (bool_decide (_ = "confirmed")).
  - intros [applied|e]; [|done]. by apply IH; [|intros d []%HPk'].
Qed.

Lemma safe_CancelBookings ev :
  twp (CancelBookings ev) [] (λ _, True) (λ _ _ _, True).
Proof.
  unfold CancelBookings, BookingRepo_ListByEventID.
  apply wp_bind, wp_bind, wp_query; [apply _|done|done| |done].
  intros d F t HI _. cbn. exists (λ _, True). split_and!; [done|done|].
  apply wp_load_all; [by apply Forall_fmap, Forall_forall|done| |done].
  intros bs' P' Hst HP'. apply safe_cancelLoop; [done|]. by intros d' []%HP'.
Qed.

(** The callbacks of the three topics, and the loop that feeds them. *)
Lemma safe_Consume (h : message → tprog (res unit)) ms :
  (∀ m, twp (h m) [] (λ _, True) (λ _ _ _, True)) →
  twp (Consume h ms) [] (λ _, True) (λ _ _ _, True).
Proof.
  intros Hh. assert (∀ L P, stable items_kept P → twp (Consume h ms) L P (λ _ _ _, True))
    as Hgen; [|by apply Hgen].
  induction ms as [|m ms IH]; intros L P Hst; [done|]. cbn [Consume]. apply wp_bind.
  eapply wp_mono, (wp_frame _ _ _ _ [] (λ _, True)); [|done|done|done|apply Hh].
  intros a L' P' Hst'. by apply IH.
Qed.

Lemma safe_onPaymentCompleted ctx m :
  twp (onPaymentCompleted ctx m) [] (λ _, True) (λ _ _ _, True).
Proof. unfold onPaymentCompleted. split_match; [apply safe_Confirm|done]. Qed.

Lemma safe_onPaymentExpired m :
  twp (onPaymentExpired m) [] (λ _, True) (λ _ _ _, True).
Proof. unfold onPaymentExpired. split_match; [apply safe_Expire|done]. Qed.

Lemma safe_onEventCancelled m :
  twp (onEventCancelled m) [] (λ _, True) (λ _ _ _, True).
Proof.
  unfold onEventCancelled. split_match; [apply safe_CancelBookings|done].
Qed.

(** *** The event service moves no seats, approval aside *)

Lemma guards_stampTypes ev types : guards neutral (stampTypes ev types).
Proof. induction types; cbn [stampTypes]; guards_solve. Qed.

Lemma guards_CreateTicketTypes types :
  guards neutral (EventRepo_CreateTicketTypes (X := ticketE) types).
Proof. induction types; cbn [EventRepo_CreateTicketTypes]; guards_solve. Qed.

Lemma guards_CreateEvent org ti de vn va cap st en types :
  guards neutral (CreateEvent org ti de vn va cap st en types).
Proof.
  unfold CreateEvent. repeat case_bool_decide; [done|done|].
  apply guards_bind; [done|]. intros id. unfold EventRepo_CreateEvent.
  apply guards_bind; [guards_solve|]. intros []; [|done].
  apply guards_bind; [apply guards_stampTypes|]. intros ts.
  apply guards_bind; [apply guards_CreateTicketTypes|]. by intros [].
Qed.

Lemma guards_UpdateEvent ev org ti de st en : guards neutral (UpdateEvent ev org ti de st en).
Proof. unfold UpdateEvent, EventRepo_FindEventByID, EventRepo_UpdateEvent. guards_solve. Qed.

Lemma guards_RejectEvent ev admin reason : guards neutral (RejectEvent ev admin reason).
Proof. unfold RejectEvent, EventRepo_FindEventByID, EventRepo_UpdateEvent. guards_solve. Qed.

Lemma guards_CancelEvent ctx ev u : guards neutral (CancelEvent ctx ev u).
Proof. unfold CancelEvent, EventRepo_FindEventByID, EventRepo_UpdateEvent. guards_solve. Qed.

Lemma guards_reprocess ctx ev u c : guards neutral (reprocessCancellation ctx ev u c).
Proof. unfold reprocessCancellation, EventRepo_FindEventByID. guards_solve. Qed.
End specs.

(** ** The theorem *)

(** What a ticketing instance runs once its events are approved: reservations
    whose items passed the request validation ([quantity] at least 1), the
    consumers of the three topics over any messages, and the event service. *)
Inductive ticketing_entry (s : BookingService) : tprog unit → Prop :=
  | TE_Reserve u em ev items :
      Forall (λ i, 1 ≤ bi_Quantity i) items →
      ticketing_entry s (discard (Reserve s u em ev items))
  | TE_completed ctx ms : ticketing_entry s (Consume (onPaymentCompleted ctx) ms)
  | TE_expired ms : ticketing_entry s (Consume onPaymentExpired ms)
  | TE_cancelled ms : ticketing_entry s (Consume onEventCancelled ms)
  | TE_CreateEvent org ti de vn va cap st en types :
      ticketing_entry s (discard (CreateEvent org ti de vn va cap st en types))
  | TE_UpdateEvent ev org ti de st en :
      ticketing_entry s (discard (UpdateEvent ev org ti de st en))
  | TE_RejectEvent ev admin reason :
      ticketing_entry s (discard (RejectEvent ev admin reason))
  | TE_CancelEvent ctx ev u : ticketing_entry s (discard (CancelEvent ctx ev u))
  | TE_reprocess ctx ev u c :
      ticketing_entry s (discard (reprocessCancellation ctx ev u c)).

Lemma safe_discard {A} (p : tprog A) :
  twp p [] (λ _, True) (λ _ _ _, True) →
  safe steady seats_inv items_kept (discard p) [] (λ _, True).
Proof. intros Hp. unfold safe, discard. by apply wp_bind. Qed.

Lemma safe_neutral {A} (p : tprog A) :
  guards neutral p → safe steady seats_inv items_kept (discard p) [] (λ _, True).
Proof. intros Hp. apply safe_discard. by apply wp_neutral. Qed.

Lemma ticketing_entry_safe s p :
  cl_url_ok (bs_paymentClient s) = true → ticketing_entry s p →
  safe steady seats_inv items_kept p [] (λ _, True).
Proof.
  intros Hurl [| | | | | | | |].
  - by apply safe_discard, safe_Reserve.
  - apply safe_Consume, safe_onPaymentCompleted.
  - apply safe_Consume, safe_onPaymentExpired.
  - apply safe_Consume, safe_onEventCancelled.
  - apply safe_neutral, guards_CreateEvent.
  - apply safe_neutral, guards_UpdateEvent.
  - apply safe_neutral, guards_RejectEvent.
  - apply safe_neutral, guards_CancelEvent.
  - apply safe_neutral, guards_reprocess.
Qed.

Lemma seats_inv_bound d L id :
  seats_inv d L → 0 ≤ seat_avail d id ∧ seat_avail d id + held d id ≤ seat_total d id.
Proof.
  intros HL. destruct (si_count _ _ HL id) as [H0 Hle].
  pose proof (holds_nonneg L id (si_holds _ _ HL)). lia.
Qed.

(** Seats are never oversold: however reservations, payment callbacks,
    expiries, event cancellations and event edits interleave, and whichever
    statements fail, no ticket type ever has more seats on its counter and in
    pending or confirmed bookings than its quantity, and no counter goes
    negative.  The start state is any in which that holds; the payment service
    is reachable and statements that report an error had no effect. *)
Lemma no_oversell (s : BookingService) (d0 d : TicketDB) (id : string) :
  cl_url_ok (bs_paymentClient s) = true → seats_inv d0 [] →
  reachable steady (ticketing_entry s) d0 d →
  0 ≤ seat_avail d id ∧ seat_avail d id + held d id ≤ seat_total d id.
Proof.
  intros Hurl HI Hreach.
  eapply (reachable_inv steady seats_inv items_kept) in Hreach as [L HL];
    [by eapply seats_inv_bound|by intros; eapply ticketing_entry_safe|done].
Qed.

(** *** Deciding the accounting of a concrete database *)

Definition seats_inv_b (d : TicketDB) : bool :=
  forallb (λ '(id, ty), bool_decide (0 ≤ tt_Available ty) &&
     bool_decide (tt_Available ty + held d id ≤ tt_Quantity ty)) (map_to_list (ticket_types d)) &&
  forallb (λ '(k, i), bool_decide (ir_id i = k) && bool_decide (0 < ir_quantity i) &&
     bool_decide (is_Some (bookings d !! ir_booking_id i)) &&
     bool_decide (is_Some (ticket_types d !! ir_ticket_type_id i)))
    (map_to_list (booking_items d)).

Lemma seats_inv_b_sound d : seats_inv_b d = true → seats_inv d [].
Proof.
  intros Hb. apply andb_true_iff in Hb as [Ht Hi].
  rewrite forallb_forall in Ht, Hi.
  assert (∀ k i, booking_items d !! k = Some i → ir_id i = k ∧ 0 < ir_quantity i ∧
    is_Some (bookings d !! ir_booking_id i) ∧ is_Some (ticket_types d !! ir_ticket_type_id i)) as Hit.
  { intros k i Hk. specialize (Hi (k, i)). rewrite <- list_elem_of_In in Hi.
    apply elem_of_map_to_list in Hk. specialize (Hi Hk). cbn in Hi. by bool_cases. }
  split; [| |done].
  - intros id. unfold seat_avail, seat_total. destruct (ticket_types d !! id) as [ty|] eqn:Hty.
    + specialize (Ht (id, ty)). rewrite <- list_elem_of_In in Ht.
      apply elem_of_map_to_list in Hty. specialize (Ht Hty). cbn in Ht. bool_cases.
      unfold holds, lsum. cbn. lia.
    + cbn. unfold holds, lsum. cbn. assert (held d id = 0) as ->; [|lia].
      apply msum_0. intros k i Hk. destruct (Hit k i Hk) as (_ & _ & _ & [ty' Hty']).
      unfold item_seats. rewrite bool_decide_eq_false_2; [done|]. congruence.
  - intros k i Hk. destruct (Hit k i Hk) as (? & ? & ? & _). done.
Qed.

Lemma sample_allowed : allowed steady sample_oracle.
Proof. split; [done|]. intros n A []. cbn. eexists. split; [done|lia]. Qed.

Lemma no_oversell_witness :
  0 ≤ seat_avail reserved_db "vip" ∧
  seat_avail reserved_db "vip" + held reserved_db "vip" ≤ seat_total reserved_db "vip".
Proof.
  apply (no_oversell sample_service sample_db reserved_db "vip").
  - reflexivity.
  - apply seats_inv_b_sound. vm_compute. reflexivity.
  - replace reserved_db with (run sample_oracle
      (discard (Reserve sample_service "u" "u@mail" "ev" sample_items)) 0 sample_db).1.2
      by (vm_compute; reflexivity).
    apply reachable_run; [apply sample_allowed| |by exists []].
    apply TE_Reserve. repeat constructor; cbn; lia.
Defined.
