(* ===== verification/Races.v ===== *)
(** * Executions that leave the seat accounting

    The hypotheses of [SeatSafety.no_oversell] are needed: the executions of
    this file drop one of them each, and sell a seat twice. *)
From S2P Require Import Prelude Effects Dto Outbox TicketDB Booking TicketSamples Event Seats SeatSafety.

(** Every program of the service, the approval of events included. *)
Inductive service_entry (s : BookingService) : tprog unit → Prop :=
  | SE_ticketing p : ticketing_entry s p → service_entry s p
  | SE_Approve ev admin : service_entry s (discard (ApproveEvent ev admin)).

(** The payment service may answer anything; statements still report truly. *)
Definition payment_any : envspec ticketE :=
  {| e_fault := no_lost_ack; e_ext := λ _ _ _, True |}.

Lemma calm_allowed_any now answer : allowed payment_any (calm now answer).
Proof. by split. Qed.

Definition status_of (d : TicketDB) (bid : string) : option string :=
  br_status <$> bookings d !! bid.

Definition vip_only : list BookingItem := [sample_item "vip" 2 500].
Definition reserve_vip (user : string) : tprog (res Reservation) :=
  Reserve sample_service user (user +:+ "@mail") "ev" vip_only.
Definition completed (booking : string) : message :=
  mkMessage "payment.completed" booking
    (PPaymentCompleted (mkPaymentCompleted "txn" booking "ev" "" sample_time)).

Lemma reserve_vip_entry u : ticketing_entry sample_service (discard (reserve_vip u)).
Proof. apply TE_Reserve. repeat constructor. cbn. lia. Qed.

Lemma reachable_refl {D X} (ev : envspec X) (entry : prog (eff D X) unit → Prop) d :
  reachable ev entry d d.
Proof. by exists []. Qed.

(** *** An answer lost between payment and ticketing

    Ticketing sees an error after payment has created the transaction: the
    rollback returns the seats, but the booking cannot be deleted while it has
    items and stays payable. *)
Definition orphaned_db : TicketDB :=
  (run outage_oracle (discard (reserve_vip "alice")) 0 sample_db).1.2.
Definition resold_db : TicketDB :=
  (run sample_oracle (discard (reserve_vip "bob")) 100 orphaned_db).1.2.
Definition both_paid_db : TicketDB :=
  (run sample_oracle (Consume (onPaymentCompleted background) [completed "id-3"; completed "id-103"])
     200 resold_db).1.2.

(** The rollback of a reservation whose payment call failed leaves the
    booking behind: there is an execution in which two users hold confirmed
    bookings for both VIP seats of an event that has two. *)
Theorem lost_payment_answer_oversells :
  reachable payment_any (ticketing_entry sample_service) sample_db both_paid_db ∧
  status_of both_paid_db "id-3" = Some "confirmed" ∧
  status_of both_paid_db "id-103" = Some "confirmed" ∧
  held both_paid_db "vip" = 4 ∧ seat_total both_paid_db "vip" = 2.
Proof.
  split; [|vm_compute; done].
  apply reachable_run; [apply calm_allowed_any|apply TE_completed|].
  apply reachable_run; [apply calm_allowed_any|apply reserve_vip_entry|].
  apply reachable_run; [apply calm_allowed_any|apply reserve_vip_entry|].
  apply reachable_refl.
Qed.

(** *** Two approvals of one event

    [ApproveEvent] checks the status it read and then writes the row and the
    counters without looking again. *)
Definition pending_db : TicketDB := sample_db_with EventStatusPending 0 0.
Definition approve : tprog unit := discard (ApproveEvent "ev" "admin").
Definition racing_programs : list (tprog unit) :=
  [approve; approve; discard (reserve_vip "alice"); discard (reserve_vip "bob")].
(** The first approval reads the event, the second runs to its end, Alice
    reserves, the first resumes, Bob reserves. *)
Definition racing_steps : list nat :=
  ([0] ++ replicate 20 1 ++ replicate 20 2 ++ replicate 20 0 ++ replicate 20 3)%nat.
Definition double_approved_db : TicketDB :=
  (schedule sample_oracle racing_steps 0 racing_programs pending_db).2.

(** Approval is not atomic: when two administrators approve an event at
    the same time, the counters are reset under bookings already made, and the
    seats are sold twice, every statement and every payment call succeeding. *)
Theorem double_approval_oversells :
  reachable steady (service_entry sample_service) pending_db double_approved_db ∧
  held double_approved_db "vip" = 4 ∧ seat_total double_approved_db "vip" = 2.
Proof.
  split; [|vm_compute; done].
  apply schedule_reachable; [apply sample_allowed|].
  repeat apply Forall_cons_2; [apply SE_Approve..| | |constructor];
    apply SE_ticketing, reserve_vip_entry.
Qed.

(** *** An edit that read the event before its approval *)
Definition edit : tprog unit :=
  discard (UpdateEvent "ev" "eo" "New title" "" (sample_time + Hour) (sample_time + 2 * Hour)).
Definition edited_db : TicketDB :=
  (schedule sample_oracle ([0] ++ replicate 20 1 ++ replicate 20 2 ++ replicate 20 0)%nat 0
     [edit; approve; discard (reserve_vip "alice")] pending_db).2.

(** [UpdateEvent] writes back the status it read: an edit that overlaps an
    approval puts an event whose seats are on sale back to pending, its
    reviewer erased. *)
Theorem stale_edit_unpublishes :
  reachable steady (service_entry sample_service) pending_db edited_db ∧
  held edited_db "vip" = 2 ∧
  (λ e, (ev_Status e, ev_ReviewedBy e)) <$> events edited_db !! "ev" =
    Some (EventStatusPending, None).
Proof.
  split; [|vm_compute; done].
  apply schedule_reachable; [apply sample_allowed|].
  repeat apply Forall_cons_2;
    [apply SE_ticketing, TE_UpdateEvent|apply SE_Approve|apply SE_ticketing, reserve_vip_entry|constructor].
Qed.
