(* ===== verification/ReserveSpec.v ===== *)
(** * What a reservation does, from start to end

    The behaviour of [Reserve] on its branches, for one call running on its
    own: what success means for the tables, that it succeeds when it should,
    that a sold-out request leaves no trace, and how it fails to clean up. *)
From S2P Require Import Prelude Effects Dto Outbox TicketDB Booking TicketSamples Event Seats SeatSafety.

(** The ticket type without its counter. *)
Definition static (ty : TicketType) : TicketType := set_available 0 ty.

(** [d'] is [d] with the seats of [its] taken off the counters. *)
Record taken (its : list BookingItem) (d d' : TicketDB) : Prop := {
  tk_bookings : bookings d' = bookings d;
  tk_items : booking_items d' = booking_items d;
  tk_events : events d' = events d;
  tk_outbox : ticket_outbox d' = ticket_outbox d;
  tk_static id : static <$> ticket_types d' !! id = static <$> ticket_types d !! id;
  tk_avail id : seat_avail d' id = seat_avail d id - holds (hold_item <$> its) id;
}.

Definition priced (d : TicketDB) (i : BookingItem) : Prop :=
  tt_PriceRupiah <$> ticket_types d !! bi_TicketTypeID i = Some (bi_UnitPriceRupiah i).

Lemma taken_refl d : taken [] d d.
Proof. split; try done. intros id. unfold holds, lsum. cbn. lia. Qed.

Lemma taken_app its1 its2 d1 d2 d3 :
  taken its1 d1 d2 → taken its2 d2 d3 → taken (its1 ++ its2) d1 d3.
Proof.
  intros [] []. split; [congruence..|]. intros id.
  rewrite tk_avail1, tk_avail0, fmap_app, holds_app. lia.
Qed.

Lemma taken_trans i its d1 d2 d3 : taken [i] d1 d2 → taken its d2 d3 → taken (i :: its) d1 d3.
Proof. apply (taken_app [i]). Qed.

(** Equal rows up to the counter agree on every other column. *)
Lemma static_col {A} (f : TicketType → A) d d' id :
  (∀ ty, f (static ty) = f ty) →
  static <$> ticket_types d' !! id = static <$> ticket_types d !! id →
  f <$> ticket_types d' !! id = f <$> ticket_types d !! id.
Proof.
  intros Hf. destruct (ticket_types d !! id) as [x|], (ticket_types d' !! id) as [y|];
    cbn; try done. intros Hs%(inj Some). f_equal. by rewrite <- (Hf x), <- (Hf y), Hs.
Qed.

Lemma seat_total_static d d' id :
  static <$> ticket_types d' !! id = static <$> ticket_types d !! id →
  seat_total d' id = seat_total d id.
Proof.
  intros Hs%(static_col tt_Quantity); [|done]. unfold seat_total.
  destruct (ticket_types d !! id), (ticket_types d' !! id); cbn in *; congruence.
Qed.

Lemma taken_price its d d' i : taken its d d' → priced d' i ↔ priced d i.
Proof.
  intros Ht. unfold priced. by rewrite (static_col tt_PriceRupiah d d' _ (λ _, eq_refl) (tk_static _ _ _ Ht _)).
Qed.

Lemma taken_insert d i ty :
  ticket_types d !! bi_TicketTypeID i = Some ty →
  taken [i] d (set_ticket_types (<[bi_TicketTypeID i :=
    set_available (tt_Available ty - bi_Quantity i) ty]> (ticket_types d)) d).
Proof.
  intros Hty. split; try done.
  - intros id. cbn. rewrite lookup_insert. case_decide as Heq; [|done].
    subst. by rewrite Hty.
  - intros id. rewrite seat_avail_insert. cbn. unfold holds, hold_seats, lsum. cbn.
    case_decide as Heq.
    + rewrite bool_decide_eq_true_2 by done. subst. unfold seat_avail. rewrite Hty. cbn. lia.
    + rewrite bool_decide_eq_false_2 by done. lia.
Qed.

(** ** Success *)

Section success.
Context (o : oracle ticketE).

Lemma runs_GetPrice ev id n d Φ :
  (∀ p, tt_PriceRupiah <$> ticket_types d !! id = Some p → Φ (S n) d (Ok p)) →
  (∀ e, Φ (S n) d (Err e)) → runs o (SeatCounter_GetPrice ev id) n d Φ.
Proof.
  intros Hok Herr. unfold SeatCounter_GetPrice. apply runs_bind.
  apply runs_query; [done| |].
  - cbn. destruct (tt_PriceRupiah <$> _) as [p|] eqn:Hp; cbn; [by apply Hok|].
    apply Herr.
  - intros e. cbn. destruct (errors_Is e NoRows); apply Herr.
Qed.

Lemma runs_seat_Reserve ev i n d Φ :
  (∀ d', taken [i] d d' → Φ (S n) d' (Ok ())) →
  (∀ d' e, Φ (S n) d' (Err e)) →
  runs o (SeatCounter_Reserve ev (bi_TicketTypeID i) (bi_Quantity i)) n d Φ.
Proof.
  intros Hok Herr. unfold SeatCounter_Reserve. apply runs_bind.
  apply runs_sql; [|by intros e; apply Herr..].
  unfold counted. destruct (reserve_seats _ _ d) as [[d' k]|e] eqn:Hr; [|apply Herr].
  unfold reserve_seats in Hr. case_bool_decide; [|done].
  apply update_ticket_type_Ok in Hr as [[-> ->]|(-> & ty & Hty & _ & _ & ->)].
  - apply Herr.
  - by apply Hok, taken_insert.
Qed.

Lemma runs_reserveLoop ev items todo n d Φ :
  (∀ n' d', taken todo d d' → Forall (priced d) todo → Φ n' d' (Ok ())) →
  (∀ n' d' e, Φ n' d' (Err e)) →
  runs o (reserveLoop ev items todo) n d Φ.
Proof.
  revert n d. induction todo as [|i todo IH]; intros n d Hok Herr.
  { apply Hok; [apply taken_refl|done]. }
  cbn [reserveLoop]. apply runs_bind, runs_GetPrice; [|by intros; apply Herr].
  intros p Hp. case_bool_decide as Hpi; cbn [negb]; [|apply Herr]. subst p.
  apply runs_bind, runs_seat_Reserve.
  - intros d1 H1. apply IH; [|done]. intros n' d' H2 Hpr. apply Hok.
    + by eapply taken_trans.
    + constructor; [done|]. eapply Forall_impl; [exact Hpr|]. intros j. by apply (taken_price _ _ _ _ H1).
  - intros d1 e. apply runs_bind. unfold runs. destruct (run o _ _ d1) as [[]]. apply Herr.
Qed.

(** Programs that only ask for ids and call other systems. *)
Fixpoint no_sql {A} (p : tprog A) : Prop :=
  match p with
  | Ret _ => True
  | Vis e k => match e with Sql _ => False | _ => True end ∧ ∀ a, no_sql (k a)
  end.

Lemma runs_no_sql {A} (p : tprog A) n d Φ :
  no_sql p → (∀ n' a, Φ n' d a) → runs o p n d Φ.
Proof.
  unfold runs. revert n. induction p as [a|Y e k IH]; intros n Hp HΦ; [apply HΦ|].
  destruct Hp as [He Hk]. destruct e; cbn; [done|..]; apply IH; auto.
Qed.

Lemma no_sql_bind {A B} (f : A → tprog B) p :
  no_sql p → (∀ a, no_sql (f a)) → no_sql (prog_bind f p).
Proof.
  intros Hp Hf. induction p as [a|Y e k IH]; cbn; [apply Hf|].
  destruct Hp as [He Hk]. split; [done|]. intros a. apply IH, Hk.
Qed.

Lemma no_sql_client c bid ev u em amt exp :
  no_sql (Client_InitiateTxnForBooking c bid ev u em amt exp).
Proof.
  unfold Client_InitiateTxnForBooking. destruct (negb _); [done|].
  generalize 0%nat 2%nat. intros a f. revert a.
  induction f as [|f IH]; intros a; [done|]. cbn [attempt_loop].
  apply no_sql_bind; [done|]. intros [code|e]; repeat case_match; done || apply IH.
Qed.

Definition stamped (bid : string) (i i' : BookingItem) : Prop := ∃ id, i' = stampItem bid id i.

Lemma runs_stampItems bid items n d Φ :
  (∀ n' items', Forall2 (stamped bid) items items' → Φ n' d items') →
  runs o (stampItems bid items) n d Φ.
Proof.
  revert n Φ. induction items as [|i items IH]; intros n Φ HΦ; [by apply HΦ|].
  cbn [stampItems]. apply runs_bind, runs_uuid.
  apply runs_bind, IH. intros n' items' Hst. apply HΦ. constructor; [by eexists|done].
Qed.

Lemma insert_items_Ok its d d' :
  insert_items its d = Ok d' →
  d' = set_booking_items (foldl (λ m i, <[ir_id i := i]> m) (booking_items d) its) d ∧
  Forall (λ i, item_check i = true) its ∧ NoDup (ir_id <$> its) ∧
  Forall (λ i, booking_items d !! ir_id i = None) its.
Proof.
  revert d. induction its as [|i its IH]; intros d; cbn.
  { intros [= <-]. by destruct d; split_and!; [|constructor..]. }
  unfold insert_item. case_bool_decide; [cbn|done]. destruct (item_check i) eqn:Hck; [cbn|done].
  case_bool_decide as Hfree; [done|]. case_bool_decide; [|done].
  apply eq_None_not_Some in Hfree. intros (-> & Hcks & Hnd & Hfr)%IH. cbn in *.
  assert (∀ j, j ∈ its → ir_id i ≠ ir_id j ∧ booking_items d !! ir_id j = None) as Hj.
  { intros j Hj. eapply Forall_forall in Hfr; [|done].
    by apply lookup_insert_None in Hfr as [??]. }
  split_and!; [done|by constructor| |].
  - constructor; [|done]. intros (j & Heq & Hin)%list_elem_of_fmap. by destruct (Hj j Hin).
  - constructor; [done|]. apply Forall_forall. intros j Hin. by apply Hj.
Qed.

(** The state a successful reservation leaves. *)
Record reserved (u ev : string) (items : list BookingItem) (d d' : TicketDB) (r : Reservation) : Prop := {
  rv_items : items ≠ [] ∧ Forall (priced d) items;
  rv_user : rs_UserID r = u;
  rv_event : rs_EventID r = ev ∧ is_Some (events d !! ev);
  rv_status : rs_Status r = "pending";
  rv_total : rs_TotalRupiah r = calculateTotal items;
  rv_stamped : Forall2 (stamped (rs_BookingID r)) items (rs_Items r);
  rv_fresh : bookings d !! rs_BookingID r = None ∧ NoDup (bi_ID <$> rs_Items r) ∧
    Forall (λ i, booking_items d !! bi_ID i = None) (rs_Items r);
  rv_checked : Forall (λ i, item_check (item_row i) = true) (rs_Items r);
  rv_bookings : ∃ t, bookings d' = <[rs_BookingID r :=
    mkBookingRow (rs_BookingID r) u ev "pending" (Some (pg_timestamp (rs_ExpiresAt r))) t]>
    (bookings d);
  rv_rows : booking_items d' =
    foldl (λ m i, <[ir_id i := i]> m) (booking_items d) (item_row <$> rs_Items r);
  rv_avail id : seat_avail d' id = seat_avail d id - holds (hold_item <$> items) id;
  rv_static id : static <$> ticket_types d' !! id = static <$> ticket_types d !! id;
  rv_rest : events d' = events d ∧ ticket_outbox d' = ticket_outbox d;
}.

Lemma runs_Reserve s u em ev items d :
  runs o (Reserve s u em ev items) 0 d (λ _ d' r,
    match r with Ok r => reserved u ev items d d' r | Err _ => True end).
Proof.
  unfold Reserve. case_bool_decide as Hne; [done|].
  apply runs_bind, runs_reserveLoop; [|done]. intros n1 d1 Ht Hpr.
  apply runs_bind, runs_now, runs_bind, runs_uuid, runs_bind, runs_now.
  set (bid := o_uuid o _).
  apply runs_bind, runs_stampItems. intros n2 items' Hst.
  apply runs_bind. unfold BookingRepo_Create, create_booking.
  assert (∀ p : tprog unit, ∀ n d e, runs o (prog_bind (λ _, Ret (Err e)) p) n d
    (λ _ _ (r : res Reservation), match r with Ok _ => False | Err _ => True end)) as Hfail.
  { intros p n d' e. apply runs_bind. unfold runs. by destruct (run o p n d') as [[]]. }
  apply runs_sql; [|by intros e; eapply runs_mono, Hfail; intros ?? [] ?..].
  cbn beta. unfold transaction. destruct (insert_booking _ d1) as [d2|e] eqn:Hb;
    [|cbn; eapply runs_mono, Hfail; intros ?? [] ?; done].
  destruct (insert_items _ d2) as [d3|e] eqn:Hi;
    [|cbn; eapply runs_mono, Hfail; intros ?? [] ?; done].
  cbn [fst snd]. apply runs_bind, runs_no_sql; [apply no_sql_client|].
  intros n3 [_|e]; [|apply runs_bind; unfold runs at 1; destruct (run o _ _ _) as [[]];
    eapply runs_mono, Hfail; intros ?? [] ?; done].
  unfold insert_booking in Hb. destruct (booking_check _); [cbn in Hb|done].
  case_bool_decide as Hfresh; [done|]. case_bool_decide as Hev; [|done]. injection Hb as <-.
  apply insert_items_Ok in Hi as (-> & Hck & Hnd & Hfr). cbn in *.
  rewrite <- list_fmap_compose in Hnd. rewrite Forall_fmap in Hck, Hfr.
  destruct Ht. rewrite tk_items0 in *. rewrite tk_bookings0, tk_events0 in *.
  split; cbn; try done.
  - split_and!; [by apply eq_None_not_Some|done|done].
  - eexists. done.
Qed.
End success.

(** ** Totals *)

Definition item_total (i : BookingItem) : Z := bi_UnitPriceRupiah i * bi_Quantity i.

Lemma calculateTotal_sum items : calculateTotal items = wrap64 (lsum item_total items).
Proof.
  unfold calculateTotal. change 0 with (wrap64 0) at 1.
  replace (lsum item_total items) with (0 + lsum item_total items) by lia.
  generalize 0. induction items as [|i items IH]; intros z; unfold lsum; cbn.
  { f_equal. lia. }
  unfold int_add, int_mul. rewrite wrap64_add_l, wrap64_add_r, IH. f_equal.
  unfold lsum, item_total. lia.
Qed.

(** ** Reading a reservation back *)

Lemma item_row_stamped bid i i' :
  stamped bid i i' → in_int64 (item_total i) →
  item_row i' = mkItemRow (bi_ID i') bid (bi_TicketTypeID i) (bi_Quantity i) (item_total i).
Proof.
  intros [id ->] Hin. unfold item_row. cbn. unfold int_mul.
  rewrite wrap64_id by done. unfold item_total. by case_bool_decide.
Qed.

Lemma scan_item_row bid i i' :
  stamped bid i i' → in_int64 (item_total i) → item_check (item_row i') = true →
  scan_item (item_row i') = i'.
Proof.
  intros Hst Hin Hck. rewrite (item_row_stamped bid i i') in * by done.
  unfold item_check in Hck. bool_cases. cbn in *. unfold scan_item. cbn.
  rewrite bool_decide_eq_true_2 by done. unfold item_total.
  rewrite Z.quot_mul by lia. destruct Hst as [id ->]. unfold stampItem. cbn.
  unfold int_mul. by rewrite wrap64_id.
Qed.

Lemma scan_stamped bid items items' :
  Forall2 (stamped bid) items items' → Forall (λ i, in_int64 (item_total i)) items →
  Forall (λ i, item_check (item_row i) = true) items' →
  scan_item ∘ item_row <$> items' = items'.
Proof.
  induction 1 as [|i i' l l' Hi Hst IH]; intros Htot Hck; [done|].
  apply Forall_cons in Htot as [Ht Htot], Hck as [Hc Hck].
  cbn. rewrite (scan_item_row bid i i') by done. f_equal. by apply IH.
Qed.

Lemma total_stamped bid items items' :
  Forall2 (stamped bid) items items' → Forall (λ i, in_int64 (item_total i)) items →
  lsum ir_total_price_rupiah (item_row <$> items') = lsum item_total items.
Proof.
  induction 1 as [|i i' l l' Hi Hst IH]; intros Htot; [done|].
  apply Forall_cons in Htot as [Ht Htot]. unfold lsum in *. cbn -[item_row].
  rewrite (item_row_stamped bid i i') by done. cbn -[item_row]. by rewrite IH.
Qed.

Lemma lookup_insert_rows (m : gmap string itemRow) its k i :
  NoDup (ir_id <$> its) → Forall (λ i, m !! ir_id i = None) its →
  foldl (λ m i, <[ir_id i := i]> m) m its !! k = Some i ↔
  m !! k = Some i ∨ (i ∈ its ∧ ir_id i = k).
Proof.
  revert m. induction its as [|j its IH]; intros m Hnd Hfr; cbn.
  { split; [by left|]. by intros [?|[?%elem_of_nil ?]]. }
  apply NoDup_cons in Hnd as [Hj Hnd]. apply Forall_cons in Hfr as [Hjm Hfr].
  rewrite IH; [|done|].
  - rewrite lookup_insert_Some, elem_of_cons. split.
    + intros [[[? ?]|[? ?]]|[? ?]]; [subst; auto|auto|auto].
    + intros [Hm|[[->|Hin] ?]]; [|by auto|by auto].
      left. right. split; [congruence|done].
  - apply Forall_forall. intros j' Hj'. rewrite lookup_insert_ne.
    + by eapply Forall_forall in Hfr.
    + intros Heq. apply Hj. rewrite Heq. by apply list_elem_of_fmap_2.
Qed.

(** The items of a booking no older item mentions are the ones just inserted. *)
Lemma items_of_inserted d bid its :
  (∀ k i, booking_items d !! k = Some i → ir_booking_id i ≠ bid) →
  NoDup (ir_id <$> its) → Forall (λ i, booking_items d !! ir_id i = None) its →
  Forall (λ i, ir_booking_id i = bid) its →
  ∀ d', booking_items d' = foldl (λ m i, <[ir_id i := i]> m) (booking_items d) its →
  items_of bid d' ≡ₚ its.
Proof.
  intros Hold Hnd Hfr Hbid d' Hd'. apply NoDup_Permutation.
  - unfold items_of, rows. apply (NoDup_fmap_1 ir_id).
    set (m := filter _ (booking_items d')).
    assert (ir_id <$> (map_to_list m).*2 = (map_to_list m).*1) as ->;
      [|apply NoDup_fst_map_to_list].
    rewrite <- list_fmap_compose. apply list_fmap_ext. intros n [k i] Hki. cbn.
    apply list_elem_of_lookup_2, elem_of_map_to_list in Hki.
    apply map_lookup_filter_Some in Hki as [Hki Hb]. cbn in Hb.
    apply bool_decide_eq_true in Hb. rewrite Hd' in Hki.
    apply lookup_insert_rows in Hki as [Hki|[_ ?]]; [|done|done|done].
    by destruct (Hold k i Hki).
  - by eapply NoDup_fmap_1.
  - intros i. rewrite items_of_elem. rewrite Hd'. setoid_rewrite lookup_insert_rows; [|done|done].
    split.
    + intros (k & [Hk|[Hin _]] & Hb); [|done]. by destruct (Hold k i Hk).
    + intros Hin. exists (ir_id i). split; [auto|]. by eapply Forall_forall in Hbid.
Qed.

(** A booking as [FindByID] assembles it from the two tables. *)
Definition loaded (row : bookingRow) (its : list itemRow) : Booking :=
  foldl append_item (scan_booking row) its.

Lemma loaded_fields row its :
  loaded row its = mkBooking (br_id row) (br_user_id row) (br_event_id row) (br_status row)
    (br_expires_at row) (wrap64 (lsum ir_total_price_rupiah its)) "" "" (scan_item <$> its)
    (br_created_at row).
Proof.
  unfold loaded, scan_booking. change 0 with (wrap64 0) at 1.
  replace (lsum ir_total_price_rupiah its) with (0 + lsum ir_total_price_rupiah its) by lia.
  change (scan_item <$> its) with ([] ++ (scan_item <$> its)).
  generalize 0 ([] : list BookingItem).
  induction its as [|r its IH]; intros z l; unfold lsum; cbn.
  { rewrite app_nil_r. do 2 f_equal. lia. }
  unfold append_item at 2. cbn. unfold int_add. rewrite wrap64_add_l, IH. f_equal.
  - f_equal. unfold lsum. lia.
  - by rewrite <- (assoc (++)).
Qed.

Lemma runs_FindByID (o : oracle ticketE) bid n d Φ :
  (∀ row, bookings d !! bid = Some row →
     Φ (S (S n)) d (Ok (loaded row (items_of (br_id row) d)))) →
  (∀ n' e, Φ n' d (Err e)) →
  runs o (BookingRepo_FindByID bid) n d Φ.
Proof.
  intros Hok Herr. unfold BookingRepo_FindByID. apply runs_bind, runs_query; [done| |by intros; apply Herr].
  cbn [snd query]. destruct (bookings d !! bid) as [row|] eqn:Hrow; cbn [row_or_error]; [|apply Herr].
  unfold BookingRepo_loadItems. apply runs_bind, runs_query; [done| |by intros; apply Herr].
  cbn. by apply Hok.
Qed.

Lemma runs_FindByID_calm (o : oracle ticketE) bid n d Φ :
  faultless o →
  Φ (match bookings d !! bid with None => S n | Some _ => S (S n) end) d
    (match bookings d !! bid with
     | Some row => Ok (loaded row (items_of (br_id row) d))
     | None => Err NoRows
     end) →
  runs o (BookingRepo_FindByID bid) n d Φ.
Proof.
  intros Hcalm HΦ. unfold BookingRepo_FindByID. apply runs_bind, runs_sql_calm; [done|].
  cbn [fst snd query]. destruct (bookings d !! bid) as [row|]; cbn [row_or_error]; [|done].
  unfold BookingRepo_loadItems. by apply runs_bind, runs_sql_calm.
Qed.

(** ** The theorems *)

(** C16. What a successful reservation means, whatever failed on the way: every
    item was priced as its ticket type is; exactly the requested seats left
    the counters and nothing else of the ticket types changed; one pending
    booking under a fresh id, with the deadline of the reservation, and one
    row per item under fresh ids were added; the total is that of the request. *)
Theorem reserve_ok (o : oracle ticketE) s u em ev items d d' r :
  exec o (Reserve s u em ev items) d = (d', Ok r) → reserved u ev items d d' r.
Proof. intros Hex. exact (runs_exec o _ _ _ _ _ (runs_Reserve o s u em ev items d) Hex). Qed.

Lemma reserve_ok_witness : ∃ r,
  exec sample_oracle (Reserve sample_service "u" "u@mail" "ev" sample_items) sample_db =
    (reserved_db, Ok r) ∧ reserved "u" "ev" sample_items sample_db reserved_db r.
Proof.
  eexists. refine ((λ H, conj H (reserve_ok sample_oracle sample_service "u" "u@mail" "ev"
    sample_items sample_db reserved_db _ H)) _).
  vm_compute. reflexivity.
Defined.

(** C17. Round trip through the tables: after a successful reservation in a
    database whose seat accounting is right, whatever else failed in that call,
    and if the price of every item times its quantity fits 64 bits, a read of
    the booking in which no statement fails gives back its id, user, event,
    status, its items with their unit prices, recomputed from the stored
    totals, and the reservation's total. *)
Theorem reserve_then_get (o o' : oracle ticketE) s u em ev items d d' r :
  seats_inv d [] → faultless o' →
  Forall (λ i, in_int64 (item_total i)) items →
  exec o (Reserve s u em ev items) d = (d', Ok r) →
  ∃ b, exec o' (GetBooking (rs_BookingID r)) d' = (d', Ok b) ∧
    bk_ID b = rs_BookingID r ∧ bk_UserID b = u ∧ bk_EventID b = ev ∧
    bk_Status b = "pending" ∧ bk_ExpiresAt b = Some (pg_timestamp (rs_ExpiresAt r)) ∧
    bk_Items b ≡ₚ rs_Items r ∧ bk_TotalRupiah b = rs_TotalRupiah r.
Proof.
  intros HI Hcalm Htot Hex.
  destruct (runs_exec o _ _ _ _ _ (runs_Reserve o s u em ev items d) Hex)
    as [_ _ _ _ Hrt Hst (Hf & Hnd & Hfr) Hck [t Hb] Hrows _ _ _].
  set (bid := rs_BookingID r) in *.
  assert (items_of bid d' ≡ₚ item_row <$> rs_Items r) as Hits.
  { eapply items_of_inserted; [| | | |exact Hrows].
    - intros k i Hk Hbid. destruct (si_items _ _ HI k i Hk) as (_ & _ & Hs).
      rewrite Hbid, Hf in Hs. by destruct Hs.
    - by rewrite <- list_fmap_compose.
    - by apply Forall_fmap.
    - apply Forall_fmap. clear -Hst. induction Hst as [|i i' l l' [id ->]]; by constructor. }
  assert (exec o' (GetBooking bid) d' = (d', Ok (loaded (mkBookingRow bid u ev "pending"
    (Some (pg_timestamp (rs_ExpiresAt r))) t) (items_of bid d')))) as Hget.
  { apply exec_eq, runs_FindByID_calm; [done|]. rewrite Hb, lookup_insert_eq. done. }
  rewrite Hget, loaded_fields. eexists. split; [done|]. cbn. split_and!; try done.
  - change (scan_item <$> items_of bid d' ≡ₚ rs_Items r).
    by rewrite Hits, <- list_fmap_compose, (scan_stamped bid items).
  - by rewrite Hrt, calculateTotal_sum, Hits, (total_stamped bid items).
Qed.

Lemma reserve_then_get_witness : ∃ r b,
  exec sample_oracle (GetBooking (rs_BookingID r)) reserved_db = (reserved_db, Ok b) ∧
  bk_Items b ≡ₚ rs_Items r ∧ bk_TotalRupiah b = rs_TotalRupiah r.
Proof.
  eexists. edestruct (reserve_then_get sample_oracle sample_oracle sample_service "u" "u@mail"
    "ev" sample_items sample_db reserved_db) as (b & Hb & _ & _ & _ & _ & _ & Hi & Ht).
  - apply seats_inv_b_sound. vm_compute. reflexivity.
  - done.
  - repeat constructor; vm_compute; congruence.
  - vm_compute. reflexivity.
  - exists b. split_and!; [exact Hb|exact Hi|exact Ht].
Defined.

(** ** Progress *)

(** The request names a ticket type of the table, at its price, and asks for
    no more seats than are left. *)
Definition stocked (d : TicketDB) (i : BookingItem) : Prop :=
  ∃ ty, ticket_types d !! bi_TicketTypeID i = Some ty ∧ ticket_type_check ty = true ∧
    tt_PriceRupiah ty = bi_UnitPriceRupiah i ∧ in_int4 (bi_Quantity i) ∧
    0 < bi_Quantity i ≤ tt_Available ty.

Lemma stocked_priced d i : stocked d i → priced d i.
Proof. intros (ty & Hty & _ & Hp & _). unfold priced. by rewrite Hty, <- Hp. Qed.

Lemma counter_check q ty :
  ticket_type_check ty = true → 0 ≤ q ≤ tt_Available ty →
  ticket_type_check (set_available (tt_Available ty - q) ty) = true.
Proof.
  unfold ticket_type_check. intros Hck Hq. bool_cases. cbn.
  by rewrite !bool_decide_eq_true_2 by (cbn; lia).
Qed.

Lemma stocked_reserve d i :
  stocked d i →
  ∃ d', reserve_seats (bi_TicketTypeID i) (bi_Quantity i) d = Ok (d', 1) ∧ taken [i] d d' ∧
    ∀ j, bi_TicketTypeID j ≠ bi_TicketTypeID i → stocked d j → stocked d' j.
Proof.
  intros (ty & Hty & Hck & Hp & H4 & Hq). unfold reserve_seats, update_ticket_type.
  rewrite bool_decide_eq_true_2, Hty, bool_decide_eq_true_2, counter_check by (done || lia).
  eexists. split_and!; [done|by apply taken_insert|].
  intros j Hne (ty' & Hty' & ?). exists ty'. cbn. by rewrite lookup_insert_ne.
Qed.

Section progress.
Context (o : oracle ticketE) (Hcalm : faultless o).

Lemma runs_GetPrice_calm ev i n d Φ :
  priced d i → Φ (S n) d (Ok (bi_UnitPriceRupiah i)) →
  runs o (SeatCounter_GetPrice ev (bi_TicketTypeID i)) n d Φ.
Proof.
  intros Hp HΦ. unfold SeatCounter_GetPrice. apply runs_bind, runs_sql_calm; [done|].
  cbn. by rewrite Hp.
Qed.

Lemma runs_seat_Reserve_calm ev i n d d' Φ :
  reserve_seats (bi_TicketTypeID i) (bi_Quantity i) d = Ok (d', 1) → Φ (S n) d' (Ok ()) →
  runs o (SeatCounter_Reserve ev (bi_TicketTypeID i) (bi_Quantity i)) n d Φ.
Proof.
  intros Hr HΦ. unfold SeatCounter_Reserve. apply runs_bind, runs_sql_calm; [done|].
  unfold counted. rewrite Hr. done.
Qed.

Lemma runs_reserveLoop_calm ev items todo n d Φ :
  NoDup (bi_TicketTypeID <$> todo) → Forall (stocked d) todo →
  (∀ n' d', taken todo d d' → Φ n' d' (Ok ())) →
  runs o (reserveLoop ev items todo) n d Φ.
Proof.
  revert n d. induction todo as [|i todo IH]; intros n d Hnd Hst HΦ.
  { apply HΦ, taken_refl. }
  apply NoDup_cons in Hnd as [Hi Hnd]. apply Forall_cons in Hst as [Hsti Hst].
  cbn [reserveLoop]. apply runs_bind, runs_GetPrice_calm; [by apply stocked_priced|].
  rewrite bool_decide_eq_true_2 by done. cbn [negb].
  destruct (stocked_reserve d i Hsti) as (d1 & Hr & Ht1 & Hkeep).
  apply runs_bind. eapply runs_seat_Reserve_calm; [done|].
  apply IH; [done| |].
  - apply Forall_forall. intros j Hj. apply Hkeep.
    + intros Heq. apply Hi. rewrite <- Heq. by apply list_elem_of_fmap_2.
    + by eapply Forall_forall in Hst.
  - intros n' d' Ht2. apply HΦ. by eapply taken_trans.
Qed.

Context (Huuid : Inj (=) (=) (o_uuid o)).

Lemma runs_stampItems_fresh bid items n d Φ :
  (∀ n' items', Forall2 (stamped bid) items items' → NoDup (bi_ID <$> items') →
     Forall (λ i, ∃ k, (n ≤ k)%nat ∧ bi_ID i = o_uuid o k) items' → Φ n' d items') →
  runs o (stampItems bid items) n d Φ.
Proof.
  revert n Φ. induction items as [|i items IH]; intros n Φ HΦ; [apply HΦ; constructor|].
  cbn [stampItems]. apply runs_bind, runs_uuid, runs_bind, IH.
  intros n' items' Hst Hnd Hids. apply runs_ret, HΦ.
  - constructor; [by eexists|done].
  - cbn. constructor; [|done]. intros (j & Heq & Hj)%list_elem_of_fmap.
    eapply Forall_forall in Hids as (k & Hk & Hjk); [|done].
    rewrite Hjk in Heq. apply Huuid in Heq. lia.
  - constructor; [by exists n|]. eapply Forall_impl; [done|].
    intros j (k & Hk & Hjk). exists k. split; [lia|done].
Qed.

Lemma insert_items_success its d bid :
  Forall (λ i, in_int4 (ir_quantity i) ∧ item_check i = true ∧ ir_booking_id i = bid ∧
    booking_items d !! ir_id i = None) its →
  NoDup (ir_id <$> its) → is_Some (bookings d !! bid) → ∃ d', insert_items its d = Ok d'.
Proof.
  revert d. induction its as [|i its IH]; intros d Hits Hnd Hb; [by eexists|].
  apply Forall_cons in Hits as [(H4 & Hck & Hbid & Hfr) Hits].
  apply NoDup_cons in Hnd as [Hi Hnd]. cbn. unfold insert_item.
  rewrite bool_decide_eq_true_2, Hck, Hbid by done. cbn.
  rewrite bool_decide_eq_false_2, bool_decide_eq_true_2 by (done || by rewrite Hfr; intros []).
  apply IH; [|done|done]. apply Forall_forall. intros j Hj.
  eapply Forall_forall in Hits as (? & ? & ? & ?); [|done]. split_and!; [done..|].
  cbn. rewrite lookup_insert_ne; [done|]. intros Heq. apply Hi. rewrite Heq.
  by apply list_elem_of_fmap_2.
Qed.

Context (Hpay : ∀ n A (x : ticketE A), payment_up A x (o_ext o n A x)).

Lemma runs_payment_up c bid ev u em amt exp n d Φ :
  cl_url_ok c = true → (∀ n', Φ n' d (Ok ())) →
  runs o (Client_InitiateTxnForBooking c bid ev u em amt exp) n d Φ.
Proof.
  intros Hurl HΦ. unfold Client_InitiateTxnForBooking. rewrite Hurl. cbn [negb attempt_loop].
  apply runs_bind, runs_call.
  destruct (Hpay n _ (HttpDo (mkInitiateRequest (cl_baseURL c +:+ "/api/payments/internal")
    (cl_apiKey c) bid ev u em amt (rfc3339 exp)))) as (code & -> & Hcode).
  rewrite bool_decide_eq_true_2 by done. apply HΦ.
Qed.
End progress.

Lemma item_check_stamped bid i i' :
  stamped bid i i' → 0 < bi_Quantity i → 0 ≤ bi_UnitPriceRupiah i → in_int64 (item_total i) →
  item_check (item_row i') = true.
Proof.
  intros Hst Hq Hp Hin. rewrite (item_row_stamped bid i i') by done.
  unfold item_check. cbn. unfold item_total. by rewrite !bool_decide_eq_true_2 by nia.
Qed.

Lemma insert_booking_success b d :
  br_status b = "pending" → is_Some (br_expires_at b) → bookings d !! br_id b = None →
  is_Some (events d !! br_event_id b) →
  insert_booking b d = Ok (set_bookings (<[br_id b := b]> (bookings d)) d).
Proof.
  intros Hs He Hb Hev. unfold insert_booking, booking_check. rewrite Hs, Hb.
  rewrite (bool_decide_eq_true_2 (is_Some (br_expires_at b))) by done.
  by rewrite (bool_decide_eq_true_2 (is_Some (events d !! _))) by done.
Qed.

(** C19. A reservation succeeds when it should: with a database that executes
    every statement, the event in the table, at least one item, distinct ticket
    types at their listed prices and enough seats of each, fresh ids, no
    overflowing total and a payment service with a valid URL that accepts, the
    call returns the reservation. *)
Theorem reserve_succeeds (o : oracle ticketE) s u em ev items d :
  faultless o → Inj (=) (=) (o_uuid o) →
  (∀ n A (x : ticketE A), payment_up A x (o_ext o n A x)) →
  (∀ n, bookings d !! o_uuid o n = None ∧ booking_items d !! o_uuid o n = None) →
  cl_url_ok (bs_paymentClient s) = true → is_Some (events d !! ev) →
  items ≠ [] → NoDup (bi_TicketTypeID <$> items) → Forall (stocked d) items →
  Forall (λ i, in_int64 (item_total i)) items →
  ∃ d' r, exec o (Reserve s u em ev items) d = (d', Ok r).
Proof.
  intros Hcalm Huuid Hpay Hfresh Hurl Hev Hne Hnd Hst Htot.
  assert (runs o (Reserve s u em ev items) 0 d (λ _ _ r, is_ok r = true)) as Hruns.
  2:{ apply (exec_runs o _ _ (λ _ r, is_ok r = true)) in Hruns.
      destruct (exec o _ d) as [d' [r|e]]; [|done]. by exists d', r. }
  unfold Reserve. rewrite bool_decide_eq_false_2 by done.
  apply runs_bind, runs_reserveLoop_calm; [done..|]. intros n1 d1 Ht.
  apply runs_bind, runs_now, runs_bind, runs_uuid, runs_bind, runs_now, runs_bind.
  apply runs_stampItems_fresh; [done|]. intros n2 items' Hsti Hndi Hids.
  apply runs_bind, runs_sql_calm; [done|]. unfold create_booking, transaction.
  destruct (Hfresh (S n1)) as [Hb _]. rewrite insert_booking_success;
    [|done|by eexists|cbn; by rewrite (tk_bookings _ _ _ Ht)|cbn; by rewrite (tk_events _ _ _ Ht)].
  match goal with |- context [insert_items ?its ?d2] =>
    destruct (insert_items_success its d2 (o_uuid o (S n1))) as [d3 ->] end.
  - apply Forall_fmap, Forall_forall. intros i' Hi'.
    eapply Forall_forall in Hids as (k & _ & Hk); [|done].
    apply list_elem_of_lookup in Hi' as [j Hj].
    eapply Forall2_lookup_r in Hsti as (i & Hi & Hii); [|done].
    apply list_elem_of_lookup_2 in Hi.
    eapply Forall_forall in Hst as (ty & _ & Hck & Hp & H4 & Hq); [|done].
    eapply Forall_forall in Htot; [|done].
    unfold ticket_type_check in Hck. bool_cases.
    split_and!; cbn; [|eapply item_check_stamped; [done|lia|lia|done]| |].
    + by destruct Hii as [id ->].
    + by destruct Hii as [id ->].
    + rewrite (tk_items _ _ _ Ht), Hk. by apply Hfresh.
  - by rewrite <- list_fmap_compose.
  - cbn. rewrite lookup_insert_eq. by eexists.
  - cbn [fst snd]. apply runs_bind, runs_payment_up; done.
Qed.

#[export] Instance calm_uuid_inj : Inj (=) (=) calm_uuid.
Proof. intros n m Heq. unfold calm_uuid in Heq. by simplify_eq. Qed.

Lemma reserve_succeeds_witness : ∃ d' r,
  exec sample_oracle (Reserve sample_service "u" "u@mail" "ev" sample_items) sample_db =
    (d', Ok r).
Proof.
  apply (reserve_succeeds sample_oracle sample_service "u" "u@mail" "ev" sample_items sample_db).
  - done.
  - apply calm_uuid_inj.
  - intros n A []. cbn. eexists. split; [done|lia].
  - done.
  - reflexivity.
  - by eexists.
  - done.
  - apply NoDup_cons. split; [|apply NoDup_singleton].
    by intros [[=]|?%elem_of_nil]%elem_of_cons.
  - repeat apply Forall_cons_2; [exists (sample_vip 2)|exists (sample_reg 3)|constructor];
      (split_and!; [reflexivity..| | |]); vm_compute; try split; congruence.
  - repeat constructor; vm_compute; congruence.
Defined.

(** ** A sold-out request *)

(** The constraints of the table, and the width of its columns. *)
Definition types_wf (d : TicketDB) : Prop :=
  map_Forall (λ _ ty, ticket_type_check ty = true ∧ in_int4 (tt_Quantity ty)) (ticket_types d).

#[export] Instance types_wf_dec d : Decision (types_wf d).
Proof. unfold types_wf. apply _. Defined.

Lemma static_avail_eq x y : static x = static y → tt_Available x = tt_Available y → x = y.
Proof.
  destruct x, y. cbn. intros Hs ->. unfold static, set_available in Hs. cbn in Hs.
  by injection Hs as -> -> -> -> -> ->.
Qed.

Lemma taken_nil_eq d d' : taken [] d d' → d' = d.
Proof.
  intros [Hb Hi He Ho Hs Ha].
  assert (ticket_types d' = ticket_types d) as Ht.
  { apply map_eq. intros id. specialize (Hs id). specialize (Ha id).
    unfold seat_avail, holds, lsum in Ha. cbn in Ha.
    destruct (ticket_types d !! id) as [x|], (ticket_types d' !! id) as [y|]; try done.
    cbn in *. f_equal. apply static_avail_eq; [by apply (inj Some)|lia]. }
  destruct d, d'. cbn in *. congruence.
Qed.

Lemma holds_other its id :
  id ∉ (bi_TicketTypeID <$> its) → holds (hold_item <$> its) id = 0.
Proof.
  induction its as [|i its IH]; [done|]. cbn. intros [Hne Hnin]%not_elem_of_cons.
  rewrite holds_cons, IH by done. unfold hold_seats. cbn.
  by rewrite bool_decide_eq_false_2 by done.
Qed.

Definition known_type (d : TicketDB) (i : BookingItem) : Prop :=
  is_Some (ticket_types d !! bi_TicketTypeID i) ∧ in_int4 (bi_Quantity i).

(** Releasing the first of the items taken restores its counter. *)
Lemma taken_release i its d0 d :
  types_wf d0 → known_type d0 i → bi_TicketTypeID i ∉ (bi_TicketTypeID <$> its) →
  taken (i :: its) d0 d →
  ∃ d1, release_seats (bi_TicketTypeID i) (bi_Quantity i) d = Ok (d1, 1) ∧ taken its d0 d1.
Proof.
  intros Hwf [[ty0 Hty0] H4] Hnin Ht. pose proof Ht as [Hb Hi He Ho Hs Ha].
  destruct (Hwf _ _ Hty0) as [Hck H4q].
  pose proof (Hs (bi_TicketTypeID i)) as Hsi. pose proof (Ha (bi_TicketTypeID i)) as Hai.
  rewrite Hty0 in Hsi. unfold seat_avail in Hai. rewrite Hty0 in Hai.
  cbn [fmap list_fmap] in Hai. rewrite holds_cons, holds_other in Hai by done.
  unfold hold_seats in Hai. cbn in Hai. rewrite bool_decide_eq_true_2 in Hai by done.
  destruct (ticket_types d !! _) as [ty|] eqn:Hty; [|done]. cbn in Hai, Hsi.
  apply (inj Some) in Hsi.
  assert (set_available (Z.min (tt_Quantity ty) (tt_Available ty + bi_Quantity i)) ty = ty0)
    as Heq.
  { apply static_avail_eq; [by rewrite <- Hsi|]. cbn.
    assert (tt_Quantity ty = tt_Quantity ty0) by (by apply (f_equal tt_Quantity) in Hsi).
    unfold ticket_type_check in Hck. bool_cases. lia. }
  unfold release_seats, update_ticket_type. rewrite Hty, Heq, Hck.
  rewrite !bool_decide_eq_true_2; [|unfold ticket_type_check, in_int4 in *; bool_cases; lia|done].
  cbn. eexists. split; [done|]. split; try done.
  - intros id. cbn. rewrite lookup_insert. case_decide as Hid; [|apply Hs]. subst. by rewrite Hty0.
  - intros id. rewrite seat_avail_insert. case_decide as Hid.
    + subst id. rewrite holds_other by done. unfold seat_avail. rewrite Hty0. cbn. lia.
    + rewrite Ha. cbn [fmap list_fmap]. rewrite holds_cons. unfold hold_seats. cbn.
      rewrite bool_decide_eq_false_2 by done. lia.
Qed.

Section soldout.
Context (o : oracle ticketE) (Hcalm : faultless o).

Lemma runs_rollbackBefore ev item done todo n d0 d Φ :
  types_wf d0 → Forall (known_type d0) done →
  NoDup (bi_TicketTypeID <$> done ++ [item]) → taken done d0 d →
  (∀ n', Φ n' d0 ()) → runs o (rollbackBefore ev item (done ++ item :: todo)) n d Φ.
Proof.
  intros Hwf. revert n d. induction done as [|i done IH]; intros n d Hk Hnd Ht HΦ.
  { cbn [app rollbackBefore]. rewrite bool_decide_eq_true_2 by done.
    apply taken_nil_eq in Ht as ->. apply HΦ. }
  cbn in Hnd. apply NoDup_cons in Hnd as [Hi Hnd]. apply Forall_cons in Hk as [Hki Hk].
  rewrite fmap_app, not_elem_of_app in Hi. destruct Hi as [Hi1 [Hi2 _]%not_elem_of_cons].
  cbn [app rollbackBefore]. rewrite bool_decide_eq_false_2 by done.
  destruct (taken_release i done d0 d) as (d1 & Hr & Ht1); [done..|].
  apply runs_bind. unfold SeatCounter_Release. apply runs_bind, runs_sql_calm; [done|].
  unfold counted. rewrite Hr. by apply IH.
Qed.

Definition no_seats (e : error) : bool := errors_Is e ErrNoSeatsAvailable.

Lemma runs_reserveLoop_soldout ev done todo n d0 d Φ :
  types_wf d0 → Forall (known_type d0) done → NoDup (bi_TicketTypeID <$> done ++ todo) →
  taken done d0 d →
  (∀ n' d', Φ n' d' (Ok ())) →
  (∀ n' d' e, (no_seats e = true → d' = d0) → Φ n' d' (Err e)) →
  runs o (reserveLoop ev (done ++ todo) todo) n d Φ.
Proof.
  intros Hwf. revert n done d. induction todo as [|i todo IH]; intros n done d Hk Hnd Ht Hok Herr.
  { apply Hok. }
  cbn [reserveLoop]. apply runs_bind. unfold SeatCounter_GetPrice.
  apply runs_bind, runs_sql_calm; [done|]. cbn [fst snd query].
  destruct (tt_PriceRupiah <$> _) as [p|] eqn:Hp; cbn [row_or_error]; [|by apply Herr].
  apply runs_ret. case_bool_decide; cbn [negb]; [|by apply Herr].
  assert (NoDup (bi_TicketTypeID <$> done ++ [i])) as Hnd1.
  { replace (done ++ i :: todo) with ((done ++ [i]) ++ todo) in Hnd by (by rewrite <- (assoc (++))).
    rewrite fmap_app in Hnd. by apply NoDup_app in Hnd as [? _]. }
  apply runs_bind. unfold SeatCounter_Reserve. apply runs_bind, runs_sql_calm; [done|].
  unfold counted. destruct (reserve_seats _ _ d) as [[d1 k]|e] eqn:Hr.
  2:{ apply runs_ret, runs_bind. by eapply runs_rollbackBefore; [..|intros; apply Herr]. }
  unfold reserve_seats in Hr. case_bool_decide as H4; [|done].
  apply update_ticket_type_Ok in Hr as [[-> ->]|(-> & ty & Hty & _ & _ & ->)].
  { apply runs_ret, runs_bind. by eapply runs_rollbackBefore; [..|intros; apply Herr]. }
  apply runs_ret. cbn [bool_decide].
  replace (done ++ i :: todo) with ((done ++ [i]) ++ todo) in * by (by rewrite <- (assoc (++))).
  apply IH; [|done| |done|done].
  - apply Forall_app. split; [done|]. apply Forall_singleton. split; [|done].
    pose proof (tk_static _ _ _ Ht (bi_TicketTypeID i)) as Hs. rewrite Hty in Hs.
    destruct (ticket_types d0 !! _); [by eexists|done].
  - eapply taken_app; [done|]. by apply taken_insert.
Qed.

Lemma insert_booking_err b d e : insert_booking b d = Err e → no_seats e = false.
Proof.
  unfold insert_booking. destruct (negb _); [by intros [= <-]|].
  case_bool_decide; [by intros [= <-]|]. case_bool_decide; [done|by intros [= <-]].
Qed.

Lemma insert_items_err its d e : insert_items its d = Err e → no_seats e = false.
Proof.
  revert d. induction its as [|i its IH]; intros d; cbn; [done|].
  destruct (insert_item i d) as [d1|e1] eqn:Hi; [apply IH|]. intros [= <-].
  unfold insert_item in Hi. destruct (negb _); [by simplify_eq|].
  destruct (negb _); [by simplify_eq|]. repeat (case_bool_decide; [by simplify_eq|]).
  by simplify_eq.
Qed.

Lemma runs_client_err c bid ev u em amt exp n d Φ :
  (∀ n' r, (∀ e, r = Err e → no_seats e = false) → Φ n' d r) →
  runs o (Client_InitiateTxnForBooking c bid ev u em amt exp) n d Φ.
Proof.
  intros HΦ. unfold Client_InitiateTxnForBooking. destruct (negb _); [apply HΦ; by intros ? [= <-]|].
  generalize 0%nat 2%nat. intros a f. revert n a.
  induction f as [|f IH]; intros n a; cbn [attempt_loop]; [apply HΦ; by intros ? [= <-]|].
  apply runs_bind, runs_call. destruct (o_ext o n _ _) as [code|e];
    repeat case_match; try apply IH; apply HΦ; by intros ? [= <-].
Qed.
End soldout.

(** C18. A sold-out request leaves no trace while the database works: when
    every statement is executed and answered, the ticket types satisfy the
    constraints of their table, the items name distinct ticket types and
    [Reserve] answers that there are not enough seats, the seats the call had
    already taken for earlier items are back, and the whole database is as
    before. *)
Theorem reserve_soldout_atomic (o : oracle ticketE) s u em ev items d d' e :
  faultless o → types_wf d → NoDup (bi_TicketTypeID <$> items) →
  exec o (Reserve s u em ev items) d = (d', Err e) →
  errors_Is e ErrNoSeatsAvailable = true → d' = d.
Proof.
  intros Hcalm Hwf Hnd Hex.
  refine (runs_exec o _ _ _ _ (λ d' r, match r with Err e => no_seats e = true → d' = d | Ok _ => True end)
    _ Hex).
  unfold Reserve. case_bool_decide; [done|].
  apply runs_bind, (runs_reserveLoop_soldout o Hcalm ev [] items 0 d d);
    [done|done|done|apply taken_refl| |by intros].
  intros n1 d1. apply runs_bind, runs_now, runs_bind, runs_uuid, runs_bind, runs_now.
  apply runs_bind, runs_stampItems. intros n2 items' _.
  apply runs_bind, runs_sql_calm; [done|]. unfold create_booking, transaction.
  assert (∀ (p : tprog unit) n d1 e, no_seats e = false → runs o (prog_bind (λ _, Ret (Err e)) p) n d1
    (λ _ d' (r : res Reservation), match r with Err e => no_seats e = true → d' = d | Ok _ => True end))
    as Hother.
  { intros p n d2 e' He'. apply runs_bind. unfold runs. destruct (run o p n d2) as [[]]. cbn. congruence. }
  destruct (insert_booking _ d1) as [d2|e1] eqn:Hb; [|by eapply Hother, insert_booking_err].
  destruct (insert_items _ d2) as [d3|e1] eqn:Hi; [|by eapply Hother, insert_items_err].
  apply runs_bind, runs_client_err. intros n3 [r|e1] He1; [done|].
  apply runs_bind. unfold runs at 1. destruct (run o _ _ _) as [[]]. by apply Hother, He1.
Qed.

(** One regular ticket and more VIP seats than there are. *)
Definition soldout_items : list BookingItem :=
  [sample_item "reg" 1 100; sample_item "vip" 3 500].

Lemma reserve_soldout_atomic_witness : ∃ d' e,
  exec sample_oracle (Reserve sample_service "u" "u@mail" "ev" soldout_items) sample_db =
    (d', Err e) ∧ d' = sample_db.
Proof.
  eexists _, _. split; [vm_compute; reflexivity|].
  eapply (reserve_soldout_atomic sample_oracle sample_service "u" "u@mail" "ev" soldout_items
    sample_db).
  - done.
  - apply (bool_decide_unpack (types_wf sample_db)). vm_compute. exact I.
  - apply NoDup_cons. split; [|apply NoDup_singleton].
    by intros [[=]|?%elem_of_nil]%elem_of_cons.
  - vm_compute. reflexivity.
  - reflexivity.
Defined.

(** ** Seats that are not given back *)

(** A price mismatch keeps the seats of earlier items: when the first item
    is fine and the second has another price than its ticket type, the call
    fails and the seats of the first are off the counter, with no booking that
    owns them. *)
Theorem reserve_mismatch_leaks (o : oracle ticketE) s u em ev i1 i2 rest p d :
  faultless o → stocked d i1 →
  bi_TicketTypeID i1 ≠ bi_TicketTypeID i2 →
  tt_PriceRupiah <$> ticket_types d !! bi_TicketTypeID i2 = Some p →
  bi_UnitPriceRupiah i2 ≠ p →
  ∃ d' e, exec o (Reserve s u em ev (i1 :: i2 :: rest)) d = (d', Err e) ∧
    errors_Is e ErrPriceMismatch = true ∧ taken [i1] d d'.
Proof.
  intros Hcalm Hst Hne Hp Hmis. destruct (stocked_reserve d i1 Hst) as (d1 & Hr & Ht & _).
  exists d1, (Wrapped "" ErrPriceMismatch (": expected " +:+ pretty p +:+
    ", got " +:+ pretty (bi_UnitPriceRupiah i2))). split_and!; [|done|done].
  apply exec_eq. unfold Reserve. rewrite bool_decide_eq_false_2 by done.
  apply runs_bind. cbn [reserveLoop].
  apply runs_bind, runs_GetPrice_calm; [done|by apply stocked_priced|].
  rewrite bool_decide_eq_true_2 by done. cbn [negb].
  apply runs_bind. eapply runs_seat_Reserve_calm; [done|done|].
  apply runs_bind. unfold SeatCounter_GetPrice. apply runs_bind, runs_sql_calm; [done|].
  cbn [fst snd query]. rewrite (static_col tt_PriceRupiah d d1 _ (λ _, eq_refl) (tk_static _ _ _ Ht _)), Hp.
  cbn [row_or_error]. apply runs_ret. by rewrite bool_decide_eq_false_2.
Qed.

Definition mismatch_items : list BookingItem :=
  [sample_item "vip" 2 500; sample_item "reg" 1 99].

Lemma reserve_mismatch_leaks_witness : ∃ d' e,
  exec sample_oracle (Reserve sample_service "u" "u@mail" "ev" mismatch_items) sample_db =
    (d', Err e) ∧ seat_avail d' "vip" = 0.
Proof.
  destruct (reserve_mismatch_leaks sample_oracle sample_service "u" "u@mail" "ev"
    (sample_item "vip" 2 500) (sample_item "reg" 1 99) [] 100 sample_db) as (d' & e & He & _ & Ht).
  - done.
  - exists (sample_vip 2). split_and!; [reflexivity..| | |]; vm_compute; try split; congruence.
  - done.
  - reflexivity.
  - done.
  - exists d', e. split; [exact He|]. rewrite (tk_avail _ _ _ Ht). reflexivity.
Defined.

(** Two items of one ticket type, of which only the first fits. *)
Definition duplicate_items : list BookingItem :=
  [sample_item "vip" 2 500; sample_item "vip" 1 500].

(** The rollback stops at the first item of the failed item's ticket
    type: a request that lists a ticket type twice and runs out of seats at the
    second loses the seats of the first. *)
Lemma reserve_duplicate_leaks :
  let '(d', r) := exec sample_oracle
    (Reserve sample_service "u" "u@mail" "ev" duplicate_items) sample_db in
  is_ok r = false ∧ seat_avail d' "vip" = 0 ∧ held d' "vip" = 0 ∧ bookings d' = ∅.
Proof. vm_compute. done. Qed.
