(* ===== verification/TransitionSpec.v ===== *)
(** * What the payment and cancellation callbacks do, from start to end

    [Confirm], [ExpireOnPaymentExpired] and [CancelBookings] running on their
    own: which bookings they move, that the seats come back exactly once, and
    that repeating them changes nothing. *)
From S2P Require Import Prelude Effects Dto Outbox TicketDB Booking TicketSamples Event Seats SeatSafety ReserveSpec.

(** ** Bookings as the callbacks read them *)

Lemma loaded_ID row its : bk_ID (loaded row its) = br_id row.
Proof. by rewrite loaded_fields. Qed.
Lemma loaded_Status row its : bk_Status (loaded row its) = br_status row.
Proof. by rewrite loaded_fields. Qed.
Lemma loaded_EventID row its : bk_EventID (loaded row its) = br_event_id row.
Proof. by rewrite loaded_fields. Qed.
Lemma loaded_Items row its : bk_Items (loaded row its) = scan_item <$> its.
Proof. by rewrite loaded_fields. Qed.
#[export] Hint Rewrite loaded_ID loaded_Status loaded_EventID loaded_Items : ticket_rw.

Lemma loaded_known d L row :
  seats_inv d L → items_known (loaded row (items_of (br_id row) d)) d.
Proof.
  intros HI. exists (items_of (br_id row) d). autorewrite with ticket_rw.
  split_and!; [done|by eapply items_of_ids|]. intros r (k & Hk & Hb)%items_of_elem.
  destruct (si_items _ _ HI k r Hk) as (Hrk & _). by rewrite Hrk.
Qed.

(** The seats of a booking's items are those the accounting books to it. *)
Lemma booked_items d bid id :
  holds (hold_item <$> (scan_item <$> items_of bid d)) id = booked d bid id.
Proof.
  unfold booked, holds, items_of.
  rewrite <- (rows_sum (λ i, bool_decide (ir_booking_id i = bid))
    (λ i, hold_seats id (hold_row i))).
  generalize (rows (λ i, bool_decide (ir_booking_id i = bid)) (booking_items d)).
  intros l. induction l as [|r l IH]; [done|]. unfold lsum in *. cbn. by rewrite IH.
Qed.

(** ** Releasing seats *)

Lemma release_calm i d L :
  types_wf d → 0 ≤ bi_Quantity i → seats_inv d (hold_item i :: L) →
  ∃ d' n, release_seats (bi_TicketTypeID i) (bi_Quantity i) d = Ok (d', n) ∧
    taken [i] d' d ∧ types_wf d'.
Proof.
  intros Hwf Hq HI. pose proof (si_count _ _ HI (bi_TicketTypeID i)) as [Ha Hc].
  assert (0 ≤ held d (bi_TicketTypeID i)) as Hh.
  { apply msum_nonneg. intros k r Hk. by eapply item_seats_nonneg. }
  assert (0 ≤ holds L (bi_TicketTypeID i)) as HhL.
  { apply holds_nonneg. by destruct (Forall_cons_1 _ _ _ (si_holds _ _ HI)). }
  rewrite holds_cons in Hc. unfold hold_seats, seat_avail, seat_total in Ha, Hc. cbn in Hc.
  rewrite bool_decide_eq_true_2 in Hc by done. unfold release_seats.
  destruct (ticket_types d !! _) as [ty|] eqn:Hty; cbn in Ha, Hc.
  2:{ assert (bi_Quantity i = 0) as -> by lia. exists d, 0.
      rewrite bool_decide_eq_true_2 by (unfold in_int4; lia). split_and!; [done| |done].
      split; try done. intros id. unfold holds, hold_seats, lsum. cbn.
      case_bool_decide; cbn; [|lia]. destruct i. cbn in *. lia. }
  destruct (Hwf _ _ Hty) as [Hck H4]. unfold in_int4 in H4.
  rewrite !bool_decide_eq_true_2 by (unfold in_int4; lia). cbn [andb].
  unfold update_ticket_type. rewrite Hty, Z.min_r by lia.
  assert (ticket_type_check (set_available (tt_Available ty + bi_Quantity i) ty) = true) as Hck'.
  { unfold ticket_type_check in *. bool_cases. cbn. by rewrite !bool_decide_eq_true_2 by (cbn; lia). }
  rewrite Hck'. eexists _, _. split_and!; [done| |].
  - split; try done.
    + intros id. cbn. rewrite lookup_insert. case_decide as Heq; [|done]. subst. by rewrite Hty.
    + intros id. rewrite seat_avail_insert. unfold holds, hold_seats, lsum. cbn.
      case_decide as Heq.
      * rewrite bool_decide_eq_true_2 by done. subst. unfold seat_avail. rewrite Hty. cbn. lia.
      * rewrite bool_decide_eq_false_2 by done. lia.
  - apply map_Forall_insert_2; [|done]. split; [done|]. unfold in_int4. cbn. lia.
Qed.

Lemma release_items_calm its d L :
  types_wf d → Forall (λ i, 0 ≤ bi_Quantity i) its →
  seats_inv d ((hold_item <$> its) ++ L) →
  ∃ d', release_items its d = Ok d' ∧ taken its d' d ∧ types_wf d'.
Proof.
  revert d. induction its as [|i its IH]; intros d Hwf Hq HI.
  { exists d. split_and!; [done|apply taken_refl|done]. }
  apply Forall_cons in Hq as [Hqi Hq]. cbn in HI. cbn [release_items].
  destruct (release_calm i d _ Hwf Hqi HI) as (d1 & n & Hr & Ht & Hwf1). rewrite Hr.
  pose proof (release_seats_inv _ _ _ _ _ _ Hqi HI Hr) as HI1.
  destruct (IH d1 Hwf1 Hq HI1) as (d2 & Hr2 & Ht2 & Hwf2). exists d2. split_and!; [done| |done].
  destruct Ht as [Hb Hi He Ho Hs Ha], Ht2 as [Hb2 Hi2 He2 Ho2 Hs2 Ha2].
  split; [congruence..|]. intros id. rewrite Ha, Ha2. cbn [fmap list_fmap]. rewrite !holds_cons.
  unfold holds, lsum. cbn. lia.
Qed.

(** [d'] is [d] with booking [bid] moved to [to] and its seats released. *)
Record settled (bid : string) (row : bookingRow) (to : string) (d d' : TicketDB) : Prop := {
  st_bookings : bookings d' = <[bid := set_status to row]> (bookings d);
  st_items : booking_items d' = booking_items d;
  st_events : events d' = events d;
  st_outbox : ticket_outbox d' = ticket_outbox d;
  st_static id : static <$> ticket_types d' !! id = static <$> ticket_types d !! id;
  st_avail id : seat_avail d' id = seat_avail d id + booked d bid id;
}.

Definition bookings_wf (d : TicketDB) : Prop :=
  map_Forall (λ k row, br_id row = k ∧ booking_check row = true) (bookings d).
#[export] Instance bookings_wf_dec d : Decision (bookings_wf d).
Proof. unfold bookings_wf. apply _. Defined.

Lemma booking_check_to to row :
  to = "cancelled" ∨ to = "expired" ∨ to = "confirmed" → booking_check (set_status to row) = true.
Proof. unfold booking_check. by intros [->|[->| ->]]. Qed.

Lemma transition_settles b row to t d L :
  seats_inv d L → types_wf d → bookings d !! bk_ID b = Some row → br_status row = bk_Status b →
  bk_Items b = scan_item <$> items_of (bk_ID b) d → items_known b d →
  active (bk_Status b) = true → to = "cancelled" ∨ to = "expired" →
  ∃ d', transition_and_release b to t d = (d', Ok true) ∧ settled (bk_ID b) row to d d' ∧
    seats_inv d' L ∧ types_wf d'.
Proof.
  intros HI Hwf Hrow Hst Hits Hk Hact Hto.
  assert (active to = false) as Hto' by (by destruct Hto as [->| ->]).
  pose proof (transition_inv b to t d L HI Hk Hact Hto') as [HI' _].
  unfold transition_and_release, update_booking_status in *. rewrite Hrow in *.
  rewrite bool_decide_eq_true_2, booking_check_to in * by tauto.
  rewrite bool_decide_eq_false_2 in * by done.
  set (d1 := set_bookings _ d) in *.
  assert (seats_inv d1 ((hold_item <$> bk_Items b) ++ L)) as HI1.
  { apply transition_holds; [done..|by rewrite Hst|done]. }
  destruct (release_items_calm (bk_Items b) d1 L) as (d2 & Hr & [Hb Hi He Ho Hs Ha] & Hwf2);
    [done|by eapply items_known_nonneg|done|].
  rewrite Hr in *. exists d2. split_and!; [done| |done|done].
  split; [by symmetry..|intros id; by rewrite <- Hs|]. intros id. specialize (Ha id). rewrite Hits, booked_items in Ha.
  change (seat_avail d1 id) with (seat_avail d id) in Ha. lia.
Qed.

(** ** The callbacks *)

Section calls.
Context (o : oracle ticketE).

(** Redelivery is harmless: a callback for a booking that is unknown or no
    longer pending succeeds and changes nothing, whichever statements fail. *)
Theorem settled_ignored ctx d bid pid :
  (∀ row, bookings d !! bid = Some row → br_status row ≠ "pending") →
  exec o (Confirm ctx bid pid) d = (d, Ok ()) ∧
  exec o (ExpireOnPaymentExpired bid) d = (d, Ok ()).
Proof.
  intros Hrow.
  assert (∀ (f : Booking → tprog (res unit)),
    exec o (prog_bind (λ r, match r with
      | Ok None => Ret (Ok ()) | Ok (Some b) => f b | Err e => Ret (Err e) end)
      (loadPendingBooking bid)) d = (d, Ok ())) as Hload.
  { intros f. apply exec_eq, runs_bind. unfold loadPendingBooking. apply runs_bind, runs_FindByID; [|done].
    intros row Hr. rewrite loaded_Status, bool_decide_eq_false_2 by (by apply Hrow). done. }
  split; apply Hload.
Qed.

Context (Hcalm : faultless o).

Lemma runs_loadPending bid row n d Φ :
  bookings d !! bid = Some row → br_id row = bid → br_status row = "pending" →
  (∀ n', Φ n' d (Ok (Some (loaded row (items_of bid d))))) →
  runs o (loadPendingBooking bid) n d Φ.
Proof.
  intros Hrow Hid Hst HΦ. unfold loadPendingBooking.
  apply runs_bind, runs_FindByID_calm; [done|]. rewrite Hrow, loaded_Status, Hst, Hid.
  rewrite bool_decide_eq_true_2 by done. apply HΦ.
Qed.

Lemma runs_transition row to n d Φ :
  seats_inv d [] → types_wf d → bookings d !! br_id row = Some row →
  active (br_status row) = true → to = "cancelled" ∨ to = "expired" →
  (∀ n' d', settled (br_id row) row to d d' → seats_inv d' [] → types_wf d' → Φ n' d' (Ok true)) →
  runs o (BookingRepo_TransitionAndReleaseSeats (loaded row (items_of (br_id row) d)) to) n d Φ.
Proof.
  intros HI Hwf Hrow Hact Hto HΦ. apply runs_sql_calm; [done|].
  destruct (transition_settles (loaded row (items_of (br_id row) d)) row to (o_now o n) d [])
    as (d' & Htr & Hset & HI' & Hwf'); autorewrite with ticket_rw; try done; [by eapply loaded_known|].
  rewrite Htr. rewrite loaded_ID in Hset. by apply HΦ.
Qed.

Lemma runs_releaseReservation row n d Φ :
  seats_inv d [] → types_wf d → bookings d !! br_id row = Some row →
  br_status row = "pending" →
  (∀ n' d', settled (br_id row) row "expired" d d' → Φ n' d' (Ok ())) →
  runs o (releaseReservation (br_id row) "expired") n d Φ.
Proof.
  intros HI Hwf Hrow Hst HΦ. unfold releaseReservation.
  eapply runs_bind, runs_loadPending; [done..|]. intros n'.
  apply runs_bind, runs_transition; [done..|by rewrite Hst|by right|].
  intros n'' d' Hset _ _. by apply HΦ.
Qed.
End calls.

Lemma settled_ignored_witness :
  exec sample_oracle (Confirm background "nobody" "txn") sample_db = (sample_db, Ok ()) ∧
  exec sample_oracle (ExpireOnPaymentExpired "nobody") sample_db = (sample_db, Ok ()).
Proof. apply (settled_ignored sample_oracle background sample_db "nobody" "txn"). done. Defined.

(** Expiry of a pending booking: the booking becomes expired and every seat
    of its items is back on its counter, nothing else changing. *)
Theorem expire_releases (o : oracle ticketE) row d :
  faultless o → seats_inv d [] → types_wf d →
  bookings d !! br_id row = Some row → br_status row = "pending" →
  ∃ d', exec o (ExpireOnPaymentExpired (br_id row)) d = (d', Ok ()) ∧
    settled (br_id row) row "expired" d d'.
Proof.
  intros Hcalm HI Hwf Hrow Hst.
  by apply exec_ex, runs_releaseReservation.
Qed.

Definition sample_row : bookingRow :=
  mkBookingRow "id-5" "u" "ev" "pending" (Some (sample_time + 900 * Second)) sample_time.

Lemma expire_releases_witness : ∃ d',
  exec sample_oracle (ExpireOnPaymentExpired "id-5") reserved_db = (d', Ok ()) ∧
  seat_avail d' "vip" = seat_avail reserved_db "vip" + 2.
Proof.
  destruct (expire_releases sample_oracle sample_row reserved_db) as (d' & Hex & Hset).
  - done.
  - apply seats_inv_b_sound. vm_compute. reflexivity.
  - apply (bool_decide_unpack (types_wf reserved_db)). vm_compute. exact I.
  - vm_compute. reflexivity.
  - reflexivity.
  - exists d'. split; [exact Hex|]. rewrite (st_avail _ _ _ _ _ Hset).
    f_equal.
Defined.

(** *** Confirmation *)

(** The message [Confirm] puts in the outbox for one item. *)
Definition ticket_message (row : bookingRow) (i : itemRow) : message :=
  mkMessage "ticket.issued" (br_id row +:+ "-" +:+ ir_id i)
    (PTicketIssued (mkTicketIssued (ir_id i) (br_id row) (br_user_id row) (br_event_id row)
       (ir_ticket_type_id i))).

(** [d'] is [d] with the messages appended to the outbox. *)
Record queued (ms : list message) (d d' : TicketDB) : Prop := {
  qu_events : events d' = events d;
  qu_types : ticket_types d' = ticket_types d;
  qu_bookings : bookings d' = bookings d;
  qu_items : booking_items d' = booking_items d;
  qu_rows : ∃ new, outbox_rows (ticket_outbox d') = outbox_rows (ticket_outbox d) ++ new ∧
    row_message <$> new = ms ∧ Forall (λ r, ob_delivered r = false) new;
}.

Lemma queued_nil d : queued [] d d.
Proof. split; try done. exists []. by rewrite app_nil_r. Qed.

Lemma queued_cons m ms d1 d2 d3 : queued [m] d1 d2 → queued ms d2 d3 → queued (m :: ms) d1 d3.
Proof.
  intros [? ? ? ? (n1 & Hn1 & Hm1 & Hd1)] [? ? ? ? (n2 & Hn2 & Hm2 & Hd2)].
  split; [congruence..|]. exists (n1 ++ n2). rewrite Hn2, Hn1, <- (assoc (++)).
  split_and!; [done|by rewrite fmap_app, Hm1, Hm2|by apply Forall_app].
Qed.

Lemma queued_insert topic key p tc t d :
  queued [mkMessage topic key p] d (insert_outbox topic key p tc t d).1.
Proof. split; try done. eexists [_]. split_and!; [done|done|]. by constructor. Qed.

Section confirm.
Context (o : oracle ticketE) (Hcalm : faultless o) (ctx : context).

Lemma runs_issueTickets row its l n d Φ :
  (∀ n' d', queued (ticket_message row <$> l) d d' → Φ n' d' ()) →
  runs o (issueTickets ctx (br_id row) (loaded row its) (scan_item <$> l)) n d Φ.
Proof.
  revert n d. induction l as [|i l IH]; intros n d HΦ; [apply HΦ, queued_nil|].
  cbn [fmap list_fmap issueTickets]. apply runs_bind, runs_sql_calm; [done|].
  apply IH. intros n' d' Hq. apply HΦ. cbn. eapply queued_cons; [|exact Hq].
  rewrite loaded_fields. apply queued_insert.
Qed.

Lemma runs_IsPublished ev n d Φ :
  Φ (S n) d (Ok (bool_decide (ev_Status <$> events d !! ev = Some "published"))) →
  runs o (EventStatusRepo_IsPublished ev) n d Φ.
Proof.
  intros HΦ. unfold EventStatusRepo_IsPublished. apply runs_bind, runs_sql_calm; [done|].
  cbn. destruct (events d !! ev) as [e|]; cbn in *; [|done]. unfold runs. cbn.
  rewrite (bool_decide_ext _ (Some (ev_Status e) = Some "published")); [exact HΦ|].
  split; [by intros ->|by intros [= ->]].
Qed.

Lemma runs_Confirm row pid n d Φ :
  bookings d !! br_id row = Some row → br_status row = "pending" →
  ev_Status <$> events d !! br_event_id row = Some "published" →
  (∀ n' d', queued (ticket_message row <$> items_of (br_id row) d)
     (set_bookings (<[br_id row := set_status "confirmed" row]> (bookings d)) d) d' →
     Φ n' d' (Ok ())) →
  runs o (Confirm ctx (br_id row) pid) n d Φ.
Proof.
  intros Hrow Hst Hev HΦ. unfold Confirm.
  eapply runs_bind, runs_loadPending; [done..|]. intros n1.
  rewrite loaded_EventID. apply runs_bind, runs_IsPublished.
  rewrite bool_decide_eq_true_2 by done. cbn [negb].
  apply runs_bind. unfold BookingRepo_UpdateStatusIfPending. apply runs_bind, runs_sql_calm; [done|].
  unfold counted, update_booking_status. rewrite Hrow, Hst.
  rewrite bool_decide_eq_true_2, booking_check_to by tauto. cbn [fst snd]. apply runs_ret.
  rewrite bool_decide_eq_true_2 by done. cbn [negb]. apply runs_bind.
  rewrite loaded_Items. apply runs_issueTickets. intros n' d' Hq. by apply HΦ.
Qed.

Lemma runs_Confirm_unpublished row pid n d Φ :
  seats_inv d [] → types_wf d →
  bookings d !! br_id row = Some row → br_status row = "pending" →
  ev_Status <$> events d !! br_event_id row ≠ Some "published" →
  (∀ n' d', settled (br_id row) row "cancelled" d d' → Φ n' d' (Ok ())) →
  runs o (Confirm ctx (br_id row) pid) n d Φ.
Proof.
  intros HI Hwf Hrow Hst Hev HΦ. unfold Confirm.
  eapply runs_bind, runs_loadPending; [done..|]. intros n1.
  rewrite loaded_EventID. apply runs_bind, runs_IsPublished.
  rewrite bool_decide_eq_false_2 by done. cbn [negb].
  apply runs_bind, runs_transition; [done..|by rewrite Hst|by left|].
  intros n' d' Hset _ _. by apply HΦ.
Qed.
End confirm.

(** Confirmation of a pending booking of a published event: its status
    becomes confirmed and one [ticket.issued] message per item is appended to
    the outbox, undelivered; nothing else changes. *)
Theorem confirm_issues (o : oracle ticketE) ctx pid row d :
  faultless o → bookings d !! br_id row = Some row → br_status row = "pending" →
  ev_Status <$> events d !! br_event_id row = Some "published" →
  ∃ d', exec o (Confirm ctx (br_id row) pid) d = (d', Ok ()) ∧
    queued (ticket_message row <$> items_of (br_id row) d)
      (set_bookings (<[br_id row := set_status "confirmed" row]> (bookings d)) d) d'.
Proof.
  intros Hcalm Hrow Hst Hev.
  by apply exec_ex, runs_Confirm.
Qed.

Lemma confirm_issues_witness : ∃ d',
  exec sample_oracle (Confirm background "id-5" "txn") reserved_db = (d', Ok ()) ∧
  bookings d' = <["id-5" := set_status "confirmed" sample_row]> (bookings reserved_db).
Proof.
  destruct (confirm_issues sample_oracle background "txn" sample_row reserved_db) as (d' & Hex & Hq).
  - done.
  - vm_compute. reflexivity.
  - reflexivity.
  - vm_compute. reflexivity.
  - exists d'. split; [exact Hex|]. exact (qu_bookings _ _ _ Hq).
Defined.

(** A payment for an event that is no longer on sale: [Confirm] cancels
    the pending booking instead and returns its seats. *)
Theorem confirm_unpublished_cancels (o : oracle ticketE) ctx pid row d :
  faultless o → seats_inv d [] → types_wf d →
  bookings d !! br_id row = Some row → br_status row = "pending" →
  ev_Status <$> events d !! br_event_id row ≠ Some "published" →
  ∃ d', exec o (Confirm ctx (br_id row) pid) d = (d', Ok ()) ∧
    settled (br_id row) row "cancelled" d d'.
Proof.
  intros Hcalm HI Hwf Hrow Hst Hev.
  by apply exec_ex, runs_Confirm_unpublished.
Qed.

(** The reservation of [reserved_db] after its event was cancelled. *)
Definition cancelled_event_db : TicketDB :=
  set_events {[ "ev" := sample_event EventStatusCancelled ]} reserved_db.

Lemma confirm_unpublished_cancels_witness : ∃ d',
  exec sample_oracle (Confirm background "id-5" "txn") cancelled_event_db = (d', Ok ()) ∧
  settled "id-5" sample_row "cancelled" cancelled_event_db d'.
Proof.
  apply (confirm_unpublished_cancels sample_oracle background "txn" sample_row cancelled_event_db).
  - done.
  - apply seats_inv_b_sound. vm_compute. reflexivity.
  - apply (bool_decide_unpack (types_wf cancelled_event_db)). vm_compute. exact I.
  - vm_compute. reflexivity.
  - reflexivity.
  - vm_compute. congruence.
Defined.

(** *** Cancellation of an event's bookings *)

(** What the loop does to a row. *)
Definition cancel_row (row : bookingRow) : bookingRow :=
  if active (br_status row) then set_status "cancelled" row else row.

(** [d'] is [d] with the bookings listed in [rs] cancelled, seats conserved. *)
Record cancelled (rs : list bookingRow) (d d' : TicketDB) : Prop := {
  ca_in row : row ∈ rs → bookings d' !! br_id row = Some (cancel_row row);
  ca_out k : (∀ row, row ∈ rs → br_id row ≠ k) → bookings d' !! k = bookings d !! k;
  ca_seats id : seat_avail d' id + held d' id = seat_avail d id + held d id;
  ca_items : booking_items d' = booking_items d;
  ca_rest : events d' = events d ∧ ticket_outbox d' = ticket_outbox d;
}.

Lemma settled_held row to d d' L :
  seats_inv d L → settled (br_id row) row to d d' → bookings d !! br_id row = Some row →
  active (br_status row) = true → active to = false →
  ∀ id, seat_avail d' id + held d' id = seat_avail d id + held d id.
Proof.
  intros HI [Hb Hi _ _ _ Ha] Hrow Hact Hto id. rewrite Ha.
  rewrite (held_ext (set_bookings (<[br_id row := set_status to row]> (bookings d)) d) d' id Hi)
    by (intros; unfold booking_active; by rewrite Hb).
  rewrite (set_status_inv d L (br_id row) row to HI Hrow Hact Hto). lia.
Qed.

Section cancel.
Context (o : oracle ticketE) (Hcalm : faultless o).

Lemma runs_cancelLoop rs n d Φ :
  seats_inv d [] → types_wf d → NoDup (br_id <$> rs) →
  Forall (λ row, bookings d !! br_id row = Some row) rs →
  (∀ n' d', cancelled rs d d' → Φ n' d' (Ok ())) →
  runs o (cancelLoop ((λ row, loaded row (items_of (br_id row) d)) <$> rs)) n d Φ.
Proof.
  revert n d Φ. induction rs as [|row rs IH]; intros n d Φ HI Hwf Hnd Hrs HΦ.
  { apply HΦ. split; try done; intros ? ?%elem_of_nil; done. }
  cbn in Hnd. apply NoDup_cons in Hnd as [Hni Hnd]. apply Forall_cons in Hrs as [Hrow Hrs].
  assert (∀ row', row' ∈ rs → br_id row' ≠ br_id row) as Hne.
  { intros row' Hin Heq. apply Hni. rewrite <- Heq. by apply list_elem_of_fmap_2. }
  cbn [fmap list_fmap cancelLoop]. rewrite loaded_Status.
  replace (negb (bool_decide (br_status row = "confirmed")) && negb (bool_decide (br_status row = "pending")))
    with (negb (active (br_status row)))
    by (unfold active; by rewrite negb_orb, andb_comm).
  destruct (active (br_status row)) eqn:Hact; cbn [negb].
  - apply runs_bind, runs_transition; [done..|by left|]. intros n1 d1 Hset HI1 Hwf1.
    pose proof Hset as [Hb Hi He Ho _ _].
    assert ((λ row, loaded row (items_of (br_id row) d)) <$> rs =
            (λ row, loaded row (items_of (br_id row) d1)) <$> rs) as ->.
    { apply list_fmap_ext. intros _ row' _. unfold items_of. by rewrite Hi. }
    apply IH; [done|done|done| |].
    { apply Forall_forall. intros row' Hr'. rewrite Hb, lookup_insert_ne.
      - by eapply Forall_forall in Hrs.
      - intros Heq. by apply (Hne row'). }
    intros n' d' [Hin Hout Hs Hit [He' Ho']]. apply HΦ. split.
    + intros row' [->|Hin']%elem_of_cons; [|by apply Hin].
      rewrite Hout, Hb, lookup_insert_eq by auto. unfold cancel_row. by rewrite Hact.
    + intros k Hk. rewrite Hout, Hb by (intros; apply Hk; by right).
      rewrite lookup_insert_ne; [done|]. apply Hk. by left.
    + intros id. rewrite Hs. eapply settled_held; [exact HI|done..].
    + congruence.
    + split; congruence.
  - apply IH; [done..|]. intros n' d' [Hin Hout Hs Hit Hrest]. apply HΦ. split; [| |done..].
    + intros row' [->|Hin']%elem_of_cons; [|by apply Hin].
      rewrite Hout by auto. unfold cancel_row. by rewrite Hact.
    + intros k Hk. apply Hout. intros; apply Hk; by right.
Qed.

Lemma runs_load_all rs n d Φ :
  (∀ n', Φ n' d (Ok ((λ row, loaded row (items_of (br_id row) d)) <$> rs))) →
  runs o (load_all (scan_booking <$> rs)) n d Φ.
Proof.
  revert n Φ. induction rs as [|row rs IH]; intros n Φ HΦ; [apply HΦ|].
  cbn [fmap list_fmap load_all]. apply runs_bind. unfold BookingRepo_loadItems.
  apply runs_bind, runs_sql_calm; [done|]. cbn [fst snd query].
  apply runs_bind, IH. intros n'. apply HΦ.
Qed.
End cancel.

(** The bookings of an event. *)
Definition event_rows (ev : string) (d : TicketDB) : list bookingRow :=
  order_by_desc br_created_at (rows (λ b, bool_decide (br_event_id b = ev)) (bookings d)).

Lemma event_rows_elem ev d row :
  bookings_wf d →
  row ∈ event_rows ev d ↔ bookings d !! br_id row = Some row ∧ br_event_id row = ev.
Proof.
  intros Hwf. unfold event_rows, order_by_desc. rewrite elem_of_order_by, elem_of_rows.
  split.
  - intros (k & Hk & He). destruct (Hwf k row Hk) as [-> _]. bool_cases. done.
  - intros [Hk He]. exists (br_id row). by rewrite bool_decide_eq_true_2.
Qed.

Lemma event_rows_NoDup ev d : bookings_wf d → NoDup (br_id <$> event_rows ev d).
Proof.
  intros Hwf. unfold event_rows, order_by_desc. rewrite order_by_perm. apply rows_NoDup.
  intros k row Hrow. by apply Hwf.
Qed.

(** [d'] is [d] with the active bookings of the event cancelled, seats conserved. *)
Record event_released (ev : string) (d d' : TicketDB) : Prop := {
  el_rows k row : bookings d !! k = Some row → bookings d' !! k =
    Some (if bool_decide (br_event_id row = ev) then cancel_row row else row);
  el_seats id : seat_avail d' id + held d' id = seat_avail d id + held d id;
  el_items : booking_items d' = booking_items d;
  el_events : events d' = events d;
}.

Lemma runs_CancelBookings (o : oracle ticketE) ev d Φ :
  faultless o → seats_inv d [] → types_wf d → bookings_wf d →
  (∀ n d', event_released ev d d' → Φ n d' (Ok ())) →
  runs o (CancelBookings ev) 0 d Φ.
Proof.
  intros Hcalm HI Hwf Hbw HΦ. unfold CancelBookings, BookingRepo_ListByEventID.
  apply runs_bind, runs_bind, runs_sql_calm; [done|]. cbn [fst snd query].
  apply runs_load_all; [done|]. intros n.
  apply runs_cancelLoop; [done..|by apply event_rows_NoDup| |].
  { apply Forall_forall. by intros row [? _]%event_rows_elem. }
  intros n' d' [Hin Hout Hs Hit [He _]]. apply HΦ. split; [|done..].
  intros k row Hrow. destruct (Hbw k row Hrow) as [<- _]. case_bool_decide as Hev.
  - apply Hin. by apply event_rows_elem.
  - rewrite Hout; [done|]. intros row' [Hr' He']%event_rows_elem Heq; [|done].
    rewrite Heq in Hr'. congruence.
Qed.

(** Cancelling the bookings of an event: every pending or confirmed
    booking of the event becomes cancelled, all others keep their rows, and
    for each ticket type the seats on the counter and in active bookings
    together are the same as before, so that exactly the seats of the
    cancelled bookings come back. *)
Theorem cancel_bookings (o : oracle ticketE) ev d :
  faultless o → seats_inv d [] → types_wf d → bookings_wf d →
  ∃ d', exec o (CancelBookings ev) d = (d', Ok ()) ∧
    (∀ k row, bookings d !! k = Some row → bookings d' !! k =
       Some (if bool_decide (br_event_id row = ev) then cancel_row row else row)) ∧
    (∀ id, seat_avail d' id + held d' id = seat_avail d id + held d id) ∧
    booking_items d' = booking_items d ∧ events d' = events d.
Proof.
  intros Hcalm HI Hwf Hbw. apply exec_ex. apply runs_CancelBookings; [done..|].
  by intros n d' [].
Qed.

Lemma cancel_bookings_witness : ∃ d',
  exec sample_oracle (CancelBookings "ev") reserved_db = (d', Ok ()) ∧
  bookings d' !! "id-5" = Some (set_status "cancelled" sample_row) ∧
  seat_avail d' "vip" + held d' "vip" = seat_avail reserved_db "vip" + held reserved_db "vip".
Proof.
  destruct (cancel_bookings sample_oracle "ev" reserved_db) as (d' & Hex & Hb & Hs & _).
  - done.
  - apply seats_inv_b_sound. vm_compute. reflexivity.
  - apply (bool_decide_unpack (types_wf reserved_db)). vm_compute. exact I.
  - apply (bool_decide_unpack (bookings_wf reserved_db)). vm_compute. exact I.
  - exists d'. split_and!; [exact Hex| |apply Hs].
    apply (Hb "id-5" sample_row). vm_compute. reflexivity.
Defined.
