(* ===== verification/BookingLifecycle.v ===== *)
(** * The life of a booking, under every interleaving

    No program of the ticketing service, whatever else runs and whichever
    statements fail or lose their answers, takes a booking with items off its
    state machine: pending, then confirmed, expired or cancelled; confirmed,
    then cancelled. *)
From S2P Require Import Prelude Effects Dto Outbox TicketDB Booking TicketSamples Event Seats SeatSafety Races.

(** The arrows of the state machine. *)
Definition booking_moves (s s' : string) : bool :=
  bool_decide (s = s') ||
  (bool_decide (s = "pending") && bool_decide (s' ∈ ["confirmed"; "expired"; "cancelled"])) ||
  (bool_decide (s = "confirmed") && bool_decide (s' = "cancelled")).

Lemma booking_moves_refl s : booking_moves s s = true.
Proof. unfold booking_moves. by rewrite bool_decide_eq_true_2. Qed.

Lemma booking_moves_spec s s' :
  booking_moves s s' = true ↔ s = s' ∨
    (s = "pending" ∧ (s' = "confirmed" ∨ s' = "expired" ∨ s' = "cancelled")) ∨
    (s = "confirmed" ∧ s' = "cancelled").
Proof.
  unfold booking_moves. rewrite !orb_true_iff, !andb_true_iff, !bool_decide_eq_true.
  rewrite !elem_of_cons, elem_of_nil. tauto.
Qed.

Lemma booking_moves_trans s1 s2 s3 :
  booking_moves s1 s2 = true → booking_moves s2 s3 = true → booking_moves s1 s3 = true.
Proof.
  rewrite !booking_moves_spec.
  intros [->|[[-> [->|[->| ->]]]|[-> ->]]]; intros [<-|[[? [?|[?|?]]]|[? ?]]]; subst;
    try discriminate; tauto.
Qed.

(** A booking that has items keeps its row, its status moving along the arrows. *)
Definition lifecycle (d d' : TicketDB) : Prop :=
  items_kept d d' ∧
  ∀ k row, bookings d !! k = Some row → items_of k d ≠ [] →
    ∃ s, bookings d' !! k = Some (set_status s row) ∧ booking_moves (br_status row) s = true.

Lemma items_kept_nonempty k d d' : items_kept d d' → items_of k d ≠ [] → items_of k d' ≠ [].
Proof.
  intros Hk Hne Hnil. destruct (items_of k d) as [|r l] eqn:Hr; [done|].
  assert (r ∈ items_of k d) as (j & Hj & Hb)%items_of_elem by (rewrite Hr; by left).
  assert (r ∈ items_of k d') as Hin by (apply items_of_elem; eauto).
  rewrite Hnil in Hin. by apply elem_of_nil in Hin.
Qed.

Lemma set_status_id row : set_status (br_status row) row = row.
Proof. by destruct row. Qed.

#[export] Instance lifecycle_preorder : PreOrder lifecycle.
Proof.
  split.
  - intros d. split; [done|]. intros k row Hrow _. exists (br_status row).
    by rewrite set_status_id, booking_moves_refl.
  - intros d1 d2 d3 [Hk1 H1] [Hk2 H2]. split; [by etrans|]. intros k row Hrow Hit.
    destruct (H1 k row Hrow Hit) as (s & Hs & Hm).
    destruct (H2 k _ Hs (items_kept_nonempty _ _ _ Hk1 Hit)) as (s' & Hs' & Hm').
    exists s'. split; [done|]. by eapply booking_moves_trans.
Qed.

(** ** The statements *)

Lemma lifecycle_same d d' :
  bookings d' = bookings d → booking_items d' = booking_items d → lifecycle d d'.
Proof.
  intros Hb Hi. split; [by intros k i; rewrite Hi|]. intros k row Hrow _.
  exists (br_status row). by rewrite Hb, set_status_id, booking_moves_refl.
Qed.

Lemma lifecycle_query {A} (f : TicketDB → res A) t d : lifecycle d (query f t d).1.
Proof. done. Qed.

Lemma lifecycle_outbox topic key p tc t d : lifecycle d (insert_outbox topic key p tc t d).1.
Proof. by apply lifecycle_same. Qed.

Lemma lifecycle_insert_event e t d : lifecycle d (insert_event e t d).1.
Proof. unfold insert_event. repeat case_match; by apply lifecycle_same. Qed.

Lemma lifecycle_update_event e now t d : lifecycle d (update_event e now t d).1.
Proof. unfold update_event. repeat case_match; by apply lifecycle_same. Qed.

Lemma lifecycle_insert_ticket_type ty t d : lifecycle d (insert_ticket_type ty t d).1.
Proof. unfold insert_ticket_type. repeat case_match; by apply lifecycle_same. Qed.

Lemma lifecycle_types (f : TicketDB → res (TicketDB * Z)) t d :
  (∀ d' n, f d = Ok (d', n) → bookings d' = bookings d ∧ booking_items d' = booking_items d) →
  lifecycle d (counted f t d).1.
Proof.
  intros Hf. unfold counted. destruct (f d) as [[d' n]|e]; [|done].
  destruct (Hf d' n); [done|]. by apply lifecycle_same.
Qed.

Lemma lifecycle_update_ticket_type id c g t d :
  lifecycle d (counted (update_ticket_type id c g) t d).1.
Proof.
  apply lifecycle_types. by intros d' n [[_ ->]|(_ & ty & _ & _ & _ & ->)]%update_ticket_type_Ok.
Qed.

Lemma lifecycle_reserve id q t d : lifecycle d (counted (reserve_seats id q) t d).1.
Proof.
  apply lifecycle_types. intros d' n. unfold reserve_seats. case_bool_decide; [|done].
  by intros [[_ ->]|(_ & ty & _ & _ & _ & ->)]%update_ticket_type_Ok.
Qed.

Lemma lifecycle_release id q t d : lifecycle d (counted (release_seats id q) t d).1.
Proof.
  apply lifecycle_types. intros d' n Hr.
  assert (release_items [mkBookingItem "" "" id q 0 0] d = Ok d') as Hr'.
  { cbn. by rewrite Hr. }
  apply release_items_same in Hr' as (? & ? & _). done.
Qed.

Lemma lifecycle_init id total t d :
  lifecycle d (counted (λ d, if bool_decide (in_int4 total)
    then update_ticket_type id (λ _, true) (set_available total) d
    else Err numeric_out_of_range) t d).1.
Proof.
  apply lifecycle_types. intros d' n. case_bool_decide; [|done].
  by intros [[_ ->]|(_ & ty & _ & _ & _ & ->)]%update_ticket_type_Ok.
Qed.

Lemma lifecycle_status id from to d d' n :
  booking_moves from to = true → update_booking_status id from to d = Ok (d', n) → lifecycle d d'.
Proof.
  intros Hm. unfold update_booking_status.
  destruct (bookings d !! id) as [b|] eqn:Hb; [|by intros [= <- <-]].
  case_bool_decide as Hs; [|by intros [= <- <-]].
  destruct (booking_check _); [|done]. intros [= <- <-]. split; [by intros k i|].
  intros k row Hrow _. cbn. destruct (decide (id = k)) as [<-|Hne].
  - rewrite lookup_insert_eq. exists to. rewrite Hb in Hrow. by simplify_eq.
  - rewrite lookup_insert_ne by done. exists (br_status row).
    by rewrite set_status_id, booking_moves_refl.
Qed.

Lemma lifecycle_confirm bid t d :
  lifecycle d (counted (update_booking_status bid "pending" "confirmed") t d).1.
Proof.
  unfold counted. destruct (update_booking_status _ _ _ d) as [[d' n]|e] eqn:Hu; [|done].
  by eapply lifecycle_status; [|exact Hu].
Qed.

Lemma lifecycle_transition b to t d :
  booking_moves (bk_Status b) to = true → lifecycle d (transition_and_release b to t d).1.
Proof.
  intros Hm. unfold transition_and_release.
  destruct (update_booking_status _ _ _ d) as [[d1 n]|e] eqn:Hu; [|done].
  case_bool_decide; [done|]. destruct (release_items _ d1) as [d2|e] eqn:Hr; [|done]. cbn.
  etrans; [by eapply lifecycle_status|].
  apply release_items_same in Hr as (? & ? & _). by apply lifecycle_same.
Qed.

Lemma lifecycle_delete bid t d : lifecycle d (counted (delete_booking bid) t d).1.
Proof.
  unfold counted, delete_booking. destruct (bookings d !! bid) as [b|] eqn:Hb; [|done].
  case_bool_decide; [|done]. case_bool_decide as Hno; [|done]. cbn.
  split; [by intros k i|]. intros k row Hrow Hit. cbn.
  exists (br_status row). rewrite set_status_id, booking_moves_refl, lookup_delete_ne; [done|].
  by intros ->.
Qed.

Lemma insert_items_lifecycle its d d' : insert_items its d = Ok d' → lifecycle d d'.
Proof.
  revert d. induction its as [|i its IH]; intros d; cbn; [by intros [= <-]|].
  destruct (insert_item i d) as [d1|e] eqn:Hi; [|done]. intros Hd'%IH.
  etrans; [|exact Hd']. unfold insert_item in Hi. destruct (negb _); [done|].
  destruct (negb _); [done|]. case_bool_decide as Hfree; [done|].
  case_bool_decide; [|done]. simplify_eq. apply eq_None_not_Some in Hfree. split.
  - intros k i' Hk. cbn. rewrite lookup_insert_ne; [done|]. congruence.
  - intros k row Hrow _. exists (br_status row). cbn.
    by rewrite set_status_id, booking_moves_refl.
Qed.

Lemma lifecycle_create b t d : lifecycle d (create_booking b t d).1.
Proof.
  unfold create_booking, transaction. destruct (insert_booking _ d) as [d1|e] eqn:Hb; [|done].
  destruct (insert_items _ d1) as [d2|e] eqn:Hi; [|done]. cbn.
  apply insert_items_lifecycle in Hi. etrans; [|exact Hi]. unfold insert_booking in Hb.
  destruct (negb _); [done|]. case_bool_decide as Hfree; [done|].
  case_bool_decide; [|done]. simplify_eq. apply eq_None_not_Some in Hfree. split; [by intros k i|].
  intros k row Hrow _. exists (br_status row). cbn.
  rewrite set_status_id, booking_moves_refl, lookup_insert_ne; [done|]. cbn in *. congruence.
Qed.

#[export] Hint Resolve lifecycle_query lifecycle_outbox lifecycle_insert_event
  lifecycle_update_event lifecycle_insert_ticket_type lifecycle_update_ticket_type
  lifecycle_reserve lifecycle_release lifecycle_init lifecycle_confirm lifecycle_delete
  lifecycle_create : ticket.

(** ** The programs *)

Local Abbreviation lg := (guards (X := ticketE) lifecycle).

Lemma lg_reserveLoop ev items todo : lg (reserveLoop ev items todo).
Proof.
  assert (∀ item its, lg (rollbackBefore ev item its)) as Hrb.
  { intros item its. induction its as [|i its IH]; cbn [rollbackBefore]; [done|].
    case_bool_decide; [done|]. apply guards_bind; [|done].
    unfold SeatCounter_Release. guards_solve. }
  induction todo as [|i todo IH]; cbn [reserveLoop]; [done|].
  apply guards_bind; [unfold SeatCounter_GetPrice; guards_solve|]. intros [p|e]; [|done].
  destruct (negb _); [done|]. apply guards_bind; [unfold SeatCounter_Reserve; guards_solve|].
  intros []; [done|]. by apply guards_bind.
Qed.

Lemma lg_rollbackSeats ev items : lg (rollbackSeats ev items).
Proof.
  induction items as [|i items IH]; cbn [rollbackSeats]; [done|].
  apply guards_bind; [unfold SeatCounter_Release; guards_solve|done].
Qed.

Lemma lg_client c bid ev u em amt exp : lg (Client_InitiateTxnForBooking c bid ev u em amt exp).
Proof.
  unfold Client_InitiateTxnForBooking. destruct (negb _); [done|]. generalize 0%nat 2%nat.
  intros a f. revert a. induction f as [|f IH]; intros a; cbn [attempt_loop]; [done|].
  apply guards_bind; [by split|]. intros [code|e]; repeat case_match; done || apply IH.
Qed.

Lemma lg_stampItems bid items : lg (stampItems bid items).
Proof. induction items; cbn [stampItems]; guards_solve. Qed.

Lemma lg_Reserve s u em ev items : lg (Reserve s u em ev items).
Proof.
  unfold Reserve. case_bool_decide; [done|].
  apply guards_bind; [apply lg_reserveLoop|]. intros [[]|e]; [|done].
  apply guards_bind; [done|intros now]. apply guards_bind; [done|intros bid].
  apply guards_bind; [done|intros cr]. apply guards_bind; [apply lg_stampItems|intros items'].
  apply guards_bind; [unfold BookingRepo_Create; guards_solve|]. intros [[]|e].
  - apply guards_bind; [apply lg_client|]. intros [[]|e]; [done|].
    apply guards_bind; [unfold BookingRepo_Delete; guards_solve|]. intros _.
    by apply guards_bind; [apply lg_rollbackSeats|].
  - by apply guards_bind; [apply lg_rollbackSeats|].
Qed.

Lemma lg_FindByID bid : lg (BookingRepo_FindByID bid).
Proof. unfold BookingRepo_FindByID, BookingRepo_loadItems. guards_solve. Qed.

Lemma lg_transition b to :
  booking_moves (bk_Status b) to = true → lg (BookingRepo_TransitionAndReleaseSeats b to).
Proof. intros Hm. split; [|done]. intros t d. by apply lifecycle_transition. Qed.

(** A callback that acts on a booking it has read as pending. *)
Lemma lg_loadPending bid (f : Booking → tprog (res unit)) :
  (∀ b, bk_Status b = "pending" → lg (f b)) →
  lg (prog_bind (λ r, match r with
    | Ok None => Ret (Ok ()) | Ok (Some b) => f b | Err e => Ret (Err e) end)
    (loadPendingBooking bid)).
Proof.
  intros Hf.
  assert (∀ (r : res Booking), lg (prog_bind (λ r, match r with
    | Ok None => Ret (Ok ()) | Ok (Some b) => f b | Err e => Ret (Err e) end)
    (match r with
     | Err _ => Ret (Ok None)
     | Ok b => if negb (bool_decide (bk_Status b = "pending")) then Ret (Ok None)
               else Ret (Ok (Some b)) end))) as Hr.
  { intros [b|e]; [|done]. case_bool_decide; cbn; [by apply Hf|done]. }
  unfold loadPendingBooking. pose proof (lg_FindByID bid) as Hp. revert Hp.
  generalize (BookingRepo_FindByID (X := ticketE) bid). intros p.
  induction p as [r|Y e k IH]; intros Hp; [apply Hr|]. destruct Hp as [He Hk].
  split; [done|]. intros a. apply IH, Hk.
Qed.

Lemma lg_Confirm ctx bid pid : lg (Confirm ctx bid pid).
Proof.
  apply lg_loadPending. intros b Hb.
  apply guards_bind; [unfold EventStatusRepo_IsPublished; guards_solve|].
  intros [[]|e]; cbn [negb]; [| |done].
  - apply guards_bind; [unfold BookingRepo_UpdateStatusIfPending; guards_solve|].
    intros [[]|e]; cbn [negb]; [|done|done]. apply guards_bind; [|done].
    induction (bk_Items b); cbn [issueTickets]; [done|]. apply guards_bind; [guards_solve|done].
  - apply guards_bind; [by apply lg_transition; rewrite Hb|]. by intros [].
Qed.

Lemma lg_Expire bid : lg (ExpireOnPaymentExpired bid).
Proof.
  apply lg_loadPending. intros b Hb.
  apply guards_bind; [by apply lg_transition; rewrite Hb|]. by intros [].
Qed.

Lemma lg_CancelBookings ev : lg (CancelBookings ev).
Proof.
  unfold CancelBookings. apply guards_bind.
  - unfold BookingRepo_ListByEventID. apply guards_bind; [guards_solve|]. intros [rs|e]; [|done].
    induction (scan_booking <$> rs) as [|b bs IH]; cbn [load_all]; [done|].
    apply guards_bind; [unfold BookingRepo_loadItems; guards_solve|]. intros [b'|e]; [|done].
    by apply guards_bind; [|intros []].
  - intros [bs|e]; [|done]. induction bs as [|b bs IH]; cbn [cancelLoop]; [done|].
    destruct (_ && _) eqn:Hskip; [done|].
    apply guards_bind; [|by intros []]. apply lg_transition. apply booking_moves_spec.
    apply andb_false_iff in Hskip as [?|?]; bool_cases; tauto.
Qed.

Lemma lg_Consume (h : message → tprog (res unit)) ms : (∀ m, lg (h m)) → lg (Consume h ms).
Proof. intros Hh. induction ms; cbn [Consume]; [done|]. by apply guards_bind. Qed.

Lemma lg_initSeats ev types : lg (initSeats ev types).
Proof.
  induction types; cbn [initSeats]; [done|].
  apply guards_bind; [unfold SeatCounter_Init; guards_solve|]. intros [[]|e]; [|done].
  apply guards_bind; [unfold SeatCounter_SetPrice; guards_solve|]. by intros [[]|e].
Qed.

Lemma lg_stampTypes ev types : lg (stampTypes ev types).
Proof. induction types; cbn [stampTypes]; guards_solve. Qed.

Lemma lg_CreateTicketTypes types : lg (EventRepo_CreateTicketTypes types).
Proof. induction types; cbn [EventRepo_CreateTicketTypes]; guards_solve. Qed.

Lemma lg_discard {A} (p : tprog A) : lg p → lg (discard p).
Proof. intros Hp. by apply guards_bind. Qed.

Lemma ticketing_entry_lifecycle s p : ticketing_entry s p → lg p.
Proof.
  destruct 1.
  - apply lg_discard, lg_Reserve.
  - apply lg_Consume. intros m. unfold onPaymentCompleted.
    split_match; [apply lg_Confirm|done].
  - apply lg_Consume. intros m. unfold onPaymentExpired.
    split_match; [apply lg_Expire|done].
  - apply lg_Consume. intros m. unfold onEventCancelled.
    split_match; [apply lg_CancelBookings|done].
  - apply lg_discard. unfold CreateEvent. repeat case_bool_decide; [done|done|].
    apply guards_bind; [done|]. intros id.
    apply guards_bind; [unfold EventRepo_CreateEvent; guards_solve|]. intros []; [|done].
    apply guards_bind; [apply lg_stampTypes|]. intros ts.
    by apply guards_bind; [apply lg_CreateTicketTypes|intros []].
  - unfold UpdateEvent, EventRepo_FindEventByID, EventRepo_UpdateEvent. apply lg_discard. guards_solve.
  - unfold RejectEvent, EventRepo_FindEventByID, EventRepo_UpdateEvent. apply lg_discard. guards_solve.
  - unfold CancelEvent, EventRepo_FindEventByID, EventRepo_UpdateEvent. apply lg_discard. guards_solve.
  - unfold reprocessCancellation, EventRepo_FindEventByID. apply lg_discard. guards_solve.
Qed.

Lemma service_entry_lifecycle s p : service_entry s p → lg p.
Proof.
  destruct 1 as [p Hp|ev admin]; [by eapply ticketing_entry_lifecycle|].
  apply lg_discard. unfold ApproveEvent, EventRepo_FindEventByID.
  apply guards_bind; [guards_solve|]. intros [e|e]; [|done]. destruct (negb _); [done|].
  apply guards_bind; [done|]. intros now. unfold EventRepo_UpdateEvent.
  apply guards_bind; [guards_solve|]. intros [[]|]; [|done]. unfold EventRepo_ListTicketTypesByEvent.
  apply guards_bind; [guards_solve|]. intros [ts|]; [|done].
  apply guards_bind; [apply lg_initSeats|]. by intros [].
Qed.

(** C12. Bookings stay on their state machine: however the programs of any
    number of ticketing instances interleave, whatever the payment service
    answers and whichever statements fail or lose their answers, a booking
    that has items is never removed, its id, user, event and deadline never
    change, and its status only moves from pending to confirmed, expired or
    cancelled and from confirmed to cancelled; expired and cancelled are final. *)
Theorem booking_lifecycle (s : BookingService) (d0 d : TicketDB) k row :
  reachable (any_env ticketE) (service_entry s) d0 d →
  bookings d0 !! k = Some row → items_of k d0 ≠ [] →
  ∃ s', bookings d !! k = Some (set_status s' row) ∧ booking_moves (br_status row) s' = true.
Proof.
  intros Hreach. eapply (reachable_guards lifecycle) in Hreach as [_ Hl]; [apply Hl|].
  intros p. apply service_entry_lifecycle.
Qed.

Lemma booking_lifecycle_witness : ∃ s',
  br_status <$> bookings both_paid_db !! "id-3" = Some s' ∧ booking_moves "pending" s' = true.
Proof.
  destruct (booking_lifecycle sample_service orphaned_db both_paid_db "id-3"
    (mkBookingRow "id-3" "alice" "ev" "pending" (Some (sample_time + 900 * Second)) sample_time))
    as (s' & Hs & Hm).
  - unfold both_paid_db. apply reachable_run; [by split|apply SE_ticketing, TE_completed|].
    unfold resold_db. apply reachable_run; [by split|apply SE_ticketing, reserve_vip_entry|].
    apply reachable_refl.
  - vm_compute. reflexivity.
  - vm_compute. congruence.
  - exists s'. rewrite Hs. split; [reflexivity|exact Hm].
Defined.
