(* ===== verification/EventSpec.v ===== *)
(** * What the event service does, from start to end

    Creation and its capacity guard, the approval that opens the counters, the
    refusals of every lifecycle operation, cancellation, and the queries. *)
From S2P Require Import Prelude Effects TimeText Dto Outbox TicketDB Booking TicketSamples Event Seats SeatSafety ReserveSpec TransitionSpec.

(** ** Creation *)

Definition listed (ev : string) (ty ty' : TicketType) : Prop :=
  ∃ id, ty' = mkTicketType id ev (tt_Name ty) (tt_PriceRupiah ty) (tt_Quantity ty)
    (tt_Available ty) (tt_MaxPerOrder ty).

(** [d'] is [d] with the event and its ticket types added, no seat on sale. *)
Record created (e : Event) (types : list TicketType) (d d' : TicketDB) : Prop := {
  cr_event : events d !! ev_ID e = None ∧
    ∃ t, events d' = <[ev_ID e := mkEvent (ev_ID e) (ev_OrganizerID e) (ev_Title e)
      (ev_Description e) (ev_VenueName e) (ev_VenueAddress e) (ev_VenueCapacity e)
      (pg_timestamp (ev_StartAt e)) (pg_timestamp (ev_EndAt e)) EventStatusPending None None t t]>
      (events d);
  cr_types : ∃ types', Forall2 (listed (ev_ID e)) types types' ∧
    NoDup (tt_ID <$> types') ∧ Forall (λ ty, ticket_types d !! tt_ID ty = None) types' ∧
    ticket_types d' =
      foldl (λ m ty, <[tt_ID ty := set_available 0 ty]> m) (ticket_types d) types';
  cr_quantities : Forall (λ ty, 0 < tt_Quantity ty ∧ in_int4 (tt_Quantity ty)) types;
  cr_rest : bookings d' = bookings d ∧ booking_items d' = booking_items d ∧
    ticket_outbox d' = ticket_outbox d;
}.

Lemma insert_ticket_type_Ok ty t d :
  (insert_ticket_type ty t d).2 = Ok () →
  (insert_ticket_type ty t d).1 =
    set_ticket_types (<[tt_ID ty := set_available 0 ty]> (ticket_types d)) d ∧
  ticket_types d !! tt_ID ty = None ∧ 0 < tt_Quantity ty ∧ in_int4 (tt_Quantity ty).
Proof.
  unfold insert_ticket_type. case_bool_decide as H4; cbn; [|done].
  case_bool_decide; cbn; [|done]. destruct (ticket_type_check _) eqn:Hck; cbn; [|done].
  case_bool_decide as Hfree; [done|]. case_bool_decide; [|done]. intros _.
  apply eq_None_not_Some in Hfree. unfold ticket_type_check in Hck. bool_cases. done.
Qed.

Section creation.
Context (o : oracle ticketE).

Lemma runs_stampTypes ev types n d Φ :
  (∀ n' types', Forall2 (listed ev) types types' → Φ n' d types') →
  runs o (stampTypes ev types) n d Φ.
Proof.
  revert n Φ. induction types as [|ty types IH]; intros n Φ HΦ; [by apply HΦ|].
  cbn [stampTypes]. apply runs_bind, runs_uuid, runs_bind, IH.
  intros n' types' Hl. apply HΦ. constructor; [by eexists|done].
Qed.

Lemma runs_CreateTicketTypes types n d Φ :
  (NoDup (tt_ID <$> types) → Forall (λ ty, ticket_types d !! tt_ID ty = None) types →
   Forall (λ ty, 0 < tt_Quantity ty ∧ in_int4 (tt_Quantity ty)) types →
   ∀ n', Φ n' (set_ticket_types (foldl (λ m ty, <[tt_ID ty := set_available 0 ty]> m)
     (ticket_types d) types) d) (Ok ())) →
  (∀ n' d' e, Φ n' d' (Err e)) →
  runs o (EventRepo_CreateTicketTypes types) n d Φ.
Proof.
  revert n d Φ. induction types as [|ty types IH]; intros n d Φ Hok Herr.
  { destruct d. apply Hok; constructor. }
  cbn [EventRepo_CreateTicketTypes]. apply runs_bind, runs_sql; [|by intros; apply Herr..].
  pose proof (insert_ticket_type_Ok ty (o_now o n) d) as Hins.
  destruct (insert_ticket_type ty (o_now o n) d) as [d1 [[]|e]]; [|apply Herr].
  destruct Hins as (-> & Hfree & Hq); [done|]. cbn [fst snd]. apply IH; [|done].
  intros Hnd Hfr Hqs n'. cbn in Hfr. rewrite Forall_forall in Hfr.
  assert (∀ ty', ty' ∈ types → tt_ID ty ≠ tt_ID ty' ∧ ticket_types d !! tt_ID ty' = None) as Hne.
  { intros ty' Hin. specialize (Hfr ty' Hin). by apply lookup_insert_None in Hfr as [??]. }
  apply Hok.
  - constructor; [|done]. intros (ty' & Heq & Hin)%list_elem_of_fmap. by destruct (Hne ty' Hin).
  - constructor; [done|]. apply Forall_forall. intros ty' Hin. by apply Hne.
  - by constructor.
Qed.

Lemma runs_CreateEvent org ti de vn va cap st en types d :
  runs o (CreateEvent org ti de vn va cap st en types) 0 d (λ _ d' r,
    match r with
    | Ok e => created e types d d' ∧ types ≠ [] ∧ sumQuantities types ≤ cap ∧
        e = mkEvent (ev_ID e) org ti de vn va cap st en EventStatusPending None None 0 0
    | Err _ => True
    end).
Proof.
  unfold CreateEvent. case_bool_decide as Hne; [done|]. case_bool_decide as Hcap; [done|].
  apply runs_bind, runs_uuid. set (eid := o_uuid o 0).
  apply runs_bind, runs_sql; [|done..]. unfold insert_event.
  destruct (negb _); [done|]. destruct (negb _); [done|].
  case_bool_decide as Hfree; [done|]. cbn [fst snd].
  apply runs_bind, runs_stampTypes. intros n1 types' Hl.
  apply runs_bind, runs_CreateTicketTypes; [|done]. intros Hnd Hfr Hq n2.
  apply runs_ret. split_and!; [|done|lia|done].
  split; cbn.
  - split; [by apply eq_None_not_Some|]. by eexists.
  - by exists types'.
  - clear -Hl Hq. induction Hl as [|ty ty' l l' [id ->] Hl IH]; [done|].
    apply Forall_cons in Hq as [??]. constructor; [done|by apply IH].
  - done.
Qed.
End creation.

(** The running sum of the request is exact: quantities the table accepts are
    too small to overflow it. *)
Lemma sumQuantities_exact types :
  Forall (λ ty, 0 < tt_Quantity ty ∧ in_int4 (tt_Quantity ty)) types →
  Z.of_nat (length types) < 2 ^ 32 → sumQuantities types = lsum tt_Quantity types.
Proof.
  intros Hq Hlen. unfold sumQuantities. change 0 with (wrap64 0).
  rewrite (foldl_int_add tt_Quantity), Z.add_0_l. apply wrap64_id.
  assert (0 ≤ lsum tt_Quantity types ≤ Z.of_nat (length types) * 2 ^ 31) as Hb.
  { clear Hlen. induction Hq as [|ty types [Hp [_ H4]] _ IH]; unfold lsum in *; cbn; [lia|].
    cbn in IH. lia. }
  unfold in_int64. lia.
Qed.

(** C37. Creating an event with fewer than 2^32 ticket types: on success the
    event is stored as pending under a fresh id, its ticket types are stored
    with no seat on sale, nothing else changes, and the exact sum of the
    quantities fits the venue, although the guard computes it in wrapping
    64-bit arithmetic and the rows are written by separate statements. *)
Theorem create_event_capacity (o : oracle ticketE) org ti de vn va cap st en types d d' e :
  exec o (CreateEvent org ti de vn va cap st en types) d = (d', Ok e) →
  Z.of_nat (length types) < 2 ^ 32 →
  created e types d d' ∧ types ≠ [] ∧ lsum tt_Quantity types ≤ cap ∧
  ev_Status e = EventStatusPending ∧ ev_OrganizerID e = org.
Proof.
  intros Hex Hlen.
  destruct (runs_exec o _ _ _ _ _ (runs_CreateEvent o org ti de vn va cap st en types d) Hex)
    as (Hc & Hne & Hcap & He).
  rewrite sumQuantities_exact in Hcap by (done || apply Hc).
  split_and!; [done..|by rewrite He|by rewrite He].
Qed.

Definition sample_types : list TicketType :=
  [mkTicketType "" "" "VIP" 500 2 0 2; mkTicketType "" "" "Regular" 100 3 0 3].
Definition empty_db : TicketDB := mkTicketDB ∅ ∅ ∅ ∅ (mkOutbox 0 []).

Lemma create_event_capacity_witness : ∃ d' e,
  exec sample_oracle (CreateEvent "eo" "Concert" "" "Hall" "" 10 0 1 sample_types) empty_db =
    (d', Ok e) ∧ created e sample_types empty_db d'.
Proof.
  eexists _, _. refine ((λ H, conj H (proj1 (create_event_capacity sample_oracle "eo" "Concert" ""
    "Hall" "" 10 0 1 sample_types empty_db _ _ H eq_refl))) _).
  vm_compute. reflexivity.
Defined.

(** ** Approval *)

(** Ticket types carry their own key. *)
Definition types_keyed (d : TicketDB) : Prop :=
  map_Forall (λ k ty, tt_ID ty = k) (ticket_types d).
#[export] Instance types_keyed_dec d : Decision (types_keyed d).
Proof. unfold types_keyed. apply _. Defined.

(** The counters of an event, opened: every type of [ids] offers its quantity. *)
Definition opened (ids : list string) (m : gmap string TicketType) : gmap string TicketType :=
  foldl (λ m id, alter (λ ty, set_available (tt_Quantity ty) ty) id m) m ids.

Lemma lookup_opened ids m id :
  opened ids m !! id =
  if bool_decide (id ∈ ids) then (λ ty, set_available (tt_Quantity ty) ty) <$> m !! id
  else m !! id.
Proof.
  unfold opened. revert m. induction ids as [|i ids IH]; intros m; [done|]. cbn [foldl].
  rewrite IH. destruct (decide (i = id)) as [->|Hne].
  - rewrite lookup_alter_eq. rewrite (bool_decide_eq_true_2 (id ∈ id :: ids)) by (by left).
    case_bool_decide; [|done]. by destruct (m !! id).
  - rewrite lookup_alter_ne by done. erewrite (bool_decide_ext (id ∈ ids)); [done|].
    rewrite elem_of_cons. split; [by right|by intros [?|?]].
Qed.

Section approval.
Context (o : oracle ticketE) (Hcalm : faultless o).

Lemma open_check ty :
  ticket_type_check ty = true → ticket_type_check (set_available (tt_Quantity ty) ty) = true.
Proof.
  unfold ticket_type_check. intros. bool_cases. cbn.
  by rewrite !bool_decide_eq_true_2 by (cbn; lia).
Qed.

Lemma runs_initSeats ev types n d Φ :
  types_wf d → Forall (λ ty, static <$> ticket_types d !! tt_ID ty = Some (static ty)) types →
  (∀ n', Φ n' (set_ticket_types (opened (tt_ID <$> types) (ticket_types d)) d) (Ok ())) →
  runs o (initSeats ev types) n d Φ.
Proof.
  revert n d. induction types as [|ty types IH]; intros n d Hwf Hin HΦ.
  { destruct d. apply HΦ. }
  apply Forall_cons in Hin as [Hty Hin]. cbn [initSeats].
  destruct (ticket_types d !! tt_ID ty) as [row|] eqn:Hrow; [|done].
  apply (inj Some) in Hty. destruct (Hwf _ _ Hrow) as [Hck H4].
  assert (tt_Quantity row = tt_Quantity ty ∧ tt_PriceRupiah row = tt_PriceRupiah ty) as [Hq Hp].
  { split; [by apply (f_equal tt_Quantity) in Hty|by apply (f_equal tt_PriceRupiah) in Hty]. }
  set (row' := set_available (tt_Quantity row) row).
  set (d1 := set_ticket_types (<[tt_ID ty := row']> (ticket_types d)) d).
  assert (∀ t, counted (λ d, if bool_decide (in_int4 (tt_Quantity ty))
    then update_ticket_type (tt_ID ty) (λ _, true) (set_available (tt_Quantity ty)) d
    else Err numeric_out_of_range) t d = (d1, Ok 1)) as Hinit.
  { intros t. unfold counted, update_ticket_type.
    rewrite <- Hq, bool_decide_eq_true_2, Hrow, open_check by done. done. }
  assert (∀ t, counted (update_ticket_type (tt_ID ty) (λ _, true) (set_price (tt_PriceRupiah ty)))
    t d1 = (d1, Ok 1)) as Hprice.
  { intros t. unfold counted, update_ticket_type.
    assert (ticket_types d1 !! tt_ID ty = Some row') as -> by apply lookup_insert_eq.
    assert (set_price (tt_PriceRupiah ty) row' = row') as -> by (rewrite <- Hp; by destruct row).
    assert (ticket_type_check row' = true) as -> by (by apply open_check). unfold d1, set_ticket_types. cbn. by rewrite insert_insert_eq. }
  apply runs_bind. unfold SeatCounter_Init. apply runs_bind, runs_sql_calm; [done|].
  rewrite Hinit. apply runs_ret, runs_bind. unfold SeatCounter_SetPrice.
  apply runs_bind, runs_sql_calm; [done|]. cbn [fst snd]. rewrite Hprice. apply runs_ret.
  apply IH.
  - apply map_Forall_insert_2; [|done]. split; [by apply open_check|done].
  - eapply Forall_impl; [exact Hin|]. intros ty2. cbn. rewrite lookup_insert.
    case_decide as Heq; [|done]. rewrite <- Heq, Hrow. done.
  - intros n'. specialize (HΦ n'). cbn in HΦ. unfold d1. cbn.
    replace (<[tt_ID ty := row']> (ticket_types d)) with
      (alter (λ ty, set_available (tt_Quantity ty) ty) (tt_ID ty) (ticket_types d)); [exact HΦ|].
    apply map_eq. intros k. destruct (decide (tt_ID ty = k)) as [<-|Hne].
    + by rewrite lookup_alter_eq, lookup_insert_eq, Hrow.
    + by rewrite lookup_alter_ne, lookup_insert_ne.
Qed.
End approval.

(** The ticket types of an event. *)
Definition type_ids (ev : string) (d : TicketDB) : list string :=
  tt_ID <$> rows (λ ty, bool_decide (tt_EventID ty = ev)) (ticket_types d).

Lemma type_ids_elem ev d id :
  types_keyed d →
  id ∈ type_ids ev d ↔ ∃ ty, ticket_types d !! id = Some ty ∧ tt_EventID ty = ev.
Proof.
  intros Hk. unfold type_ids. rewrite list_elem_of_fmap. setoid_rewrite elem_of_rows.
  split.
  - intros (ty & -> & k & Hty & He). bool_cases. exists ty.
    by rewrite (Hk k ty Hty).
  - intros (ty & Hty & He). exists ty. split; [by rewrite (Hk _ _ Hty)|].
    exists id. by rewrite bool_decide_eq_true_2.
Qed.

Lemma runs_FindEvent (o : oracle ticketE) id n d Φ :
  faultless o → Φ (S n) d (row_or_error (events d !! id)) →
  runs o (EventRepo_FindEventByID id) n d Φ.
Proof. intros Hcalm HΦ. by apply runs_sql_calm. Qed.

Lemma runs_UpdateEvent_calm (o : oracle ticketE) e row n d Φ :
  faultless o → events d !! ev_ID e = Some row → event_check row = true →
  ev_Status e ∈ ["draft"; "pending"; "published"; "rejected"; "cancelled"] →
  (∀ n' now, Φ n' (set_events (<[ev_ID e := overwrite_event e now row]> (events d)) d) (Ok ())) →
  runs o (EventRepo_UpdateEvent e) n d Φ.
Proof.
  intros Hcalm Hrow Hck Hst HΦ. unfold EventRepo_UpdateEvent.
  apply runs_bind, runs_now, runs_sql_calm; [done|]. unfold update_event. rewrite Hrow.
  assert (event_check (overwrite_event e (o_now o n) row) = true) as ->; [|apply HΦ].
  unfold event_check in *. bool_cases. cbn. by rewrite !bool_decide_eq_true_2.
Qed.

(** [d'] is [d] with the event published by [admin] and its counters opened. *)
Record approved (ev admin : string) (d d' : TicketDB) : Prop := {
  ap_event : (λ e, (ev_Status e, ev_ReviewedBy e)) <$> events d' !! ev =
    Some (EventStatusPublished, Some admin);
  ap_others k : k ≠ ev → events d' !! k = events d !! k;
  ap_types id : ticket_types d' !! id =
    (λ ty, if bool_decide (tt_EventID ty = ev) then set_available (tt_Quantity ty) ty else ty)
      <$> ticket_types d !! id;
  ap_rest : bookings d' = bookings d ∧ booking_items d' = booking_items d ∧
    ticket_outbox d' = ticket_outbox d;
}.

Lemma opened_types ev d id :
  types_keyed d →
  opened (type_ids ev d) (ticket_types d) !! id =
  (λ ty, if bool_decide (tt_EventID ty = ev) then set_available (tt_Quantity ty) ty else ty)
    <$> ticket_types d !! id.
Proof.
  intros Hkey. rewrite lookup_opened.
  destruct (ticket_types d !! id) as [ty|] eqn:Hty; cbn; [|by destruct (bool_decide _)].
  pose proof (type_ids_elem ev d id Hkey) as Hel. rewrite Hty in Hel.
  destruct (decide (tt_EventID ty = ev)) as [He|He].
  - rewrite !bool_decide_eq_true_2; [done|done|]. apply Hel. eauto.
  - rewrite !bool_decide_eq_false_2; [done|done|]. intros (ty' & [= <-] & ?)%Hel. done.
Qed.

Lemma listed_static ev d :
  types_keyed d →
  Forall (λ ty, static <$> ticket_types d !! tt_ID ty = Some (static ty))
    (set_available 0 <$> rows (λ ty, bool_decide (tt_EventID ty = ev)) (ticket_types d)).
Proof.
  intros Hkey. apply Forall_fmap, Forall_forall. intros ty (k & Hty & _)%elem_of_rows.
  cbn. by rewrite (Hkey k ty Hty), Hty.
Qed.

Lemma runs_ApproveEvent (o : oracle ticketE) ev admin e d :
  faultless o → types_wf d → types_keyed d → events d !! ev = Some e → ev_ID e = ev →
  event_check e = true → ev_Status e = EventStatusPending →
  runs o (ApproveEvent ev admin) 0 d (λ _ d' r, ∃ e', r = Ok e' ∧
    (ev_Status e' = EventStatusPublished ∧ approved ev admin d d')).
Proof.
  intros Hcalm Hwf Hkey Hev Hid Hck Hst.
  unfold ApproveEvent. apply runs_bind, runs_FindEvent; [done|]. rewrite Hev.
  cbn [row_or_error]. rewrite bool_decide_eq_true_2 by done. cbn [negb].
  apply runs_bind, runs_now, runs_bind.
  eapply runs_UpdateEvent_calm; [done|cbn; by rewrite Hid|done|cbn; set_solver|].
  intros n1 now. cbn [reviewed ev_ID]. rewrite Hid. set (row' := overwrite_event _ _ _).
  apply runs_bind, runs_sql_calm; [done|]. cbn [fst snd query].
  apply runs_bind, runs_initSeats; [done|done|by apply listed_static|].
  intros n2. apply runs_ret. eexists. split_and!; [done|done|]. split.
  - cbn. by rewrite lookup_insert_eq.
  - intros k Hk. cbn. by rewrite lookup_insert_ne.
  - intros id. cbn. rewrite <- list_fmap_compose. by apply (opened_types ev d).
  - done.
Qed.

Lemma approved_inv ev admin d d' :
  types_wf d → types_keyed d → approved ev admin d d' → seats_inv d [] →
  (∀ id, id ∈ type_ids ev d → held d id = 0) → seats_inv d' [].
Proof.
  intros Hwf Hkey [_ _ Ht (Hb & Hi & _)] [Hc Hit _] Hfree. split; [|by rewrite Hi, Hb|done].
  intros id. rewrite (held_ext d d' id Hi) by (intros; unfold booking_active; by rewrite Hb).
  specialize (Hc id). unfold seat_avail, seat_total in *. rewrite Ht.
  destruct (ticket_types d !! id) as [ty|] eqn:Hty; cbn in *; [|done].
  case_bool_decide as Hev; [|done]. cbn.
  rewrite (Hfree id) in * by (apply type_ids_elem; eauto).
  destruct (Hwf id ty Hty) as [Hck _]. unfold ticket_type_check in Hck. bool_cases.
  unfold holds, lsum in *. cbn in *. lia.
Qed.

(** Approving a pending event: it is published with its reviewer, every
    ticket type of the event offers its whole quantity, and the other events,
    their ticket types, the bookings and the outbox are untouched.  When no
    booking holds seats of the event yet, the accounting of seats holds
    afterwards. *)
Theorem approve_opens (o : oracle ticketE) ev admin d e :
  faultless o → types_wf d → types_keyed d → events d !! ev = Some e → ev_ID e = ev →
  event_check e = true → ev_Status e = EventStatusPending →
  ∃ d' e', exec o (ApproveEvent ev admin) d = (d', Ok e') ∧
    ev_Status e' = EventStatusPublished ∧ approved ev admin d d' ∧
    (seats_inv d [] → (∀ id, id ∈ type_ids ev d → held d id = 0) → seats_inv d' []).
Proof.
  intros Hcalm Hwf Hkey Hev Hid Hck Hst.
  destruct (exec_ok o _ _ _ (runs_ApproveEvent o ev admin e d Hcalm Hwf Hkey Hev Hid Hck Hst))
    as (d' & e' & Hex & Hst' & Hap).
  exists d', e'. split_and!; [done|done|done|]. by eapply approved_inv.
Qed.

Lemma approve_opens_witness : ∃ d' e',
  exec sample_oracle (ApproveEvent "ev" "admin") (sample_db_with EventStatusPending 0 0) =
    (d', Ok e') ∧ seats_inv d' [].
Proof.
  destruct (approve_opens sample_oracle "ev" "admin" (sample_db_with EventStatusPending 0 0)
    (sample_event EventStatusPending)) as (d' & e' & Hex & _ & _ & HI).
  - done.
  - apply (bool_decide_unpack (types_wf _)). vm_compute. exact I.
  - apply (bool_decide_unpack (types_keyed _)). vm_compute. exact I.
  - reflexivity.
  - reflexivity.
  - reflexivity.
  - reflexivity.
  - exists d', e'. split; [exact Hex|]. apply HI; [apply seats_inv_b_sound; vm_compute; reflexivity|].
    intros id _. reflexivity.
Defined.

(** ** Refusals *)

(** Why an operation on the event is refused, if it is. *)
Definition approve_refusal (oe : option Event) : option error :=
  match oe with
  | None => Some ErrEventNotFound
  | Some e =>
      if decide (ev_Status e = EventStatusPending) then None else Some ErrEventNotApprovable
  end.
Definition update_refusal (org : string) (oe : option Event) : option error :=
  match oe with
  | None => Some ErrEventNotFound
  | Some e =>
      if decide (ev_OrganizerID e ≠ org) then Some ErrNotEventOwner
      else if decide (ev_Status e = EventStatusDraft ∨ ev_Status e = EventStatusPending)
      then None else Some ErrEventNotEditable
  end.
Definition cancel_refusal (user : string) (oe : option Event) : option error :=
  match oe with
  | None => Some ErrEventNotFound
  | Some e =>
      if decide (ev_Status e ≠ EventStatusPublished) then Some ErrEventNotCancellable
      else if decide (ev_OrganizerID e = user) then None else Some ErrNotEventOwner
  end.
Definition reprocess_refusal (owner : option string) (oe : option Event) : option error :=
  match oe with
  | None => Some ErrEventNotFound
  | Some e =>
      if decide (ev_Status e ≠ EventStatusCancelled) then Some ErrEventNotCancelled
      else match owner with
           | Some u => if decide (ev_OrganizerID e = u) then None else Some ErrNotEventOwner
           | None => None
           end
  end.

Ltac refuse :=
  intros Href; apply exec_eq, runs_bind, runs_FindEvent; [done|];
  unfold approve_refusal, update_refusal, cancel_refusal, reprocess_refusal in Href;
  destruct (events _ !! _) as [e|]; cbn [row_or_error];
  repeat (case_decide || case_bool_decide; cbn [negb andb]);
  first [tauto | injection Href as <-; done | done].

(** Refused lifecycle operations: an operation on an event that is missing,
    in the wrong status or owned by someone else answers the error of the first
    failed check and leaves the database as it was. *)
Theorem event_refusals (o : oracle ticketE) ctx ev u d err :
  faultless o →
  (approve_refusal (events d !! ev) = Some err →
     exec o (ApproveEvent ev u) d = (d, Err err) ∧
     ∀ reason, exec o (RejectEvent ev u reason) d = (d, Err err)) ∧
  (update_refusal u (events d !! ev) = Some err →
     ∀ ti de st en, exec o (UpdateEvent ev u ti de st en) d = (d, Err err)) ∧
  (cancel_refusal u (events d !! ev) = Some err →
     exec o (CancelEvent ctx ev u) d = (d, Err err)) ∧
  (reprocess_refusal (Some u) (events d !! ev) = Some err →
     exec o (ReprocessCancellation ctx ev u) d = (d, Err err)) ∧
  (reprocess_refusal None (events d !! ev) = Some err →
     exec o (ReprocessCancellationAsAdmin ctx ev) d = (d, Err err)).
Proof.
  intros Hcalm. split_and!.
  - intros Href. split; [|intros reason]; revert Href; refuse.
  - intros Href ti de st en. revert Href. refuse.
  - refuse.
  - refuse.
  - refuse.
Qed.

Lemma event_refusals_witness :
  exec sample_oracle (ApproveEvent "ev" "u") sample_db = (sample_db, Err ErrEventNotApprovable) ∧
  exec sample_oracle (CancelEvent background "ev" "u") sample_db =
    (sample_db, Err ErrNotEventOwner).
Proof.
  split.
  - apply (event_refusals sample_oracle background "ev" "u" sample_db ErrEventNotApprovable); done.
  - apply (event_refusals sample_oracle background "ev" "u" sample_db ErrNotEventOwner); done.
Defined.

(** ** Cancellation *)

Lemma runs_CancelEvent (o : oracle ticketE) ctx ev e d :
  faultless o → dated o → events d !! ev = Some e → ev_ID e = ev → event_check e = true →
  ev_Status e = EventStatusPublished →
  runs o (CancelEvent ctx ev (ev_OrganizerID e)) 0 d (λ _ d' r, ∃ e', r = Ok e' ∧
    ∃ row at_, ev_Status row = EventStatusCancelled ∧ 0 ≤ year_of at_ < 10000 ∧
      queued [mkMessage "event.cancelled" ev (PEventCancelled (mkEventCancelled ev at_))]
        (set_events (<[ev := row]> (events d)) d) d').
Proof.
  intros Hcalm Hdate Hev Hid Hck Hst. unfold CancelEvent.
  apply runs_bind, runs_FindEvent; [done|]. rewrite Hev. cbn [row_or_error].
  rewrite !bool_decide_eq_true_2 by done. cbn [negb].
  apply runs_bind, runs_now, runs_bind.
  eapply runs_UpdateEvent_calm; [done|cbn; by rewrite Hid|done|cbn; set_solver|].
  intros n1 now. cbn [with_status ev_ID]. rewrite Hid.
  apply runs_bind, runs_now, runs_bind, runs_Insert, runs_sql_calm; [apply Hdate|done|].
  apply runs_ret.
  eexists. split; [done|]. eexists _, _. split; [|split; [|apply queued_insert]]; [done|].
  apply Hdate.
Qed.

(** Cancelling a published event as its organizer: the event becomes
    cancelled and exactly one [event.cancelled] message with its id is queued,
    the bookings being left to the consumer of that message. *)
Theorem cancel_event_queues (o : oracle ticketE) ctx ev e d :
  faultless o → dated o → events d !! ev = Some e → ev_ID e = ev → event_check e = true →
  ev_Status e = EventStatusPublished →
  ∃ d' e', exec o (CancelEvent ctx ev (ev_OrganizerID e)) d = (d', Ok e') ∧
    ∃ row at_, ev_Status row = EventStatusCancelled ∧ 0 ≤ year_of at_ < 10000 ∧
      queued [mkMessage "event.cancelled" ev (PEventCancelled (mkEventCancelled ev at_))]
        (set_events (<[ev := row]> (events d)) d) d'.
Proof.
  intros Hcalm Hdate Hev Hid Hck Hst.
  exact (exec_ok o _ _ _ (runs_CancelEvent o ctx ev e d Hcalm Hdate Hev Hid Hck Hst)).
Qed.

Lemma cancel_event_queues_witness : ∃ d' e',
  exec sample_oracle (CancelEvent background "ev" "eo") reserved_db = (d', Ok e') ∧
  bookings d' = bookings reserved_db.
Proof.
  destruct (cancel_event_queues sample_oracle background "ev" (sample_event EventStatusPublished)
    reserved_db) as (d' & e' & Hex & row & at_ & _ & _ & Hq).
  - done.
  - exact sample_dated.
  - vm_compute. reflexivity.
  - reflexivity.
  - reflexivity.
  - reflexivity.
  - exists d', e'. split; [exact Hex|]. exact (qu_bookings _ _ _ Hq).
Defined.

(** ** Queries *)

Definition on_sale (e : Event) : bool := bool_decide (ev_Status e = "published").

(** Pages of published events: with a limit and an offset that are not
    negative, the answer is that window of the published events in the order
    of their start, and their number. *)
Lemma list_published_page (o : oracle ticketE) limit offset d :
  faultless o → 0 ≤ limit → 0 ≤ offset →
  ∃ l, l ≡ₚ rows on_sale (events d) ∧ StronglySorted (key_le ev_StartAt) l ∧
    exec o (ListPublished limit offset) d =
      (d, Ok (list_event <$> take (Z.to_nat limit) (drop (Z.to_nat offset) l),
              Z.of_nat (length l))).
Proof.
  intros Hcalm Hl Ho. exists (order_by ev_StartAt (rows on_sale (events d))).
  split_and!; [apply order_by_perm|apply order_by_sorted|].
  apply exec_eq. unfold ListPublished, EventRepo_ListPublished, paged.
  apply runs_bind, runs_sql_calm; [done|]. cbn [fst snd count_events query].
  apply runs_bind, runs_sql_calm; [done|]. unfold page_events. cbn [fst snd query]. unfold limit_offset.
  rewrite !bool_decide_eq_false_2 by lia. cbn [res_map]. apply runs_ret.
  split; [done|]. do 2 f_equal. by rewrite order_by_perm.
Qed.

Lemma list_published_page_witness : ∃ l,
  l ≡ₚ rows on_sale (events sample_db) ∧
  exec sample_oracle (ListPublished 10 0) sample_db =
    (sample_db, Ok (list_event <$> take 10 (drop 0 l), Z.of_nat (length l))).
Proof.
  destruct (list_published_page sample_oracle 10 0 sample_db) as (l & Hl & _ & Hex).
  - done.
  - lia.
  - lia.
  - exists l. split; [exact Hl|exact Hex].
Defined.

Lemma runs_liveTypes (o : oracle ticketE) ev types n d Φ :
  faultless o → Forall (λ ty, ticket_types d !! tt_ID ty = Some ty) types →
  (∀ n', Φ n' d types) →
  runs o (liveTypes ev (set_available 0 <$> types)) n d Φ.
Proof.
  intros Hcalm. revert n Φ. induction types as [|ty types IH]; intros n Φ Hin HΦ; [apply HΦ|].
  apply Forall_cons in Hin as [Hty Hin]. cbn [fmap list_fmap liveTypes].
  apply runs_bind. unfold SeatReader_Available. apply runs_bind, runs_sql_calm; [done|].
  cbn [fst snd query set_available tt_ID]. rewrite Hty. cbn [fmap option_fmap option_map row_or_error].
  apply runs_ret, runs_bind, IH; [done|]. intros n'. apply runs_ret.
  destruct ty. apply HΦ.
Qed.

(** [GetEvent] reports live availability: the ticket types it returns are
    the rows of the event, their counters included. *)
Lemma get_event_live (o : oracle ticketE) ev e d :
  faultless o → types_keyed d → events d !! ev = Some e →
  exec o (GetEvent ev) d =
    (d, Ok (e, rows (λ ty, bool_decide (tt_EventID ty = ev)) (ticket_types d))).
Proof.
  intros Hcalm Hkey Hev. apply exec_eq. unfold GetEvent.
  apply runs_bind, runs_FindEvent; [done|]. rewrite Hev. cbn [row_or_error].
  apply runs_bind, runs_sql_calm; [done|]. cbn [fst snd query].
  apply runs_bind, runs_liveTypes; [done| |done].
  apply Forall_forall. intros ty (k & Hty & _)%elem_of_rows. by rewrite (Hkey k ty Hty).
Qed.

Lemma get_event_live_witness :
  exec sample_oracle (GetEvent "ev") reserved_db =
    (reserved_db, Ok (sample_event EventStatusPublished,
       rows (λ ty, bool_decide (tt_EventID ty = "ev")) (ticket_types reserved_db))).
Proof.
  apply (get_event_live sample_oracle "ev" (sample_event EventStatusPublished) reserved_db).
  - done.
  - apply (bool_decide_unpack (types_keyed reserved_db)). vm_compute. exact I.
  - vm_compute. reflexivity.
Defined.

(** ** The payment client *)

(** Whether an answer makes the client try once more. *)
Definition retries (r : res Z) : bool :=
  match r with Err _ => true | Ok code => bool_decide (500 ≤ code) end.
Definition accepted (r : res Z) : bool :=
  match r with Err _ => false | Ok code => bool_decide (200 ≤ code < 300) end.

(** The request the client sends. *)
Definition client_request (c : Client) (bid ev u em : string) (amt exp : Z) : initiateRequest :=
  mkInitiateRequest (cl_baseURL c +:+ "/api/payments/internal") (cl_apiKey c) bid ev u em amt
    (rfc3339 exp).

(** The client of the payment service sends its request once, and a second
    time only after a transport error or a 5xx answer; it succeeds exactly
    when the last answer it got is a 2xx, and every failure is
    [ErrPaymentUnavailable].  The deadline it sends is at most a second early
    and never late. *)
Theorem client_retries (o : oracle ticketE) c bid ev u em amt exp n d :
  cl_url_ok c = true →
  let req := client_request c bid ev u em amt exp in
  let a1 := o_ext o n _ (HttpDo req) in
  let a2 := o_ext o (S n) _ (HttpDo req) in
  let again := negb (accepted a1) && retries a1 in
  let last := if again then a2 else a1 in
  exp - Second < iq_ExpiresAt req ≤ exp ∧
  ∃ r, run o (Client_InitiateTxnForBooking c bid ev u em amt exp) n d =
      ((if again then S (S n) else S n), d, r) ∧
    is_ok r = accepted last ∧
    (∀ e, r = Err e → errors_Is e ErrPaymentUnavailable = true).
Proof.
  intros Hurl req. split; [apply rfc3339_bounds|].
  unfold Client_InitiateTxnForBooking. rewrite Hurl. cbn [negb attempt_loop].
  change (mkInitiateRequest _ _ _ _ _ _ _ _) with req.
  rewrite (bool_decide_eq_true_2 (0%nat = 0%nat)), (bool_decide_eq_false_2 (1%nat = 0%nat)) by done.
  clearbody req. unfold accepted, retries. cbn -[bool_decide].
  destruct (o_ext o n _ (HttpDo req)) as [c1|e1]; cbn -[bool_decide];
    [destruct (bool_decide (200 ≤ c1 < 300)) eqn:H1; cbn -[bool_decide]; rewrite ?H1;
     [|destruct (bool_decide (500 ≤ c1)); cbn -[bool_decide]]|];
    try (eexists; split_and!; [done|done|by intros e [= <-]]);
    (destruct (o_ext o (S n) _ (HttpDo req)) as [c2|e2]; cbn -[bool_decide];
     [destruct (bool_decide (200 ≤ c2 < 300)) eqn:H2; cbn -[bool_decide]; rewrite ?H2|]);
    eexists; (split_and!; [done|done|by intros e [= <-]]).
Qed.

Lemma client_retries_witness : ∃ r,
  run outage_oracle (Client_InitiateTxnForBooking (bs_paymentClient sample_service)
    "b" "ev" "u" "u@mail" 500 0) 0 sample_db = (2%nat, sample_db, r) ∧ is_ok r = false.
Proof.
  destruct (client_retries outage_oracle (bs_paymentClient sample_service) "b" "ev" "u" "u@mail"
    500 0 0 sample_db eq_refl) as (_ & r & Hrun & Hok & _).
  exists r. split; [exact Hrun|exact Hok].
Defined.
