(* ===== verification/TicketHandler.v ===== *)
(** * HTTP interface of the ticketing service

    [service/ticketing/internal/handler]: request and response structs, the
    handlers of events and bookings, and the routes.  A time that a response
    prints in RFC 3339 is the instant it prints, to the second. *)
From S2P Require Import Prelude Effects Json Dto Outbox TicketDB Booking Event.

(** ** [dto.go] and [booking_dto.go] *)

Record TicketTypeRequest := mkTicketTypeRequest {
  tq_Name : string; tq_PriceRupiah : Z; tq_Quantity : Z; tq_MaxPerOrder : Z }.
Record CreateEventRequest := mkCreateEventRequest {
  cq_Title : string; cq_Description : string; cq_VenueName : string; cq_VenueAddress : string;
  cq_VenueCapacity : Z; cq_StartAt : Z; cq_EndAt : Z; cq_TicketTypes : list TicketTypeRequest }.
Record UpdateEventRequest := mkUpdateEventRequest {
  uq_Title : string; uq_Description : string; uq_StartAt : Z; uq_EndAt : Z }.
Record RejectRequest := mkRejectRequest { jq_Reason : string }.
Record ReserveItemRequest := mkReserveItemRequest {
  iq_TicketTypeID : string; iq_Quantity : Z; iq_UnitPriceRupiah : Z }.
Record ReserveRequest := mkReserveRequest {
  rq_EventID : string; rq_Items : list ReserveItemRequest }.

Definition decode_ticket_type : json → res TicketTypeRequest := dec_struct (λ o,
  name ←! string_field "name" o;
  price ←! int_field "price_rupiah" o;
  quantity ←! int_field "quantity" o;
  mpo ←! int_field "max_per_order" o;
  Ok (mkTicketTypeRequest name price quantity mpo)).
Definition TicketTypeRequest_fields (r : TicketTypeRequest) : fields :=
  [("Name", "required", VString (tq_Name r));
   ("PriceRupiah", "required,min=0", VInt (tq_PriceRupiah r));
   ("Quantity", "required,min=1", VInt (tq_Quantity r));
   ("MaxPerOrder", "omitempty,min=1", VInt (tq_MaxPerOrder r))].

Definition decode_create_event : json → res CreateEventRequest := dec_struct (λ o,
  title ←! string_field "title" o;
  description ←! string_field "description" o;
  venue ←! string_field "venue_name" o;
  address ←! string_field "venue_address" o;
  capacity ←! int_field "venue_capacity" o;
  start ←! time_field "start_at" o;
  end_ ←! time_field "end_at" o;
  types ←! slice_field "ticket_types" decode_ticket_type o;
  Ok (mkCreateEventRequest title description venue address capacity start end_ types)).
Definition CreateEventRequest_fields (r : CreateEventRequest) : fields :=
  [("Title", "required", VString (cq_Title r));
   ("VenueName", "required", VString (cq_VenueName r));
   ("VenueAddress", "required", VString (cq_VenueAddress r));
   ("VenueCapacity", "required,min=1", VInt (cq_VenueCapacity r));
   ("StartAt", "required", VTime (cq_StartAt r));
   ("EndAt", "required", VTime (cq_EndAt r));
   ("TicketTypes", "required,min=1,dive", VSlice (TicketTypeRequest_fields <$> cq_TicketTypes r))].

Definition decode_update_event : json → res UpdateEventRequest := dec_struct (λ o,
  title ←! string_field "title" o;
  description ←! string_field "description" o;
  start ←! time_field "start_at" o;
  end_ ←! time_field "end_at" o;
  Ok (mkUpdateEventRequest title description start end_)).
Definition UpdateEventRequest_fields (r : UpdateEventRequest) : fields :=
  [("Title", "required", VString (uq_Title r));
   ("StartAt", "required", VTime (uq_StartAt r));
   ("EndAt", "required", VTime (uq_EndAt r))].

Definition decode_reject : json → res RejectRequest := dec_struct (λ o,
  reason ←! string_field "reason" o;
  Ok (mkRejectRequest reason)).
Definition RejectRequest_fields (r : RejectRequest) : fields :=
  [("Reason", "required", VString (jq_Reason r))].

Definition decode_item : json → res ReserveItemRequest := dec_struct (λ o,
  ty ←! string_field "ticket_type_id" o;
  quantity ←! int_field "quantity" o;
  price ←! int_field "unit_price_rupiah" o;
  Ok (mkReserveItemRequest ty quantity price)).
Definition ReserveItemRequest_fields (r : ReserveItemRequest) : fields :=
  [("TicketTypeID", "required", VString (iq_TicketTypeID r));
   ("Quantity", "required,min=1", VInt (iq_Quantity r));
   ("UnitPriceRupiah", "required,min=0", VInt (iq_UnitPriceRupiah r))].

Definition decode_reserve : json → res ReserveRequest := dec_struct (λ o,
  ev ←! string_field "event_id" o;
  items ←! slice_field "items" decode_item o;
  Ok (mkReserveRequest ev items)).
Definition ReserveRequest_fields (r : ReserveRequest) : fields :=
  [("EventID", "required", VString (rq_EventID r));
   ("Items", "required,min=1,dive", VSlice (ReserveItemRequest_fields <$> rq_Items r))].

Record EventResponse := mkEventResponse {
  er_ID : string; er_OrganizerID : string; er_Title : string; er_Description : string;
  er_VenueName : string; er_VenueAddress : string; er_VenueCapacity : Z; er_StartAt : Z;
  er_EndAt : Z; er_Status : EventStatus; er_CreatedAt : Z; er_UpdatedAt : Z }.
Record TicketTypeResponse := mkTicketTypeResponse {
  ty_ID : string; ty_Name : string; ty_PriceRupiah : Z; ty_Quantity : Z; ty_Available : Z;
  ty_MaxPerOrder : Z }.
Record ReservationResponse := mkReservationResponse {
  rv_BookingID : string; rv_EventID : string; rv_TotalRupiah : Z; rv_Status : string;
  rv_ExpiresAt : Z }.
Record BookingItemResp := mkBookingItemResp {
  ip_ID : string; ip_TicketTypeID : string; ip_Quantity : Z; ip_UnitPriceRupiah : Z;
  ip_TotalPriceRupiah : Z }.
Record BookingResponse := mkBookingResponse {
  bp_ID : string; bp_UserID : string; bp_EventID : string; bp_Status : string;
  bp_ExpiresAt : option Z; bp_TotalRupiah : Z; bp_PaymentID : string; bp_RefundStatus : string;
  bp_Items : list BookingItemResp; bp_CreatedAt : Z }.

(** The data of the responses. *)
Inductive ticketData :=
  | DEvent (e : EventResponse)
  | DEventDetail (e : EventResponse) (types : list TicketTypeResponse)
  | DEventList (events : list EventResponse) (total : Z)
  | DEvents (events : list EventResponse)
  | DReprocess (eventID : string) (status : EventStatus)
  | DReservation (r : ReservationResponse)
  | DBooking (b : BookingResponse)
  | DBookings (bs : list BookingResponse).

Definition bookingToResponse (b : Booking) : BookingResponse :=
  mkBookingResponse (bk_ID b) (bk_UserID b) (bk_EventID b) (bk_Status b)
    (rfc3339 <$> bk_ExpiresAt b) (bk_TotalRupiah b) (bk_PaymentID b) (bk_RefundStatus b)
    ((λ i, mkBookingItemResp (bi_ID i) (bi_TicketTypeID i) (bi_Quantity i) (bi_UnitPriceRupiah i)
             (bi_TotalPriceRupiah i)) <$> bk_Items b)
    (rfc3339 (bk_CreatedAt b)).

(** The [EventResponse] literal of the event handlers. *)
Definition eventResponse (e : Event) : EventResponse :=
  mkEventResponse (ev_ID e) (ev_OrganizerID e) (ev_Title e) (ev_Description e) (ev_VenueName e)
    (ev_VenueAddress e) (ev_VenueCapacity e) (ev_StartAt e) (ev_EndAt e) (ev_Status e)
    (ev_CreatedAt e) (ev_UpdatedAt e).

Section handlers.
Context `{!Validator} (s : BookingService).
Local Abbreviation reply := (tprog (response ticketData)).

(** ** [booking_handler.go] *)

Definition requested_items (req : ReserveRequest) : list BookingItem :=
  (λ i, mkBookingItem "" "" (iq_TicketTypeID i) (iq_Quantity i) (iq_UnitPriceRupiah i) 0)
    <$> rq_Items req.

Definition reserve_response (r : res Reservation) : response ticketData :=
  match r with
  | Err err =>
      if errors_Is err ErrNoSeatsAvailable then Error 409 "not enough seats available"
      else if errors_Is err ErrPriceMismatch then BadRequest (error_text err)
      else if errors_Is err ErrPaymentUnavailable
      then Error 502 "payment service unavailable, please retry"
      else InternalServerError "reservation failed"
  | Ok rsv =>
      Created (DReservation (mkReservationResponse (rs_BookingID rsv) (rs_EventID rsv)
        (rs_TotalRupiah rsv) (rs_Status rsv) (rfc3339 (rs_ExpiresAt rsv))))
  end.

Definition BookingHandler_Reserve (r : request) : reply :=
  match Decode decode_reserve (r_body r) with
  | Err _ => Ret (BadRequest "invalid request body")
  | Ok req =>
      match validate_Struct (ReserveRequest_fields req) with
      | Some err => Ret (BadRequest err)
      | None =>
          let userID := UserIDFromContext (r_ctx r) in
          if bool_decide (userID = "") then Ret (Unauthorized "authentication required")
          else
            rsv ← Reserve s userID (UserEmailFromContext (r_ctx r)) (rq_EventID req)
                    (requested_items req);
            Ret (reserve_response rsv)
      end
  end.

Definition BookingHandler_Release (r : request) : reply :=
  Ret (Error 409
    "reservation cannot be cancelled; seats are released automatically when the payment expires").

Definition BookingHandler_GetBooking (r : request) : reply :=
  let userID := UserIDFromContext (r_ctx r) in
  b ← GetBooking (r_param r "id");
  Ret match b with
      | Err _ => NotFound "booking not found"
      | Ok booking =>
          if negb (bool_decide (bk_UserID booking = userID)) then NotFound "booking not found"
          else OK (DBooking (bookingToResponse booking))
      end.

Definition BookingHandler_ListMyBookings (r : request) : reply :=
  let userID := UserIDFromContext (r_ctx r) in
  if bool_decide (userID = "") then Ret (Unauthorized "authentication required")
  else
    bs ← ListMyBookings userID;
    Ret match bs with
        | Err _ => InternalServerError "failed to list bookings"
        | Ok bookings => OK (DBookings (bookingToResponse <$> bookings))
        end.

(** ** [event_handler.go] *)

Definition requested_types (req : CreateEventRequest) : list TicketType :=
  (λ ty, mkTicketType "" "" (tq_Name ty) (tq_PriceRupiah ty) (tq_Quantity ty) 0
           (if bool_decide (tq_MaxPerOrder ty = 0) then 5 else tq_MaxPerOrder ty))
    <$> cq_TicketTypes req.

Definition EventHandler_CreateEvent (r : request) : reply :=
  match Decode decode_create_event (r_body r) with
  | Err _ => Ret (BadRequest "invalid request body")
  | Ok req =>
      match validate_Struct (CreateEventRequest_fields req) with
      | Some err => Ret (BadRequest err)
      | None =>
          let userID := UserIDFromContext (r_ctx r) in
          e ← CreateEvent userID (cq_Title req) (cq_Description req) (cq_VenueName req)
                (cq_VenueAddress req) (cq_VenueCapacity req) (cq_StartAt req) (cq_EndAt req)
                (requested_types req);
          Ret match e with
              | Err err =>
                  if errors_Is err ErrCapacityExceeded || errors_Is err ErrTicketTypesEmpty
                  then BadRequest (error_text err)
                  else InternalServerError "failed to create event"
              | Ok event => Created (DEvent (eventResponse event))
              end
      end
  end.

Definition EventHandler_UpdateEvent (r : request) : reply :=
  match Decode decode_update_event (r_body r) with
  | Err _ => Ret (BadRequest "invalid request body")
  | Ok req =>
      match validate_Struct (UpdateEventRequest_fields req) with
      | Some err => Ret (BadRequest err)
      | None =>
          let userID := UserIDFromContext (r_ctx r) in
          e ← UpdateEvent (r_param r "id") userID (uq_Title req) (uq_Description req)
                (uq_StartAt req) (uq_EndAt req);
          Ret match e with
              | Err err =>
                  if errors_Is err ErrEventNotFound then NotFound (error_text err)
                  else if errors_Is err ErrNotEventOwner || errors_Is err ErrEventNotEditable
                  then Forbidden (error_text err)
                  else InternalServerError "failed to update event"
              | Ok event => OK (DEvent (eventResponse event))
              end
      end
  end.

(** The answer of [ApproveEvent], [RejectEvent] and [CancelEvent]. *)
Definition lifecycle_response {A} (data : A → ticketData) (r : res A) : response ticketData :=
  match r with
  | Err err =>
      if errors_Is err ErrEventNotFound then NotFound (error_text err)
      else BadRequest (error_text err)
  | Ok a => OK (data a)
  end.

Definition EventHandler_ApproveEvent (r : request) : reply :=
  e ← ApproveEvent (r_param r "id") (UserIDFromContext (r_ctx r));
  Ret (lifecycle_response (λ e, DEvent (eventResponse e)) e).

Definition EventHandler_RejectEvent (r : request) : reply :=
  match Decode decode_reject (r_body r) with
  | Err _ => Ret (BadRequest "invalid request body")
  | Ok req =>
      match validate_Struct (RejectRequest_fields req) with
      | Some err => Ret (BadRequest err)
      | None =>
          e ← RejectEvent (r_param r "id") (UserIDFromContext (r_ctx r)) (jq_Reason req);
          Ret (lifecycle_response (λ e, DEvent (eventResponse e)) e)
      end
  end.

Definition EventHandler_CancelEvent (r : request) : reply :=
  e ← CancelEvent (r_ctx r) (r_param r "id") (UserIDFromContext (r_ctx r));
  Ret (lifecycle_response (λ e, DEvent (eventResponse e)) e).

Definition EventHandler_ReprocessCancellation (r : request) : reply :=
  e ← (if bool_decide (UserRoleFromContext (r_ctx r) = RoleAdmin)
       then ReprocessCancellationAsAdmin (r_ctx r) (r_param r "id")
       else ReprocessCancellation (r_ctx r) (r_param r "id") (UserIDFromContext (r_ctx r)));
  Ret (lifecycle_response (λ e, DReprocess (ev_ID e) (ev_Status e)) e).

Definition EventHandler_GetEvent (r : request) : reply :=
  e ← GetEvent (r_param r "id");
  Ret match e with
      | Err err => NotFound (error_text err)
      | Ok (event, types) =>
          OK (DEventDetail (eventResponse event)
            ((λ ty, mkTicketTypeResponse (tt_ID ty) (tt_Name ty) (tt_PriceRupiah ty)
                      (tt_Quantity ty) (tt_Available ty) (tt_MaxPerOrder ty)) <$> types))
      end.

(** [limit], twenty when it is missing or not positive. *)
Definition page_limit (r : request) : Z :=
  let limit := Atoi (r_query r "limit") in
  if bool_decide (limit ≤ 0) then 20 else limit.
Definition page_offset (r : request) : Z := Atoi (r_query r "offset").

Definition list_response (message : string) (r : res (list Event * Z)) : response ticketData :=
  match r with
  | Err _ => InternalServerError message
  | Ok (events, total) => OK (DEventList (eventResponse <$> events) total)
  end.

Definition EventHandler_ListPublished (r : request) : reply :=
  l ← ListPublished (page_limit r) (page_offset r);
  Ret (list_response "failed to list events" l).

Definition EventHandler_ListMyEvents (r : request) : reply :=
  l ← ListByOrganizer (UserIDFromContext (r_ctx r));
  Ret match l with
      | Err _ => InternalServerError "failed to list events"
      | Ok events => OK (DEvents (eventResponse <$> events))
      end.

Definition EventHandler_ListPending (r : request) : reply :=
  l ← ListPending (page_limit r) (page_offset r);
  Ret (list_response "failed to list pending events" l).

Definition EventHandler_ListAll (r : request) : reply :=
  l ← ListAll (r_query r "status") (page_limit r) (page_offset r);
  Ret (list_response "failed to list events" l).

(** ** [event_routes.go] and [booking_routes.go] *)

Definition with_role (role : Role) (h : request → reply) : request → reply :=
  WithUserContext (RequireRole Ret [role] h).

Definition EventHandler_Routes : list (string * string * (request → reply)) :=
  [("GET", "/api/events", EventHandler_ListPublished);
   ("GET", "/api/events/{id}", EventHandler_GetEvent);
   ("POST", "/api/events", with_role RoleEO EventHandler_CreateEvent);
   ("PUT", "/api/events/{id}", with_role RoleEO EventHandler_UpdateEvent);
   ("POST", "/api/events/{id}/cancel", with_role RoleEO EventHandler_CancelEvent);
   ("POST", "/api/events/{id}/cancel-reprocess",
     with_role RoleEO EventHandler_ReprocessCancellation);
   ("GET", "/api/events/mine", with_role RoleEO EventHandler_ListMyEvents);
   ("GET", "/api/admin/events", with_role RoleAdmin EventHandler_ListAll);
   ("GET", "/api/events/pending", with_role RoleAdmin EventHandler_ListPending);
   ("POST", "/api/events/{id}/approve", with_role RoleAdmin EventHandler_ApproveEvent);
   ("POST", "/api/events/{id}/reject", with_role RoleAdmin EventHandler_RejectEvent);
   ("POST", "/api/admin/events/{id}/cancel-reprocess",
     with_role RoleAdmin EventHandler_ReprocessCancellation)].

Definition BookingHandler_Routes : list (string * string * (request → reply)) :=
  [("POST", "/api/bookings/reserve", with_role RoleCustomer BookingHandler_Reserve);
   ("DELETE", "/api/bookings/reserve/{id}", with_role RoleCustomer BookingHandler_Release);
   ("GET", "/api/bookings", with_role RoleCustomer BookingHandler_ListMyBookings);
   ("GET", "/api/bookings/{id}", WithUserContext BookingHandler_GetBooking)].
End handlers.
