(* ===== verification/TicketHttp.v ===== *)
(** * The HTTP interface of ticketing: who may do what, and the seats again

    The routes against an access policy, the privacy of bookings, and the seat
    accounting over every sequence of HTTP requests and consumed messages. *)
From S2P Require Import Prelude Effects Json Dto Outbox TicketDB Booking TicketSamples Event Seats SeatSafety ReserveSpec TicketHandler.

Definition ticketing_routes `{!Validator} (s : BookingService) :=
  EventHandler_Routes ++ BookingHandler_Routes s.

(** ** Readers *)

Section readers.
Local Abbreviation rd := (guards (X := ticketE) (@eq TicketDB)).

Lemma rd_query {A} (f : TicketDB → res A) : rd (sql (query f)).
Proof. by apply guards_query. Qed.

Lemma rd_loadItems b : rd (BookingRepo_loadItems b).
Proof. unfold BookingRepo_loadItems. apply guards_bind; [apply rd_query|by intros []]. Qed.

Lemma rd_load_all bs : rd (load_all bs).
Proof.
  induction bs as [|b bs IH]; cbn [load_all]; [done|].
  apply guards_bind; [apply rd_loadItems|]. intros [b'|e]; [|done].
  apply guards_bind; [done|by intros []].
Qed.

Lemma rd_GetBooking id : rd (GetBooking id).
Proof.
  unfold GetBooking, BookingRepo_FindByID.
  apply guards_bind; [apply rd_query|]. intros [b|e]; [apply rd_loadItems|done].
Qed.

Lemma rd_ListMyBookings u : rd (ListMyBookings u).
Proof.
  unfold ListMyBookings, BookingRepo_ListByUser.
  apply guards_bind; [apply rd_query|]. intros [bs|e]; [apply rd_load_all|done].
Qed.

Lemma rd_paged P order limit offset : rd (paged P order limit offset).
Proof.
  unfold paged, count_events, page_events. apply guards_bind; [apply rd_query|]. intros c.
  apply guards_bind; [apply rd_query|by intros []].
Qed.

Lemma rd_liveTypes ev types : rd (liveTypes ev types).
Proof.
  induction types as [|ty types IH]; cbn [liveTypes]; [done|]. unfold SeatReader_Available.
  apply guards_bind; [apply guards_bind; [apply rd_query|by intros []]|]. intros n.
  by apply guards_bind.
Qed.

Lemma rd_GetEvent ev : rd (GetEvent ev).
Proof.
  unfold GetEvent, EventRepo_FindEventByID, EventRepo_ListTicketTypesByEvent.
  apply guards_bind; [apply rd_query|]. intros [e|e]; [|done].
  apply guards_bind; [apply rd_query|]. intros ts. by apply guards_bind; [apply rd_liveTypes|].
Qed.

(** A request that reads leaves the database as it is. *)
Lemma reads_exec (o : oracle ticketE) {A} (p : tprog A) d : rd p → (exec o p d).1 = d.
Proof.
  intros Hp. pose proof (run_guards eq o p 0 d Hp) as Hrun.
  unfold exec. by destruct (run o p 0 d) as [[n d'] a].
Qed.

Lemma reads_neutral {A} (p : tprog A) : rd p → guards neutral p.
Proof. apply guards_mono. by intros d d' ->. Qed.
End readers.

(** ** The access policy *)

(** The role a route asks for; [None] for the routes open to everybody. *)
Definition ticketing_policy : list (string * string * option Role) :=
  [("GET", "/api/events", None);
   ("GET", "/api/events/{id}", None);
   ("GET", "/api/bookings/{id}", None);
   ("POST", "/api/events", Some RoleEO);
   ("PUT", "/api/events/{id}", Some RoleEO);
   ("POST", "/api/events/{id}/cancel", Some RoleEO);
   ("POST", "/api/events/{id}/cancel-reprocess", Some RoleEO);
   ("GET", "/api/events/mine", Some RoleEO);
   ("GET", "/api/admin/events", Some RoleAdmin);
   ("GET", "/api/events/pending", Some RoleAdmin);
   ("POST", "/api/events/{id}/approve", Some RoleAdmin);
   ("POST", "/api/events/{id}/reject", Some RoleAdmin);
   ("POST", "/api/admin/events/{id}/cancel-reprocess", Some RoleAdmin);
   ("POST", "/api/bookings/reserve", Some RoleCustomer);
   ("DELETE", "/api/bookings/reserve/{id}", Some RoleCustomer);
   ("GET", "/api/bookings", Some RoleCustomer)].

Definition policy_of (policy : list (string * string * option Role)) (method pattern : string) :
    option (option Role) :=
  snd <$> find (λ e, bool_decide (e.1 = (method, pattern))) policy.

(** What the policy asks of a handler: refusal without effect of a request with
    another role, or that it only reads. *)
Definition obeys (role : option Role) (h : request → tprog (response ticketData)) : Prop :=
  match role with
  | Some role => ∀ (o : oracle ticketE) r d,
      r_ctx r = background → r_header r "X-Authenticated-User-Role" ≠ role →
      exec o (h r) d = (d, Forbidden "insufficient permissions")
  | None => ∀ (o : oracle ticketE) r d, (exec o (h r) d).1 = d
  end.

Lemma with_role_obeys role h : obeys (Some role) (with_role role h).
Proof. intros o r d Hctx Hrole. unfold with_role. by rewrite RequireRole_denied. Qed.

Lemma readers_obey :
  obeys None EventHandler_ListPublished ∧ obeys None EventHandler_GetEvent ∧
  obeys None (WithUserContext BookingHandler_GetBooking).
Proof.
  split_and!; intros o r d; apply reads_exec, guards_bind; try done.
  - apply rd_paged.
  - apply rd_GetEvent.
  - apply rd_GetBooking.
Qed.

Lemma routes_obey `{!Validator} (s : BookingService) :
  Forall (λ e, ∃ role, policy_of ticketing_policy e.1.1 e.1.2 = Some role ∧ obeys role e.2)
    (ticketing_routes s).
Proof.
  destruct readers_obey as (H1 & H2 & H3).
  unfold ticketing_routes, EventHandler_Routes, BookingHandler_Routes. cbn [app].
  repeat (apply Forall_cons_2; [eexists; split; [vm_compute; reflexivity|]; cbn [snd];
    first [done|apply with_role_obeys]|]).
  constructor.
Qed.

(** C34. Every route of ticketing implements the access policy: a request
    whose gateway header names another role than the one the route asks for
    is refused with 403 and changes nothing, and the routes open to everybody
    only read. *)
Theorem ticketing_routes_guarded `{!Validator} (s : BookingService) method pattern h :
  (method, pattern, h) ∈ ticketing_routes s →
  ∃ role, policy_of ticketing_policy method pattern = Some role ∧ obeys role h.
Proof.
  pose proof (routes_obey s) as Hall. rewrite Forall_forall in Hall. intros Hin. exact (Hall _ Hin).
Qed.

Lemma ticketing_routes_guarded_witness : ∃ role,
  policy_of ticketing_policy "POST" "/api/events/{id}/approve" = Some role ∧
  obeys role (with_role RoleAdmin EventHandler_ApproveEvent).
Proof.
  apply (@ticketing_routes_guarded sample_validator sample_service).
  apply (list_elem_of_lookup_2 _ 9). reflexivity.
Defined.

(** A booking is shown to its owner only, whatever fails: a request for a
    booking that is answered with it came from the user it belongs to, and
    the answer shows the stored booking with the items stored for it. *)
Theorem booking_owner_only (o : oracle ticketE) r d d' b :
  r_ctx r = background →
  exec o (WithUserContext BookingHandler_GetBooking r) d = (d', OK (DBooking b)) →
  bp_UserID b = r_header r "X-Authenticated-User-ID" ∧
  ∃ row, bookings d !! r_param r "id" = Some row ∧
    b = bookingToResponse (loaded row (items_of (br_id row) d)).
Proof.
  intros Hctx Hex. unfold WithUserContext, BookingHandler_GetBooking in Hex.
  rewrite Hctx in Hex. unfold UserIDFromContext in Hex.
  cbn [with_ctx r_ctx r_param ctx_user_id background] in Hex. rewrite default_nonempty in Hex.
  refine (runs_exec o _ _ _ _ (λ _ x, x = OK (DBooking b) →
    bp_UserID b = r_header r "X-Authenticated-User-ID" ∧
    ∃ row, bookings d !! r_param r "id" = Some row ∧
      b = bookingToResponse (loaded row (items_of (br_id row) d))) _ Hex eq_refl).
  apply runs_bind, runs_FindByID; [|done]. intros row Hrow.
  apply runs_ret. case_bool_decide as Hu; cbn [negb]; [|done]. intros [= <-]. split; [done|]. by exists row.
Qed.

Definition booking_request (user : string) : request :=
  mkRequest background
    (λ h, if bool_decide (h = "X-Authenticated-User-ID") then user else "")
    (λ p, if bool_decide (p = "id") then sample_booking_id else "") (λ _, "") None.

Lemma booking_owner_only_witness : ∃ b,
  exec sample_oracle (WithUserContext BookingHandler_GetBooking (booking_request "u")) reserved_db =
    (reserved_db, OK (DBooking b)) ∧ bp_UserID b = "u" ∧
  (exec sample_oracle (WithUserContext BookingHandler_GetBooking (booking_request "eve"))
     reserved_db).2 = NotFound "booking not found".
Proof.
  assert (match (exec sample_oracle
      (WithUserContext BookingHandler_GetBooking (booking_request "u")) reserved_db).2 with
    | RData st (DBooking _) => st =? 200 | _ => false end = true) as Hok
    by (vm_compute; reflexivity).
  destruct (exec sample_oracle (WithUserContext BookingHandler_GetBooking (booking_request "u"))
    reserved_db) as [d' x] eqn:Hex.
  assert (d' = reserved_db) as ->.
  { change d' with (d', x).1. rewrite <- Hex.
    apply (reads_exec sample_oracle (BookingHandler_GetBooking _)).
    apply guards_bind; [apply rd_GetBooking|done]. }
  destruct x as [st [ | | | | | |b| ]|]; try discriminate Hok. apply Z.eqb_eq in Hok as ->.
  exists b. split; [done|]. split; [|vm_compute; reflexivity].
  apply (booking_owner_only sample_oracle (booking_request "u") reserved_db reserved_db b);
    [done|exact Hex].
Defined.

(** ** The seat accounting over HTTP *)

(** What reaches a ticketing instance once its events are approved: requests to
    any route but the approval, with any headers and body, and messages of the
    three topics.  What payment answers and which statements fail is a matter of
    the environment they run in: [steady] below, where payment accepts every
    call; [Races] says what a refused call can do. *)
Inductive http_entry `{!Validator} (s : BookingService) : tprog unit → Prop :=
  | HE_request method pattern h r :
      (method, pattern, h) ∈ ticketing_routes s → pattern ≠ "/api/events/{id}/approve" →
      http_entry s (discard (h r))
  | HE_completed ctx ms : http_entry s (Consume (onPaymentCompleted ctx) ms)
  | HE_expired ms : http_entry s (Consume onPaymentExpired ms)
  | HE_cancelled ms : http_entry s (Consume onEventCancelled ms).

Section http_safety.
Context `{!Validator}.
Local Abbreviation hsafe p := (wp steady seats_inv items_kept p [] (λ _, True) (λ _ _ _, True)).

Lemma hsafe_neutral {A B} (p : tprog A) (f : A → B) :
  guards neutral p → hsafe (prog_bind (λ a, Ret (f a)) p).
Proof. intros Hp. by apply wp_neutral; [apply guards_bind|by intros ???|]. Qed.

Lemma hsafe_reads {A B} (p : tprog A) (f : A → B) :
  reads p → hsafe (prog_bind (λ a, Ret (f a)) p).
Proof. intros Hp. by apply hsafe_neutral, reads_neutral. Qed.

Lemma with_role_hsafe role h r : (∀ r, hsafe (h r)) → hsafe (with_role role h r).
Proof.
  intros Hh. unfold with_role, WithUserContext, RequireRole. by destruct (existsb _ _).
Qed.

(** The validation of a reservation lets only positive quantities through. *)
Lemma requested_quantities `{!ValidatorLaws} req :
  validate_Struct (ReserveRequest_fields req) = None →
  Forall (λ i, 1 ≤ bi_Quantity i) (requested_items req).
Proof.
  intros Hv. apply Forall_fmap, Forall_forall. intros i Hi. cbn.
  assert (validate_Struct (ReserveItemRequest_fields i) = None) as Hvi.
  { eapply (dive_holds _ "Items"); [exact Hv|right; left|]. by apply list_elem_of_fmap_2. }
  eapply (min1_holds _ "Quantity"); [exact Hvi|right; left].
Qed.

Lemma hsafe_Reserve `{!ValidatorLaws} s r :
  cl_url_ok (bs_paymentClient s) = true → hsafe (BookingHandler_Reserve s r).
Proof.
  intros Hurl. unfold BookingHandler_Reserve. destruct (Decode _ _) as [req|e]; [|done].
  destruct (validate_Struct _) eqn:Hv; [done|]. case_bool_decide; [done|].
  apply wp_bind. by apply safe_Reserve, requested_quantities.
Qed.

Lemma hsafe_events :
  (∀ r, hsafe (EventHandler_CreateEvent r)) ∧ (∀ r, hsafe (EventHandler_UpdateEvent r)) ∧
  (∀ r, hsafe (EventHandler_CancelEvent r)) ∧ (∀ r, hsafe (EventHandler_RejectEvent r)) ∧
  (∀ r, hsafe (EventHandler_ReprocessCancellation r)).
Proof.
  split_and!; intros r.
  - unfold EventHandler_CreateEvent. destruct (Decode _ _); [|done].
    destruct (validate_Struct _); [done|]. apply hsafe_neutral, guards_CreateEvent.
  - unfold EventHandler_UpdateEvent. destruct (Decode _ _); [|done].
    destruct (validate_Struct _); [done|]. apply hsafe_neutral, guards_UpdateEvent.
  - apply hsafe_neutral, guards_CancelEvent.
  - unfold EventHandler_RejectEvent. destruct (Decode _ _); [|done].
    destruct (validate_Struct _); [done|]. apply hsafe_neutral, guards_RejectEvent.
  - unfold EventHandler_ReprocessCancellation. case_bool_decide; apply hsafe_neutral, guards_reprocess.
Qed.

Lemma hsafe_readers :
  (∀ r, hsafe (EventHandler_ListPublished r)) ∧ (∀ r, hsafe (EventHandler_GetEvent r)) ∧
  (∀ r, hsafe (EventHandler_ListMyEvents r)) ∧ (∀ r, hsafe (EventHandler_ListAll r)) ∧
  (∀ r, hsafe (EventHandler_ListPending r)) ∧ (∀ r, hsafe (BookingHandler_GetBooking r)) ∧
  (∀ r, hsafe (BookingHandler_ListMyBookings r)).
Proof.
  split_and!; intros r; try by apply hsafe_reads, rd_paged.
  - apply hsafe_reads, rd_GetEvent.
  - apply hsafe_reads, rd_query.
  - apply hsafe_reads, rd_GetBooking.
  - unfold BookingHandler_ListMyBookings. case_bool_decide; [done|].
    apply hsafe_reads, rd_ListMyBookings.
Qed.

Lemma http_entry_safe `{!ValidatorLaws} s p :
  cl_url_ok (bs_paymentClient s) = true → http_entry s p →
  safe steady seats_inv items_kept p [] (λ _, True).
Proof.
  destruct hsafe_events as (H1 & H2 & H3 & H4 & H5).
  destruct hsafe_readers as (R1 & R2 & R3 & R4 & R5 & R6 & R7).
  intros Hurl [method pattern h r Hin Hne|ctx ms|ms|ms].
  - apply safe_discard.
    assert (Forall (λ e, e.1.2 ≠ "/api/events/{id}/approve" → ∀ r, hsafe (e.2 r))
      (ticketing_routes s)) as Hall;
      [|rewrite Forall_forall in Hall; exact (Hall _ Hin Hne r)].
    unfold ticketing_routes, EventHandler_Routes, BookingHandler_Routes. cbn [app].
    repeat (apply Forall_cons_2; [cbn [fst snd]; intros Happ r'|]); [..|constructor];
      try apply with_role_hsafe; auto; [by destruct Happ|by intros; apply hsafe_Reserve|done|apply R6].
  - apply safe_Consume, safe_onPaymentCompleted.
  - apply safe_Consume, safe_onPaymentExpired.
  - apply safe_Consume, safe_onEventCancelled.
Qed.
End http_safety.

(** C6. Seats are not oversold through the HTTP interface as long as payment
    answers: from a state whose seat accounting is right, and while every call
    to payment is answered with success, no executed statement's answer is lost
    and the URL of payment is valid, over every interleaving of requests to any
    route but the approval, with any headers and bodies, and of consumed
    messages, the seats on a counter and in pending or confirmed bookings stay
    within the quantity of the ticket type. Statements may fail without being
    executed. The validation of the requests is what keeps negative quantities
    out. A failed call to payment can oversell
    ([lost_payment_answer_oversells]). *)
Theorem http_no_oversell `{!Validator, !ValidatorLaws} (s : BookingService)
    (d0 d : TicketDB) (id : string) :
  cl_url_ok (bs_paymentClient s) = true → seats_inv d0 [] →
  reachable steady (http_entry s) d0 d →
  0 ≤ seat_avail d id ∧ seat_avail d id + held d id ≤ seat_total d id.
Proof.
  intros Hurl HI Hreach.
  eapply (reachable_inv steady seats_inv items_kept) in Hreach as [L HL];
    [by eapply seats_inv_bound|by intros; eapply http_entry_safe|done].
Qed.

(** A customer's request for two VIP seats, and the same for minus two. *)
Definition reserve_request (quantity : Z) : request :=
  mkRequest background
    (λ h, if bool_decide (h = "X-Authenticated-User-ID") then "u"
          else if bool_decide (h = "X-Authenticated-User-Role") then RoleCustomer else "")
    (λ _, "") (λ _, "")
    (Some (JObj [("event_id", JStr "ev");
      ("items", JArr [JObj [("ticket_type_id", JStr "vip"); ("quantity", JNum quantity);
                            ("unit_price_rupiah", JNum 500)]])])).

Section samples.
#[local] Existing Instances sample_validator sample_validator_laws.

Definition http_reserve (quantity : Z) : tprog (response ticketData) :=
  with_role RoleCustomer (BookingHandler_Reserve sample_service) (reserve_request quantity).

(** The first takes both seats, the second is refused. *)
Lemma http_reserve_samples :
  response_status (exec sample_oracle (http_reserve 2) sample_db).2 = 201 ∧
  seat_avail (exec sample_oracle (http_reserve 2) sample_db).1 "vip" = 0 ∧
  response_status (exec sample_oracle (http_reserve (-2)) sample_db).2 = 400.
Proof. vm_compute. done. Qed.

Lemma http_no_oversell_witness :
  let d := (run sample_oracle (discard (http_reserve 2)) 0 sample_db).1.2 in
  0 ≤ seat_avail d "vip" ∧ seat_avail d "vip" + held d "vip" ≤ seat_total d "vip".
Proof.
  intros d. apply (http_no_oversell sample_service sample_db d "vip").
  - reflexivity.
  - apply seats_inv_b_sound. vm_compute. reflexivity.
  - apply reachable_run; [apply sample_allowed| |by exists []].
    apply (HE_request _ "POST" "/api/bookings/reserve"); [|done].
    apply (list_elem_of_lookup_2 _ 12). reflexivity.
Defined.
End samples.
