(* ===== verification/PayDB.v ===== *)
(** * The payment database and its repositories

    The tables of [migrations/payment] with their constraints, the domain types
    of [service/payment/internal/domain] and the repositories [TransactionRepo]
    and [RefundRepo] of [service/payment/internal/postgres]. *)
From S2P Require Import Prelude Effects Dto Outbox.

(** ** Domain types *)

Record Transaction := mkTransaction {
  tx_ID : string;
  tx_UserID : string;
  tx_BookingID : string;
  tx_EventID : string;
  tx_AmountRupiah : Z;
  tx_Currency : string;
  tx_Status : string;
  tx_Provider : string;
  tx_ProviderRef : string;
  tx_PaymentLinkURL : string;
  tx_CustomerEmail : string;
  tx_RefundStatus : string;
  tx_ExpiresAt : option Z;
  tx_CreatedAt : Z;
  tx_UpdatedAt : Z;
}.

Definition StatusInitiated : string := "initiated".
Definition StatusPending : string := "pending".
Definition StatusCompleted : string := "completed".
Definition StatusExpired : string := "expired".
Definition GatewayExpiredReason : string := "gateway_expired".
Definition ActiveStatuses : list string := [StatusInitiated; StatusPending].

Record RefundRequest := mkRefundRequest {
  rf_ID : string;
  rf_EventID : string;
  rf_BookingID : string;
  rf_TransactionID : string;
  rf_CustomerEmail : string;
  rf_AmountRupiah : Z;
  rf_Currency : string;
  rf_Status : string;
  rf_Reason : string;
  rf_ProviderRef : string;
  rf_IdempotencyKey : string;
}.

Definition RefundPending : string := "pending".
Definition RefundProcessing : string := "processing".
Definition RefundSucceeded : string := "succeeded".
Definition RefundFailed : string := "failed".

Record SessionResult := mkSessionResult {
  sr_ProviderRef : string;
  sr_PaymentLinkURL : string;
  sr_ExpiresAt : Z;
}.

Definition ErrTransactionNotFound : error := Sentinel "transaction not found".
Definition ErrAlreadyProcessed : error := Sentinel "transaction already processed".
Definition ErrTransactionExpired : error := Sentinel "booking has expired".
Definition ErrGatewayUnavailable : error := Sentinel "payment gateway unavailable".

#[export] Instance Transaction_eq_dec : EqDecision Transaction.
Proof. solve_decision. Defined.
#[export] Instance RefundRequest_eq_dec : EqDecision RefundRequest.
Proof. solve_decision. Defined.

(** ** Tables *)

Record PayDB := mkPayDB {
  transactions : gmap string Transaction;
  refund_requests : gmap string RefundRequest;
  pay_outbox : outboxTable;
}.

Definition set_transactions m (d : PayDB) : PayDB := mkPayDB m (refund_requests d) (pay_outbox d).
Definition set_refunds m (d : PayDB) : PayDB := mkPayDB (transactions d) m (pay_outbox d).

#[export] Instance PayDB_outbox : HasOutbox PayDB.
Proof.
  refine {| get_outbox := pay_outbox;
    set_outbox ob d := mkPayDB (transactions d) (refund_requests d) ob |};
  by intros; try destruct d.
Defined.

Definition txn_check (t : Transaction) : bool :=
  bool_decide (0 ≤ tx_AmountRupiah t) &&
  bool_decide (tx_Status t ∈ ["initiated"; "pending"; "completed"; "expired"]) &&
  bool_decide (tx_RefundStatus t ∈ ["none"; "pending"; "success"]).
Definition refund_check (r : RefundRequest) : bool :=
  bool_decide (0 ≤ rf_AmountRupiah r) &&
  bool_decide (rf_Status r ∈ ["pending"; "processing"; "succeeded"; "failed"]).

(** ** Statements *)

Definition txn_row (now : Z) (t : Transaction) : Transaction :=
  mkTransaction (tx_ID t) (tx_UserID t) (tx_BookingID t) (tx_EventID t) (tx_AmountRupiah t)
    (tx_Currency t) (tx_Status t) (tx_Provider t) (tx_ProviderRef t) (tx_PaymentLinkURL t)
    (tx_CustomerEmail t) (tx_RefundStatus t) (pg_timestamp <$> tx_ExpiresAt t) now now.

Definition has_booking (bookingID : string) (t : Transaction) : bool :=
  bool_decide (tx_BookingID t = bookingID).

(** [INSERT INTO transactions]: [id] and [booking_id] are unique. *)
Definition insert_txn (t : Transaction) : stmt PayDB unit := λ now d,
  let row := txn_row now t in
  if negb (txn_check row) then (d, Err check_violation)
  else if bool_decide (is_Some (transactions d !! tx_ID t)) ||
          negb (bool_decide (rows (has_booking (tx_BookingID t)) (transactions d) = []))
  then (d, Err unique_violation)
  else (set_transactions (<[tx_ID t := row]> (transactions d)) d, Ok ()).

Definition with_status_ref (status ref : string) (now : Z) (t : Transaction) : Transaction :=
  mkTransaction (tx_ID t) (tx_UserID t) (tx_BookingID t) (tx_EventID t) (tx_AmountRupiah t)
    (tx_Currency t) status (tx_Provider t) ref (tx_PaymentLinkURL t)
    (tx_CustomerEmail t) (tx_RefundStatus t) (tx_ExpiresAt t) (tx_CreatedAt t) now.
Definition with_session (ref link : string) (now : Z) (t : Transaction) : Transaction :=
  mkTransaction (tx_ID t) (tx_UserID t) (tx_BookingID t) (tx_EventID t) (tx_AmountRupiah t)
    (tx_Currency t) (tx_Status t) (tx_Provider t) ref link
    (tx_CustomerEmail t) (tx_RefundStatus t) (tx_ExpiresAt t) (tx_CreatedAt t) now.
Definition with_refund_status (rs : string) (now : Z) (t : Transaction) : Transaction :=
  mkTransaction (tx_ID t) (tx_UserID t) (tx_BookingID t) (tx_EventID t) (tx_AmountRupiah t)
    (tx_Currency t) (tx_Status t) (tx_Provider t) (tx_ProviderRef t) (tx_PaymentLinkURL t)
    (tx_CustomerEmail t) rs (tx_ExpiresAt t) (tx_CreatedAt t) now.

(** [UPDATE transactions SET ..., updated_at=NOW() WHERE id=$n AND cond], with
    the number of rows. *)
Definition update_txn (id : string) (cond : Transaction → bool)
    (g : Z → Transaction → Transaction) : stmt PayDB Z := λ now d,
  match transactions d !! id with
  | Some t =>
      if cond t then
        if txn_check (g now t)
        then (set_transactions (<[id := g now t]> (transactions d)) d, Ok 1)
        else (d, Err check_violation)
      else (d, Ok 0)
  | None => (d, Ok 0)
  end.

(** [status IN ('initiated','pending')]. *)
Definition txn_active (t : Transaction) : bool := bool_decide (tx_Status t ∈ ActiveStatuses).

Definition same_key (key : string) (r : RefundRequest) : bool :=
  bool_decide (rf_IdempotencyKey r = key).

(** [INSERT INTO refund_requests ... ON CONFLICT (idempotency_key) DO NOTHING]. *)
Definition insert_refund (r : RefundRequest) : stmt PayDB unit := λ _ d,
  if negb (refund_check r) then (d, Err check_violation)
  else if negb (bool_decide (rows (same_key (rf_IdempotencyKey r)) (refund_requests d) = []))
  then (d, Ok ())
  else if bool_decide (is_Some (refund_requests d !! rf_ID r)) then (d, Err unique_violation)
  else if bool_decide (is_Some (transactions d !! rf_TransactionID r))
  then (set_refunds (<[rf_ID r := r]> (refund_requests d)) d, Ok ())
  else (d, Err foreign_key_violation).

(** [expires_at IS NOT NULL AND expires_at <= $1]. *)
Definition overdue (now : Z) (t : Transaction) : bool :=
  match tx_ExpiresAt t with
  | Some e => bool_decide (e ≤ pg_timestamp now)
  | None => false
  end.

(** ** The repositories *)

Section repos.
Context {X : Type → Type}.
Local Abbreviation M := (prog (eff PayDB X)).

Definition TransactionRepo_Create (txn : Transaction) : M (res unit) := sql (insert_txn txn).

Definition TransactionRepo_FindByID (id : string) : M (res Transaction) :=
  sql (query (λ d, row_or_error (transactions d !! id))).

(** [ORDER BY created_at DESC LIMIT 1]. *)
Definition txn_of_booking (bookingID : string) (d : PayDB) : option Transaction :=
  head (order_by_desc tx_CreatedAt (rows (has_booking bookingID) (transactions d))).

Definition TransactionRepo_FindByBookingID (bookingID : string) : M (res Transaction) :=
  sql (query (λ d, row_or_error (txn_of_booking bookingID d))).

Definition TransactionRepo_UpdateStatus (id status ref : string) : M (res unit) :=
  _ ←? sql (update_txn id (λ _, true) (with_status_ref status ref)); Ret (Ok ()).

Definition TransactionRepo_TransitionIfActive (id status ref : string) : M (res bool) :=
  n ←? sql (update_txn id txn_active (with_status_ref status ref));
  Ret (Ok (bool_decide (0 < n))).

Definition TransactionRepo_TransitionIfInitiated (id status ref : string) : M (res bool) :=
  n ←? sql (update_txn id (λ t, bool_decide (tx_Status t = "initiated"))
              (with_status_ref status ref));
  Ret (Ok (bool_decide (0 < n))).

Definition TransactionRepo_UpdateSession (id ref link : string) : M (res unit) :=
  _ ←? sql (update_txn id (λ _, true) (with_session ref link)); Ret (Ok ()).

Definition TransactionRepo_UpdateRefundStatus (id rs : string) : M (res unit) :=
  _ ←? sql (update_txn id (λ _, true) (with_refund_status rs)); Ret (Ok ()).

Definition TransactionRepo_ListByUser (userID : string) : M (res (list Transaction)) :=
  sql (query (A := list Transaction) (λ d, Ok (order_by_desc tx_CreatedAt
    (rows (λ t, bool_decide (tx_UserID t = userID)) (transactions d))))).

Definition TransactionRepo_ListByEventID (eventID : string) : M (res (list Transaction)) :=
  sql (query (A := list Transaction) (λ d, Ok (order_by_desc tx_CreatedAt
    (rows (λ t, bool_decide (tx_EventID t = eventID)) (transactions d))))).

Definition TransactionRepo_ListActiveExpired (now limit : Z) : M (res (list Transaction)) :=
  sql (query (A := list Transaction) (λ d,
    if bool_decide (limit < 0) then Err (PgError "2201W")
    else Ok (take (Z.to_nat limit) (order_by (λ t, default 0 (tx_ExpiresAt t))
      (rows (λ t, txn_active t && overdue now t) (transactions d)))))).

Definition RefundRepo_Create (refund : RefundRequest) : M (res unit) := sql (insert_refund refund).
End repos.
