(* ===== verification/Payment.v ===== *)
(** * The payment service

    [PaymentService] ([service/payment/internal/application]) over the
    interface [PaymentProcessor] of the gateway, and the Kafka consumer that
    feeds it ([service/payment/internal/kafka]). *)
From S2P Require Import Prelude Effects Dto Outbox PayDB.

(** ** The gateway interface ([domain.PaymentProcessor]) *)

Inductive payE : Type → Type :=
  | CreateSession (refID : string) (amountRupiah : Z) (currency : string) (expiresAt : Z)
      (allowedChannels : list string) (email : string) : payE (res SessionResult)
  | CancelSession (providerRef : string) : payE (res unit)
  | GetSession (providerRef : string) : payE (res SessionResult).

Abbreviation pprog := (prog (eff PayDB payE)).

Record PaymentService := mkPaymentService {
  ps_provider : string;
  ps_gatewayExpiryBufferMin : Z;
  ps_allowedChannels : list string;
}.

(** [errors.As(err, &pgErr) && pgErr.Code == code]. *)
Fixpoint pg_code_is (code : string) (e : error) : bool :=
  match e with
  | PgError c => bool_decide (c = code)
  | Wrapped _ e _ => pg_code_is code e
  | _ => false
  end.

(** *** The webhook payload, after [json.Unmarshal] *)
Record sessionWebhookPayload := mkSessionWebhook {
  wh_Event : string;
  wh_ReferenceID : string;
  wh_PaymentSessionID : string;
  wh_ID : string;
  wh_Status : string;
}.

Definition sessionID (p : sessionWebhookPayload) : string :=
  if bool_decide (wh_PaymentSessionID p = "") then wh_ID p else wh_PaymentSessionID p.

Section service.
Context (s : PaymentService) (ctx : context).

(** ** [transactions.go] *)

Definition new_txn (id bookingID eventID userID email : string) (amountRupiah expiresAt : Z) :
    Transaction :=
  mkTransaction id userID bookingID eventID amountRupiah "IDR" StatusInitiated (ps_provider s)
    "" "" email "none" (Some expiresAt) 0 0.

Definition InitiateTxnForBooking (bookingID eventID userID email : string)
    (amountRupiah expiresAt : Z) : pprog (res Transaction) :=
  id ← uuid_NewString;
  let txn := new_txn id bookingID eventID userID email amountRupiah expiresAt in
  r ← TransactionRepo_Create txn;
  match r with
  | Err err =>
      if pg_code_is "23505" err then TransactionRepo_FindByBookingID bookingID
      else Ret (Err err)
  | Ok _ => Ret (Ok txn)
  end.

Definition GetPaymentStatus (bookingID : string) : pprog (res Transaction) :=
  r ← TransactionRepo_FindByBookingID bookingID;
  match r with
  | Err _ => Ret (Err ErrTransactionNotFound)
  | Ok txn => Ret (Ok txn)
  end.

Definition GetTransaction (txnID : string) : pprog (res Transaction) :=
  TransactionRepo_FindByID txnID.

Definition ListMyTransactions (userID : string) : pprog (res (list Transaction)) :=
  TransactionRepo_ListByUser userID.

(** [txn.ExpiresAt == nil || !txn.ExpiresAt.After(time.Now()) ||
    time.Until(...) < time.Minute], which reads the clock at each call. *)
Definition hold_over (expiresAt : option Z) : pprog bool :=
  match expiresAt with
  | None => Ret true
  | Some e =>
      now ← time_Now;
      if negb (bool_decide (now < e)) then Ret true
      else
        now' ← time_Now;
        Ret (bool_decide (e - now' < Minute))
  end.

Definition ProcessPayment (bookingID userID : string) :
    pprog (res (Transaction * SessionResult)) :=
  r ← TransactionRepo_FindByBookingID bookingID;
  match r with
  | Err _ => Ret (Err ErrTransactionNotFound)
  | Ok txn =>
      if negb (bool_decide (tx_Status txn = StatusInitiated)) then Ret (Err ErrAlreadyProcessed)
      else
        over ← hold_over (tx_ExpiresAt txn);
        if (over : bool) then Ret (Err ErrTransactionExpired)
        else if negb (bool_decide (tx_UserID txn = userID)) then Ret (Err ErrTransactionNotFound)
        else
          let deadline := default 0 (tx_ExpiresAt txn) +
            wrap64 (- ps_gatewayExpiryBufferMin s * Minute) in
          now ← time_Now;
          let minGatewayExpiry := now + 10 * Minute in
          let gatewayExpiresAt :=
            if bool_decide (deadline < minGatewayExpiry) then minGatewayExpiry else deadline in
          r ← call (CreateSession bookingID (tx_AmountRupiah txn) (tx_Currency txn)
                 gatewayExpiresAt (ps_allowedChannels s) (tx_CustomerEmail txn));
          match r with
          | Err err => Ret (Err (Wrapped "" ErrGatewayUnavailable (": " +:+ error_text err)))
          | Ok result =>
              applied ←? TransactionRepo_TransitionIfInitiated (tx_ID txn) StatusPending
                           (sr_ProviderRef result);
              if negb applied then
                _ ← call (CancelSession (sr_ProviderRef result));
                Ret (Err ErrAlreadyProcessed)
              else
                _ ←? TransactionRepo_UpdateSession (tx_ID txn) (sr_ProviderRef result)
                       (sr_PaymentLinkURL result);
                Ret (Ok (txn, result))
          end
  end.

(** ** [webhook.go] *)

Definition late_refund (id : string) (txn : Transaction) : RefundRequest :=
  mkRefundRequest id (tx_EventID txn) (tx_BookingID txn) (tx_ID txn) (tx_CustomerEmail txn)
    (tx_AmountRupiah txn) (tx_Currency txn) RefundPending "late_payment" (tx_ProviderRef txn)
    ("late-payment:" +:+ tx_ID txn).

Definition requestLatePaymentRefund (txn : Transaction) : pprog unit :=
  id ← uuid_NewString;
  r ← RefundRepo_Create (late_refund id txn);
  match r with
  | Err _ => Ret ()
  | Ok _ => _ ← TransactionRepo_UpdateRefundStatus (tx_ID txn) "pending"; Ret ()
  end.

Definition completed_payload (txn : Transaction) (now : Z) : payload :=
  PPaymentCompleted (mkPaymentCompleted (tx_ID txn) (tx_BookingID txn) (tx_EventID txn)
    (tx_UserID txn) now).
Definition expired_payload (txn : Transaction) (reason : string) (now : Z) : payload :=
  PPaymentExpired (mkPaymentExpired (tx_ID txn) (tx_BookingID txn) (tx_EventID txn)
    (tx_UserID txn) reason now).

Definition webhook_completed (txn : Transaction) : pprog (res unit) :=
  applied ←? TransactionRepo_TransitionIfActive (tx_ID txn) StatusCompleted (tx_ProviderRef txn);
  if (applied : bool) then
    now ← time_Now;
    _ ← outbox_Insert ctx "payment.completed" (tx_ID txn) (completed_payload txn now);
    Ret (Ok ())
  else if bool_decide (tx_Status txn = StatusExpired) then
    _ ← requestLatePaymentRefund txn; Ret (Ok ())
  else Ret (Ok ()).

Definition webhook_expired (txn : Transaction) : pprog (res unit) :=
  applied ←? TransactionRepo_TransitionIfActive (tx_ID txn) StatusExpired (tx_ProviderRef txn);
  if (applied : bool) then
    now ← time_Now;
    _ ← outbox_Insert ctx "payment.expired" (tx_ID txn)
          (expired_payload txn GatewayExpiredReason now);
    Ret (Ok ())
  else Ret (Ok ()).

(** [body] is the outcome of [json.Unmarshal] on the payload. *)
Definition HandleSessionWebhook (body : res sessionWebhookPayload) : pprog (res unit) :=
  match body with
  | Err err => Ret (Err err)
  | Ok event =>
      if bool_decide (wh_ReferenceID event = "")
      then Ret (Err (Plain "webhook missing reference_id"))
      else
        txn ←? TransactionRepo_FindByBookingID (wh_ReferenceID event);
        let sid := sessionID event in
        if negb (bool_decide (sid = "")) && negb (bool_decide (sid = tx_ProviderRef txn))
        then Ret (Ok ())
        else if bool_decide (wh_Event event = "payment_session.completed")
        then webhook_completed txn
        else if bool_decide (wh_Event event = "payment_session.expired")
        then webhook_expired txn
        else Ret (Ok ())
  end.

(** ** [expiry.go] *)

Definition expireOne (txn : Transaction) : pprog unit :=
  _ ← (if bool_decide (tx_ProviderRef txn = "") then Ret (Ok ())
       else call (CancelSession (tx_ProviderRef txn)));
  r ← TransactionRepo_TransitionIfActive (tx_ID txn) StatusExpired (tx_ProviderRef txn);
  match r with
  | Err _ => Ret ()
  | Ok applied =>
      if negb applied then Ret ()
      else
        now ← time_Now;
        _ ← outbox_Insert ctx "payment.expired" (tx_ID txn)
              (expired_payload txn "internal_expiry_fallback" now);
        Ret ()
  end.

Fixpoint expireLoop (txns : list Transaction) : pprog unit :=
  match txns with
  | [] => Ret ()
  | txn :: txns => _ ← expireOne txn; expireLoop txns
  end.

Definition ProcessExpired (limit : Z) : pprog (res unit) :=
  now ← time_Now;
  txns ←? TransactionRepo_ListActiveExpired now limit;
  _ ← expireLoop txns;
  Ret (Ok ()).

(** A tick of [StartExpiryPoller]. *)
Definition expiryTick : pprog unit := discard (ProcessExpired 100).

(** ** [event_handlers.go] *)

Definition cancelled_refund (id : string) (txn : Transaction) : RefundRequest :=
  mkRefundRequest id (tx_EventID txn) (tx_BookingID txn) (tx_ID txn) (tx_CustomerEmail txn)
    (tx_AmountRupiah txn) (tx_Currency txn) RefundPending "event_cancelled" (tx_ProviderRef txn)
    ("event-cancelled:" +:+ tx_ID txn).

Fixpoint refundLoop (txns : list Transaction) : pprog (res unit) :=
  match txns with
  | [] => Ret (Ok ())
  | txn :: txns =>
      if bool_decide (tx_Status txn = StatusCompleted) then
        id ← uuid_NewString;
        _ ←? RefundRepo_Create (cancelled_refund id txn);
        _ ←? TransactionRepo_UpdateRefundStatus (tx_ID txn) "pending";
        refundLoop txns
      else refundLoop txns
  end.

Definition HandleEventCancelled (eventID : string) : pprog (res unit) :=
  txns ←? TransactionRepo_ListByEventID eventID;
  refundLoop txns.

(** [PaymentConsumer.Start]: the callback of [event.cancelled]. *)
Definition pay_onEventCancelled (m : message) : pprog (res unit) :=
  match Unmarshal_payload (A := EventCancelled) (msg_Value m) with
  | Ok e => HandleEventCancelled (ec_EventID e)
  | Err e => Ret (Err e)
  end.
End service.
