(* ===== verification/PaymentSafety.v ===== *)
(** * Settlement of payments, under every interleaving

    Webhook deliveries, poller passes, payment requests, event cancellations
    and transaction creations run concurrently, and any statement may fail or
    lose its answer.  A transaction is settled at most once, the outbox tells
    the other services exactly what the row says, and at most one refund
    exists per transaction. *)
From S2P Require Import Prelude Effects Dto Outbox PayDB Payment.

(** ** The state machine of a transaction *)

Definition terminal (s : string) : Prop := s = "completed" ∨ s = "expired".

Definition txn_moves (s s' : string) : Prop :=
  s = s' ∨ (s = "initiated" ∧ s' = "pending") ∨
  ((s = "initiated" ∨ s = "pending") ∧ terminal s').

Lemma txn_moves_trans s1 s2 s3 : txn_moves s1 s2 → txn_moves s2 s3 → txn_moves s1 s3.
Proof.
  unfold txn_moves, terminal.
  intros [->|[[-> ->]|[[->| ->] [->| ->]]]]; intros [<-|[[? ?]|[[?|?] [?|?]]]]; subst;
    try discriminate; tauto.
Qed.

(** The columns no statement changes. *)
Definition txn_fixed (t : Transaction) :=
  (tx_ID t, tx_UserID t, tx_BookingID t, tx_EventID t, tx_AmountRupiah t, tx_Currency t,
   tx_Provider t, tx_CustomerEmail t, tx_ExpiresAt t, tx_CreatedAt t).

(** The row [t'] is a later state of [t]. *)
Definition txn_later (t t' : Transaction) : Prop :=
  txn_fixed t' = txn_fixed t ∧ txn_moves (tx_Status t) (tx_Status t').

#[export] Instance txn_later_preorder : PreOrder txn_later.
Proof.
  split; [by split; [|left]|]. intros t1 t2 t3 [H1 M1] [H2 M2].
  split; [by rewrite H2|by eapply txn_moves_trans].
Qed.

(** No transaction disappears or leaves its state machine. *)
Definition txns_kept (d d' : PayDB) : Prop :=
  ∀ k t, transactions d !! k = Some t → ∃ t', transactions d' !! k = Some t' ∧ txn_later t t'.

#[export] Instance txns_kept_preorder : PreOrder txns_kept.
Proof.
  split; [by intros d k t Ht; exists t|]. intros d1 d2 d3 H12 H23 k t Ht.
  destruct (H12 k t Ht) as (t2 & Ht2 & L12). destruct (H23 k t2 Ht2) as (t3 & Ht3 & L23).
  exists t3. split; [done|]. by etrans.
Qed.

Lemma txns_kept_same d d' : transactions d' = transactions d → txns_kept d d'.
Proof. intros Ht k t Hk. exists t. by rewrite Ht. Qed.

(** What a program knows of a transaction it has read. *)
Definition txn_seen (t : Transaction) (d : PayDB) : Prop :=
  ∃ t', transactions d !! tx_ID t = Some t' ∧ txn_later t t'.

Lemma txn_seen_stable t : stable txns_kept (txn_seen t).
Proof.
  intros d d' Hk (t' & Ht' & Hl). destruct (Hk _ _ Ht') as (t'' & Ht'' & Hl').
  exists t''. split; [done|]. by etrans.
Qed.

(** ** The invariant *)

(** The transaction an outbox row reports on, and the status it reports. *)
Definition reports (p : payload) : option (string * string) :=
  match p with
  | PPaymentCompleted m => Some (pc_TransactionID m, "completed")
  | PPaymentExpired m => Some (pe_TransactionID m, "expired")
  | _ => None
  end.
Definition report_booking (p : payload) : string :=
  match p with
  | PPaymentCompleted m => pc_BookingID m
  | PPaymentExpired m => pe_BookingID m
  | _ => ""
  end.

Definition reports_on (id : string) (r : outboxRow) : bool :=
  bool_decide (fst <$> reports (ob_Payload r) = Some id).

(** A hold is a settled transaction whose message has not been queued yet. *)
Abbreviation claim := (string * string)%type.

Definition report_count (d : PayDB) (id : string) : nat :=
  length (filter (λ r, reports_on id r = true) (outbox_rows (pay_outbox d))).
Definition claim_count (L : list claim) (id : string) : nat :=
  length (filter (λ h : claim, h.1 = id) L).

Definition status_is (d : PayDB) (id s : string) : Prop :=
  ∃ t, transactions d !! id = Some t ∧ tx_Status t = s.

(** What a refund request may be made for. *)
Definition refund_for (r : RefundRequest) (t : Transaction) : Prop :=
  rf_AmountRupiah r = tx_AmountRupiah t ∧ rf_BookingID r = tx_BookingID t ∧
  ((rf_IdempotencyKey r = "late-payment:" +:+ tx_ID t ∧ tx_Status t = "expired") ∨
   (rf_IdempotencyKey r = "event-cancelled:" +:+ tx_ID t ∧ tx_Status t = "completed")).

Record pay_inv (d : PayDB) (L : list claim) : Prop := {
  pi_txn k t : transactions d !! k = Some t → tx_ID t = k ∧ txn_check t = true;
  pi_booking k1 k2 t1 t2 : transactions d !! k1 = Some t1 → transactions d !! k2 = Some t2 →
    tx_BookingID t1 = tx_BookingID t2 → k1 = k2;
  pi_once id : (report_count d id + claim_count L id ≤ 1)%nat;
  pi_reports r id s : r ∈ outbox_rows (pay_outbox d) → reports (ob_Payload r) = Some (id, s) →
    ∃ t, transactions d !! id = Some t ∧ tx_Status t = s ∧
      report_booking (ob_Payload r) = tx_BookingID t;
  pi_claims id s : (id, s) ∈ L → terminal s ∧ status_is d id s;
  pi_refunds k r : refund_requests d !! k = Some r →
    ∃ t, transactions d !! rf_TransactionID r = Some t ∧ refund_for r t;
  pi_refund_keys k1 k2 r1 r2 : refund_requests d !! k1 = Some r1 →
    refund_requests d !! k2 = Some r2 → rf_IdempotencyKey r1 = rf_IdempotencyKey r2 → k1 = k2;
}.

#[export] Instance pay_inv_perm d : Proper ((≡ₚ) ==> iff) (pay_inv d).
Proof.
  assert (∀ L L', L ≡ₚ L' → pay_inv d L → pay_inv d L') as Himp.
  { intros L L' HL []. split; try done.
    - intros id. specialize (pi_once0 id). unfold claim_count in *. by rewrite <- HL.
    - intros id s Hin. rewrite <- HL in Hin. auto. }
  intros L L' HL. split; [by apply Himp|]. apply Himp. by symmetry.
Qed.

Lemma pay_inv_drop d h L : pay_inv d (h :: L) → pay_inv d L.
Proof.
  intros []. split; try done.
  - intros id. specialize (pi_once0 id). unfold claim_count in *. rewrite filter_cons in pi_once0.
    case_decide; cbn in pi_once0; lia.
  - intros id s Hin. apply pi_claims0. by right.
Qed.

(** ** Statements *)

Lemma txn_fixed_eq t t' :
  txn_fixed t' = txn_fixed t →
  tx_ID t' = tx_ID t ∧ tx_BookingID t' = tx_BookingID t ∧ tx_AmountRupiah t' = tx_AmountRupiah t.
Proof. unfold txn_fixed. intros Hf. by injection Hf. Qed.

Lemma reports_terminal p id s : reports p = Some (id, s) → terminal s.
Proof. unfold reports, terminal. destruct p; intros; simplify_eq; auto. Qed.

Lemma refund_terminal r t : refund_for r t → terminal (tx_Status t).
Proof. unfold terminal. intros (_ & _ & [[_ ?]|[_ ?]]); auto. Qed.

Lemma refund_for_later r t t' :
  txn_fixed t' = txn_fixed t → tx_Status t' = tx_Status t → refund_for r t → refund_for r t'.
Proof. intros (H1 & H2 & H3)%txn_fixed_eq Hs. unfold refund_for. by rewrite H1, H2, H3, Hs. Qed.

(** A row rewritten to a later state that keeps a terminal status. *)
Lemma pay_inv_update d L id t t' :
  pay_inv d L → transactions d !! id = Some t → txn_fixed t' = txn_fixed t →
  txn_check t' = true → (terminal (tx_Status t) → tx_Status t' = tx_Status t) →
  pay_inv (set_transactions (<[id := t']> (transactions d)) d) L.
Proof.
  intros HI Ht Hfix Hck Hterm. pose proof HI as [].
  destruct (txn_fixed_eq _ _ Hfix) as (Hid & Hbk & _).
  assert (∀ k u, transactions d !! k = Some u → terminal (tx_Status u) →
    ∃ u', <[id := t']> (transactions d) !! k = Some u' ∧ tx_Status u' = tx_Status u ∧
      txn_fixed u' = txn_fixed u) as Hkeep.
  { intros k u Hu Hs. destruct (decide (id = k)) as [<-|Hne].
    - exists t'. rewrite lookup_insert_eq. assert (u = t) as -> by congruence. auto.
    - exists u. by rewrite lookup_insert_ne. }
  split; cbn; try done.
  - intros k u [[<- <-]|[Hne Hu]]%lookup_insert_Some; [|by apply pi_txn0].
    destruct (pi_txn0 _ _ Ht) as [<- _]. done.
  - intros k1 k2 t1 t2. rewrite !lookup_insert_Some.
    intros [[<- <-]|[Hn1 H1]] [[<- <-]|[Hn2 H2]] Hb; [done| | |by eapply pi_booking0].
    + eapply (pi_booking0 id k2 t t2); [done|done|congruence].
    + eapply (pi_booking0 k1 id t1 t); [done|done|congruence].
  - intros r rid s Hr Hrep. destruct (pi_reports0 r rid s Hr Hrep) as (u & Hu & Hs & Hb).
    destruct (Hkeep rid u Hu) as (u' & Hu' & Hs' & Hf);
      [rewrite Hs; by eapply reports_terminal|].
    destruct (txn_fixed_eq _ _ Hf) as (_ & Hb' & _). exists u'. split_and!; [done|congruence..].
  - intros rid s Hin. destruct (pi_claims0 rid s Hin) as [Hts (u & Hu & Hs)]. split; [done|].
    destruct (Hkeep rid u Hu) as (u' & Hu' & Hs' & _); [by rewrite Hs|].
    exists u'. split; [done|congruence].
  - intros k r Hr. destruct (pi_refunds0 k r Hr) as (u & Hu & Hrf).
    destruct (Hkeep _ u Hu) as (u' & Hu' & Hs' & Hf); [by eapply refund_terminal|].
    exists u'. split; [done|by eapply refund_for_later].
Qed.

Lemma terminal_not_active t : txn_active t = true → ¬ terminal (tx_Status t).
Proof.
  unfold txn_active, terminal, ActiveStatuses. intros Ha. apply bool_decide_eq_true in Ha.
  intros [Hs|Hs]; rewrite Hs in Ha;
    repeat (apply elem_of_cons in Ha as [Ha|Ha]; [done|]); by apply elem_of_nil in Ha.
Qed.

(** Nothing reports on, or claims, a transaction that is still active. *)
Lemma active_unreported d L id t :
  pay_inv d L → transactions d !! id = Some t → txn_active t = true →
  report_count d id = 0%nat ∧ claim_count L id = 0%nat.
Proof.
  intros HI Ht Ha%terminal_not_active. split; apply length_zero_iff_nil, elem_of_nil_inv.
  - intros r [Hr Hin]%list_elem_of_filter. unfold reports_on in Hr. bool_cases.
    destruct (reports (ob_Payload r)) as [[rid s]|] eqn:Hrep; [|done]. cbn in Hr. simplify_eq.
    destruct (pi_reports _ _ HI r id s Hin Hrep) as (u & Hu & Hs & _). simplify_eq.
    by apply reports_terminal in Hrep.
  - intros [hid s] [Hh Hin]%list_elem_of_filter. cbn in Hh. subst hid.
    destruct (pi_claims _ _ HI id s Hin) as [Hts (u & Hu & Hs)]. by simplify_eq.
Qed.

Lemma pay_inv_settle d L id t s ref now :
  pay_inv d L → transactions d !! id = Some t → txn_active t = true → terminal s →
  txn_check (with_status_ref s ref now t) = true →
  pay_inv (set_transactions (<[id := with_status_ref s ref now t]> (transactions d)) d)
    ((id, s) :: L).
Proof.
  intros HI Ht Ha Hts Hck. destruct (active_unreported d L id t HI Ht Ha) as [Hr Hc].
  pose proof (pay_inv_update d L id t (with_status_ref s ref now t) HI Ht eq_refl Hck) as HU.
  destruct HU as []; [by intros ?%(terminal_not_active t Ha)|]. split; try done.
  - intros rid. unfold claim_count. rewrite filter_cons. case_decide as Heq.
    + cbn in Heq |- *. subst rid. change (length (filter _ L)) with (claim_count L id).
      change (report_count _ id) with (report_count d id). lia.
    + apply pi_once0.
  - intros rid s' [[= -> ->]|Hin]%elem_of_cons; [|by apply pi_claims0].
    split; [done|]. exists (with_status_ref s ref now t). cbn. by rewrite lookup_insert_eq.
Qed.

Lemma report_count_insert topic key p tc now d rid :
  report_count (insert_outbox topic key p tc now d).1 rid =
  (report_count d rid +
   if reports_on rid (mkOutboxRow (outbox_seq (pay_outbox d) + 1) topic key p tc false now)
   then 1 else 0)%nat.
Proof.
  unfold report_count, insert_outbox. cbn [fst get_outbox set_outbox PayDB_outbox pay_outbox outbox_rows].
  rewrite filter_app, length_app. f_equal. rewrite filter_cons.
  destruct (reports_on rid _); [by rewrite decide_True|by rewrite decide_False].
Qed.

(** Queueing the message of a settled transaction uses the claim up. *)
Lemma pay_inv_publish d L id s t p topic key tc now :
  pay_inv d ((id, s) :: L) → transactions d !! id = Some t → reports p = Some (id, s) →
  report_booking p = tx_BookingID t →
  pay_inv (insert_outbox topic key p tc now d).1 L.
Proof.
  intros HI Ht Hrep Hb. pose proof (pay_inv_drop _ _ _ HI) as HL. pose proof HL as [].
  destruct (pi_claims _ _ HI id s (list_elem_of_here _ _)) as [_ (u & Hu & Hs)].
  split; try done.
  - intros rid. pose proof (pi_once _ _ HI rid) as Hone.
    rewrite report_count_insert. unfold claim_count in Hone. rewrite filter_cons in Hone.
    unfold reports_on. cbn [ob_Payload]. rewrite Hrep. cbn [fmap option_fmap option_map fst] in *.
    change (length (filter _ L)) with (claim_count L rid) in Hone.
    destruct (decide (id = rid)) as [->|Hne]; cbn [length] in Hone.
    + case_bool_decide; cbn; unfold claim_count in *; lia.
    + rewrite bool_decide_eq_false_2 by congruence. unfold claim_count in *. lia.
  - intros r rid s' [Hr| ->%list_elem_of_singleton]%elem_of_app Hrep'; [by apply pi_reports0|].
    exists t. cbn in *. by simplify_eq.
Qed.

Lemma pay_inv_insert_txn t now d L :
  pay_inv d L → pay_inv (insert_txn t now d).1 L.
Proof.
  intros HI. unfold insert_txn. destruct (txn_check _) eqn:Hck; cbn [negb]; [|done].
  destruct (_ || _) eqn:Hu; [done|]. apply orb_false_iff in Hu as [Hfree Hbk].
  bool_cases. apply eq_None_not_Some in Hfree.
  assert (∀ k u, transactions d !! k = Some u → tx_BookingID u ≠ tx_BookingID t) as Hother.
  { intros k u Hk Heq. assert (u ∈ rows (has_booking (tx_BookingID t)) (transactions d)) as Hin.
    { apply elem_of_rows. exists k. split; [done|]. unfold has_booking. by rewrite bool_decide_eq_true_2. }
    rewrite Hbk in Hin. by apply elem_of_nil in Hin. }
  assert (∀ k u, transactions d !! k = Some u →
    <[tx_ID t := txn_row now t]> (transactions d) !! k = Some u) as Hkeep.
  { intros k u Hk. rewrite lookup_insert_ne; [done|]. congruence. }
  destruct HI. split; cbn; try done.
  - intros k u [[<- <-]|[Hne Hk]]%lookup_insert_Some; [done|by apply pi_txn0].
  - intros k1 k2 t1 t2. rewrite !lookup_insert_Some.
    intros [[<- <-]|[Hn1 H1]] [[<- <-]|[Hn2 H2]] Hb; [done| | |by eapply pi_booking0].
    + by destruct (Hother k2 t2 H2).
    + by destruct (Hother k1 t1 H1).
  - intros r rid s Hr Hrep. destruct (pi_reports0 r rid s Hr Hrep) as (u & Hu & ?).
    exists u. split; [by apply Hkeep|done].
  - intros rid s Hin. destruct (pi_claims0 rid s Hin) as [Hts (u & Hu & Hs)]. split; [done|].
    exists u. split; [by apply Hkeep|done].
  - intros k r Hr. destruct (pi_refunds0 k r Hr) as (u & Hu & ?). exists u.
    split; [by apply Hkeep|done].
Qed.

Lemma pay_inv_insert_refund r t now d L :
  transactions d !! rf_TransactionID r = Some t → refund_for r t →
  pay_inv d L → pay_inv (insert_refund r now d).1 L.
Proof.
  intros Ht Hrf HI. unfold insert_refund. destruct (refund_check r); cbn [negb]; [|done].
  case_bool_decide as Hkey; cbn [negb]; [|done]. case_bool_decide as Hfree; [done|].
  case_bool_decide; [|done]. destruct HI. split; cbn; try done.
  - intros k r' [[<- <-]|[Hne Hk]]%lookup_insert_Some; [|by eapply pi_refunds0]. eauto.
  - assert (∀ k r', refund_requests d !! k = Some r' →
      rf_IdempotencyKey r' ≠ rf_IdempotencyKey r) as Hother.
    { intros k r' Hk Heq.
      assert (r' ∈ rows (same_key (rf_IdempotencyKey r)) (refund_requests d)) as Hin.
      { apply elem_of_rows. exists k. split; [done|]. unfold same_key. by rewrite bool_decide_eq_true_2. }
      rewrite Hkey in Hin. by apply elem_of_nil in Hin. }
    intros k1 k2 r1 r2. rewrite !lookup_insert_Some.
    intros [[<- <-]|[Hn1 H1]] [[<- <-]|[Hn2 H2]] Hb; [done| | |by eapply pi_refund_keys0].
    + by destruct (Hother k2 r2 H2).
    + by destruct (Hother k1 r1 H1).
Qed.

(** ** Statements that settle nothing *)

Local Abbreviation pay_neutral := (keeps pay_inv txns_kept).

Lemma kept_update d id t t' :
  transactions d !! id = Some t → txn_later t t' →
  txns_kept d (set_transactions (<[id := t']> (transactions d)) d).
Proof.
  intros Ht Hl k u Hu. cbn. destruct (decide (id = k)) as [<-|Hne].
  - exists t'. rewrite lookup_insert_eq. split; [done|]. by simplify_eq.
  - exists u. by rewrite lookup_insert_ne.
Qed.

Lemma neutral_update_txn id cond (g : Z → Transaction → Transaction) now d :
  (∀ t, cond t = true → txn_fixed (g now t) = txn_fixed t ∧
     (tx_Status (g now t) = tx_Status t ∨
      (tx_Status t = "initiated" ∧ tx_Status (g now t) = "pending"))) →
  pay_neutral d (update_txn id cond g now d).1.
Proof.
  intros Hg. unfold update_txn. destruct (transactions d !! id) as [t|] eqn:Ht; [|done].
  destruct (cond t) eqn:Hc; [|done]. destruct (txn_check (g now t)) eqn:Hck; [|done].
  destruct (Hg t Hc) as [Hf Hs]. split.
  - eapply kept_update; [done|]. split; [done|]. unfold txn_moves. destruct Hs as [->|]; auto.
  - intros L HI. eapply pay_inv_update; [done..|]. destruct Hs as [|[Hs _]]; [done|].
    rewrite Hs. by intros [|].
Qed.

Lemma neutral_pquery {A} (f : PayDB → res A) t d : pay_neutral d (query f t d).1.
Proof. by split. Qed.

Lemma neutral_session id ref link t d :
  pay_neutral d (update_txn id (λ _, true) (with_session ref link) t d).1.
Proof. apply neutral_update_txn. auto. Qed.

Lemma neutral_refund_status id rs t d :
  pay_neutral d (update_txn id (λ _, true) (with_refund_status rs) t d).1.
Proof. apply neutral_update_txn. auto. Qed.

Lemma neutral_initiated id ref t d :
  pay_neutral d (update_txn id (λ t, bool_decide (tx_Status t = "initiated"))
    (with_status_ref StatusPending ref) t d).1.
Proof. apply neutral_update_txn. intros u Hu. bool_cases. auto. Qed.

Lemma neutral_insert_txn u t d : pay_neutral d (insert_txn u t d).1.
Proof.
  split; [|intros L; apply pay_inv_insert_txn]. unfold insert_txn.
  destruct (negb _); [done|]. destruct (_ || _) eqn:Hu; [done|]. apply orb_false_iff in Hu as [Hfree _].
  bool_cases. apply eq_None_not_Some in Hfree. intros k u' Hk. exists u'. cbn.
  rewrite lookup_insert_ne by congruence. done.
Qed.

#[export] Hint Resolve neutral_pquery neutral_session neutral_refund_status neutral_initiated
  neutral_insert_txn : ticket.

(** ** Rules for the effects that matter *)

Section specs.
Implicit Types (L : list claim) (P : PayDB → Prop).

Local Abbreviation pwp := (wp (any_env payE) pay_inv txns_kept).
Local Abbreviation pguards := (guards (X := payE) pay_neutral).

Lemma wp_pneutral_bind {A B} (p : pprog A) (f : A → pprog B) L P Q :
  pguards p → stable txns_kept P → (∀ a, pwp (f a) L P Q) → pwp (prog_bind f p) L P Q.
Proof. intros. by apply wp_bind, wp_keeps; [apply _|..]. Qed.

Lemma seen_stable P t : stable txns_kept P → stable txns_kept (λ d, P d ∧ txn_seen t d).
Proof. intros Hst d d' Hk [HP Ht]. split; [by eapply Hst|by eapply txn_seen_stable]. Qed.

Lemma txn_seen_here d L t k :
  pay_inv d L → transactions d !! k = Some t → txn_seen t d.
Proof. intros HI Ht. destruct (pi_txn _ _ HI k t Ht) as [Hid _]. exists t. by rewrite Hid. Qed.

Lemma txn_of_booking_elem b d t : txn_of_booking b d = Some t →
  ∃ k, transactions d !! k = Some t ∧ tx_BookingID t = b.
Proof.
  unfold txn_of_booking, order_by_desc. intros Hh.
  assert (t ∈ order_by (λ a, - tx_CreatedAt a) (rows (has_booking b) (transactions d))) as Hin.
  { destruct (order_by _ _); [done|]. cbn in Hh. simplify_eq. by left. }
  apply elem_of_order_by, elem_of_rows in Hin as (k & Hk & Hb). unfold has_booking in Hb.
  bool_cases. eauto.
Qed.

Lemma wp_FindByBookingID b L P (Q : res Transaction → list claim → (PayDB → Prop) → Prop) :
  stable txns_kept P →
  (∀ t, Q (Ok t) L (λ d, P d ∧ txn_seen t d)) → (∀ e, Q (Err e) L P) →
  pwp (TransactionRepo_FindByBookingID b) L P Q.
Proof.
  intros Hst HQ HQe. apply wp_query; [apply _|done|done| |done].
  intros d F t HI HP. cbn. destruct (txn_of_booking b d) as [u|] eqn:Hu; cbn.
  - apply txn_of_booking_elem in Hu as (k & Hk & _).
    exists (λ d, P d ∧ txn_seen u d). split_and!; [by apply seen_stable|done|by eapply txn_seen_here|apply HQ].
  - exists P. auto.
Qed.

Lemma wp_settle id s ref L P (Q : res bool → list claim → (PayDB → Prop) → Prop) :
  terminal s → stable txns_kept P →
  Q (Ok true) ((id, s) :: L) P → Q (Ok false) L P → (∀ e L', Q (Err e) L' P) →
  pwp (TransactionRepo_TransitionIfActive id s ref) L P Q.
Proof.
  intros Hs Hst HQt HQf HQe. unfold TransactionRepo_TransitionIfActive.
  apply wp_bind, wp_sql; [apply _|done| |by intros e; apply HQe].
  intros d F t HI HP. unfold update_txn.
  assert (∀ r : res Z, (∀ e, r = Err e → True) → (r = Ok 0 ∨ ∃ e, r = Err e) →
    txns_kept d d ∧ ∃ L' P', stable txns_kept P' ∧ P' d ∧ pay_inv d (L' ++ F) ∧
      pwp (match r with Ok n => Ret (Ok (bool_decide (0 < n))) | Err e => Ret (Err e) end) L' P' Q ∧
      ∀ e, True → pwp (Ret (Err e)) L' P' Q) as Hsame.
  { intros r _ Hr. split; [done|]. exists L, P. split_and!; [done..| |by intros; apply HQe].
    destruct Hr as [->|[e ->]]; [by apply HQf|apply HQe]. }
  destruct (transactions d !! id) as [u|] eqn:Hu; [|apply Hsame; auto].
  destruct (txn_active u) eqn:Ha; [|apply Hsame; auto].
  destruct (txn_check _) eqn:Hck; [|apply Hsame; eauto].
  assert (txns_kept d (set_transactions (<[id:=with_status_ref s ref t u]> (transactions d)) d)) as Hk.
  { eapply kept_update; [done|]. split; [done|]. right. right. split; [|done].
    unfold txn_active, ActiveStatuses in Ha. apply bool_decide_eq_true in Ha.
    apply elem_of_cons in Ha as [Ha|Ha]; [by left|]. apply list_elem_of_singleton in Ha. by right. }
  split; [done|]. exists ((id, s) :: L), P.
  split_and!; [done|by eapply Hst|by apply pay_inv_settle|exact HQt|]. intros e _. apply HQe.
Qed.

Lemma wp_publish ctx txn s p topic L P (Q : res unit → list claim → (PayDB → Prop) → Prop) :
  stable txns_kept P → (∀ d, P d → txn_seen txn d) →
  reports p = Some (tx_ID txn, s) → report_booking p = tx_BookingID txn →
  (∀ r L', Q r L' P) →
  pwp (outbox_Insert ctx topic (tx_ID txn) p) ((tx_ID txn, s) :: L) P Q.
Proof.
  intros Hst HPs Hrep Hb HQ.
  apply (outbox_Insert_cases (λ p, pwp p _ P Q)); [intros e; apply HQ|intros tc].
  apply wp_sql; [apply _|done| |by intros e; apply HQ].
  intros d F t HI HP. destruct (HPs d HP) as (u & Hu & Hfix & _).
  apply txn_fixed_eq in Hfix as (_ & Hbu & _).
  pose proof (pay_inv_publish d (L ++ F) (tx_ID txn) s u p topic (tx_ID txn) tc t HI Hu Hrep) as HI'.
  split; [by apply txns_kept_same|]. exists L, P.
  split_and!; [done|eapply Hst; [|done]; by apply txns_kept_same| |apply HQ|intros; apply HQ].
  apply HI'. congruence.
Qed.

Lemma wp_refund r txn L P (Q : res unit → list claim → (PayDB → Prop) → Prop) :
  stable txns_kept P → (∀ d, P d → txn_seen txn d) →
  terminal (tx_Status txn) → rf_TransactionID r = tx_ID txn → refund_for r txn →
  (∀ a, Q a L P) → pwp (RefundRepo_Create r) L P Q.
Proof.
  intros Hst HPs Hterm Hid Hrf HQ. apply wp_sql; [apply _|done| |by intros e; apply HQ].
  intros d F t HI HP. destruct (HPs d HP) as (u & Hu & Hfix & Hm).
  assert (tx_Status u = tx_Status txn) as Hs.
  { destruct Hterm as [Ht|Ht]; rewrite Ht in *; destruct Hm as [->|[[? _]|[[?|?] _]]]; done. }
  pose proof (pay_inv_insert_refund r u t d (L ++ F)) as HI'. rewrite Hid in HI'.
  specialize (HI' Hu (refund_for_later _ _ _ Hfix Hs Hrf) HI).
  assert (transactions (insert_refund r t d).1 = transactions d) as Ht.
  { unfold insert_refund. by repeat case_match. }
  destruct (insert_refund r t d) as [d' a]. cbn in *.
  split; [by apply txns_kept_same|]. exists L, P.
  split_and!; [done|eapply Hst; [|done]; by apply txns_kept_same|done|apply HQ|intros; apply HQ].
Qed.
(** ** The programs *)

Lemma pg_Initiate s b ev u em amt exp : pguards (InitiateTxnForBooking s b ev u em amt exp).
Proof.
  unfold InitiateTxnForBooking, TransactionRepo_Create, TransactionRepo_FindByBookingID.
  guards_solve.
Qed.

Lemma pg_ProcessPayment s b u : pguards (ProcessPayment s b u).
Proof.
  unfold ProcessPayment, hold_over, TransactionRepo_FindByBookingID,
    TransactionRepo_TransitionIfInitiated, TransactionRepo_UpdateSession.
  guards_solve.
Qed.

Lemma true_kept : stable txns_kept (λ _, True).
Proof. by intros d d'. Qed.

Lemma wp_lateRefund txn L P Q :
  stable txns_kept P → (∀ d, P d → txn_seen txn d) → tx_Status txn = "expired" →
  (∀ a L', Q a L' P) → pwp (requestLatePaymentRefund txn) L P Q.
Proof.
  intros Hst HPs Hexp HQ. unfold requestLatePaymentRefund.
  apply wp_bind, wp_uuid; [apply _|done|]. intros id.
  apply wp_bind. eapply (wp_refund _ txn); [done|done|by right|done| |].
  - unfold refund_for. cbn. auto.
  - intros [_|e]; [|apply HQ].
    apply wp_pneutral_bind; [unfold TransactionRepo_UpdateRefundStatus; guards_solve|done|].
    intros _. apply HQ.
Qed.

Lemma safe_webhook ctx body :
  pwp (HandleSessionWebhook ctx body) [] (λ _, True) (λ _ _ _, True).
Proof.
  unfold HandleSessionWebhook. destruct body as [event|e]; [|done].
  case_bool_decide; [done|].
  apply wp_bind, wp_FindByBookingID; [apply true_kept| |done]. intros txn.
  set (P := λ d, True ∧ txn_seen txn d).
  assert (stable txns_kept P) as Hst by (apply seen_stable, true_kept).
  assert (∀ d, P d → txn_seen txn d) as HPs by (by intros d []).
  destruct (_ && _); [done|]. case_bool_decide; [|case_bool_decide; [|done]].
  - unfold webhook_completed. apply wp_bind, wp_settle; [by left|done| | |done].
    + apply wp_bind, wp_time; [apply _|done|]. intros now.
      by apply wp_bind, wp_publish.
    + case_bool_decide; [|done]. apply wp_bind. by apply wp_lateRefund.
  - unfold webhook_expired. apply wp_bind, wp_settle; [by right|done| |done|done].
    apply wp_bind, wp_time; [apply _|done|]. intros now. by apply wp_bind, wp_publish.
Qed.

Definition all_seen (txns : list Transaction) (d : PayDB) : Prop := Forall (λ t, txn_seen t d) txns.

Lemma all_seen_stable txns : stable txns_kept (all_seen txns).
Proof.
  intros d d' Hk Hs. eapply Forall_impl; [exact Hs|]. intros t. by apply txn_seen_stable.
Qed.

Lemma safe_expireLoop ctx txns L P :
  stable txns_kept P → (∀ d, P d → all_seen txns d) →
  pwp (expireLoop ctx txns) L P (λ _ _ _, True).
Proof.
  revert L. induction txns as [|txn txns IH]; intros L Hst HPs; [done|]. cbn [expireLoop].
  assert (∀ d, P d → txn_seen txn d ∧ all_seen txns d) as HPs'.
  { intros d Hd. specialize (HPs d Hd). by apply Forall_cons in HPs. }
  assert (∀ L', pwp (expireLoop ctx txns) L' P (λ _ _ _, True)) as Hrest.
  { intros L'. by apply IH; [|intros d []%HPs']. }
  apply wp_bind. unfold expireOne. apply wp_pneutral_bind.
  { case_bool_decide; [done|by split]. }
  { done. }
  intros _. apply wp_bind, wp_settle; [by right|done| |apply Hrest|by intros; apply Hrest].
  cbn [negb]. apply wp_bind, wp_time; [apply _|done|]. intros now.
  apply wp_bind, wp_publish; [done|by intros d []%HPs'|done|done|]. intros r L'. apply Hrest.
Qed.

Lemma listed_seen d L (P : Transaction → bool) txns :
  pay_inv d L → (∀ t, t ∈ txns → t ∈ rows P (transactions d)) → all_seen txns d.
Proof.
  intros HI Hin. apply Forall_forall. intros t (k & Hk & _)%Hin%elem_of_rows.
  by eapply txn_seen_here.
Qed.

Lemma safe_ProcessExpired ctx limit :
  pwp (ProcessExpired ctx limit) [] (λ _, True) (λ _ _ _, True).
Proof.
  unfold ProcessExpired. apply wp_bind, wp_time; [apply _|apply true_kept|]. intros now.
  apply wp_bind, wp_query; [apply _|apply true_kept|done| |done].
  intros d F t HI _. cbn [snd query]. case_bool_decide.
  { exists (λ _, True). split_and!; [apply true_kept|done|done]. }
  set (txns := take _ _). exists (all_seen txns). split_and!; [apply all_seen_stable| |].
  - eapply listed_seen; [done|]. intros u (i & Hu & _)%elem_of_take.
    apply list_elem_of_lookup_2, elem_of_order_by in Hu. exact Hu.
  - apply wp_bind. eapply wp_mono, safe_expireLoop; [done|apply all_seen_stable|done].
Qed.

Lemma safe_refundLoop txns L P :
  stable txns_kept P → (∀ d, P d → all_seen txns d) →
  pwp (refundLoop txns) L P (λ _ _ _, True).
Proof.
  revert L. induction txns as [|txn txns IH]; intros L Hst HPs; [done|]. cbn [refundLoop].
  assert (∀ d, P d → txn_seen txn d ∧ all_seen txns d) as HPs'.
  { intros d Hd. specialize (HPs d Hd). by apply Forall_cons in HPs. }
  assert (∀ L', pwp (refundLoop txns) L' P (λ _ _ _, True)) as Hrest.
  { intros L'. by apply IH; [|intros d []%HPs']. }
  case_bool_decide as Hs; [|apply Hrest].
  apply wp_bind, wp_uuid; [apply _|done|]. intros id.
  apply wp_bind. eapply (wp_refund _ txn); [done|by intros d []%HPs'|by left|done| |].
  - unfold refund_for. cbn. auto.
  - intros [_|e]; [|done].
    apply wp_pneutral_bind; [unfold TransactionRepo_UpdateRefundStatus; guards_solve|done|].
    intros [_|e]; [apply Hrest|done].
Qed.

Lemma safe_eventCancelled ev :
  pwp (HandleEventCancelled ev) [] (λ _, True) (λ _ _ _, True).
Proof.
  unfold HandleEventCancelled. apply wp_bind, wp_query; [apply _|apply true_kept|done| |done].
  intros d F t HI _. cbn [snd query]. set (txns := order_by_desc _ _). exists (all_seen txns). split_and!; [apply all_seen_stable| |].
  - eapply listed_seen; [done|]. intros u Hu%elem_of_order_by. exact Hu.
  - apply safe_refundLoop; [apply all_seen_stable|done].
Qed.
End specs.

(** Every program of the service, down to its repositories. *)
Ltac unfold_payment :=
  unfold InitiateTxnForBooking, ProcessPayment, hold_over, HandleSessionWebhook,
    webhook_completed, webhook_expired, requestLatePaymentRefund, expiryTick, ProcessExpired,
    pay_onEventCancelled, HandleEventCancelled, discard, TransactionRepo_TransitionIfInitiated,
    TransactionRepo_TransitionIfActive, TransactionRepo_UpdateSession,
    TransactionRepo_UpdateRefundStatus, TransactionRepo_Create, TransactionRepo_FindByBookingID,
    TransactionRepo_ListActiveExpired, TransactionRepo_ListByEventID, RefundRepo_Create.

Section calls.
Context (P : ∀ B, payE B → Prop) (Hcancel : ∀ ref, P _ (CancelSession ref)).

Lemma calls_expireLoop ctx txns : calls P (expireLoop ctx txns).
Proof using Hcancel.
  induction txns as [|t txns IH]; cbn [expireLoop]; [done|]. apply calls_bind; [|done].
  unfold expireOne. unfold_payment. calls_solve; apply Hcancel.
Qed.
Lemma calls_refundLoop txns : calls P (refundLoop txns).
Proof.
  induction txns as [|t txns IH]; cbn [refundLoop]; [done|].
  unfold_payment. calls_solve; apply IH.
Qed.
End calls.

(** What a payment instance runs: creations asked for by ticketing, payment
    requests, webhook deliveries, poller passes and event cancellations. *)
Inductive payment_entry (s : PaymentService) : pprog unit → Prop :=
  | PE_Initiate b ev u em amt exp :
      payment_entry s (discard (InitiateTxnForBooking s b ev u em amt exp))
  | PE_Process b u : payment_entry s (discard (ProcessPayment s b u))
  | PE_webhook ctx body : payment_entry s (discard (HandleSessionWebhook ctx body))
  | PE_poll ctx : payment_entry s (expiryTick ctx)
  | PE_cancelled m : payment_entry s (discard (pay_onEventCancelled m)).

Lemma payment_entry_safe s p :
  payment_entry s p → safe (any_env payE) pay_inv txns_kept p [] (λ _, True).
Proof.
  destruct 1 as [b ev u em amt exp|b u|ctx body|ctx|m]; unfold safe, discard, expiryTick.
  - apply wp_pneutral_bind; [apply pg_Initiate|apply true_kept|done].
  - apply wp_pneutral_bind; [apply pg_ProcessPayment|apply true_kept|done].
  - apply wp_bind, safe_webhook.
  - apply wp_bind, safe_ProcessExpired.
  - apply wp_bind. unfold pay_onEventCancelled.
    split_match; [apply safe_eventCancelled|done].
Qed.

Lemma payment_reachable s d0 d :
  pay_inv d0 [] → reachable (any_env payE) (payment_entry s) d0 d →
  (∃ L, pay_inv d L) ∧ txns_kept d0 d.
Proof.
  intros HI. apply (reachable_safe (any_env payE) pay_inv txns_kept); [|done].
  apply payment_entry_safe.
Qed.

(** ** The theorems *)

(** C8. A payment is settled once: however webhooks, poller passes, payment
    requests and cancellations interleave, and whichever statements fail or
    lose their answers, the outbox never holds more than one message that
    reports a transaction as completed or expired, and that message names the
    booking of the transaction and the status its row has. *)
Theorem settled_once (s : PaymentService) (d0 d : PayDB) id :
  pay_inv d0 [] → reachable (any_env payE) (payment_entry s) d0 d →
  (report_count d id ≤ 1)%nat ∧
  ∀ r st, r ∈ outbox_rows (pay_outbox d) → reports (ob_Payload r) = Some (id, st) →
    ∃ t, transactions d !! id = Some t ∧ tx_Status t = st ∧
      report_booking (ob_Payload r) = tx_BookingID t.
Proof.
  intros HI Hreach. destruct (payment_reachable s d0 d HI Hreach) as [[L HL] _]. split.
  - pose proof (pi_once _ _ HL id). lia.
  - intros r st. apply (pi_reports _ _ HL).
Qed.

(** C13. Transactions stay on their state machine: under every interleaving no
    transaction disappears, its id, user, booking, event, amount, currency and
    deadline never change, and its status only moves from initiated to pending
    and from either to completed or expired, which are final. *)
Theorem txn_lifecycle (s : PaymentService) (d0 d : PayDB) k t :
  pay_inv d0 [] → reachable (any_env payE) (payment_entry s) d0 d →
  transactions d0 !! k = Some t →
  ∃ t', transactions d !! k = Some t' ∧ txn_fixed t' = txn_fixed t ∧
    txn_moves (tx_Status t) (tx_Status t').
Proof.
  intros HI Hreach. destruct (payment_reachable s d0 d HI Hreach) as [_ Hk]. apply Hk.
Qed.

(** C14. Money is returned once: under every interleaving there is at most one
    refund request per transaction, over the amount of the transaction, and it
    is a late-payment refund of an expired transaction or an
    event-cancellation refund of a completed one. *)
Theorem refunded_once (s : PaymentService) (d0 d : PayDB) k1 k2 r1 r2 :
  pay_inv d0 [] → reachable (any_env payE) (payment_entry s) d0 d →
  refund_requests d !! k1 = Some r1 → refund_requests d !! k2 = Some r2 →
  rf_TransactionID r1 = rf_TransactionID r2 →
  k1 = k2 ∧ ∃ t, transactions d !! rf_TransactionID r1 = Some t ∧ refund_for r1 t.
Proof.
  intros HI Hreach H1 H2 Heq. destruct (payment_reachable s d0 d HI Hreach) as [[L HL] _].
  destruct (pi_refunds _ _ HL k1 r1 H1) as (t & Ht & Hr1).
  destruct (pi_refunds _ _ HL k2 r2 H2) as (t2 & Ht2 & Hr2).
  rewrite <- Heq, Ht in Ht2. injection Ht2 as <-.
  split; [|by exists t]. eapply (pi_refund_keys _ _ HL); [done|done|].
  destruct Hr1 as (_ & _ & [[-> Hs1]|[-> Hs1]]), Hr2 as (_ & _ & [[-> Hs2]|[-> Hs2]]); congruence.
Qed.
