(* ===== verification/PaymentSpec.v ===== *)
(** * What the payment service does, from start to end

    Creation of transactions, payment requests and the gateway deadline,
    webhooks, the poller and event cancellations, each running on its own; and
    the interleaving of a webhook with the poller that loses a refund. *)
From S2P Require Import Prelude Effects TimeText Dto Outbox PayDB Payment PaymentSafety.

(** ** Sample states *)

Definition pay_time : Z := 1767225600 * Second.
Definition pay_service : PaymentService := mkPaymentService "mock" 2 ["QRIS"].
Definition pay_empty : PayDB := mkPayDB ∅ ∅ (mkOutbox 0 []).

(** The gateway answers as [MockProcessor] does. *)
Definition gateway_ok : ∀ A, payE A → A := λ A x,
  match x with
  | CreateSession ref _ _ exp _ _ => Ok (mkSessionResult ("ps-mock-" +:+ ref) "https://mock" exp)
  | CancelSession _ => Ok ()
  | GetSession _ => Err (Plain "mock session not found")
  end.
Definition pay_oracle (now : Z) : oracle payE := calm now gateway_ok.

Lemma pay_dated now : 0 ≤ year_of now < 10000 → dated (pay_oracle now).
Proof. by intros ? n. Qed.

Definition sample_initiate : pprog (res Transaction) :=
  InitiateTxnForBooking pay_service "bk" "ev" "u" "u@mail" 1100 (pay_time + 900 * Second).
Definition initiated_db : PayDB := (run (pay_oracle pay_time) (discard sample_initiate) 0 pay_empty).1.2.
Definition processed_db : PayDB :=
  (run (pay_oracle pay_time) (discard (ProcessPayment pay_service "bk" "u")) 10 initiated_db).1.2.
Definition sample_hook (event : string) : res sessionWebhookPayload :=
  Ok (mkSessionWebhook event "bk" "ps-mock-bk" "" "").
Definition completed_db : PayDB :=
  (run (pay_oracle pay_time) (discard (HandleSessionWebhook background
     (sample_hook "payment_session.completed"))) 20 processed_db).1.2.

Lemma pay_inv_empty : pay_inv pay_empty [].
Proof.
  split; try done.
  - intros id. vm_compute. lia.
  - by intros r id s Hr%elem_of_nil.
  - by intros id s Hin%elem_of_nil.
Qed.

Lemma pay_allowed now : allowed (any_env payE) (pay_oracle now).
Proof. by split. Qed.

Lemma completed_reachable_from :
  reachable (any_env payE) (payment_entry pay_service) initiated_db completed_db.
Proof.
  apply reachable_run; [apply pay_allowed|apply PE_webhook|].
  apply reachable_run; [apply pay_allowed|apply PE_Process|]. by exists [].
Qed.

Lemma initiated_reachable :
  reachable (any_env payE) (payment_entry pay_service) pay_empty initiated_db.
Proof.
  apply reachable_run; [apply pay_allowed|apply PE_Initiate|]. by exists [].
Qed.

Lemma pay_inv_initiated : pay_inv initiated_db [].
Proof.
  replace initiated_db with (insert_txn (new_txn pay_service "id-0" "bk" "ev" "u" "u@mail" 1100
    (pay_time + 900 * Second)) pay_time pay_empty).1 by (vm_compute; reflexivity).
  apply pay_inv_insert_txn, pay_inv_empty.
Qed.

Lemma settled_once_witness : (report_count completed_db "id-0" ≤ 1)%nat ∧
  report_count completed_db "id-0" = 1%nat.
Proof.
  split; [|vm_compute; reflexivity].
  apply (settled_once pay_service initiated_db completed_db "id-0").
  - apply pay_inv_initiated.
  - apply completed_reachable_from.
Defined.

Definition sample_txn (status ref link : string) : Transaction :=
  mkTransaction "id-0" "u" "bk" "ev" 1100 "IDR" status "mock" ref link "u@mail" "none"
    (Some (pay_time + 900 * Second)) pay_time pay_time.

Lemma txn_lifecycle_witness : ∃ t', transactions completed_db !! "id-0" = Some t' ∧
  txn_moves "initiated" (tx_Status t').
Proof.
  destruct (txn_lifecycle pay_service initiated_db completed_db "id-0"
    (sample_txn "initiated" "" "")) as (t' & Ht' & _ & Hm).
  - apply pay_inv_initiated.
  - apply completed_reachable_from.
  - vm_compute. reflexivity.
  - exists t'. split; [exact Ht'|exact Hm].
Defined.

(** The event of the completed payment is cancelled. *)
Definition refunded_db : PayDB :=
  (run (pay_oracle pay_time) (discard (pay_onEventCancelled
     (mkMessage "event.cancelled" "ev" (PEventCancelled (mkEventCancelled "ev" pay_time)))))
     30 completed_db).1.2.

Lemma refunded_once_witness : ∃ t, transactions refunded_db !! "id-0" = Some t ∧
  refund_for (cancelled_refund "id-31" (sample_txn "completed" "ps-mock-bk" "https://mock")) t.
Proof.
  apply (refunded_once pay_service initiated_db refunded_db "id-31" "id-31"
    (cancelled_refund "id-31" (sample_txn "completed" "ps-mock-bk" "https://mock"))
    (cancelled_refund "id-31" (sample_txn "completed" "ps-mock-bk" "https://mock"))).
  - apply pay_inv_initiated.
  - apply reachable_run; [apply pay_allowed|apply PE_cancelled|]. apply completed_reachable_from.
  - vm_compute. reflexivity.
  - vm_compute. reflexivity.
  - reflexivity.
Defined.

(** ** Creation *)

Section runs.
Context (o : oracle payE) (Hcalm : faultless o).

Lemma runs_FindByBookingID b n d Φ :
  Φ (S n) d (row_or_error (txn_of_booking b d)) →
  runs o (TransactionRepo_FindByBookingID b) n d Φ.
Proof. intros HΦ. by apply runs_sql_calm. Qed.

Lemma rows_booking_single d L b t k :
  pay_inv d L → transactions d !! k = Some t → tx_BookingID t = b →
  rows (has_booking b) (transactions d) = [t].
Proof.
  intros HI Ht Hb. apply Permutation_singleton_r. unfold rows.
  assert (filter (λ ka : string * Transaction, has_booking b ka.2 = true) (transactions d) =
    {[ k := t ]}) as ->; [|by rewrite map_to_list_singleton].
  apply map_eq. intros k'. destruct (decide (k = k')) as [<-|Hne].
  - rewrite lookup_singleton_eq. apply map_lookup_filter_Some. split; [done|].
    unfold has_booking. by rewrite bool_decide_eq_true_2.
  - rewrite lookup_singleton_ne by done. apply map_lookup_filter_None. right.
    intros u Hu Hhb. unfold has_booking in Hhb. cbn in Hhb. bool_cases.
    apply Hne. eapply (pi_booking _ _ HI); [done|done|congruence].
Qed.

Lemma txn_of_booking_single d L b t k :
  pay_inv d L → transactions d !! k = Some t → tx_BookingID t = b →
  txn_of_booking b d = Some t.
Proof.
  intros HI Ht Hb. unfold txn_of_booking. by rewrite (rows_booking_single d L b t k).
Qed.

Lemma runs_Initiate_again s b ev u em amt exp t d L n Φ :
  pay_inv d L → txn_of_booking b d = Some t → 0 ≤ amt →
  (∀ n', Φ n' d (Ok t)) → runs o (InitiateTxnForBooking s b ev u em amt exp) n d Φ.
Proof.
  intros HI Ht Hamt HΦ. destruct (txn_of_booking_elem b d t Ht) as (k & Hk & Hb).
  unfold InitiateTxnForBooking. apply runs_bind, runs_uuid, runs_bind, runs_sql_calm; [done|].
  unfold insert_txn.
  assert (txn_check (txn_row (o_now o (S n)) (new_txn s (o_uuid o n) b ev u em amt exp)) = true) as ->.
  { unfold txn_check. cbn. by rewrite (bool_decide_eq_true_2 (0 ≤ amt)). }
  cbn [negb tx_BookingID tx_ID new_txn]. rewrite (rows_booking_single d L b t k HI Hk Hb).
  rewrite (bool_decide_eq_false_2 ([t] = [])), orb_true_r by done. cbn [negb fst snd].
  apply runs_FindByBookingID. rewrite Ht. apply HΦ.
Qed.

Lemma no_rows_of_booking b d :
  txn_of_booking b d = None → rows (has_booking b) (transactions d) = [].
Proof.
  unfold txn_of_booking. intros Ht. destruct (rows _ _) as [|x l] eqn:Hr; [done|].
  assert (x ∈ order_by_desc tx_CreatedAt (x :: l)) as Hin by (apply elem_of_order_by; by left).
  destruct (order_by_desc _ _); [by apply elem_of_nil in Hin|done].
Qed.

Lemma insert_new_txn s id b ev u em amt exp now d :
  txn_of_booking b d = None → transactions d !! id = None → 0 ≤ amt →
  insert_txn (new_txn s id b ev u em amt exp) now d =
    (set_transactions (<[id := txn_row now (new_txn s id b ev u em amt exp)]> (transactions d)) d,
     Ok ()).
Proof.
  intros Ht Hfresh Hamt. unfold insert_txn.
  assert (txn_check (txn_row now (new_txn s id b ev u em amt exp)) = true) as ->.
  { unfold txn_check. cbn. by rewrite (bool_decide_eq_true_2 (0 ≤ amt)). }
  cbn [negb tx_BookingID tx_ID new_txn]. by rewrite (no_rows_of_booking b d Ht), Hfresh.
Qed.

Lemma runs_Initiate_new s b ev u em amt exp d n Φ :
  txn_of_booking b d = None → transactions d !! o_uuid o n = None → 0 ≤ amt →
  (∀ n' now, Φ n'
     (set_transactions (<[o_uuid o n := txn_row now (new_txn s (o_uuid o n) b ev u em amt exp)]>
        (transactions d)) d) (Ok (new_txn s (o_uuid o n) b ev u em amt exp))) →
  runs o (InitiateTxnForBooking s b ev u em amt exp) n d Φ.
Proof.
  intros Ht Hfresh Hamt HΦ. unfold InitiateTxnForBooking.
  apply runs_bind, runs_uuid, runs_bind, runs_sql_calm; [done|].
  rewrite insert_new_txn by done. apply HΦ.
Qed.
End runs.

(** Creating a transaction is idempotent per booking: when the booking has
    a transaction, whatever amount, event or deadline the caller repeats, the
    stored transaction is returned and nothing is written; otherwise exactly
    one initiated transaction with the caller's amount and deadline is added. *)
Theorem initiate_idempotent (o : oracle payE) s b ev u em amt exp d L :
  faultless o → pay_inv d L → 0 ≤ amt →
  (txn_of_booking b d = None → transactions d !! o_uuid o 0 = None) →
  match txn_of_booking b d with
  | Some t => exec o (InitiateTxnForBooking s b ev u em amt exp) d = (d, Ok t)
  | None => ∃ now, exec o (InitiateTxnForBooking s b ev u em amt exp) d =
      (set_transactions (<[o_uuid o 0 :=
         txn_row now (new_txn s (o_uuid o 0) b ev u em amt exp)]> (transactions d)) d,
       Ok (new_txn s (o_uuid o 0) b ev u em amt exp))
  end.
Proof.
  intros Hcalm HI Hamt Hfresh. destruct (txn_of_booking b d) as [t|] eqn:Ht.
  { apply exec_eq. by eapply runs_Initiate_again. }
  set (txn := new_txn s (o_uuid o 0) b ev u em amt exp).
  destruct (exec_ex o (InitiateTxnForBooking s b ev u em amt exp) d (Ok txn) (λ d', ∃ now,
    d' = set_transactions (<[o_uuid o 0 := txn_row now txn]> (transactions d)) d))
    as (d' & Hex & now & ->); [|by exists now].
  apply runs_Initiate_new; eauto.
Qed.

Lemma processed_booking :
  txn_of_booking "bk" processed_db = Some (sample_txn "pending" "ps-mock-bk" "https://mock").
Proof. vm_compute. reflexivity. Qed.

Lemma processed_inv : ∃ L, pay_inv processed_db L.
Proof.
  refine (proj1 (payment_reachable pay_service initiated_db processed_db pay_inv_initiated _)).
  apply reachable_run; [apply pay_allowed|apply PE_Process|]. by exists [].
Qed.

Lemma initiate_idempotent_witness :
  exec (pay_oracle pay_time) (InitiateTxnForBooking pay_service "bk" "other" "v" "" 5 0) processed_db =
    (processed_db, Ok (sample_txn "pending" "ps-mock-bk" "https://mock")).
Proof.
  destruct processed_inv as [L HL].
  pose proof (initiate_idempotent (pay_oracle pay_time) pay_service "bk" "other" "v" ""
    5 0 processed_db L (λ _, eq_refl) HL ltac:(lia)) as Hid.
  rewrite processed_booking in Hid. apply Hid. discriminate.
Defined.

(** ** Payment requests *)

(** The expiry [ProcessPayment] asks the gateway for. *)
Definition gateway_deadline (s : PaymentService) (exp now : Z) : Z :=
  let deadline := exp + wrap64 (- ps_gatewayExpiryBufferMin s * Minute) in
  if bool_decide (deadline < now + 10 * Minute) then now + 10 * Minute else deadline.

Lemma gateway_deadline_max s exp now :
  in_int64 (- ps_gatewayExpiryBufferMin s * Minute) →
  gateway_deadline s exp now =
    Z.max (exp - ps_gatewayExpiryBufferMin s * Minute) (now + 10 * Minute).
Proof.
  intros Hin. unfold gateway_deadline. rewrite wrap64_id by done. case_bool_decide; lia.
Qed.

Definition session_request (s : PaymentService) (t : Transaction) (exp now : Z) :
    payE (res SessionResult) :=
  CreateSession (tx_BookingID t) (tx_AmountRupiah t) (tx_Currency t) (gateway_deadline s exp now)
    (ps_allowedChannels s) (tx_CustomerEmail t).

(** What [ProcessPayment] writes for the session it got. *)
Definition with_gateway (res : SessionResult) (t1 t2 : Z) (t : Transaction) : Transaction :=
  with_session (sr_ProviderRef res) (sr_PaymentLinkURL res) t2
    (with_status_ref StatusPending (sr_ProviderRef res) t1 t).

Lemma txn_check_moved t t' :
  txn_check t = true → tx_AmountRupiah t' = tx_AmountRupiah t →
  bool_decide (tx_Status t' ∈ ["initiated"; "pending"; "completed"; "expired"]) = true →
  bool_decide (tx_RefundStatus t' ∈ ["none"; "pending"; "success"]) = true ∨
    tx_RefundStatus t' = tx_RefundStatus t →
  txn_check t' = true.
Proof.
  unfold txn_check. intros Hck -> -> Hr. apply andb_true_iff in Hck as [Hck Hrt].
  apply andb_true_iff in Hck as [-> _]. destruct Hr as [->| ->]; [done|]. by rewrite Hrt.
Qed.

Section process.
Context (o : oracle payE) (Hcalm : faultless o) (s : PaymentService).

Lemma runs_ProcessPayment t exp res d L n Φ :
  pay_inv d L → transactions d !! tx_ID t = Some t → tx_Status t = StatusInitiated →
  tx_ExpiresAt t = Some exp → o_now o (S n) < exp → Minute ≤ exp - o_now o (S (S n)) →
  o_ext o (S (S (S (S n)))) _ (session_request s t exp (o_now o (S (S (S n))))) = Ok res →
  (∀ n' t1 t2, Φ n' (set_transactions (<[tx_ID t := with_gateway res t1 t2 t]> (transactions d)) d)
     (Ok (t, res))) →
  runs o (ProcessPayment s (tx_BookingID t) (tx_UserID t)) n d Φ.
Proof.
  intros HI Ht Hst Hexp Hnow1 Hnow2 Hgw HΦ. unfold ProcessPayment.
  apply runs_bind, runs_FindByBookingID; [done|].
  rewrite (txn_of_booking_single d L _ t (tx_ID t)) by done. cbn [row_or_error].
  rewrite Hst, Hexp. rewrite bool_decide_eq_true_2 by done. cbn [negb hold_over].
  apply runs_bind, runs_bind, runs_now. rewrite bool_decide_eq_true_2 by done. cbn [negb].
  apply runs_bind, runs_now, runs_ret. rewrite bool_decide_eq_false_2 by lia.
  rewrite bool_decide_eq_true_2 by done. cbn [negb from_option id].
  apply runs_bind, runs_now, runs_bind, runs_call.
  unfold session_request, gateway_deadline in Hgw. rewrite Hgw.
  destruct (pi_txn _ _ HI _ _ Ht) as [_ Hck].
  apply runs_bind. unfold TransactionRepo_TransitionIfInitiated.
  apply runs_bind, runs_sql_calm; [done|]. unfold update_txn at 1 2. rewrite Ht, Hst.
  rewrite bool_decide_eq_true_2 by done.
  assert (∀ now ref, txn_check (with_status_ref StatusPending ref now t) = true) as Hck1.
  { intros now ref. by apply (txn_check_moved t); [| | |right]. }
  rewrite Hck1. cbn [fst snd]. apply runs_ret. rewrite bool_decide_eq_true_2 by lia. cbn [negb].
  apply runs_bind. unfold TransactionRepo_UpdateSession. apply runs_bind, runs_sql_calm; [done|].
  unfold update_txn. cbn [transactions set_transactions]. rewrite lookup_insert_eq.
  assert (∀ now1 now2, txn_check (with_gateway res now1 now2 t) = true) as Hck2.
  { intros now1 now2. by apply (txn_check_moved t); [| | |right]. }
  unfold with_gateway in Hck2. rewrite Hck2. cbn [fst snd]. apply runs_ret.
  rewrite insert_insert_eq. apply HΦ.
Qed.
End process.

(** C40. A payment request that succeeds: when every statement is executed, the
    tables satisfy payment's invariant and the configured buffer fits 64 bits,
    and the customer of an initiated transaction asks to pay it with at least a
    minute of the hold left, and the gateway answers with a session, then that
    session was requested for the stored amount, currency and e-mail address,
    the transaction moves from initiated to pending and stores the session's
    reference and link, and nothing else changes. The session's expiry is the
    booking deadline less the buffer, but never less than ten minutes from now,
    even when that is after the booking deadline. *)
Theorem process_payment_ok (o : oracle payE) s t exp res d L :
  faultless o → pay_inv d L → transactions d !! tx_ID t = Some t →
  tx_Status t = StatusInitiated → tx_ExpiresAt t = Some exp →
  o_now o 1 < exp → Minute ≤ exp - o_now o 2 →
  in_int64 (- ps_gatewayExpiryBufferMin s * Minute) →
  o_ext o 4 _ (session_request s t exp (o_now o 3)) = Ok res →
  (∃ t1 t2, exec o (ProcessPayment s (tx_BookingID t) (tx_UserID t)) d =
     (set_transactions (<[tx_ID t := with_gateway res t1 t2 t]> (transactions d)) d,
      Ok (t, res))) ∧
  gateway_deadline s exp (o_now o 3) =
    Z.max (exp - ps_gatewayExpiryBufferMin s * Minute) (o_now o 3 + 10 * Minute) ∧
  (exp < o_now o 3 + 10 * Minute → 0 ≤ ps_gatewayExpiryBufferMin s →
     exp < gateway_deadline s exp (o_now o 3)).
Proof.
  intros Hcalm HI Ht Hst Hexp Hn1 Hn2 Hbuf Hgw. split_and!.
  - assert (runs o (ProcessPayment s (tx_BookingID t) (tx_UserID t)) 0 d (λ _ d' r, ∃ t1 t2,
      (d', r) = (set_transactions (<[tx_ID t := with_gateway res t1 t2 t]> (transactions d)) d,
        Ok (t, res)))) as Hr.
    { eapply runs_ProcessPayment; [done..|]. intros _ t1 t2. by exists t1, t2. }
    apply exec_runs in Hr. destruct (exec o _ d) as [d' r]. exact Hr.
  - by apply gateway_deadline_max.
  - intros Hlate Hb. rewrite gateway_deadline_max by done. lia.
Qed.

Lemma process_payment_ok_witness : ∃ t1 t2,
  exec (pay_oracle pay_time) (ProcessPayment pay_service "bk" "u") initiated_db =
    (set_transactions (<["id-0" := with_gateway
       (mkSessionResult "ps-mock-bk" "https://mock" (pay_time + 780 * Second)) t1 t2
       (sample_txn "initiated" "" "")]> (transactions initiated_db)) initiated_db,
     Ok (sample_txn "initiated" "" "",
         mkSessionResult "ps-mock-bk" "https://mock" (pay_time + 780 * Second))).
Proof.
  apply (process_payment_ok (pay_oracle pay_time) pay_service (sample_txn "initiated" "" "")
    (pay_time + 900 * Second) (mkSessionResult "ps-mock-bk" "https://mock" (pay_time + 780 * Second))
    initiated_db []).
  - done.
  - apply pay_inv_initiated.
  - vm_compute. reflexivity.
  - reflexivity.
  - reflexivity.
  - vm_compute. reflexivity.
  - vm_compute. congruence.
  - vm_compute. split; congruence.
  - vm_compute. reflexivity.
Defined.

(** ** Webhooks *)

(** The delivery is for the session the transaction stores, or names none. *)
Definition for_session (ev : sessionWebhookPayload) (t : Transaction) : Prop :=
  sessionID ev = "" ∨ sessionID ev = tx_ProviderRef t.

Lemma for_session_guard ev t :
  for_session ev t →
  negb (bool_decide (sessionID ev = "")) && negb (bool_decide (sessionID ev = tx_ProviderRef t)) = false.
Proof.
  intros [->| ->]; [by rewrite bool_decide_eq_true_2|].
  rewrite (bool_decide_eq_true_2 (tx_ProviderRef t = tx_ProviderRef t)) by done. apply andb_false_r.
Qed.

(** The status a delivery asks for. *)
Definition hook_status (ev : sessionWebhookPayload) : option string :=
  if decide (wh_Event ev = "payment_session.completed") then Some "completed"
  else if decide (wh_Event ev = "payment_session.expired") then Some "expired"
  else None.

(** A row that reports [t] as settled, waiting for the worker. *)
Record report_row (t : Transaction) (st : string) (row : outboxRow) : Prop := {
  rr_reports : reports (ob_Payload row) = Some (tx_ID t, st);
  rr_booking : report_booking (ob_Payload row) = tx_BookingID t;
  rr_waiting : ob_delivered row = false;
  rr_topic : ob_Topic row = "payment." +:+ st;
  rr_dated : payload_dated (ob_Payload row);
}.

(** [d'] is [d] with transaction [t] moved to [st] and one report of it queued. *)
Record reported (t : Transaction) (st : string) (d d' : PayDB) : Prop := {
  rp_txn : ∃ now, transactions d' =
    <[tx_ID t := with_status_ref st (tx_ProviderRef t) now t]> (transactions d);
  rp_refunds : refund_requests d' = refund_requests d;
  rp_outbox : ∃ row, outbox_rows (pay_outbox d') = outbox_rows (pay_outbox d) ++ [row] ∧
    report_row t st row;
}.

Section webhook.
Context (o : oracle payE) (Hcalm : faultless o) (Hdate : dated o) (ctx : context).

Lemma runs_settle t st n d L Φ :
  pay_inv d L → transactions d !! tx_ID t = Some t → txn_active t = true →
  st = StatusCompleted ∨ st = StatusExpired →
  (∀ n' now, Φ n' (set_transactions (<[tx_ID t :=
     with_status_ref st (tx_ProviderRef t) now t]> (transactions d)) d) (Ok true)) →
  runs o (TransactionRepo_TransitionIfActive (tx_ID t) st (tx_ProviderRef t)) n d Φ.
Proof.
  intros HI Ht Ha Hst HΦ. unfold TransactionRepo_TransitionIfActive.
  apply runs_bind, runs_sql_calm; [done|]. unfold update_txn. rewrite Ht, Ha.
  destruct (pi_txn _ _ HI _ _ Ht) as [_ Hck].
  assert (txn_check (with_status_ref st (tx_ProviderRef t) (o_now o n) t) = true) as ->.
  { apply (txn_check_moved t); [done|done| |by right]. by destruct Hst as [->| ->]. }
  cbn [fst snd]. apply runs_ret. apply HΦ.
Qed.

Lemma runs_settle_late t st ref n d Φ :
  transactions d !! tx_ID t = Some t → txn_active t = false →
  (∀ n', Φ n' d (Ok false)) →
  runs o (TransactionRepo_TransitionIfActive (tx_ID t) st ref) n d Φ.
Proof.
  intros Ht Ha HΦ. unfold TransactionRepo_TransitionIfActive.
  apply runs_bind, runs_sql_calm; [done|]. unfold update_txn. rewrite Ht, Ha. apply HΦ.
Qed.

Lemma runs_hook_txn ev t d L Φ :
  pay_inv d L → transactions d !! tx_ID t = Some t → wh_ReferenceID ev = tx_BookingID t →
  tx_BookingID t ≠ "" → for_session ev t →
  runs o (match hook_status ev with
          | Some "completed" => webhook_completed ctx t
          | Some _ => webhook_expired ctx t
          | None => Ret (Ok ()) end) 1 d Φ →
  runs o (HandleSessionWebhook ctx (Ok ev)) 0 d Φ.
Proof.
  intros HI Ht Href Hne Hses HΦ. unfold HandleSessionWebhook.
  rewrite Href, bool_decide_eq_false_2 by done.
  apply runs_bind, runs_FindByBookingID; [done|].
  rewrite (txn_of_booking_single d L _ t (tx_ID t)) by done. cbn [row_or_error].
  rewrite for_session_guard by done. unfold hook_status in HΦ.
  destruct (decide (wh_Event ev = "payment_session.completed")) as [He|He].
  { by rewrite bool_decide_eq_true_2. }
  rewrite (bool_decide_eq_false_2 (_ = "payment_session.completed")) by done.
  destruct (decide (wh_Event ev = "payment_session.expired")) as [He'|He'].
  - by rewrite bool_decide_eq_true_2.
  - by rewrite bool_decide_eq_false_2.
Qed.

Lemma runs_webhook_settles ev st t d L :
  pay_inv d L → transactions d !! tx_ID t = Some t → txn_active t = true →
  wh_ReferenceID ev = tx_BookingID t → tx_BookingID t ≠ "" → for_session ev t →
  hook_status ev = Some st →
  runs o (HandleSessionWebhook ctx (Ok ev)) 0 d (λ _ d' r, r = Ok () ∧ reported t st d d').
Proof.
  intros HI Ht Ha Href Hne Hses Hst. eapply runs_hook_txn; [done..|].
  assert (st = "completed" ∨ st = "expired") as [->| ->].
  { unfold hook_status in Hst. repeat case_decide; simplify_eq; auto. }
  - rewrite Hst. unfold webhook_completed.
    eapply runs_bind, runs_settle; [done|done|done|by left|]. intros n now.
    apply runs_bind, runs_now, runs_bind, runs_Insert, runs_sql_calm; [apply Hdate|done|].
    apply runs_ret. split; [done|]. split; [by eexists|done|].
    eexists. split; [done|]. split; try done. apply Hdate.
  - rewrite Hst. unfold webhook_expired.
    eapply runs_bind, runs_settle; [done|done|done|by right|]. intros n now.
    apply runs_bind, runs_now, runs_bind, runs_Insert, runs_sql_calm; [apply Hdate|done|].
    apply runs_ret. split; [done|]. split; [by eexists|done|].
    eexists. split; [done|]. split; try done. apply Hdate.
Qed.

Lemma runs_webhook_ignored ev t d L :
  pay_inv d L → transactions d !! tx_ID t = Some t → txn_active t = false →
  wh_ReferenceID ev = tx_BookingID t → tx_BookingID t ≠ "" → for_session ev t →
  hook_status ev = Some "expired" ∨ hook_status ev = None ∨ tx_Status t = "completed" →
  runs o (HandleSessionWebhook ctx (Ok ev)) 0 d (λ _ d' r, d' = d ∧ r = Ok ()).
Proof.
  intros HI Ht Ha Href Hne Hses Hst. eapply runs_hook_txn; [done..|].
  destruct (hook_status ev) as [st|] eqn:Hh; [|done].
  assert (st = "completed" ∨ st = "expired") as [->| ->].
  { unfold hook_status in Hh. repeat case_decide; simplify_eq; auto. }
  - unfold webhook_completed. apply runs_bind, runs_settle_late; [done|done|]. intros n'.
    rewrite bool_decide_eq_false_2; [done|].
    destruct Hst as [?|[?|Hc]]; [done|done|]. by rewrite Hc.
  - unfold webhook_expired. by apply runs_bind, runs_settle_late.
Qed.
End webhook.

(** C36. Webhooks settle once while the database works: when every statement is
    executed and answered, the clock has four-digit years and the tables
    satisfy payment's invariant, a delivery for an active transaction that
    names no session or the one it stores moves the transaction to the status
    the gateway reports and queues exactly one report; a delivery for a
    transaction that is already settled changes nothing, unless it is a
    completion that arrives after the expiry. *)
Theorem webhook_settles (o : oracle payE) ctx ev t d L :
  faultless o → dated o → pay_inv d L → transactions d !! tx_ID t = Some t →
  wh_ReferenceID ev = tx_BookingID t → tx_BookingID t ≠ "" → for_session ev t →
  (∀ st, txn_active t = true → hook_status ev = Some st →
     ∃ d', exec o (HandleSessionWebhook ctx (Ok ev)) d = (d', Ok ()) ∧ reported t st d d') ∧
  (txn_active t = false →
     hook_status ev = Some "expired" ∨ hook_status ev = None ∨ tx_Status t = "completed" →
     exec o (HandleSessionWebhook ctx (Ok ev)) d = (d, Ok ())).
Proof.
  intros Hcalm Hdate HI Ht Href Hne Hses. split.
  - intros st Ha Hst. apply exec_ex. by eapply runs_webhook_settles.
  - intros Ha Hst. apply exec_eq. by eapply runs_webhook_ignored.
Qed.

Lemma webhook_settles_witness : ∃ L d', pay_inv processed_db L ∧
  exec (pay_oracle pay_time) (HandleSessionWebhook background
    (sample_hook "payment_session.completed")) processed_db = (d', Ok ()) ∧
  refund_requests d' = refund_requests processed_db.
Proof.
  destruct processed_inv as [L HL].
  destruct (webhook_settles (pay_oracle pay_time) background
    (mkSessionWebhook "payment_session.completed" "bk" "ps-mock-bk" "" "")
    (sample_txn "pending" "ps-mock-bk" "https://mock") processed_db L) as [Hs _].
  - done.
  - apply pay_dated. by vm_compute.
  - exact HL.
  - vm_compute. reflexivity.
  - reflexivity.
  - discriminate.
  - right. reflexivity.
  - destruct (Hs "completed" eq_refl eq_refl) as (d' & Hex & Hr).
    exists L, d'. split; [exact HL|]. split; [exact Hex|]. exact (rp_refunds _ _ _ _ Hr).
Defined.

(** ** Refunds *)

Definition refund_with_key (key : string) (d : PayDB) : Prop :=
  ∃ k r, refund_requests d !! k = Some r ∧ rf_IdempotencyKey r = key.

Lemma insert_refund_ensures r now d :
  refund_check r = true → is_Some (transactions d !! rf_TransactionID r) →
  refund_requests d !! rf_ID r = None →
  let '(d', a) := insert_refund r now d in
  a = Ok () ∧ refund_with_key (rf_IdempotencyKey r) d' ∧ transactions d' = transactions d ∧
  pay_outbox d' = pay_outbox d ∧
  ∀ k r', refund_requests d !! k = Some r' → refund_requests d' !! k = Some r'.
Proof.
  intros Hck Htx Hfree. unfold insert_refund. rewrite Hck. cbn [negb].
  case_bool_decide as Hkey; cbn [negb].
  - rewrite bool_decide_eq_false_2 by (rewrite Hfree; by intros []).
    rewrite bool_decide_eq_true_2 by done. split_and!; [done| |done|done|].
    + exists (rf_ID r), r. cbn. by rewrite lookup_insert_eq.
    + intros k r' Hk. cbn. rewrite lookup_insert_ne; [done|congruence].
  - split_and!; [done| |done|done|done].
    destruct (rows _ _) as [|r' l] eqn:Hr; [done|].
    assert (r' ∈ rows (same_key (rf_IdempotencyKey r)) (refund_requests d)) as (k & Hk & Hs)%elem_of_rows
      by (rewrite Hr; by left).
    unfold same_key in Hs. bool_cases. by exists k, r'.
Qed.

Section refunds.
Context (o : oracle payE) (Hcalm : faultless o).

Lemma runs_refund_status t st n d L Φ :
  pay_inv d L → transactions d !! tx_ID t = Some t →
  bool_decide (st ∈ ["none"; "pending"; "success"]) = true →
  (∀ n' now, Φ n' (set_transactions (<[tx_ID t := with_refund_status st now t]> (transactions d)) d)
     (Ok ())) →
  runs o (TransactionRepo_UpdateRefundStatus (tx_ID t) st) n d Φ.
Proof.
  intros HI Ht Hst HΦ. unfold TransactionRepo_UpdateRefundStatus.
  apply runs_bind, runs_sql_calm; [done|]. unfold update_txn. rewrite Ht.
  destruct (pi_txn _ _ HI _ _ Ht) as [_ Hck].
  assert (txn_check (with_refund_status st (o_now o n) t) = true) as ->.
  { unfold txn_check in Hck. apply andb_true_iff in Hck as [Hck _].
    apply andb_true_iff in Hck as [H1 H2]. unfold txn_check. cbn [with_refund_status tx_AmountRupiah tx_Status tx_RefundStatus].
    by rewrite H1, H2, Hst. }
  apply HΦ.
Qed.

Lemma refund_check_amount id t d L k :
  pay_inv d L → transactions d !! k = Some t →
  refund_check (late_refund id t) = true ∧ refund_check (cancelled_refund id t) = true.
Proof.
  intros HI Ht. destruct (pi_txn _ _ HI _ _ Ht) as [_ Hck]. unfold txn_check in Hck.
  apply andb_true_iff in Hck as [Hck _]. apply andb_true_iff in Hck as [H1 _].
  unfold refund_check. cbn [late_refund cancelled_refund rf_AmountRupiah rf_Status]. by rewrite H1.
Qed.

Lemma runs_late_refund ctx ev t d :
  (∀ n, refund_requests d !! o_uuid o n = None) →
  pay_inv d [] → transactions d !! tx_ID t = Some t → tx_Status t = "expired" →
  wh_ReferenceID ev = tx_BookingID t → tx_BookingID t ≠ "" → for_session ev t →
  hook_status ev = Some "completed" →
  runs o (HandleSessionWebhook ctx (Ok ev)) 0 d (λ _ d' r, r = Ok () ∧
    refund_with_key ("late-payment:" +:+ tx_ID t) d' ∧
    (∃ now, transactions d' = <[tx_ID t := with_refund_status "pending" now t]> (transactions d)) ∧
    pay_outbox d' = pay_outbox d).
Proof.
  intros Hfresh HI Ht Hst Href Hne Hses Hh. eapply runs_hook_txn; [done..|].
  rewrite Hh. unfold webhook_completed. apply runs_bind, runs_settle_late; [done|done| |].
  { unfold txn_active. by rewrite Hst. }
  intros n. rewrite bool_decide_eq_true_2 by done. apply runs_bind. unfold requestLatePaymentRefund.
  apply runs_bind, runs_uuid, runs_bind, runs_sql_calm; [done|].
  pose proof (insert_refund_ensures (late_refund (o_uuid o n) t) (o_now o (S n)) d) as Hins.
  pose proof (pay_inv_insert_refund (late_refund (o_uuid o n) t) t (o_now o (S n)) d [] Ht) as HI'.
  destruct (insert_refund _ _ d) as [d1 a].
  destruct Hins as (-> & Hkey & Htx & Hob & _);
    [apply (refund_check_amount (o_uuid o n) t d [] _ HI Ht)|by eexists|apply Hfresh|].
  cbn [fst snd] in *. apply runs_bind, (runs_refund_status _ _ _ _ []); [|by rewrite Htx|done|].
  { apply HI'; [|done]. unfold refund_for. cbn. auto. }
  intros n' now. apply runs_ret, runs_ret. split_and!; [done|exact Hkey| |exact Hob].
  exists now. cbn. by rewrite Htx.
Qed.
End refunds.

(** Money that arrives late is returned: a completion delivered for a
    transaction that has expired leaves it expired, makes sure a late-payment
    refund request exists for it and marks the refund as pending; no report is
    queued. *)
Theorem late_payment_refunded (o : oracle payE) ctx ev t d :
  faultless o → (∀ n, refund_requests d !! o_uuid o n = None) →
  pay_inv d [] → transactions d !! tx_ID t = Some t → tx_Status t = "expired" →
  wh_ReferenceID ev = tx_BookingID t → tx_BookingID t ≠ "" → for_session ev t →
  hook_status ev = Some "completed" →
  ∃ d', exec o (HandleSessionWebhook ctx (Ok ev)) d = (d', Ok ()) ∧
    refund_with_key ("late-payment:" +:+ tx_ID t) d' ∧
    (∃ now, transactions d' = <[tx_ID t := with_refund_status "pending" now t]> (transactions d)) ∧
    pay_outbox d' = pay_outbox d.
Proof. intros. apply exec_ex. by apply runs_late_refund. Qed.

(** A database with one transaction. *)
Definition single_db (t : Transaction) : PayDB := mkPayDB {[ "id-0" := t ]} ∅ (mkOutbox 0 []).

Lemma single_inv t : tx_ID t = "id-0" → txn_check t = true → pay_inv (single_db t) [].
Proof.
  intros Hid Hck. split; cbn; try done.
  - intros k u [<- <-]%lookup_singleton_Some. done.
  - by intros k1 k2 t1 t2 [<- <-]%lookup_singleton_Some [<- <-]%lookup_singleton_Some.
  - intros id. vm_compute. lia.
  - by intros r id s Hr%elem_of_nil.
  - by intros id s Hin%elem_of_nil.
Qed.

(** A transaction that expired before its payment. *)
Definition expired_txn : Transaction := sample_txn "expired" "ps-mock-bk" "https://mock".
Definition expired_db : PayDB := single_db expired_txn.

Lemma late_payment_refunded_witness : ∃ d',
  exec (pay_oracle pay_time) (HandleSessionWebhook background
    (sample_hook "payment_session.completed")) expired_db = (d', Ok ()) ∧
  refund_with_key "late-payment:id-0" d'.
Proof.
  destruct (late_payment_refunded (pay_oracle pay_time) background
    (mkSessionWebhook "payment_session.completed" "bk" "ps-mock-bk" "" "") expired_txn expired_db)
    as (d' & Hex & Hk & _).
  - done.
  - done.
  - apply single_inv; reflexivity.
  - reflexivity.
  - reflexivity.
  - reflexivity.
  - discriminate.
  - right. reflexivity.
  - reflexivity.
  - exists d'. split; [exact Hex|exact Hk].
Defined.

(** *** The interleaving that loses the refund

    The webhook reads the transaction before the poller expires it, and its
    own transition comes after. *)
Definition racing_db : PayDB :=
  (schedule (pay_oracle (pay_time + 1000 * Second)) ([0] ++ replicate 20 1 ++ replicate 20 0)%nat 0
     [discard (HandleSessionWebhook background (sample_hook "payment_session.completed"));
      expiryTick background] processed_db).2.

(** A payment can be kept without a booking or a refund: when the poller
    expires the transaction between the webhook's read and its transition, the
    completion is acknowledged, the transaction ends expired, its booking is
    told so, and no refund request is made, every statement succeeding. *)
Theorem late_payment_race :
  reachable (any_env payE) (payment_entry pay_service) processed_db racing_db ∧
  tx_Status <$> transactions racing_db !! "id-0" = Some "expired" ∧
  reports ∘ ob_Payload <$> outbox_rows (pay_outbox racing_db) = [Some ("id-0", "expired")] ∧
  refund_requests racing_db = ∅.
Proof.
  split; [|vm_compute; done].
  apply schedule_reachable; [by split|].
  repeat apply Forall_cons_2; [apply PE_webhook|apply PE_poll|constructor].
Qed.

(** ** The poller *)

(** [d'] is [d] with the transactions of [ts] expired and reported. *)
Record swept (ts : list Transaction) (d d' : PayDB) : Prop := {
  sw_in t : t ∈ ts → ∃ now, transactions d' !! tx_ID t =
    Some (with_status_ref StatusExpired (tx_ProviderRef t) now t);
  sw_out k : (∀ t, t ∈ ts → tx_ID t ≠ k) → transactions d' !! k = transactions d !! k;
  sw_reports : ∃ new, outbox_rows (pay_outbox d') = outbox_rows (pay_outbox d) ++ new ∧
    Forall2 (λ t, report_row t "expired") ts new;
  sw_refunds : refund_requests d' = refund_requests d;
}.

Section poller.
Context (o : oracle payE) (Hcalm : faultless o) (Hdate : dated o) (ctx : context).

(** One transaction of a pass. *)
Lemma runs_expireOne t n d Φ :
  pay_inv d [] → transactions d !! tx_ID t = Some t → txn_active t = true →
  (∀ n' d', reported t "expired" d d' → pay_inv d' [] → Φ n' d' ()) →
  runs o (expireOne ctx t) n d Φ.
Proof.
  intros HI Ht Ha HΦ. unfold expireOne.
  assert (∀ n, runs o (prog_bind (λ r, match r with
    | Err _ => Ret ()
    | Ok applied => if negb applied then Ret ()
        else now ← time_Now;
          _ ← outbox_Insert ctx "payment.expired" (tx_ID t)
                (expired_payload t "internal_expiry_fallback" now); Ret () end)
    (TransactionRepo_TransitionIfActive (tx_ID t) StatusExpired (tx_ProviderRef t))) n d Φ) as Hrest.
  { clear n. intros n. eapply runs_bind, runs_settle; [done|done|done|done|by right|]. intros n' now.
    cbn [negb]. apply runs_bind, runs_now, runs_bind, runs_Insert, runs_sql_calm; [apply Hdate|done|].
    apply runs_ret, HΦ.
    - split; [by eexists|done|]. eexists. split; [done|]. split; try done. apply Hdate.
    - eapply (pay_inv_publish _ [] (tx_ID t) "expired" (with_status_ref StatusExpired (tx_ProviderRef t) now t)).
      + apply pay_inv_settle; [done|done|done|by right|].
        destruct (pi_txn _ _ HI _ _ Ht) as [_ Hck]. by apply (txn_check_moved t); [| | |right].
      + apply lookup_insert_eq.
      + done.
      + done. }
  apply runs_bind. case_bool_decide; [apply runs_ret, Hrest|apply runs_call, Hrest].
Qed.

Lemma runs_expireLoop ts n d Φ :
  pay_inv d [] → NoDup (tx_ID <$> ts) →
  Forall (λ t, transactions d !! tx_ID t = Some t ∧ txn_active t = true) ts →
  (∀ n' d', swept ts d d' → Φ n' d' ()) → runs o (expireLoop ctx ts) n d Φ.
Proof.
  revert n d Φ. induction ts as [|t ts IH]; intros n d Φ HI Hnd Hts HΦ.
  { apply HΦ. split; try done; [by intros t ?%elem_of_nil|].
    exists []. by rewrite app_nil_r. }
  cbn in Hnd. apply NoDup_cons in Hnd as [Hni Hnd]. apply Forall_cons in Hts as [[Ht Ha] Hts].
  assert (∀ u, u ∈ ts → tx_ID u ≠ tx_ID t) as Hne.
  { intros u Hu Heq. apply Hni. rewrite <- Heq. by apply list_elem_of_fmap_2. }
  cbn [expireLoop]. apply runs_bind, runs_expireOne; [done..|].
  intros n1 d1 [[now Htx] Hrf (row & Hob & Hrep)] HI1. apply IH; [done|done| |].
  { apply Forall_forall. intros u Hu. rewrite Htx, lookup_insert_ne by (intros Heq; by apply (Hne u)).
    by eapply Forall_forall in Hts. }
  intros n' d' [Hin Hout (new & Hnew & Hrs) Hrf']. apply HΦ. split.
  - intros u [->|Hu]%elem_of_cons; [|by apply Hin].
    exists now. rewrite Hout, Htx, lookup_insert_eq by auto. done.
  - intros k Hk. rewrite Hout, Htx by (intros; apply Hk; by right).
    rewrite lookup_insert_ne; [done|]. apply Hk. by left.
  - exists (row :: new). rewrite Hnew, Hob, <- (assoc (++)). split; [done|].
    by constructor.
  - congruence.
Qed.
End poller.

(** The transactions a pass works on: the oldest [limit] overdue active ones. *)
Definition overdue_txns (now limit : Z) (d : PayDB) : list Transaction :=
  take (Z.to_nat limit) (order_by (λ t, default 0 (tx_ExpiresAt t))
    (rows (λ t, txn_active t && overdue now t) (transactions d))).

Lemma overdue_txns_spec now limit d L :
  pay_inv d L →
  NoDup (tx_ID <$> overdue_txns now limit d) ∧
  Forall (λ t, transactions d !! tx_ID t = Some t ∧ txn_active t = true) (overdue_txns now limit d) ∧
  ((length (rows (λ t, txn_active t && overdue now t) (transactions d)) ≤ Z.to_nat limit)%nat →
   ∀ k t, transactions d !! k = Some t → txn_active t = true → overdue now t = true →
     t ∈ overdue_txns now limit d).
Proof.
  intros HI. set (all := order_by (λ t, default 0 (tx_ExpiresAt t))
    (rows (λ t, txn_active t && overdue now t) (transactions d))).
  assert (∀ t, t ∈ all ↔ ∃ k, transactions d !! k = Some t ∧ txn_active t && overdue now t = true) as Hall.
  { intros t. unfold all. by rewrite elem_of_order_by, elem_of_rows. }
  split_and!.
  - assert ((tx_ID <$> overdue_txns now limit d) `sublist_of` (tx_ID <$> all)) as Hsub
      by (apply fmap_sublist, sublist_take).
    eapply sublist_NoDup; [|exact Hsub].
    unfold all. rewrite order_by_perm. apply rows_NoDup. intros k t Hk. by apply (pi_txn _ _ HI).
  - apply Forall_forall. intros t (i & Hi & _)%elem_of_take. apply list_elem_of_lookup_2 in Hi.
    apply Hall in Hi as (k & Hk & Ha). apply andb_true_iff in Ha as [Ha _].
    destruct (pi_txn _ _ HI k t Hk) as [-> _]. done.
  - intros Hlen k t Hk Ha Ho. unfold overdue_txns. fold all. rewrite take_ge.
    + apply Hall. exists k. by rewrite Ha, Ho.
    + unfold all. by rewrite order_by_perm.
Qed.

Lemma runs_ProcessExpired (o : oracle payE) ctx limit d Φ :
  faultless o → dated o → pay_inv d [] → 0 ≤ limit →
  (∀ n d', swept (overdue_txns (o_now o 0) limit d) d d' → Φ n d' (Ok ())) →
  runs o (ProcessExpired ctx limit) 0 d Φ.
Proof.
  intros Hcalm Hdate HI Hlim HΦ. destruct (overdue_txns_spec (o_now o 0) limit d [] HI) as (Hnd & Hin & _).
  unfold ProcessExpired. apply runs_bind, runs_now, runs_bind, runs_sql_calm; [done|].
  cbn [fst snd query]. rewrite bool_decide_eq_false_2 by lia.
  apply runs_bind, runs_expireLoop; [done..|]. intros n' d' Hsw. by apply runs_ret, HΦ.
Qed.

(** A pass of the expiry poller: every overdue active transaction among
    the oldest [limit] becomes expired and is reported once, whatever the
    gateway answers to the session's cancellation, and no other transaction
    changes; when [limit] covers them, no transaction overdue at the start of
    the pass is left active. *)
Theorem poll_expires (o : oracle payE) ctx limit d :
  faultless o → dated o → pay_inv d [] → 0 ≤ limit →
  ∃ d', exec o (ProcessExpired ctx limit) d = (d', Ok ()) ∧
    swept (overdue_txns (o_now o 0) limit d) d d' ∧
    ((length (rows (λ t, txn_active t && overdue (o_now o 0) t) (transactions d)) ≤ Z.to_nat limit)%nat →
     ∀ k t, transactions d !! k = Some t → txn_active t = true → overdue (o_now o 0) t = true →
       tx_Status <$> transactions d' !! k = Some "expired").
Proof.
  intros Hcalm Hdate HI Hlim.
  destruct (overdue_txns_spec (o_now o 0) limit d [] HI) as (Hnd & Hin & Hall).
  apply exec_ex, runs_ProcessExpired; [done..|]. intros n' d' Hsw.
  split_and!; [done|done|]. intros Hlen k t Hk Ha Ho.
  destruct (sw_in _ _ _ Hsw t (Hall Hlen k t Hk Ha Ho)) as [now Hd'].
  destruct (pi_txn _ _ HI k t Hk) as [<- _]. by rewrite Hd'.
Qed.

Lemma poll_expires_witness : ∃ d',
  exec (pay_oracle (pay_time + 1000 * Second)) (ProcessExpired background 100) initiated_db =
    (d', Ok ()) ∧
  tx_Status <$> transactions d' !! "id-0" = Some "expired".
Proof.
  destruct (poll_expires (pay_oracle (pay_time + 1000 * Second)) background 100 initiated_db)
    as (d' & Hex & _ & Hall).
  - done.
  - apply pay_dated. by vm_compute.
  - apply pay_inv_initiated.
  - lia.
  - exists d'. split; [exact Hex|]. apply (Hall ltac:(vm_compute; lia) "id-0" (sample_txn "initiated" "" "")).
    + vm_compute. reflexivity.
    + reflexivity.
    + reflexivity.
Defined.

(** ** Event cancellation *)

(** What a refund leaves alone of a transaction. *)
Definition txn_core (t : Transaction) := (txn_fixed t, tx_Status t).

(** [d'] is [d] with a refund requested for every completed transaction of [ts]. *)
Record refunded (ts : list Transaction) (d d' : PayDB) : Prop := {
  re_in t : t ∈ ts → tx_Status t = StatusCompleted →
    refund_with_key ("event-cancelled:" +:+ tx_ID t) d';
  re_kept k r : refund_requests d !! k = Some r → refund_requests d' !! k = Some r;
  re_core k : txn_core <$> transactions d' !! k = txn_core <$> transactions d !! k;
  re_outbox : pay_outbox d' = pay_outbox d;
}.

Section event_cancelled.
Context (o : oracle payE) (Hcalm : faultless o) (Huuid : Inj (=) (=) (o_uuid o)).

(** Ids the oracle has yet to give out are unused. *)
Definition ids_fresh (n : nat) (d : PayDB) : Prop :=
  ∀ m, (n ≤ m)%nat → refund_requests d !! o_uuid o m = None.

Lemma insert_refund_fresh r now n d :
  ids_fresh n d → rf_ID r = o_uuid o n → ids_fresh (S n) (insert_refund r now d).1.
Proof using Huuid.
  intros Hf Hid m Hm. unfold insert_refund. repeat case_match; cbn; try (apply Hf; lia).
  rewrite lookup_insert_ne; [apply Hf; lia|]. rewrite Hid. intros Heq%Huuid. lia.
Qed.

(** The refund of one completed transaction. *)
Lemma runs_refund_one t n d (p : pprog (res unit)) Φ :
  pay_inv d [] → transactions d !! tx_ID t = Some t → tx_Status t = StatusCompleted →
  ids_fresh n d →
  (∀ n' d', (n ≤ n')%nat → refund_with_key ("event-cancelled:" +:+ tx_ID t) d' →
     (∀ k r, refund_requests d !! k = Some r → refund_requests d' !! k = Some r) →
     (∃ now, transactions d' = <[tx_ID t := with_refund_status "pending" now t]> (transactions d)) →
     pay_outbox d' = pay_outbox d → pay_inv d' [] → ids_fresh n' d' → runs o p n' d' Φ) →
  runs o (id ← uuid_NewString;
          _ ←? RefundRepo_Create (cancelled_refund id t);
          _ ←? TransactionRepo_UpdateRefundStatus (tx_ID t) "pending"; p) n d Φ.
Proof using Hcalm Huuid.
  intros HI Ht Hst Hf Hp. apply runs_bind, runs_uuid, runs_bind, runs_sql_calm; [done|].
  pose proof (insert_refund_ensures (cancelled_refund (o_uuid o n) t) (o_now o (S n)) d) as Hins.
  pose proof (pay_inv_insert_refund (cancelled_refund (o_uuid o n) t) t (o_now o (S n)) d [] Ht) as HI'.
  pose proof (insert_refund_fresh (cancelled_refund (o_uuid o n) t) (o_now o (S n)) n d Hf eq_refl) as Hf'.
  destruct (insert_refund _ _ d) as [d1 a].
  destruct Hins as (-> & Hkey & Htx & Hob & Hkept);
    [apply (refund_check_amount (o_uuid o n) t d [] _ HI Ht)|by eexists|by apply Hf|].
  cbn [fst snd] in *. assert (pay_inv d1 []) as HI1.
  { apply HI'; [|done]. unfold refund_for. cbn. auto. }
  apply runs_bind. unfold TransactionRepo_UpdateRefundStatus.
  apply runs_bind, runs_sql_calm; [done|].
  assert (transactions d1 !! tx_ID t = Some t) as Ht1 by (by rewrite Htx).
  pose proof (neutral_refund_status (tx_ID t) "pending" (o_now o (S (S n))) d1) as [_ HI2].
  specialize (HI2 [] HI1). unfold update_txn in *. rewrite Ht1 in *.
  destruct (txn_check _) eqn:Hck.
  - cbn [fst snd] in *. apply runs_ret, Hp; [lia|exact Hkey|exact Hkept| |exact Hob|exact HI2|].
    + exists (o_now o (S (S n))). cbn. by rewrite Htx.
    + intros m Hm. apply Hf'. lia.
  - exfalso. destruct (pi_txn _ _ HI1 _ _ Ht1) as [_ Hc]. unfold txn_check in *.
    apply andb_true_iff in Hc as [Hc _]. apply andb_true_iff in Hc as [H1 H2].
    cbn [with_refund_status tx_AmountRupiah tx_Status tx_RefundStatus] in Hck. by rewrite H1, H2 in Hck.
Qed.

Lemma runs_refundLoop ts n d Φ :
  pay_inv d [] → NoDup (tx_ID <$> ts) →
  Forall (λ t, transactions d !! tx_ID t = Some t) ts → ids_fresh n d →
  (∀ n' d', refunded ts d d' → pay_inv d' [] → Φ n' d' (Ok ())) → runs o (refundLoop ts) n d Φ.
Proof using Hcalm Huuid.
  revert n d Φ. induction ts as [|t ts IH]; intros n d Φ HI Hnd Hts Hf HΦ.
  { apply HΦ; [|done]. split; try done. by intros t ?%elem_of_nil. }
  cbn in Hnd. apply NoDup_cons in Hnd as [Hni Hnd]. apply Forall_cons in Hts as [Ht Hts].
  cbn [refundLoop]. case_bool_decide as Hst.
  2:{ apply IH; [done..|]. intros n' d' [Hin Hk Hs Ho] HI'. apply HΦ; [|done]. split; [|done..].
      intros u [->|Hu]%elem_of_cons Hu'; [done|by apply Hin]. }
  apply runs_refund_one; [done..|]. intros n1 d1 Hn1 Hkey Hkept [now Htx] Hob HI1 Hf1.
  apply IH; [done|done| |done|].
  { apply Forall_forall. intros u Hu. rewrite Htx, lookup_insert_ne.
    - by eapply Forall_forall in Hts.
    - intros Heq. apply Hni. rewrite Heq. by apply list_elem_of_fmap_2. }
  intros n' d' [Hin Hk Hs Ho] HI'. apply HΦ; [|done]. split.
  - intros u [->|Hu]%elem_of_cons Hu'; [|by apply Hin].
    destruct Hkey as (k & r & Hr & Hrk). exists k, r. auto.
  - auto.
  - intros k. rewrite Hs, Htx. destruct (decide (tx_ID t = k)) as [<-|Hne].
    + by rewrite lookup_insert_eq, Ht.
    + by rewrite lookup_insert_ne.
  - congruence.
Qed.

(** [d'] is [d] with the completed transactions of the event refunded. *)
Record event_refunded (ev : string) (d d' : PayDB) : Prop := {
  er_in k t : transactions d !! k = Some t → tx_EventID t = ev → tx_Status t = StatusCompleted →
    refund_with_key ("event-cancelled:" +:+ k) d';
  er_kept k r : refund_requests d !! k = Some r → refund_requests d' !! k = Some r;
  er_core k : txn_core <$> transactions d' !! k = txn_core <$> transactions d !! k;
}.

Lemma runs_HandleEventCancelled ev d Φ :
  ids_fresh 0 d → pay_inv d [] →
  (∀ n d', event_refunded ev d d' → pay_inv d' [] → Φ n d' (Ok ())) →
  runs o (HandleEventCancelled ev) 0 d Φ.
Proof using Hcalm Huuid.
  intros Hf HI HΦ. unfold HandleEventCancelled.
  apply runs_bind, runs_sql_calm; [done|]. cbn [fst snd query].
  set (ts := order_by_desc tx_CreatedAt (rows (λ t, bool_decide (tx_EventID t = ev)) (transactions d))).
  assert (∀ t, t ∈ ts ↔ ∃ k, transactions d !! k = Some t ∧ bool_decide (tx_EventID t = ev) = true) as Hts.
  { intros t. unfold ts, order_by_desc. by rewrite elem_of_order_by, elem_of_rows. }
  apply runs_refundLoop; [done| | |by intros m _; apply Hf; lia|].
  - unfold ts, order_by_desc. rewrite order_by_perm. apply rows_NoDup.
    intros k t Hk. by apply (pi_txn _ _ HI).
  - apply Forall_forall. intros t (k & Hk & _)%Hts. by destruct (pi_txn _ _ HI k t Hk) as [-> _].
  - intros n' d' [Hin Hkept Hs _] HI'. apply HΦ; [|done]. split; [|done..].
    intros k t Hk He Hst. destruct (pi_txn _ _ HI k t Hk) as [<- _]. apply Hin; [|done].
    apply Hts. exists (tx_ID t). by rewrite bool_decide_eq_true_2.
Qed.
End event_cancelled.

(** A cancelled event is refunded: after the handler of [event.cancelled]
    every completed transaction of the event has a refund request, refund
    requests that existed are untouched, and no transaction changes status. *)
Theorem cancellation_refunds (o : oracle payE) ev d :
  faultless o → Inj (=) (=) (o_uuid o) → ids_fresh o 0 d → pay_inv d [] →
  ∃ d', exec o (HandleEventCancelled ev) d = (d', Ok ()) ∧
    (∀ k t, transactions d !! k = Some t → tx_EventID t = ev → tx_Status t = StatusCompleted →
       refund_with_key ("event-cancelled:" +:+ k) d') ∧
    (∀ k r, refund_requests d !! k = Some r → refund_requests d' !! k = Some r) ∧
    (∀ k, tx_Status <$> transactions d' !! k = tx_Status <$> transactions d !! k).
Proof.
  intros Hcalm Huuid Hf HI. apply exec_ex. apply runs_HandleEventCancelled; [done..|].
  intros n d' [Hin Hk Hs] _. split_and!; [done..|]. intros k.
  specialize (Hs k). apply (f_equal (fmap snd)) in Hs. by rewrite <- !option_fmap_compose in Hs.
Qed.

Lemma cancellation_refunds_witness : ∃ d',
  exec (pay_oracle pay_time) (HandleEventCancelled "ev")
    (single_db (sample_txn "completed" "ps-mock-bk" "")) = (d', Ok ()) ∧
  refund_with_key "event-cancelled:id-0" d'.
Proof.
  destruct (cancellation_refunds (pay_oracle pay_time) "ev"
    (single_db (sample_txn "completed" "ps-mock-bk" ""))) as (d' & Hex & Hr & _).
  - done.
  - intros n m Heq. unfold pay_oracle, calm, calm_uuid in Heq. cbn in Heq. by simplify_eq.
  - intros m _. reflexivity.
  - apply single_inv; reflexivity.
  - exists d'. split; [exact Hex|]. by apply (Hr "id-0" (sample_txn "completed" "ps-mock-bk" "")).
Defined.
