(* ===== verification/Rows.v ===== *)
(** * Reading the rows of a query

    The statements of [TicketDB], [PayDB] and [Outbox] answer a query with all
    its rows or with an error.  pgx hands rows over one at a time and reports an
    error that ends them early through [rows.Err], which only some of the loops
    of the repositories ask for.  Here are the loops themselves over what pgx
    hands them: they give the answers of those files when the rows end without
    an error, and what they give when the rows are cut short is why that matters. *)
From S2P Require Import Prelude Effects Dto Outbox TicketDB TicketSamples Transactions ReserveSpec PayDB.

(** What [pgx.Rows] yields: the outcome of [Scan] on every row up to the end or
    the first failure of the connection, and [rows.Err]. *)
Record Rows (A : Type) := mkRows { rows_Scans : list (res A); rows_Err : option error }.
Arguments mkRows {A}.
Arguments rows_Scans {A}.
Arguments rows_Err {A}.

(** The rows [l], all of them or the first [n]. *)
Definition in_full {A} (l : list A) : Rows A := mkRows (Ok <$> l) None.
Definition cut_short {A} (n : nat) (e : error) (l : list A) : Rows A := mkRows (Ok <$> take n l) (Some e).

(** [for rows.Next()], leaving at the first row that does not scan. *)
Fixpoint next_rows {A B} (f : B → A → B) (scans : list (res A)) (b : B) : res B :=
  match scans with
  | [] => Ok b
  | Ok a :: scans => next_rows f scans (f b a)
  | Err e :: _ => Err e
  end.

(** [append(l, x)]. *)
Definition append {A} (l : list A) (a : A) : list A := l ++ [a].

(** [return b, rows.Err()]. *)
Definition checked {A B} (rows : Rows A) (r : res B) : res B :=
  match r, rows_Err rows with
  | Ok _, Some e => Err e
  | _, _ => r
  end.

(** [transaction_repo.go] *)
Definition collectTxns (rows : Rows Transaction) : res (list Transaction) :=
  next_rows append (rows_Scans rows) [].

(** [event_repo.go]: the loops of the event lists, and of the ticket types. *)
Definition collect_events (rows : Rows Event) : res (list Event) := next_rows append (rows_Scans rows) [].
Definition collect_ticket_types (rows : Rows TicketType) : res (list TicketType) :=
  next_rows append (rows_Scans rows) [].

(** [booking_repo.go]: the items of one booking, in [FindByID] and in the lists,
    and in [loadItems], which none of them calls; the bookings of a list. *)
Definition FindByID_items (rows : Rows itemRow) (b : Booking) : res Booking :=
  next_rows append_item (rows_Scans rows) b.
Definition loadItems (rows : Rows itemRow) (b : Booking) : res Booking := checked rows (FindByID_items rows b).
Definition collect_bookings (rows : Rows bookingRow) : res (list Booking) :=
  checked rows (next_rows (λ l r, append l (scan_booking r)) (rows_Scans rows) []).

(** [worker.go]: a row that does not scan is skipped. *)
Fixpoint batch_rows {A} (scans : list (res A)) (batch : list A) : list A :=
  match scans with
  | [] => batch
  | Ok r :: scans => batch_rows scans (append batch r)
  | Err _ :: scans => batch_rows scans batch
  end.
Definition collect_batch (rows : Rows outboxRow) : list outboxRow := batch_rows (rows_Scans rows) [].

(** ** What the loops give *)

Lemma next_rows_Ok {A B} (f : B → A → B) l b : next_rows f (Ok <$> l) b = Ok (foldl f b l).
Proof. revert b. induction l as [|a l IH]; intros b; [done|apply IH]. Qed.

Lemma foldl_append {A B} (g : A → B) l acc : foldl (λ l r, append l (g r)) acc l = acc ++ (g <$> l).
Proof.
  revert acc. induction l as [|a l IH]; intros acc; cbn; [by rewrite app_nil_r|].
  unfold append at 2. rewrite IH. by rewrite <- app_assoc.
Qed.

Lemma collect_Ok {A} (l : list A) : next_rows append (Ok <$> l) [] = Ok l.
Proof. rewrite next_rows_Ok, (foldl_append id). cbn. by rewrite list_fmap_id. Qed.

Lemma batch_rows_fault {A} l e (l' : list A) acc :
  batch_rows ((Ok <$> l) ++ Err e :: (Ok <$> l')) acc = acc ++ l ++ l'.
Proof.
  assert (∀ (l : list A) acc scans, batch_rows ((Ok <$> l) ++ scans) acc = batch_rows scans (acc ++ l)) as Happ.
  { clear. induction l as [|a l IH]; intros acc scans; cbn; [by rewrite app_nil_r|].
    rewrite IH. unfold append. by rewrite <- app_assoc. }
  rewrite Happ. cbn. rewrite <- (app_nil_r (Ok <$> l')), Happ. cbn. by rewrite <- app_assoc.
Qed.

(** Rows that are read to the end are what the statements of the model answer. *)
Theorem read_in_full (row : bookingRow) its txns evs types bks batch :
  FindByID_items (in_full its) (scan_booking row) = Ok (loaded row its) ∧
  loadItems (in_full its) (scan_booking row) = Ok (loaded row its) ∧
  collectTxns (in_full txns) = Ok txns ∧ collect_events (in_full evs) = Ok evs ∧
  collect_ticket_types (in_full types) = Ok types ∧
  collect_bookings (in_full bks) = Ok (scan_booking <$> bks) ∧
  collect_batch (in_full batch) = batch.
Proof.
  unfold loadItems, FindByID_items, collect_bookings, collectTxns, collect_events, collect_ticket_types,
    collect_batch, checked, in_full; cbn. rewrite !collect_Ok, !next_rows_Ok, foldl_append.
  split_and!; [done..|]. pose proof (batch_rows_fault batch NoRows [] []) as Hb. cbn in Hb.
  rewrite app_nil_r in Hb. rewrite <- Hb at 2. clear. revert batch. 
  assert (∀ (l : list outboxRow) acc, batch_rows (Ok <$> l) acc = batch_rows ((Ok <$> l) ++ [Err NoRows]) acc) as H.
  { induction l as [|a l IH]; intros acc; [done|apply IH]. }
  intros batch. apply H.
Qed.

(** A loop that asks for [rows.Err] gives an error rather than some of the rows. *)
Theorem checked_all_or_nothing n e its b bks :
  loadItems (cut_short n e its) b = Err e ∧ collect_bookings (cut_short n e bks) = Err e.
Proof. unfold loadItems, FindByID_items, collect_bookings, checked, cut_short; cbn. by rewrite !next_rows_Ok. Qed.

Lemma FindByID_cut n e its row : FindByID_items (cut_short n e its) (scan_booking row) = Ok (loaded row (take n its)).
Proof. unfold FindByID_items, cut_short; cbn. apply next_rows_Ok. Qed.

(** ** The seats of the rows that were not read *)

Lemma release_items_elsewhere its d d' ty :
  release_items its d = Ok d' → Forall (λ i, bi_TicketTypeID i ≠ ty) its →
  ticket_types d' !! ty = ticket_types d !! ty ∧ bookings d' = bookings d.
Proof.
  intros Hd Hits. revert d Hd. induction Hits as [|i its Hi Hits IH]; intros d; cbn; [by intros [= <-]|].
  destruct (release_seats _ _ d) as [[d1 n]|e] eqn:Hr; [|done]. intros [-> ->]%IH.
  unfold release_seats in Hr. destruct (ticket_types d !! bi_TicketTypeID i) as [tt|] eqn:Htt; [|by case_bool_decide; simplify_eq].
  destruct (_ && _); [|done]. unfold update_ticket_type in Hr. rewrite Htt in Hr. cbn in Hr.
  repeat case_match; simplify_eq; cbn; [by rewrite lookup_insert_ne|done..].
Qed.

(** [FindByID] does not ask: when the items of a booking are cut short, the
    booking that its expiry, its cancellation or its confirmation works on has
    only the items read so far, and the transition commits without giving back a
    seat of the others, which no later transition will. *)
Theorem cut_short_keeps_seats d b row n e to ty booking t d' :
  bookings d !! b = Some row → br_id row = b →
  Forall (λ i, ir_ticket_type_id i ≠ ty) (take n (items_of b d)) →
  FindByID_items (cut_short n e (items_of b d)) (scan_booking row) = Ok booking →
  transition_and_release booking to t d = (d', Ok true) →
  br_status <$> bookings d' !! b = Some to ∧ ticket_types d' !! ty = ticket_types d !! ty.
Proof.
  rewrite FindByID_cut. intros Hrow Hid Hits [= <-].
  rewrite loaded_fields. unfold transition_and_release; cbn. rewrite Hid.
  unfold update_booking_status. rewrite Hrow. case_bool_decide; [|by case_bool_decide].
  destruct (booking_check _); [|done]. cbn. destruct (release_items _ _) as [d1|e1] eqn:Hr; [|done].
  intros [= <-]. apply (release_items_elsewhere _ _ _ ty) in Hr as [-> ->].
  - cbn. split; [by rewrite lookup_insert_eq|done].
  - apply Forall_fmap. eapply Forall_impl; [exact Hits|]. by intros i.
Qed.

(** The booking "b1" holds a seat of each of two types, and its second item is lost. *)
Lemma cut_short_keeps_seats_witness : ∃ booking d',
  FindByID_items (cut_short 1 (PgError "57014") (items_of "b1" crossing_db)) (scan_booking (pending_row "b1")) = Ok booking ∧
  transition_and_release booking "expired" sample_time crossing_db = (d', Ok true) ∧
  br_status <$> bookings d' !! "b1" = Some "expired" ∧
  ticket_types d' !! "reg" = ticket_types crossing_db !! "reg" ∧
  tt_Available <$> ticket_types crossing_db !! "reg" = Some 1.
Proof.
  pose (r := FindByID_items (cut_short 1 (PgError "57014") (items_of "b1" crossing_db)) (scan_booking (pending_row "b1"))).
  destruct r as [booking|] eqn:Hb; [|discriminate Hb].
  destruct (transition_and_release booking "expired" sample_time crossing_db) as [d' a] eqn:Ht.
  assert (a = Ok true) as -> by (vm_compute in Hb; injection Hb as <-; vm_compute in Ht; congruence).
  exists booking, d'. split; [exact Hb|]. split; [exact Ht|].
  destruct (cut_short_keeps_seats crossing_db "b1" (pending_row "b1") 1 (PgError "57014") "expired" "reg"
    booking sample_time d') as [Hs Hk]; [reflexivity..| |exact Hb|exact Ht|].
  - apply (bool_decide_unpack _). vm_compute. exact I.
  - split_and!; [exact Hs|exact Hk|vm_compute; reflexivity].
Defined.
