(* ===== verification/Gateway.v ===== *)
(** * The payment gateways: [service/payment/internal/processor]

    The two implementations of [domain.PaymentProcessor]: [MockProcessor],
    which keeps sessions in memory, and [XenditProcessor], which calls the
    Payment Sessions API over HTTP.  The programs of the payment service run
    over either: [run_with] answers their calls from the mock's map, and
    [xendit_prog] replaces each call by the requests Xendit gets, recorded in
    the order they are sent. *)
From S2P Require Import Prelude Effects TimeText Json Sha256 Dto Outbox PayDB Payment PaymentSafety PaymentSpec.

(** ** [MockProcessor] *)

Abbreviation MockProcessor := (gmap string SessionResult).

Definition NewMockProcessor : MockProcessor := ∅.

Definition mock_session (refID : string) (expiresAt : Z) : SessionResult :=
  mkSessionResult ("ps-mock-" +:+ refID) ("https://mock.checkout/" +:+ refID) expiresAt.

Definition Mock_CreateSession (refID : string) (expiresAt : Z) (p : MockProcessor) :
    MockProcessor * res SessionResult :=
  let result := mock_session refID expiresAt in
  (<[sr_ProviderRef result := result]> p, Ok result).

Definition Mock_CancelSession (providerRef : string) (p : MockProcessor) :
    MockProcessor * res unit := (p, Ok ()).

Definition Mock_GetSession (providerRef : string) (p : MockProcessor) :
    MockProcessor * res SessionResult :=
  (p, match p !! providerRef with
      | None => Err (Plain ("mock session " +:+ providerRef +:+ " not found"))
      | Some result => Ok result
      end).

Definition mock_handle {B} (x : payE B) : MockProcessor → MockProcessor * B :=
  match x in payE B return MockProcessor → MockProcessor * B with
  | CreateSession refID _ _ expiresAt _ _ => Mock_CreateSession refID expiresAt
  | CancelSession ref => Mock_CancelSession ref
  | GetSession ref => Mock_GetSession ref
  end.

(** ** [XenditProcessor] *)

(** *** HTTP

    A request, and what [httpClient.Do] and reading the body make of it: a
    status and the bytes, with the JSON they hold, or an error. *)
Record httpRequest := mkHttpRequest {
  hq_Method : string;
  hq_URL : string;
  hq_Header : list (string * string);
  hq_Body : option json;
}.
Record httpBody := mkHttpBody { hb_text : string; hb_json : option json }.

Inductive xenditE : Type → Type :=
  | Do (req : httpRequest) : xenditE (res (Z * res httpBody)).
Abbreviation xprog := (prog xenditE).

Example basic_auth :
  Base64.StdEncodeToString (bytes_of "Aladdin:open sesame") = "QWxhZGRpbjpvcGVuIHNlc2FtZQ==".
Proof. vm_compute. reflexivity. Qed.

(** *** The session API *)

Record xenditCustomer := mkXenditCustomer {
  xc_ReferenceID : string;
  xc_Type : string;
  xc_Email : string;
  xc_GivenNames : string;
  xc_Surname : string;
}.
Record xenditSessionRequest := mkXenditSessionRequest {
  xr_ReferenceID : string;
  xr_SessionType : string;
  xr_Mode : string;
  xr_Amount : Z;
  xr_Currency : string;
  xr_Country : string;
  xr_Customer : xenditCustomer;
  xr_ExpiresAt : string;
  xr_MerchantMetadata : list (string * string);
}.
Record xenditSessionResponse := mkXenditSessionResponse {
  xs_PaymentSessionID : string;
  xs_ReferenceID : string;
  xs_Status : string;
  xs_CheckoutURL : string;
  xs_PaymentLinkURL : string;
  xs_ExpiresAt : string;
}.

(** A field tagged [omitempty]. *)
Definition omitempty (k v : string) : list (string * json) :=
  if bool_decide (v = "") then [] else [(k, str_json v)].

Definition encode_customer (c : xenditCustomer) : json := JObj (
  [("reference_id", str_json (xc_ReferenceID c)); ("type", str_json (xc_Type c))] ++
  omitempty "email" (xc_Email c) ++
  [("individual_detail", JObj [("given_names", str_json (xc_GivenNames c));
                               ("surname", str_json (xc_Surname c))])]).
Definition encode_session (r : xenditSessionRequest) : json := JObj (
  [("reference_id", str_json (xr_ReferenceID r)); ("session_type", str_json (xr_SessionType r));
   ("mode", str_json (xr_Mode r)); ("amount", JNum (xr_Amount r));
   ("currency", str_json (xr_Currency r)); ("country", str_json (xr_Country r));
   ("customer", encode_customer (xr_Customer r))] ++
  omitempty "expires_at" (xr_ExpiresAt r) ++
  match xr_MerchantMetadata r with
  | [] => []
  | md => [("merchant_metadata", JObj ((λ kv, (kv.1, str_json kv.2)) <$> md))]
  end).

Definition decode_session : json → res xenditSessionResponse :=
  dec_struct (λ o,
    id ←! string_field "payment_session_id" o; ref ←! string_field "reference_id" o;
    status ←! string_field "status" o; checkout ←! string_field "checkout_url" o;
    link ←! string_field "payment_link_url" o; expires ←! string_field "expires_at" o;
    Ok (mkXenditSessionResponse id ref status checkout link expires)).

Fixpoint firstNonEmpty (values : list string) : string :=
  match values with
  | [] => ""
  | v :: values => if bool_decide (v = "") then firstNonEmpty values else v
  end.

Definition toResult (out : xenditSessionResponse) (fallbackExpiry : Z) : SessionResult :=
  let expiresAt :=
    if bool_decide (xs_ExpiresAt out = "") then fallbackExpiry
    else default fallbackExpiry (ParseRFC3339 (xs_ExpiresAt out)) in
  mkSessionResult (xs_PaymentSessionID out)
    (firstNonEmpty [xs_CheckoutURL out; xs_PaymentLinkURL out]) expiresAt.

Record XenditProcessor := mkXenditProcessor { xp_baseURL : string; xp_apiKey : string }.
Definition NewXenditProcessor (baseURL apiKey : string) : XenditProcessor :=
  mkXenditProcessor (trim_slash baseURL) apiKey.

Section xendit.
(** [url_ok]: whether net/url accepts a URL. *)
Context (url_ok : string → bool) (p : XenditProcessor).

Definition http_headers (idempotencyKey : string) : list (string * string) :=
  [("Content-Type", "application/json"); ("Accept", "application/json");
   ("Authorization", "Basic " +:+ Base64.StdEncodeToString (bytes_of (xp_apiKey p +:+ ":")))] ++
  (if bool_decide (idempotencyKey = "") then [] else [("Idempotency-Key", idempotencyKey)]).

Definition doRaw (method path idempotencyKey : string) (body : option json) :
    xprog (res httpBody) :=
  if negb (url_ok (xp_baseURL p +:+ path))
  then Ret (Err (Wrapped "xendit: new request: " (Plain "invalid URL") ""))
  else
    r ← Vis (Do (mkHttpRequest method (xp_baseURL p +:+ path) (http_headers idempotencyKey) body))
          Ret;
    Ret match r with
        | Err e => Err (Wrapped "xendit: request failed: " e "")
        | Ok (_, Err e) => Err (Wrapped "xendit: read response: " e "")
        | Ok (code, Ok data) =>
            if bool_decide (300 ≤ code)
            then Err (Plain ("xendit: " +:+ method +:+ " " +:+ path +:+ " -> " +:+ pretty code +:+
                             ": " +:+ hb_text data))
            else Ok data
        end.

Definition do_ (method path idempotencyKey : string) (body : option json) :
    xprog (res xenditSessionResponse) :=
  data ←? doRaw method path idempotencyKey body;
  match Decode decode_session (hb_json data) with
  | Err e => Ret (Err (Wrapped "xendit: failed to decode response: " e ""))
  | Ok out => Ret (Ok out)
  end.

Definition session_request (refID : string) (amountRupiah : Z) (currency : string)
    (expiresAt : Z) (email : string) : xenditSessionRequest :=
  let givenNames := before_at email in
  let givenNames := if bool_decide (givenNames = "") then "Customer" else givenNames in
  mkXenditSessionRequest refID "PAY" "PAYMENT_LINK" (wrap64 amountRupiah) currency "ID"
    (mkXenditCustomer refID "INDIVIDUAL" email givenNames "-")
    (FormatRFC3339 expiresAt) [("booking_id", refID)].

Definition Xendit_CreateSession (refID : string) (amountRupiah : Z) (currency : string)
    (expiresAt : Z) (allowedChannels : list string) (email : string) :
    xprog (res SessionResult) :=
  out ←? do_ "POST" "/sessions" refID
           (Some (encode_session (session_request refID amountRupiah currency expiresAt email)));
  Ret (Ok (toResult out expiresAt)).

Definition Xendit_CancelSession (providerRef : string) : xprog (res unit) :=
  _ ←? doRaw "POST" ("/sessions/" +:+ providerRef +:+ "/cancel") "" None;
  Ret (Ok ()).

Definition Xendit_GetSession (providerRef : string) : xprog (res SessionResult) :=
  out ←? do_ "GET" ("/sessions/" +:+ providerRef) "" None;
  let expiresAt :=
    if bool_decide (xs_ExpiresAt out = "") then zero_time
    else default zero_time (ParseRFC3339 (xs_ExpiresAt out)) in
  Ret (Ok (toResult out expiresAt)).

Definition xendit_handle {B} (x : payE B) : xprog B :=
  match x in payE B return xprog B with
  | CreateSession refID amount currency expiresAt channels email =>
      Xendit_CreateSession refID amount currency expiresAt channels email
  | CancelSession ref => Xendit_CancelSession ref
  | GetSession ref => Xendit_GetSession ref
  end.
End xendit.

(** ** The payment service over the mock *)

Section run_with.
Context {D S : Type} {X : Type → Type} (o : oracle X) (h : ∀ B, X B → S → S * B).

(** [run], with the calls answered from a state of the callee. *)
Fixpoint run_with {A} (p : prog (eff D X) A) (n : nat) (d : D) (s : S) : nat * D * S * A :=
  match p with
  | Ret a => (n, d, s, a)
  | @Vis _ _ Y e k =>
      match e in eff _ _ Y' return (Y' → prog (eff D X) A) → nat * D * S * A with
      | Ext x => λ k, let '(s', b) := h _ x s in run_with (k b) (Datatypes.S n) d s'
      | e => λ k, let '(d', b) := eff_run o e n d in run_with (k b) (Datatypes.S n) d' s
      end k
  end.
End run_with.

(** No call at all; no [GetSession]. *)
Abbreviation silent := (calls (λ (B : Type) (_ : payE B), False)).
Definition no_get : ∀ B, payE B → Prop := λ _ x, if x is GetSession _ then False else True.

(** The service never reads a session back. *)
Lemma payment_entry_no_get s p : payment_entry s p → calls no_get p.
Proof.
  destruct 1; unfold_payment; calls_solve; first [by apply calls_expireLoop|apply calls_refundLoop].
Qed.

(** The answers of the mock do not depend on its state, [GetSession] apart. *)
Definition mock_answer : ∀ B, payE B → B := λ _ x,
  match x in payE B return B with
  | CreateSession refID _ _ expiresAt _ _ => Ok (mock_session refID expiresAt)
  | CancelSession _ => Ok ()
  | GetSession ref => Err (Plain ("mock session " +:+ ref +:+ " not found"))
  end.
Definition with_gateway (o : oracle payE) (f : ∀ B, payE B → B) : oracle payE :=
  {| o_now := o_now o; o_uuid := o_uuid o; o_fault := o_fault o; o_ext := λ _, f |}.

Lemma mock_handle_answer {B} (x : payE B) m :
  no_get B x → (mock_handle x m).2 = mock_answer B x ∧
    ∀ ref, is_Some (m !! ref) → is_Some ((mock_handle x m).1 !! ref).
Proof.
  destruct x; cbn; intros Hx; [|done|done]. split; [done|]. intros r Hr.
  apply lookup_insert_is_Some'. auto.
Qed.

Lemma run_with_mock {A} (o : oracle payE) (p : pprog A) n d m :
  calls no_get p →
  ∃ m', run_with o (@mock_handle) p n d m =
    (let '(n', d', a) := run (with_gateway o mock_answer) p n d in (n', d', m', a)) ∧
    ∀ ref, is_Some (m !! ref) → is_Some (m' !! ref).
Proof.
  revert n d m. induction p as [a|Y e k IH]; intros n d m Hp; [by exists m|].
  destruct Hp as [He Hk]. destruct e as [B f| | |B x]; cbn -[mock_handle].
  - destruct (sql_outcome f (o_now o n) (o_fault o n) d) as [d' r]. by apply IH.
  - by apply IH.
  - by apply IH.
  - destruct (mock_handle_answer x m He) as [Ha Hm].
    destruct (mock_handle x m) as [m1 b]. cbn in Ha, Hm. subst b.
    destruct (IH (mock_answer B x) (S n) d m1 (Hk _)) as (m' & Hrun & Hkept).
    exists m'. split; [exact Hrun|]. auto.
Qed.

(** A payment instance over the in-memory [MockProcessor] does to the database
    what it does over a gateway that answers from a fixed function. *)
Theorem mock_answers_run s p (o : oracle payE) n d m :
  payment_entry s p →
  ∃ m', run_with o (@mock_handle) p n d m =
    (let '(n', d', a) := run (with_gateway o mock_answer) p n d in (n', d', m', a)) ∧
    ∀ ref, is_Some (m !! ref) → is_Some (m' !! ref).
Proof. intros Hp. by eapply run_with_mock, payment_entry_no_get. Qed.

(** *** Many requests over one mock *)

Section with_callee.
Context {D S : Type} {X : Type → Type} (ev : envspec X) (h : ∀ B, X B → S → S * B).

(** [eff_out], with the calls answered from a state that all programs share. *)
Definition eff_with {A} (e : eff D X A) (c c' : D * S) (a : A) : Prop :=
  match e in eff _ _ A' return A' → Prop with
  | Ext x => λ b, c'.1 = c.1 ∧ (c'.2, b) = h _ x c.2
  | e => λ b, c'.2 = c.2 ∧ eff_out ev e c.1 c'.1 b
  end a.

Inductive cstep_with (entry : prog (eff D X) unit → Prop) :
    relation (list (prog (eff D X) unit) * (D * S)) :=
  | CW_spawn p ps c : entry p → cstep_with entry (ps, c) (p :: ps, c)
  | CW_step {A} ps1 ps2 (e : eff D X A) k a c c' :
      eff_with e c c' a → cstep_with entry (ps1 ++ Vis e k :: ps2, c) (ps1 ++ k a :: ps2, c').

Definition reachable_with entry (c0 c : D * S) : Prop :=
  ∃ ps, rtc (cstep_with entry) ([], c0) (ps, c).

(** The calls so far, beside the state. *)
Definition recording B (x : X B) (sl : S * list {B & X B}) : (S * list {B & X B}) * B :=
  let '(s, b) := h B x sl.1 in ((s, sl.2 ++ [existT B x]), b).
End with_callee.

(** A gateway that answers from a function, and fails as it may. *)
Definition gateway_env (f : ∀ B, payE B → B) : envspec payE :=
  {| e_fault := λ _, True; e_ext := λ _ x a, a = f _ x |}.

(** The sessions that the calls were answered with. *)
Definition issued (calls : list {B & payE B}) : list SessionResult :=
  calls ≫= λ c, match projT2 c with
                | CreateSession refID _ _ expiresAt _ _ => [mock_session refID expiresAt]
                | _ => []
                end.
Definition stored_sessions (l : list SessionResult) (m : MockProcessor) : MockProcessor :=
  foldl (λ m r, <[sr_ProviderRef r := r]> m) m l.

Lemma stored_sessions_snoc l B (x : payE B) m :
  stored_sessions (issued (l ++ [existT B x])) m = (mock_handle x (stored_sessions (issued l) m)).1.
Proof.
  unfold issued, stored_sessions. rewrite bind_app, foldl_app. by destruct x.
Qed.

Section mock_shared.
Context (s : PaymentService).
Local Abbreviation over_mock := (cstep_with (any_env payE) (recording (@mock_handle)) (payment_entry s)).
Local Abbreviation over_answers := (cstep (gateway_env mock_answer) (payment_entry s)).

(** One step over the mock is a step over its answers, and keeps its books. *)
Lemma mock_step ps d m l ps' d' m' l' m0 :
  over_mock (ps, (d, (m, l))) (ps', (d', (m', l'))) → Forall (calls no_get) ps →
  m = stored_sessions (issued l) m0 →
  over_answers (ps, d) (ps', d') ∧ Forall (calls no_get) ps' ∧ m' = stored_sessions (issued l') m0.
Proof.
  intros Hstep Hps Hm. inversion Hstep as [p ps1 c Hp|A ps1 ps2 e k a c c' Hout]; subst.
  - split_and!; [by constructor| |done]. constructor; [by eapply payment_entry_no_get|done].
  - apply Forall_app in Hps as [H1 [[He Hk] H2]%Forall_cons].
    assert (Forall (calls no_get) (ps1 ++ k a :: ps2)) as Hps'.
    { apply Forall_app. split; [done|]. constructor; [apply Hk|done]. }
    destruct e as [B f| | |B x]; cbn in Hout.
    4:{ destruct Hout as [-> Hans]. destruct (mock_handle_answer x (stored_sessions (issued l) m0) He) as [Ha _].
        unfold recording in Hans. cbn [fst snd] in Hans.
        pose proof (stored_sessions_snoc l _ x m0) as Hst.
        destruct (mock_handle x _) as [m1 b]. injection Hans as -> -> ->. cbn [fst snd] in Ha, Hst.
        split_and!; [|done|done]. constructor. exists b. split; [|done]. by split. }
    all: destruct Hout as [[= -> ->] Hout]; (split_and!; [|done|done]); constructor; by exists a.
Qed.

(** And the other way round. *)
Lemma answers_step ps d ps' d' m l :
  over_answers (ps, d) (ps', d') → Forall (calls no_get) ps →
  Forall (calls no_get) ps' ∧ ∃ m' l', over_mock (ps, (d, (m, l))) (ps', (d', (m', l'))).
Proof.
  intros Hstep Hps. inversion Hstep as [p ps1 d1 Hp|ps1 p ps2 d1 p' d2 Hp]; subst.
  - split; [|by exists m, l; constructor]. constructor; [by eapply payment_entry_no_get|done].
  - destruct p as [a|A e k]; [done|]. destruct Hp as (a & Hout & ->).
    apply Forall_app in Hps as [H1 [[He Hk] H2]%Forall_cons]. split.
    { apply Forall_app. split; [done|]. constructor; [apply Hk|done]. }
    destruct e as [B f| | |B x]; cbn in Hout.
    4:{ destruct Hout as [-> ->]. destruct (mock_handle_answer x m He) as [Ha _].
        exists (mock_handle x m).1, (l ++ [existT B x]). apply CW_step. cbn. split; [done|]. rewrite <- Ha.
        unfold recording. cbn. by destruct (mock_handle x m). }
    all: exists m, l; apply CW_step; by split.
Qed.

(** C33. The mock gateway is a gateway: over every interleaving of payment's
    requests, callbacks and poller passes that share one in-memory
    [MockProcessor], with any failures of statements, the database reaches what
    it reaches when the gateway answers from a fixed function, and nothing
    else; so what is proved of the service against every gateway holds of it.
    And the mock's map holds exactly the sessions it had and those it has
    issued, each under its reference. *)
Theorem mock_equivalent d0 m0 d :
  (reachable (gateway_env mock_answer) (payment_entry s) d0 d ↔
   ∃ m l, reachable_with (any_env payE) (recording (@mock_handle)) (payment_entry s)
     (d0, (m0, [])) (d, (m, l))) ∧
  ∀ m l, reachable_with (any_env payE) (recording (@mock_handle)) (payment_entry s)
    (d0, (m0, [])) (d, (m, l)) → m = stored_sessions (issued l) m0.
Proof.
  assert (∀ c c', rtc over_mock c c' → Forall (calls no_get) c.1 → c.2.2.1 = stored_sessions (issued c.2.2.2) m0 →
    rtc over_answers (c.1, c.2.1) (c'.1, c'.2.1) ∧ c'.2.2.1 = stored_sessions (issued c'.2.2.2) m0) as Hdown.
  { induction 1 as [c|[ps1 [d1 [m1 l1]]] [ps2 [d2 [m2 l2]]] c3 Hs _ IH]; intros Hps Hm; [done|].
    destruct (mock_step _ _ _ _ _ _ _ _ m0 Hs Hps Hm) as (Hs' & Hps' & Hm').
    destruct (IH Hps' Hm') as [Hr ?]. split; [by econstructor|done]. }
  assert (∀ c c', rtc over_answers c c' → Forall (calls no_get) c.1 → ∀ m l,
    ∃ m' l', rtc over_mock (c.1, (c.2, (m, l))) (c'.1, (c'.2, (m', l')))) as Hup.
  { induction 1 as [c|[ps1 d1] [ps2 d2] c3 Hs _ IH]; intros Hps m l; [by exists m, l|].
    destruct (answers_step _ _ _ _ m l Hs Hps) as (Hps' & m2 & l2 & Hs').
    destruct (IH Hps' m2 l2) as (m3 & l3 & Hr). exists m3, l3. by econstructor. }
  split; [split|].
  - intros (ps & Hrun). destruct (Hup _ _ Hrun (Forall_nil_2 _) m0 []) as (m & l & Hr). exists m, l. by exists ps.
  - intros (m & l & ps & Hrun). exists ps. by apply (Hdown _ _ Hrun).
  - intros m l (ps & Hrun). by apply (Hdown _ _ Hrun).
Qed.
End mock_shared.

(** A payment request over an empty mock. *)
Definition mock_paid_db : PayDB :=
  (run (with_gateway (pay_oracle pay_time) mock_answer) (discard (ProcessPayment pay_service "bk" "u")) 0
     initiated_db).1.2.

Lemma mock_equivalent_witness : ∃ m l,
  reachable_with (any_env payE) (recording (@mock_handle)) (payment_entry pay_service)
    (initiated_db, (NewMockProcessor, [])) (mock_paid_db, (m, l)) ∧
  m = stored_sessions (issued l) NewMockProcessor.
Proof.
  destruct (mock_equivalent pay_service initiated_db NewMockProcessor mock_paid_db) as [[Hup _] Hm].
  destruct Hup as (m & l & Hr).
  - apply reachable_run; [by split|apply PE_Process|]. by exists [].
  - exists m, l. split; [exact Hr|exact (Hm m l Hr)].
Defined.

Section run_with_lemmas.
Context {S : Type} (o : oracle payE) (h : ∀ B, payE B → S → S * B).

Lemma run_with_bind {A B} (f : A → pprog B) p n d s :
  run_with o h (prog_bind f p) n d s =
  let '(n', d', s', a) := run_with o h p n d s in run_with o h (f a) n' d' s'.
Proof.
  revert n d s. induction p as [a|Y e k IH]; intros n d s; [done|].
  destruct e as [C g| | |C x]; cbn.
  - destruct (sql_outcome _ _ _ d). apply IH.
  - apply IH.
  - apply IH.
  - destruct (h C x s). apply IH.
Qed.

Lemma run_with_silent {A} (p : pprog A) n d s :
  silent p → ∃ n' d' a, run_with o h p n d s = (n', d', s, a).
Proof.
  revert n d. induction p as [a|Y e k IH]; intros n d Hp; [by exists n, d, a|].
  destruct Hp as [He Hk]. destruct e as [C g| | |C x]; cbn; [|by apply IH..|done].
  destruct (sql_outcome _ _ _ d). by apply IH.
Qed.

(** The next step is silent: it gives some answer and leaves the callee. *)
Lemma run_with_skip {A B} (f : A → pprog B) p n d s (Φ : nat * PayDB * S * B → Prop) :
  silent p → (∀ n' d' a, Φ (run_with o h (f a) n' d' s)) →
  Φ (run_with o h (prog_bind f p) n d s).
Proof.
  intros Hp HΦ. rewrite run_with_bind. destruct (run_with_silent p n d s Hp) as (n' & d' & a & ->).
  apply HΦ.
Qed.
End run_with_lemmas.

Ltac skip_silent :=
  unfold mbind, prog_mbind;
  match goal with
  | |- ?Φ (run_with ?o ?h (prog_bind ?f ?p) ?n ?d ?s) =>
      apply (run_with_skip o h f p n d s Φ);
        [solve [unfold_payment; calls_solve]|intros ? ? ?]
  | |- ?Φ (run_with ?o ?h (Ret ?a) ?n ?d ?s) => cbn [run_with]
  end.

(** The outcome of a payment request, with its session in the mock. *)
Definition session_kept (b : string)
    (out : nat * PayDB * MockProcessor * res (Transaction * SessionResult)) : Prop :=
  ∀ txn r, out.2 = Ok (txn, r) →
    out.1.2 !! sr_ProviderRef r = Some r ∧ sr_ProviderRef r = "ps-mock-" +:+ b.

(** A session that [ProcessPayment] hands to the customer can be read back
    from the gateway that made it: over the mock, [GetSession] with the
    reference stored for the webhook answers the same checkout link and
    deadline. *)
Theorem mock_session_readable s (o : oracle payE) b u n d m n' d' m' txn r :
  run_with o (@mock_handle) (ProcessPayment s b u) n d m = (n', d', m', Ok (txn, r)) →
  Mock_GetSession (sr_ProviderRef r) m' = (m', Ok r) ∧ sr_ProviderRef r = "ps-mock-" +:+ b.
Proof.
  intros Hrun.
  assert (session_kept b (run_with o (@mock_handle) (ProcessPayment s b u) n d m)) as HΦ.
  { clear Hrun. unfold ProcessPayment. skip_silent. destruct a as [t|e]; [|done].
    destruct (negb _); [done|]. skip_silent. destruct a; [done|]. destruct (negb _); [done|].
    skip_silent. rewrite run_with_bind. cbn [run_with call mock_handle Mock_CreateSession].
    set (m1 := <[_ := _]> m). skip_silent. destruct a0 as [applied|e]; [|done].
    destruct (negb applied); [by rewrite run_with_bind|]. skip_silent. destruct a0; [|done].
    intros txn' r'. cbn [run_with snd fst]. intros Hr%Ok_inj. injection Hr as <- <-.
    split; [apply lookup_insert_eq|done]. }
  rewrite Hrun in HΦ. destruct (HΦ txn r eq_refl) as [Hget Href].
  split; [|done]. unfold Mock_GetSession. cbn in Hget. by rewrite Hget.
Qed.

Definition mock_run : nat * PayDB * MockProcessor * res (Transaction * SessionResult) :=
  run_with (pay_oracle pay_time) (@mock_handle) (ProcessPayment pay_service "bk" "u") 0
    initiated_db NewMockProcessor.

Lemma mock_session_readable_witness :
  Mock_GetSession "ps-mock-bk" mock_run.1.2 =
    (mock_run.1.2, Ok (mock_session "bk" (pay_time + 780 * Second))).
Proof.
  assert (mock_run.2 = Ok (sample_txn "initiated" "" "",
    mock_session "bk" (pay_time + 780 * Second))) as Hout by (vm_compute; reflexivity).
  destruct mock_run as [[[n' d'] m'] out] eqn:Hrun. cbn [fst snd] in *. subst out.
  apply (mock_session_readable pay_service (pay_oracle pay_time) "bk" "u" 0 initiated_db
    NewMockProcessor n' d' m' _ _ Hrun).
Defined.

(** ** What Xendit is asked *)

(** The requests of a program, and its result, against a gateway's answers. *)
Fixpoint answered {A} (gw : httpRequest → res (Z * res httpBody)) (p : xprog A) :
    list httpRequest * A :=
  match p with
  | Ret a => ([], a)
  | Vis e k =>
      match e in xenditE B return (B → xprog A) → list httpRequest * A with
      | Do q => λ k, let '(qs, a) := answered gw (k (gw q)) in (q :: qs, a)
      end k
  end.

(** A usable answer: read in full, with a status below 300. *)
Definition good_answer (a : res (Z * res httpBody)) : option httpBody :=
  match a with
  | Ok (code, Ok data) => if bool_decide (300 ≤ code) then None else Some data
  | _ => None
  end.

Section requests.
Context (url_ok : string → bool) (p : XenditProcessor).
Context (gw : httpRequest → res (Z * res httpBody)).

Lemma answered_bind {A B} (f : A → xprog B) (x : xprog A) :
  answered gw (prog_bind f x) =
  let '(qs, a) := answered gw x in let '(qs', b) := answered gw (f a) in (qs ++ qs', b).
Proof.
  induction x as [a|Y [q] k IH]; cbn; [by destruct (answered gw (f a))|].
  rewrite IH. destruct (answered gw (k (gw q))) as [qs a]. by destruct (answered gw (f a)).
Qed.

Lemma answered_doRaw method path key body :
  let q := mkHttpRequest method (xp_baseURL p +:+ path) (http_headers p key) body in
  url_ok (hq_URL q) = true →
  ∃ r, answered gw (doRaw url_ok p method path key body) = ([q], r) ∧
    match good_answer (gw q) with Some data => r = Ok data | None => is_ok r = false end.
Proof.
  intros q Hu. unfold doRaw. cbn in Hu. rewrite Hu. cbn -[http_headers]. fold q.
  eexists. split; [done|]. unfold good_answer.
  destruct (gw q) as [[code [data|e]]|e]; [|done|done]. by case_bool_decide.
Qed.

Lemma answered_do method path key body :
  let q := mkHttpRequest method (xp_baseURL p +:+ path) (http_headers p key) body in
  url_ok (hq_URL q) = true →
  ∃ r, answered gw (do_ url_ok p method path key body) = ([q], r) ∧
    ∀ out, r = Ok out ↔
      ∃ data, good_answer (gw q) = Some data ∧ Decode decode_session (hb_json data) = Ok out.
Proof.
  intros q Hu. destruct (answered_doRaw method path key body Hu) as (r & Hr & Hgood).
  unfold do_. rewrite answered_bind, Hr. fold q in Hgood |- *.
  destruct (good_answer (gw q)) as [data|].
  - subst r. destruct (Decode _ _) as [out|e] eqn:Hd; cbn; eexists; (split; [done|]); intros out'.
    + split; [intros <-%Ok_inj; eauto|]. intros (data' & [= <-] & Hd'). congruence.
    + split; [done|]. intros (data' & [= <-] & Hd'). congruence.
  - destruct r as [|e]; [done|]. cbn. eexists. split; [done|]. intros out. split; [done|].
    by intros (data & ? & _).
Qed.
End requests.

(** The body of a session request, as Xendit decodes it. *)
Lemma encode_session_fields ref amount cur exp email :
  0 ≤ year_of exp < 10000 → in_int64 amount →
  ∃ o text, encode_session (session_request ref amount cur exp email) = JObj o ∧
    string_field "reference_id" o = Ok ref ∧ int_field "amount" o = Ok amount ∧
    string_field "currency" o = Ok cur ∧ string_field "expires_at" o = Ok text ∧
    ParseRFC3339 text = Some (rfc3339 exp).
Proof.
  intros Hy Ha. pose proof (parse_format exp Hy) as Hp. unfold session_request, encode_session.
  cbn [xr_ReferenceID xr_SessionType xr_Mode xr_Amount xr_Currency xr_Country xr_Customer
    xr_ExpiresAt xr_MerchantMetadata]. rewrite wrap64_id by done. unfold omitempty.
  rewrite (bool_decide_false (FormatRFC3339 exp = ""))
    by (intros He; by rewrite He, parse_empty in Hp).
  cbn [app fmap list_fmap fst snd]. remember (encode_customer _) as customer.
  remember (str_json ref) as x1. remember (str_json "PAY") as x2.
  remember (str_json "PAYMENT_LINK") as x3. remember (JNum amount) as x4.
  remember (str_json cur) as x5. remember (str_json "ID") as x6.
  remember (str_json (FormatRFC3339 exp)) as x7.
  eexists _, (FormatRFC3339 exp). split; [reflexivity|].
  split_and!; [..|done]; read_object; try done; by rewrite dec_int_num.
Qed.

(** A payment session at Xendit: one request is made, a POST of the
    sessions endpoint that carries the booking as its idempotency key, and its
    body asks for the booking's amount and currency with the deadline to the
    second.  The call succeeds exactly on an answer below 300 that decodes;
    the session is the one the answer names, reached by its checkout link, or
    by its payment link when it has none, and its deadline is the one asked
    for when the answer leaves it out or echoes it. *)
Theorem xendit_create_session url_ok p gw ref amount cur exp channels email :
  url_ok (xp_baseURL p +:+ "/sessions") = true → ref ≠ "" →
  0 ≤ year_of exp < 10000 → in_int64 amount →
  ∃ q o text r,
    answered gw (Xendit_CreateSession url_ok p ref amount cur exp channels email) = ([q], r) ∧
    hq_Method q = "POST" ∧ hq_URL q = xp_baseURL p +:+ "/sessions" ∧
    ("Idempotency-Key", ref) ∈ hq_Header q ∧ hq_Body q = Some (JObj o) ∧
    string_field "reference_id" o = Ok ref ∧ int_field "amount" o = Ok amount ∧
    string_field "currency" o = Ok cur ∧ string_field "expires_at" o = Ok text ∧
    ParseRFC3339 text = Some (rfc3339 exp) ∧
    (∀ s, r = Ok s ↔ ∃ data out, good_answer (gw q) = Some data ∧
       Decode decode_session (hb_json data) = Ok out ∧ s = toResult out exp) ∧
    (∀ out, sr_ProviderRef (toResult out exp) = xs_PaymentSessionID out ∧
       (xs_CheckoutURL out ≠ "" → sr_PaymentLinkURL (toResult out exp) = xs_CheckoutURL out) ∧
       (xs_CheckoutURL out = "" → sr_PaymentLinkURL (toResult out exp) = xs_PaymentLinkURL out) ∧
       (xs_ExpiresAt out = "" → sr_ExpiresAt (toResult out exp) = exp) ∧
       (xs_ExpiresAt out = text → sr_ExpiresAt (toResult out exp) = rfc3339 exp)).
Proof.
  intros Hu Href Hy Ha.
  destruct (encode_session_fields ref amount cur exp email Hy Ha)
    as (o & text & Ho & H1 & H2 & H3 & H4 & H5).
  destruct (answered_do url_ok p gw "POST" "/sessions" ref (Some (JObj o)) Hu) as (r & Hr & Hiff).
  set (q := mkHttpRequest _ _ _ _) in Hr, Hiff. unfold Xendit_CreateSession. rewrite Ho.
  exists q, o, text, (res_map (λ out, toResult out exp) r). rewrite answered_bind, Hr.
  assert (xs_ok : ∀ out : xenditSessionResponse, xs_ExpiresAt out = text → xs_ExpiresAt out ≠ "").
  { intros out -> ->. by rewrite parse_empty in H5. }
  split; [by destruct r|]. split_and!; try done.
  - unfold q, http_headers. cbn [hq_Header]. rewrite bool_decide_false by done.
    apply elem_of_app. right. by apply list_elem_of_singleton.
  - intros s. destruct r as [out|e]; cbn [res_map].
    + destruct (proj1 (Hiff out) eq_refl) as (data & Hg & Hd). split.
      * intros <-%Ok_inj. eauto.
      * intros (data' & out' & Hg' & Hd' & ->). congruence.
    + split; [done|]. intros (data & out & Hg & Hd & _).
      assert (Err e = Ok out) by (apply Hiff; eauto). done.
  - intros out. unfold toResult. cbn [sr_ProviderRef sr_PaymentLinkURL sr_ExpiresAt firstNonEmpty].
    split_and!; [done| | | |].
    + intros. by rewrite bool_decide_false.
    + intros ->. rewrite bool_decide_true by done. by case_bool_decide.
    + intros. by rewrite bool_decide_true.
    + intros Ht. rewrite bool_decide_false by auto. by rewrite Ht, H5.
Qed.

(** A gateway that honours idempotency keys: the answer to a session request is
    named after the key; everything else is accepted. *)
Definition idempotent_gateway (q : httpRequest) : res (Z * res httpBody) :=
  match list_find (λ h, h.1 = "Idempotency-Key") (hq_Header q) with
  | Some (_, (_, key)) =>
      Ok (201, Ok (mkHttpBody "" (Some (JObj
        [("payment_session_id", JStr ("ps-" +:+ key));
         ("payment_link_url", JStr "https://checkout")]))))
  | None => Ok (200, Ok (mkHttpBody "" (Some JNull)))
  end.
Definition sample_xendit : XenditProcessor := NewXenditProcessor "https://api.xendit.co/" "key".

Lemma xendit_create_session_witness : ∃ q r,
  answered idempotent_gateway
    (Xendit_CreateSession (λ _, true) sample_xendit "bk" 1100 "IDR" pay_time [] "u@mail") =
    ([q], r) ∧
  hq_URL q = "https://api.xendit.co/sessions" ∧ ("Idempotency-Key", "bk") ∈ hq_Header q.
Proof.
  destruct (xendit_create_session (λ _, true) sample_xendit idempotent_gateway "bk" 1100 "IDR"
    pay_time [] "u@mail") as (q & o & text & r & Hr & _ & Hurl & Hkey & _).
  - reflexivity.
  - discriminate.
  - vm_compute. split; [discriminate|reflexivity].
  - vm_compute. split; [discriminate|reflexivity].
  - exists q, r. split; [exact Hr|]. split; [exact Hurl|exact Hkey].
Defined.

(** No answer of Xendit is taken for success that is not one: when every
    request fails on the way, is answered with a status of 300 or more, or
    with a body that cannot be read, creating, cancelling and fetching a
    session all return an error, after at most one request each. *)
Theorem xendit_refuses url_ok p gw :
  (∀ q, good_answer (gw q) = None) →
  (∀ ref amount cur exp channels email,
     let out := answered gw (Xendit_CreateSession url_ok p ref amount cur exp channels email) in
     is_ok out.2 = false ∧ (length out.1 ≤ 1)%nat) ∧
  (∀ ref, let out := answered gw (Xendit_CancelSession url_ok p ref) in
     is_ok out.2 = false ∧ (length out.1 ≤ 1)%nat) ∧
  (∀ ref, let out := answered gw (Xendit_GetSession url_ok p ref) in
     is_ok out.2 = false ∧ (length out.1 ≤ 1)%nat).
Proof.
  intros Hbad.
  assert (∀ method path key body, ∃ qs e,
    answered gw (doRaw url_ok p method path key body) = (qs, Err e) ∧ (length qs ≤ 1)%nat) as Hraw.
  { intros method path key body. destruct (url_ok (xp_baseURL p +:+ path)) eqn:Hu.
    - destruct (answered_doRaw url_ok p gw method path key body Hu) as (r & Hr & Hgood).
      rewrite Hbad in Hgood. destruct r as [|e]; [done|]. eexists _, e. by split.
    - unfold doRaw. rewrite Hu. cbn. eexists _, _. split; [done|]. cbn. lia. }
  assert (∀ A (f : httpBody → xprog (res A)) method path key body,
    let out := answered gw (data ←? doRaw url_ok p method path key body; f data) in
    is_ok out.2 = false ∧ (length out.1 ≤ 1)%nat) as Hthen.
  { intros A f method path key body. destruct (Hraw method path key body) as (qs & e & Hr & Hl).
    cbn. rewrite answered_bind, Hr. cbn. by rewrite app_nil_r. }
  assert (∀ A (f : xenditSessionResponse → xprog (res A)) method path key body,
    let out := answered gw (r ←? do_ url_ok p method path key body; f r) in
    is_ok out.2 = false ∧ (length out.1 ≤ 1)%nat) as Hdo.
  { intros A f method path key body. destruct (Hraw method path key body) as (qs & e & Hr & Hl).
    cbn. unfold do_. rewrite !answered_bind, Hr. cbn. by rewrite !app_nil_r. }
  split_and!; intros; [apply Hdo|apply Hthen|apply Hdo].
Qed.

Definition rate_limited (q : httpRequest) : res (Z * res httpBody) :=
  Ok (429, Ok (mkHttpBody "too many requests" None)).

Lemma xendit_refuses_witness :
  is_ok (answered rate_limited (Xendit_CancelSession (λ _, true) sample_xendit "ps")).2 = false.
Proof. apply (xendit_refuses (λ _, true) sample_xendit rate_limited). done. Defined.

(** ** The payment service over Xendit

    The world is the database of payment and the requests Xendit has been
    sent; a request that is sent may be answered, fail, or be carried out with
    its answer lost. *)
Abbreviation xworld := (PayDB * list httpRequest)%type.

Definition on_paydb {A} (f : stmt PayDB A) : stmt xworld A := λ t w,
  let '(d', r) := f t w.1 in ((d', w.2), r).
Definition send_http (q : httpRequest) : stmt xworld unit := λ _ w, ((w.1, w.2 ++ [q]), Ok ()).

Definition http_handler {A} B (e : xenditE B) :
    (B → prog (eff xworld xenditE) A) → prog (eff xworld xenditE) A :=
  match e in xenditE B return (B → prog (eff xworld xenditE) A) → prog (eff xworld xenditE) A with
  | Do q => λ k, Vis (Sql (send_http q)) (λ r,
      match r with Err e => k (Err e) | Ok _ => Vis (Ext (Do q)) k end)
  end.

Definition xendit_handler url_ok p {A} B (e : eff PayDB payE B) :
    (B → prog (eff xworld xenditE) A) → prog (eff xworld xenditE) A :=
  match e in eff _ _ B return (B → prog (eff xworld xenditE) A) → prog (eff xworld xenditE) A with
  | Sql f => λ k, Vis (Sql (on_paydb f)) k
  | Now => λ k, Vis Now k
  | NewUUID => λ k, Vis NewUUID k
  | Ext x => λ k, prog_bind k (interp http_handler (xendit_handle url_ok p x))
  end.

Definition xendit_prog url_ok p {A} : pprog A → prog (eff xworld xenditE) A :=
  interp (xendit_handler url_ok p).

Inductive xendit_entry url_ok p (s : PaymentService) : prog (eff xworld xenditE) unit → Prop :=
  | XE_run q : payment_entry s q → xendit_entry url_ok p s (xendit_prog url_ok p q).

(** *** Two requests to pay the same booking *)

Definition xendit_oracle : oracle xenditE :=
  calm pay_time (λ A x, match x in xenditE A return A with Do q => idempotent_gateway q end).
Definition pay_twice : list (prog (eff xworld xenditE) unit) :=
  let p := xendit_prog (λ _, true) sample_xendit
             (discard (ProcessPayment (mkPaymentService "xendit" 2 []) "bk" "u")) in [p; p].
(** Both read the transaction, then the first runs to its end, then the second. *)
Definition raced : xworld :=
  (schedule xendit_oracle ([0; 1] ++ replicate 12 0 ++ replicate 12 1)%nat 0 pay_twice
     (initiated_db, [])).2.

(** The session a customer was given can be voided by a second request to
    pay: both requests carry the booking as idempotency key and so get the same
    session; the one that loses the transition cancels the session it was
    given, which is the one stored for the transaction and returned to the
    customer.  Every statement and every request succeeds. *)
Theorem second_request_voids_session :
  reachable (any_env xenditE)
    (xendit_entry (λ _, true) sample_xendit (mkPaymentService "xendit" 2 []))
    (initiated_db, []) raced ∧
  (λ t, (tx_Status t, tx_ProviderRef t, tx_PaymentLinkURL t)) <$> transactions raced.1 !! "id-0" =
    Some ("pending", "ps-bk", "https://checkout") ∧
  (λ q, (hq_Method q, hq_URL q)) <$> raced.2 =
    [("POST", "https://api.xendit.co/sessions"); ("POST", "https://api.xendit.co/sessions");
     ("POST", "https://api.xendit.co/sessions/ps-bk/cancel")] ∧
  (λ q, bool_decide (("Idempotency-Key", "bk") ∈ hq_Header q)) <$> raced.2 = [true; true; false].
Proof.
  split; [|vm_compute; done].
  apply schedule_reachable; [by split|].
  repeat apply Forall_cons_2; [apply XE_run, PE_Process..|constructor].
Qed.
