(* ===== verification/PayHandler.v ===== *)
(** * HTTP interface of the payment service

    [service/payment/internal/handler]: the structs, the internal-key
    middleware, the handlers and the routes.  A time that a response prints in
    RFC 3339 is the instant it prints, to the second, and [None] when the text
    is empty. *)
From S2P Require Import Prelude Effects Json Dto Outbox PayDB Payment.

(** ** [dto.go] *)

Record TransactionResponse := mkTransactionResponse {
  tr_ID : string; tr_BookingID : string; tr_EventID : string; tr_AmountRupiah : Z;
  tr_Currency : string; tr_Status : string; tr_RefundStatus : string;
  tr_PaymentLinkURL : string; tr_ExpiresAt : option Z; tr_CreatedAt : Z }.
Record InternalCreateRequest := mkInternalCreateRequest {
  ic_BookingID : string; ic_EventID : string; ic_UserID : string; ic_Email : string;
  ic_AmountRupiah : Z; ic_ExpiresAt : Z }.
Record ProcessPaymentResponse := mkProcessPaymentResponse {
  pp_TransactionID : string; pp_PaymentSessionID : string; pp_PaymentLinkURL : string;
  pp_AmountRupiah : Z; pp_Currency : string; pp_Status : string; pp_ExpiresAt : option Z }.
Record PaymentStatusResponse := mkPaymentStatusResponse {
  pq_TransactionID : string; pq_Status : string; pq_PaymentLinkURL : string;
  pq_AmountRupiah : Z; pq_Currency : string }.

Definition decode_internal : json → res InternalCreateRequest := dec_struct (λ o,
  booking ←! string_field "booking_id" o;
  ev ←! string_field "event_id" o;
  user ←! string_field "user_id" o;
  email ←! string_field "email" o;
  amount ←! int_field "amount_rupiah" o;
  expires ←! time_field "expires_at" o;
  Ok (mkInternalCreateRequest booking ev user email amount expires)).

(** [json.Unmarshal(payload, &event)] of [HandleSessionWebhook]. *)
Definition decode_webhook : json → res sessionWebhookPayload := dec_struct (λ o,
  event ←! string_field "event" o;
  data ←! dec_all (λ old j,
            match j with
            | JNull => Ok old
            | JObj o' => Ok (old ++ o')
            | _ => Err type_error
            end) [] (values_of "data" o);
  reference ←! string_field "reference_id" data;
  session ←! string_field "payment_session_id" data;
  id ←! string_field "id" data;
  status ←! string_field "status" data;
  Ok (mkSessionWebhook event reference session id status)).

Inductive payData :=
  | DCreated (transactionID bookingID : string)
  | DPayment (p : ProcessPaymentResponse)
  | DStatus (p : PaymentStatusResponse)
  | DTransaction (t : TransactionResponse)
  | DTransactions (ts : list TransactionResponse)
  | DReceived.

(** [PaymentHandler]: the service and its two secrets. *)
Record PaymentHandler := mkPaymentHandler {
  ph_svc : PaymentService;
  ph_internalKey : string;
  ph_callbackToken : string;
}.

Section handlers.
Context (h : PaymentHandler).
Local Abbreviation reply := (pprog (response payData)).

(** ** [payment_handler.go] *)

(** [subtle.ConstantTimeCompare] is one exactly on equal strings. *)
Definition requireInternalKey (next : request → reply) (r : request) : reply :=
  if negb (bool_decide (r_header r "X-Internal-Key" = ph_internalKey h))
  then Ret (Unauthorized "invalid internal key")
  else next r.

Definition PaymentHandler_InitiateTxnForBooking (r : request) : reply :=
  match Decode decode_internal (r_body r) with
  | Err _ => Ret (BadRequest "invalid request body")
  | Ok req =>
      if bool_decide (ic_BookingID req = "") || bool_decide (ic_UserID req = "") ||
         bool_decide (ic_EventID req = "") || bool_decide (ic_AmountRupiah req ≤ 0)
      then Ret (BadRequest "booking_id, event_id, user_id and amount_rupiah are required")
      else
        t ← InitiateTxnForBooking (ph_svc h) (ic_BookingID req) (ic_EventID req) (ic_UserID req)
              (ic_Email req) (ic_AmountRupiah req) (ic_ExpiresAt req);
        Ret match t with
            | Err _ => InternalServerError "failed to create transaction"
            | Ok txn => Created (DCreated (tx_ID txn) (tx_BookingID txn))
            end
  end.

(** [formatTime]. *)
Definition formatTime (t : option Z) : option Z :=
  match t with
  | None => None
  | Some t => if bool_decide (t = zero_time) then None else Some (rfc3339 t)
  end.

Definition process_response (r : res (Transaction * SessionResult)) : response payData :=
  match r with
  | Err err =>
      if errors_Is err ErrTransactionNotFound then NotFound "transaction not found"
      else if errors_Is err ErrAlreadyProcessed then Error 409 "payment already initiated"
      else if errors_Is err ErrTransactionExpired then Error 409 "booking has expired"
      else if errors_Is err ErrGatewayUnavailable
      then Error 502 "payment provider unavailable, please try again"
      else InternalServerError "failed to initiate payment"
  | Ok (txn, result) =>
      OK (DPayment (mkProcessPaymentResponse (tx_ID txn) (sr_ProviderRef result)
        (sr_PaymentLinkURL result) (tx_AmountRupiah txn) (tx_Currency txn) (tx_Status txn)
        (formatTime (tx_ExpiresAt txn))))
  end.

Definition PaymentHandler_ProcessPayment (r : request) : reply :=
  let userID := UserIDFromContext (r_ctx r) in
  if bool_decide (userID = "") then Ret (Unauthorized "authentication required")
  else
    p ← ProcessPayment (ph_svc h) (r_param r "booking_id") userID;
    Ret (process_response p).

Definition PaymentHandler_GetPaymentStatus (r : request) : reply :=
  t ← GetPaymentStatus (r_param r "booking_id");
  Ret match t with
      | Err err =>
          if errors_Is err ErrTransactionNotFound then NotFound "transaction not found"
          else InternalServerError "failed to load payment status"
      | Ok txn =>
          OK (DStatus (mkPaymentStatusResponse (tx_ID txn) (tx_Status txn)
            (tx_PaymentLinkURL txn) (tx_AmountRupiah txn) (tx_Currency txn)))
      end.

(** The answer of both webhook handlers to the outcome of the service. *)
Definition webhook_response (message : string) (r : res unit) : response payData :=
  match r with
  | Err err => if errors_Is err NoRows then NotFound "transaction not found" else BadRequest message
  | Ok _ => OK DReceived
  end.

Definition PaymentHandler_MockSessionWebhook (r : request) : reply :=
  let bookingID := r_param r "booking_id" in
  let status := r_param r "status" in
  let deliver event sessionStatus : reply :=
    t ← GetPaymentStatus bookingID;
    match t with
    | Err _ => Ret (NotFound "transaction not found")
    | Ok txn =>
        w ← HandleSessionWebhook (r_ctx r)
              (Ok (mkSessionWebhook event bookingID (tx_ProviderRef txn) "" sessionStatus));
        Ret (webhook_response "mock webhook failed" w)
    end in
  if bool_decide (status = "success") then deliver "payment_session.completed" "COMPLETED"
  else if bool_decide (status = "expired") then deliver "payment_session.expired" "EXPIRED"
  else Ret (BadRequest "status must be 'success' or 'expired'").

(** The [TransactionResponse] literal without link and deadline. *)
Definition txn_response (txn : Transaction) (link : string) (expires : option Z) :
    TransactionResponse :=
  mkTransactionResponse (tx_ID txn) (tx_BookingID txn) (tx_EventID txn) (tx_AmountRupiah txn)
    (tx_Currency txn) (tx_Status txn) (tx_RefundStatus txn) link expires
    (rfc3339 (tx_CreatedAt txn)).

Definition PaymentHandler_GetStatus (r : request) : reply :=
  t ← GetTransaction (r_param r "id");
  Ret match t with
      | Err _ => NotFound "transaction not found"
      | Ok txn => OK (DTransaction (txn_response txn "" None))
      end.

Definition PaymentHandler_GetTransaction (r : request) : reply :=
  let userID := UserIDFromContext (r_ctx r) in
  t ← GetTransaction (r_param r "txn_id");
  Ret match t with
      | Err _ => NotFound "transaction not found"
      | Ok txn =>
          if negb (bool_decide (tx_UserID txn = userID)) then NotFound "transaction not found"
          else OK (DTransaction (txn_response txn (tx_PaymentLinkURL txn)
                     (formatTime (tx_ExpiresAt txn))))
      end.

(** A body over one mebibyte cannot be read: [r_body] is then of no use, and
    [readable] is false. *)
Definition PaymentHandler_Webhook (readable : bool) (r : request) : reply :=
  if negb (bool_decide (r_header r "x-callback-token" = ph_callbackToken h))
  then Ret (Unauthorized "invalid callback token")
  else if negb readable then Ret (BadRequest "failed to read body")
  else
    w ← HandleSessionWebhook (r_ctx r) (Decode decode_webhook (r_body r));
    Ret (webhook_response "invalid webhook payload" w).

Definition PaymentHandler_ListTransactions (r : request) : reply :=
  let userID := UserIDFromContext (r_ctx r) in
  if bool_decide (userID = "") then Ret (Unauthorized "authentication required")
  else
    ts ← ListMyTransactions userID;
    Ret match ts with
        | Err _ => InternalServerError "failed to list transactions"
        | Ok txns => OK (DTransactions ((λ t, txn_response t "" None) <$> txns))
        end.

(** ** [routes.go] *)

Definition pay_with_role (role : Role) (f : request → reply) : request → reply :=
  WithUserContext (RequireRole Ret [role] f).

Definition PaymentHandler_Routes (readable : bool) : list (string * string * (request → reply)) :=
  [("POST", "/api/payments/webhook", PaymentHandler_Webhook readable);
   ("POST", "/api/payments/booking/mock/{booking_id}/{status}", PaymentHandler_MockSessionWebhook);
   ("POST", "/api/payments/internal", requireInternalKey PaymentHandler_InitiateTxnForBooking);
   ("POST", "/api/payments/booking/{booking_id}",
     pay_with_role RoleCustomer PaymentHandler_ProcessPayment);
   ("GET", "/api/payments/booking/{booking_id}",
     pay_with_role RoleCustomer PaymentHandler_GetPaymentStatus);
   ("GET", "/api/payments/{id}/status", pay_with_role RoleCustomer PaymentHandler_GetStatus);
   ("GET", "/api/payments/{txn_id}", pay_with_role RoleCustomer PaymentHandler_GetTransaction);
   ("GET", "/api/payments", pay_with_role RoleCustomer PaymentHandler_ListTransactions)].
End handlers.
