(* ===== verification/PayHttp.v ===== *)
(** * The HTTP interface of payment

    The routes against an access policy, the call of the ticketing service as
    the payment service receives it, and what a customer can read. *)
From S2P Require Import Prelude Effects TimeText Json Dto Outbox TicketDB Booking PayDB Payment PaymentSafety PaymentSpec PayHandler.

(** ** The access policy *)

(** What a route asks of a request: a role, a shared secret in a header with
    the refusal it answers otherwise, or nothing (the development-only route,
    which the gateway blocks). *)
Inductive credential :=
  | NeedsRole (role : Role)
  | NeedsSecret (header secret refusal : string)
  | NeedsNothing.

Definition payment_policy (h : PaymentHandler) (method pattern : string) : option credential :=
  snd <$> find (λ e, bool_decide (e.1 = (method, pattern)))
  [("POST", "/api/payments/webhook",
     NeedsSecret "x-callback-token" (ph_callbackToken h) "invalid callback token");
   ("POST", "/api/payments/booking/mock/{booking_id}/{status}", NeedsNothing);
   ("POST", "/api/payments/internal",
     NeedsSecret "X-Internal-Key" (ph_internalKey h) "invalid internal key");
   ("POST", "/api/payments/booking/{booking_id}", NeedsRole RoleCustomer);
   ("GET", "/api/payments/booking/{booking_id}", NeedsRole RoleCustomer);
   ("GET", "/api/payments/{id}/status", NeedsRole RoleCustomer);
   ("GET", "/api/payments/{txn_id}", NeedsRole RoleCustomer);
   ("GET", "/api/payments", NeedsRole RoleCustomer)].

Definition holds_credential (c : credential) (r : request) : Prop :=
  match c with
  | NeedsRole role => r_header r "X-Authenticated-User-Role" = role
  | NeedsSecret header secret _ => r_header r header = secret
  | NeedsNothing => True
  end.
Definition refusal (c : credential) : response payData :=
  match c with
  | NeedsSecret _ _ message => Unauthorized message
  | _ => Forbidden "insufficient permissions"
  end.

Definition demands (c : credential) (f : request → pprog (response payData)) : Prop :=
  ∀ (o : oracle payE) r d, r_ctx r = background → ¬ holds_credential c r →
    exec o (f r) d = (d, refusal c).

Lemma pay_with_role_demands role f : demands (NeedsRole role) (pay_with_role role f).
Proof. intros o r d Hctx Hrole. unfold pay_with_role. by rewrite RequireRole_denied. Qed.

Lemma secrets_demanded h readable :
  demands (NeedsSecret "x-callback-token" (ph_callbackToken h) "invalid callback token")
    (PaymentHandler_Webhook h readable) ∧
  ∀ f, demands (NeedsSecret "X-Internal-Key" (ph_internalKey h) "invalid internal key")
    (requireInternalKey h f).
Proof.
  split; [|intros f]; intros o r d _ Hno; cbn in Hno;
    unfold PaymentHandler_Webhook, requireInternalKey;
    by rewrite bool_decide_eq_false_2.
Qed.

(** C35. Every route of payment implements the access policy: without the
    callback token, the internal key or the customer role the route asks for,
    a request is refused with 401 or 403 and changes nothing. *)
Theorem payment_routes_guarded h readable method pattern f :
  (method, pattern, f) ∈ PaymentHandler_Routes h readable →
  ∃ c, payment_policy h method pattern = Some c ∧ demands c f.
Proof.
  destruct (secrets_demanded h readable) as [H1 H2].
  assert (Forall (λ e, ∃ c, payment_policy h e.1.1 e.1.2 = Some c ∧ demands c e.2)
    (PaymentHandler_Routes h readable)) as Hall;
    [|intros Hin; rewrite Forall_forall in Hall; exact (Hall _ Hin)].
  unfold PaymentHandler_Routes.
  repeat (apply Forall_cons_2; [eexists; split; [reflexivity|]; cbn [snd];
    first [apply H1|apply H2|apply pay_with_role_demands|intros o r d _ []; exact I]|]).
  constructor.
Qed.

Definition sample_pay_handler : PaymentHandler := mkPaymentHandler pay_service "key" "token".

Lemma payment_routes_guarded_witness : ∃ c,
  payment_policy sample_pay_handler "POST" "/api/payments/internal" = Some c ∧
  demands c (requireInternalKey sample_pay_handler
               (PaymentHandler_InitiateTxnForBooking sample_pay_handler)).
Proof.
  apply (payment_routes_guarded sample_pay_handler true).
  apply (list_elem_of_lookup_2 _ 2). reflexivity.
Defined.

(** ** The call from ticketing *)

(** The request of the payment client as it arrives: the deadline is text. *)
Definition wire (q : initiateRequest) : request :=
  mkRequest background
    (λ h, if bool_decide (h = "X-Internal-Key") then iq_InternalKey q else "")
    (λ _, "") (λ _, "")
    (Some (JObj [("booking_id", str_json (iq_BookingID q)); ("event_id", str_json (iq_EventID q));
                 ("user_id", str_json (iq_UserID q)); ("email", str_json (iq_Email q));
                 ("amount_rupiah", JNum (iq_AmountRupiah q));
                 ("expires_at", str_json (FormatRFC3339 (iq_ExpiresAt q)))])).

Definition wire_create (q : initiateRequest) (expires : Z) : InternalCreateRequest :=
  mkInternalCreateRequest (iq_BookingID q) (iq_EventID q) (iq_UserID q) (iq_Email q)
    (iq_AmountRupiah q) expires.

Lemma decode_wire q :
  Decode decode_internal (r_body (wire q)) =
    if bool_decide (in_int64 (iq_AmountRupiah q)) then
      match ParseRFC3339 (FormatRFC3339 (iq_ExpiresAt q)) with
      | Some t => Ok (wire_create q t)
      | None => Err type_error
      end
    else Err type_error.
Proof.
  unfold decode_internal, wire. cbn [r_body Decode]. unfold wire_create.
  assert (dec_time zero_time (str_json (FormatRFC3339 (iq_ExpiresAt q))) =
    match ParseRFC3339 (FormatRFC3339 (iq_ExpiresAt q)) with
    | Some t => Ok t | None => Err type_error end) as H5.
  { unfold str_json. by destruct (ParseRFC3339 _). }
  remember (str_json (iq_BookingID q)) as x1. remember (str_json (iq_EventID q)) as x2.
  remember (str_json (iq_UserID q)) as x3. remember (str_json (iq_Email q)) as x4.
  remember (str_json (FormatRFC3339 (iq_ExpiresAt q))) as x5.
  remember (JNum (iq_AmountRupiah q)) as x6.
  read_object. rewrite H5. cbn [dec_int].
  case_bool_decide; [|done]. by destruct (ParseRFC3339 _).
Qed.

Definition initiate_route (h : PaymentHandler) : request → pprog (response payData) :=
  requireInternalKey h (PaymentHandler_InitiateTxnForBooking h).

(** The program behind the route, once key and body are accepted. *)
Definition initiate_program (h : PaymentHandler) (q : initiateRequest) (expires : Z) :
    pprog (response payData) :=
  t ← InitiateTxnForBooking (ph_svc h) (iq_BookingID q) (iq_EventID q) (iq_UserID q)
        (iq_Email q) (iq_AmountRupiah q) expires;
  Ret match t with
      | Err _ => InternalServerError "failed to create transaction"
      | Ok txn => Created (DCreated (tx_ID txn) (tx_BookingID txn))
      end.

Lemma initiate_route_wire h q :
  iq_InternalKey q = ph_internalKey h → in_int64 (iq_AmountRupiah q) →
  0 ≤ year_of (iq_ExpiresAt q) < 10000 →
  iq_BookingID q ≠ "" → iq_EventID q ≠ "" → iq_UserID q ≠ "" →
  initiate_route h (wire q) =
    if bool_decide (iq_AmountRupiah q ≤ 0)
    then Ret (BadRequest "booking_id, event_id, user_id and amount_rupiah are required")
    else initiate_program h q (rfc3339 (iq_ExpiresAt q)).
Proof.
  intros Hkey Hin Hy Hb He Hu. unfold initiate_route, requireInternalKey.
  rewrite bool_decide_eq_true_2 by done. cbn [negb].
  unfold PaymentHandler_InitiateTxnForBooking. rewrite decode_wire, bool_decide_eq_true_2, parse_format by done.
  unfold wire_create. cbn [ic_BookingID ic_EventID ic_UserID ic_AmountRupiah ic_Email ic_ExpiresAt].
  by rewrite !(bool_decide_eq_false_2 (_ = "")) by done.
Qed.

(** Across the two services: a well-formed call of the payment client,
    with the shared key, is answered 201 and leaves exactly one initiated
    transaction for the booking, with the client's user, event, amount and
    deadline; a second call is answered the same and changes nothing.  A call
    whose amount is not positive, as for a free ticket, is refused with 400. *)
Theorem initiate_over_http (o : oracle payE) h q d :
  faultless o → pay_inv d [] → iq_InternalKey q = ph_internalKey h →
  in_int64 (iq_AmountRupiah q) → 0 ≤ year_of (iq_ExpiresAt q) < 10000 →
  iq_BookingID q ≠ "" → iq_EventID q ≠ "" → iq_UserID q ≠ "" →
  txn_of_booking (iq_BookingID q) d = None → transactions d !! o_uuid o 0 = None →
  if bool_decide (iq_AmountRupiah q ≤ 0)
  then response_status (exec o (initiate_route h (wire q)) d).2 = 400 ∧
    (exec o (initiate_route h (wire q)) d).1 = d
  else ∃ now, let d' := set_transactions (<[o_uuid o 0 := txn_row now
      (new_txn (ph_svc h) (o_uuid o 0) (iq_BookingID q) (iq_EventID q) (iq_UserID q)
         (iq_Email q) (iq_AmountRupiah q) (rfc3339 (iq_ExpiresAt q)))]> (transactions d)) d in
    exec o (initiate_route h (wire q)) d =
      (d', Created (DCreated (o_uuid o 0) (iq_BookingID q))) ∧
    exec o (initiate_route h (wire q)) d' =
      (d', Created (DCreated (o_uuid o 0) (iq_BookingID q))).
Proof.
  intros Hcalm HI Hkey Hin Hy Hb He Hu Hnone Hfresh.
  rewrite (initiate_route_wire h q) by done. case_bool_decide as Hamt; [done|].
  set (txn := new_txn (ph_svc h) (o_uuid o 0) (iq_BookingID q) (iq_EventID q) (iq_UserID q)
    (iq_Email q) (iq_AmountRupiah q) (rfc3339 (iq_ExpiresAt q))).
  destruct (exec_ex o (initiate_program h q (rfc3339 (iq_ExpiresAt q))) d (Created (DCreated (o_uuid o 0) (iq_BookingID q)))
    (λ d', ∃ now, d' = set_transactions (<[o_uuid o 0 := txn_row now txn]> (transactions d)) d))
    as (d' & Hex & now & ->).
  { apply runs_bind, runs_Initiate_new; [done|done|done|lia|]. intros n' now.
    apply runs_ret. eauto. }
  exists now. split; [exact Hex|].
  set (d' := set_transactions _ d) in *.
  assert (pay_inv d' []) as HI'.
  { pose proof (pay_inv_insert_txn txn now d [] HI) as HI'. unfold txn in HI'.
    rewrite insert_new_txn in HI' by (done || lia). exact HI'. }
  assert (txn_of_booking (iq_BookingID q) d' = Some (txn_row now txn)) as Hfound.
  { eapply txn_of_booking_single; [exact HI'|apply lookup_insert_eq|done]. }
  apply exec_eq, runs_bind. eapply (runs_Initiate_again o); [done|exact HI'|exact Hfound|lia|done].
Qed.

Definition sample_call (amount : Z) : initiateRequest :=
  mkInitiateRequest "http://payment:8083/api/payments/internal" "key" "bk" "ev" "u" "u@mail"
    amount (pay_time + 900 * Second).

Lemma initiate_over_http_witness :
  (∃ d', exec (pay_oracle pay_time) (initiate_route sample_pay_handler
       (wire (sample_call 1100))) pay_empty =
     (d', Created (DCreated "id-0" "bk"))) ∧
  response_status (exec (pay_oracle pay_time) (initiate_route sample_pay_handler
       (wire (sample_call 0))) pay_empty).2 = 400.
Proof.
  split.
  - edestruct (initiate_over_http (pay_oracle pay_time) sample_pay_handler (sample_call 1100) pay_empty) as (now & Hex & _);
      [done|apply pay_inv_empty|done|vm_compute; done|vm_compute; done|done|done|done|reflexivity|reflexivity|].
    eexists. exact Hex.
  - apply (initiate_over_http (pay_oracle pay_time) sample_pay_handler (sample_call 0) pay_empty);
      [done|apply pay_inv_empty|done|vm_compute; done|vm_compute; done|done|done|done|reflexivity|reflexivity].
Defined.
