(* ===== verification/System.v ===== *)
(** * The two services together

    Ticketing and payment with what lies between them: the HTTP call that
    creates a transaction, the two outbox workers, and the broker.  The world
    holds both databases, the broker's log, the calls ticketing has sent and
    the answers payment has given, and the UUIDs drawn so far.  The programs of
    [Booking], [Event], [TicketHandler], [Payment], [PayHandler] and [Outbox]
    run in it unchanged: [interp] replaces their effects by effects on the
    world. *)
From S2P Require Import Prelude Effects Json Dto Outbox TicketDB Booking Event TicketHandler TicketHttp PayDB Payment PayHandler PayHttp.

#[export] Instance initiateRequest_eq_dec : EqDecision initiateRequest.
Proof. solve_decision. Defined.

(** ** The world *)

(** A session asked of the gateway: booking, amount and currency. *)
Record sessionCall := mkSessionCall {
  sc_RefID : string;
  sc_AmountRupiah : Z;
  sc_Currency : string;
}.

Record world := mkWorld {
  w_ticket : TicketDB;
  w_pay : PayDB;
  w_broker : broker;
  w_requests : list initiateRequest;
  w_answers : list (initiateRequest * Z);
  w_ids : gset string;
  w_sessions : list sessionCall;
}.

Definition set_ticket d (w : world) : world :=
  mkWorld d (w_pay w) (w_broker w) (w_requests w) (w_answers w) (w_ids w) (w_sessions w).
Definition set_pay d (w : world) : world :=
  mkWorld (w_ticket w) d (w_broker w) (w_requests w) (w_answers w) (w_ids w) (w_sessions w).
Definition set_broker b (w : world) : world :=
  mkWorld (w_ticket w) (w_pay w) b (w_requests w) (w_answers w) (w_ids w) (w_sessions w).

(** What the environment decides: the gateway's answers, and what the network
    delivers to a waiting client: one of the answers payment has given, or a
    failure that is none of payment's. *)
Inductive sysE : Type → Type :=
  | Gateway {A} (x : payE A) : sysE A
  | Network : sysE (nat + res Z).

Abbreviation sprog := (prog (eff world sysE)).

(** ** Statements on the world *)

Definition on_ticket {A} (f : stmt TicketDB A) : stmt world A := λ t w,
  let '(d, r) := f t (w_ticket w) in (set_ticket d w, r).
Definition on_pay {A} (f : stmt PayDB A) : stmt world A := λ t w,
  let '(d, r) := f t (w_pay w) in (set_pay d w, r).
(** A worker sees its service's database and the broker. *)
Definition on_ticket_worker {A} (f : stmt (TicketDB * broker) A) : stmt world A := λ t w,
  let '(d, r) := f t (w_ticket w, w_broker w) in (set_broker d.2 (set_ticket d.1 w), r).
Definition on_pay_worker {A} (f : stmt (PayDB * broker) A) : stmt world A := λ t w,
  let '(d, r) := f t (w_pay w, w_broker w) in (set_broker d.2 (set_pay d.1 w), r).

(** A UUID nobody has drawn before: the candidate [s] when it is new. *)
Definition draw (s : string) : stmt world string := λ _ w,
  let id := if decide (s ∈ w_ids w) then fresh (w_ids w) else s in
  (mkWorld (w_ticket w) (w_pay w) (w_broker w) (w_requests w) (w_answers w)
     ({[id]} ∪ w_ids w) (w_sessions w), Ok id).

Definition timeout_error : error := Plain "context deadline exceeded".

(** The two ends of the call. *)
Definition send (q : initiateRequest) : stmt world unit := λ _ w,
  (mkWorld (w_ticket w) (w_pay w) (w_broker w) (w_requests w ++ [q]) (w_answers w) (w_ids w)
     (w_sessions w), Ok ()).
Definition receive (q : initiateRequest) (i : nat) : stmt world Z := query (λ w,
  match w_answers w !! i with
  | Some (q', code) => if decide (q' = q) then Ok code else Err timeout_error
  | None => Err timeout_error
  end).
Definition accept (i : nat) : stmt world initiateRequest :=
  query (λ w, row_or_error (w_requests w !! i)).
Definition answer (q : initiateRequest) (code : Z) : stmt world unit := λ _ w,
  (mkWorld (w_ticket w) (w_pay w) (w_broker w) (w_requests w) (w_answers w ++ [(q, code)])
     (w_ids w) (w_sessions w), Ok ()).

(** A session request that reaches the gateway. *)
Definition ask (c : sessionCall) : stmt world unit := λ _ w,
  (mkWorld (w_ticket w) (w_pay w) (w_broker w) (w_requests w) (w_answers w) (w_ids w)
     (w_sessions w ++ [c]), Ok ()).

(** The [i]-th message of the log, when it belongs to the topic. *)
Definition fetch (topic : string) (i : nat) : stmt world message := query (λ w,
  match w_broker w !! i with
  | Some m => if decide (msg_Topic m = topic) then Ok m else Err NoRows
  | None => Err NoRows
  end).

(** ** Running the services' programs in the world *)

Section handlers.
Context {A : Type} (dead : A).

(** [uuid.NewString] panics when the random source fails; [dead] is what the
    recovered panic leaves of the program. *)
Definition new_uuid (k : string → sprog A) : sprog A :=
  Vis NewUUID (λ s, Vis (Sql (draw s)) (λ r,
    match r with Ok id => k id | Err _ => Ret dead end)).

(** An answer that does not come from payment is no success. *)
Definition not_success (r : res Z) : res Z :=
  match r with
  | Ok code => if bool_decide (200 ≤ code < 300) then Err timeout_error else Ok code
  | Err e => Err e
  end.

(** [httpClient.Do]: the request may be lost, answered by payment, or fail on
    the way back while payment still works on it. *)
Definition http_call (q : initiateRequest) (k : res Z → sprog A) : sprog A :=
  Vis (Sql (send q)) (λ r,
    match r with
    | Err e => k (Err e)
    | Ok _ => Vis (Ext Network) (λ n,
        match n with
        | inl i => Vis (Sql (receive q i)) k
        | inr r => k (not_success r)
        end)
    end).

Definition ticket_handler B (e : eff TicketDB ticketE B) : (B → sprog A) → sprog A :=
  match e in eff _ _ B return (B → sprog A) → sprog A with
  | Sql f => λ k, Vis (Sql (on_ticket f)) k
  | Now => λ k, Vis Now k
  | NewUUID => new_uuid
  | Ext x => match x in ticketE B return (B → sprog A) → sprog A with HttpDo q => http_call q end
  end.

(** A call of the gateway: a session request may be lost on either way. *)
Definition gateway_call {B} (x : payE B) : (B → sprog A) → sprog A :=
  match x in payE B return (B → sprog A) → sprog A with
  | CreateSession ref amount cur exp channels email => λ k,
      Vis (Sql (ask (mkSessionCall ref amount cur))) (λ r,
        match r with
        | Err e => k (Err e)
        | Ok _ => Vis (Ext (Gateway (CreateSession ref amount cur exp channels email))) k
        end)
  | CancelSession ref => λ k, Vis (Ext (Gateway (CancelSession ref))) k
  | GetSession ref => λ k, Vis (Ext (Gateway (GetSession ref))) k
  end.

Definition pay_handler B (e : eff PayDB payE B) : (B → sprog A) → sprog A :=
  match e in eff _ _ B return (B → sprog A) → sprog A with
  | Sql f => λ k, Vis (Sql (on_pay f)) k
  | Now => λ k, Vis Now k
  | NewUUID => new_uuid
  | Ext x => gateway_call x
  end.

Definition ticket_prog : tprog A → sprog A := interp ticket_handler.
Definition pay_prog : pprog A → sprog A := interp pay_handler.
End handlers.

(** The workers: two lenses on the world. *)
Definition worker_handler {D A} (lens : ∀ B, stmt (D * broker) B → stmt world B) (dead : A) B
    (e : eff (D * broker) noExt B) : (B → sprog A) → sprog A :=
  match e in eff _ _ B return (B → sprog A) → sprog A with
  | Sql f => λ k, Vis (Sql (lens _ f)) k
  | Now => λ k, Vis Now k
  | NewUUID => new_uuid dead
  | Ext x => match x : Empty_set with end
  end.

Definition ticket_worker : sprog unit :=
  interp (worker_handler (@on_ticket_worker) ()) processBatch.
Definition pay_worker : sprog unit :=
  interp (worker_handler (@on_pay_worker) ()) processBatch.

(** Payment serves the [i]-th call ticketing has sent, possibly again; a panic
    is answered with 500 by the recovering middleware. *)
Definition serve (h : PaymentHandler) (i : nat) : sprog unit :=
  r ← sql (accept i);
  match r with
  | Err _ => Ret ()
  | Ok q =>
      resp ← pay_prog (InternalServerError "") (initiate_route h (wire q));
      _ ← sql (answer q (response_status resp));
      Ret ()
  end.

(** A consumer goroutine: any message of its topic, in any order and as often
    as the broker redelivers it. *)
Definition ticket_consumer (topic : string) (handler : message → tprog (res unit)) (i : nat) :
    sprog unit :=
  r ← sql (fetch topic i);
  match r with
  | Err _ => Ret ()
  | Ok m => ticket_prog () (discard (handler m))
  end.
Definition pay_consumer (i : nat) : sprog unit :=
  r ← sql (fetch "event.cancelled" i);
  match r with
  | Err _ => Ret ()
  | Ok m => pay_prog () (discard (pay_onEventCancelled m))
  end.

(** Everything that runs: requests to every route of both services with any
    headers and bodies (the internal route of payment only with a key that is
    not the shared one: the others come from [serve]), the consumers, the
    poller and the workers. *)
Inductive sys_entry `{!Validator} (s : BookingService) (h : PaymentHandler) : sprog unit → Prop :=
  | SY_ticket method pattern f r :
      (method, pattern, f) ∈ ticketing_routes s → sys_entry s h (ticket_prog () (discard (f r)))
  | SY_pay readable method pattern f r :
      (method, pattern, f) ∈ PaymentHandler_Routes h readable →
      (pattern = "/api/payments/internal" → r_header r "X-Internal-Key" ≠ ph_internalKey h) →
      sys_entry s h (pay_prog () (discard (f r)))
  | SY_serve i : sys_entry s h (serve h i)
  | SY_poll ctx : sys_entry s h (pay_prog () (expiryTick ctx))
  | SY_completed ctx i :
      sys_entry s h (ticket_consumer "payment.completed" (onPaymentCompleted ctx) i)
  | SY_expired i : sys_entry s h (ticket_consumer "payment.expired" onPaymentExpired i)
  | SY_cancelled i : sys_entry s h (ticket_consumer "event.cancelled" onEventCancelled i)
  | SY_refund i : sys_entry s h (pay_consumer i)
  | SY_ticket_worker : sys_entry s h ticket_worker
  | SY_pay_worker : sys_entry s h pay_worker.

(** A deployment that has sold nothing yet: events may exist. *)
Record launched (w : world) : Prop := {
  ln_ticket : bookings (w_ticket w) = ∅ ∧ booking_items (w_ticket w) = ∅ ∧
    outbox_rows (ticket_outbox (w_ticket w)) = [];
  ln_pay : transactions (w_pay w) = ∅ ∧ refund_requests (w_pay w) = ∅ ∧
    outbox_rows (pay_outbox (w_pay w)) = [];
  ln_rest : w_broker w = [] ∧ w_requests w = [] ∧ w_sessions w = [];
}.
