(* ===== verification/SystemSafety.v ===== *)
(** * The two services agree about a booking

    Over every interleaving of both services, their workers and the network,
    whatever fails or is lost: a booking is confirmed only when payment has a
    completed transaction for it, of the user and event of the booking and over
    its full price, and expired only when payment has an expired one. *)
From S2P Require Import Prelude Effects TimeText Json Dto Outbox TicketDB Booking Event Seats SeatSafety ReserveSpec TicketHandler TicketHttp PayDB Payment PaymentSafety PayHandler PayHttp System.

(** ** What ticketing's statements do *)

(** What a message vouches for: the booking, and the status of its transaction.
    A ticket vouches for the payment. *)
Definition vouched (p : payload) : option (string * string) :=
  match p with
  | PPaymentCompleted m => Some (pc_BookingID m, "completed")
  | PPaymentExpired m => Some (pe_BookingID m, "expired")
  | PTicketIssued m => Some (ti_BookingID m, "completed")
  | PEventCancelled _ => None
  end.

(** The status of the transaction that stands behind a booking's status. *)
Definition backed_by (status : string) : option string :=
  if bool_decide (status = "confirmed") then Some "completed"
  else if bool_decide (status = "expired") then Some "expired"
  else None.

(** The topic an event is published on. *)
Definition topic_of (p : payload) : string :=
  match p with
  | PEventCancelled _ => "event.cancelled"
  | PPaymentCompleted _ => "payment.completed"
  | PPaymentExpired _ => "payment.expired"
  | PTicketIssued _ => "ticket.issued"
  end.

(** Items belong to a booking, and bookings are stored under their id. *)
Record tables_wf (d : TicketDB) : Prop := {
  tw_items k i : booking_items d !! k = Some i → is_Some (bookings d !! ir_booking_id i);
  tw_ids k row : bookings d !! k = Some row → br_id row = k;
}.

Lemma tables_wf_same d d' :
  bookings d' = bookings d → booking_items d' = booking_items d → tables_wf d → tables_wf d'.
Proof. intros Hb Hi []. split; [by rewrite Hb, Hi|by rewrite Hb]. Qed.

(** The messages of the table are old ones, or satisfy [Q]. *)
Definition adds_only (Q : message → Prop) (ob ob' : outboxTable) : Prop :=
  ∀ r', r' ∈ outbox_rows ob' →
    (∃ r, r ∈ outbox_rows ob ∧ row_message r = row_message r') ∨ Q (row_message r').

Lemma adds_only_refl Q ob : adds_only Q ob ob.
Proof. intros r Hr. left. by exists r. Qed.

Lemma adds_only_trans Q ob1 ob2 ob3 :
  adds_only Q ob1 ob2 → adds_only Q ob2 ob3 → adds_only Q ob1 ob3.
Proof.
  intros H12 H23 r3 Hr3. destruct (H23 r3 Hr3) as [(r2 & Hr2 & Heq)|?]; [|by right].
  rewrite <- Heq. by apply H12.
Qed.

Lemma deliver_payload id r : ob_Payload (deliver id r) = ob_Payload r.
Proof. unfold deliver. by case_bool_decide. Qed.

Lemma adds_only_mark Q id ob :
  adds_only Q ob (mkOutbox (outbox_seq ob) (deliver id <$> outbox_rows ob)).
Proof.
  intros r' (r & -> & Hr)%list_elem_of_fmap. left. exists r. by rewrite deliver_message.
Qed.

Lemma adds_only_insert (Q : message → Prop) id r ob :
  Q (row_message r) → adds_only Q ob (mkOutbox id (outbox_rows ob ++ [r])).
Proof.
  intros HQ r' [Hr| ->%list_elem_of_singleton]%elem_of_app; [left; by exists r'|by right].
Qed.

(** A message on its topic that vouches only for what [C] allows. *)
Definition vouches (C : string → string → Prop) (m : message) : Prop :=
  msg_Topic m = topic_of (msg_Value m) ∧ ∀ b s, vouched (msg_Value m) = Some (b, s) → C b s.

Lemma vouches_mono (C C' : string → string → Prop) m :
  (∀ b s, C b s → C' b s) → vouches C m → vouches C' m.
Proof. intros HC [Ht Hv]. split; auto. Qed.

(** A status of booking [b] that [C] allows. *)
Definition allowed (C : string → string → Prop) (b status : string) : Prop :=
  ∀ s, backed_by status = Some s → C b s.

Lemma allowed_cancelled C b : allowed C b "cancelled".
Proof. by intros s. Qed.
Lemma allowed_pending C b : allowed C b "pending".
Proof. by intros s. Qed.
Lemma allowed_confirmed C b : C b "completed" → allowed C b "confirmed".
Proof. by intros HC s [= <-]. Qed.
Lemma allowed_expired (C : string → string → Prop) b : C b "expired" → allowed C b "expired".
Proof. by intros HC s [= <-]. Qed.
Lemma allowed_mono (C C' : string → string → Prop) b status :
  (∀ s, C b s → C' b s) → allowed C b status → allowed C' b status.
Proof. intros HC Ha s Hs. by apply HC, Ha. Qed.
#[export] Hint Resolve allowed_cancelled allowed_pending allowed_confirmed allowed_expired : ticket.

(** Items stay, bookings are not created, keep user and event, take a new
    status, and have tickets issued, only when [C] allows it. *)
Record books_step (C : string → string → Prop) (d d' : TicketDB) : Prop := {
  bs_items : booking_items d' = booking_items d;
  bs_rows b row' : bookings d' !! b = Some row' →
    ∃ row, bookings d !! b = Some row ∧ br_user_id row' = br_user_id row ∧
      br_event_id row' = br_event_id row ∧
      (br_status row' = br_status row ∨ allowed C b (br_status row'));
  bs_wf : tables_wf d → tables_wf d';
  bs_outbox : adds_only (vouches C) (ticket_outbox d) (ticket_outbox d');
}.

#[export] Instance books_step_preorder C : PreOrder (books_step C).
Proof.
  split.
  - intros d. split; [done| |done|apply adds_only_refl]. intros b row Hrow. exists row. auto.
  - intros d1 d2 d3 [] []. split; [congruence| |auto|by eapply adds_only_trans]. intros b row3 H3.
    destruct (bs_rows1 b row3 H3) as (row2 & H2 & Hu2 & He2 & Hs2).
    destruct (bs_rows0 b row2 H2) as (row1 & H1 & Hu1 & He1 & Hs1).
    exists row1. split_and!; [done|congruence|congruence|].
    destruct Hs2 as [-> |?]; [done|by right].
Qed.

Lemma books_same C d d' :
  bookings d' = bookings d → booking_items d' = booking_items d →
  ticket_outbox d' = ticket_outbox d → books_step C d d'.
Proof.
  intros Hb Hi Ho. split; [done| | |rewrite Ho; apply adds_only_refl].
  - intros b row. rewrite Hb. intros Hrow. exists row. auto.
  - by apply tables_wf_same.
Qed.

Lemma books_mono (C C' : string → string → Prop) d d' :
  (∀ b s, C b s → C' b s) → books_step C d d' → books_step C' d d'.
Proof.
  intros HC []. split; [done| |done|].
  2:{ intros r' Hr'. destruct (bs_outbox0 r' Hr') as [?|?]; [by left|right; by apply (vouches_mono C)]. }
  intros b row' Hrow.
  destruct (bs_rows0 b row' Hrow) as (row & ? & ? & ? & Hs). exists row.
  split_and!; [done..|]. destruct Hs; [by left|right]. eapply allowed_mono; [apply HC|done].
Qed.

Section statements.
Context (C : string → string → Prop).

Lemma books_query {A} (f : TicketDB → res A) t d : books_step C d (query f t d).1.
Proof. done. Qed.

Lemma books_outbox topic key p tc t d :
  topic = topic_of p → (∀ b s, vouched p = Some (b, s) → C b s) →
  books_step C d (insert_outbox topic key p tc t d).1.
Proof.
  intros Ht Hp. split; [done| |by apply tables_wf_same|by apply adds_only_insert].
  intros b row Hrow. exists row. auto.
Qed.

Lemma books_insert_event e t d : books_step C d (insert_event e t d).1.
Proof. unfold insert_event. repeat case_match; by apply books_same. Qed.

Lemma books_update_event e now t d : books_step C d (update_event e now t d).1.
Proof. unfold update_event. repeat case_match; by apply books_same. Qed.

Lemma books_insert_ticket_type ty t d : books_step C d (insert_ticket_type ty t d).1.
Proof. unfold insert_ticket_type. repeat case_match; by apply books_same. Qed.

Lemma books_counted (f : TicketDB → res (TicketDB * Z)) t d :
  (∀ d' n, f d = Ok (d', n) → books_step C d d') → books_step C d (counted f t d).1.
Proof. intros Hf. unfold counted. destruct (f d) as [[d' n]|e]; [by eapply Hf|done]. Qed.

Lemma books_types id c g d d' n :
  update_ticket_type id c g d = Ok (d', n) → books_step C d d'.
Proof. by intros [[_ ->]|(_ & ty & _ & _ & _ & ->)]%update_ticket_type_Ok; apply books_same. Qed.

Lemma books_update_ticket_type id c g t d :
  books_step C d (counted (update_ticket_type id c g) t d).1.
Proof. apply books_counted. intros d' n. apply books_types. Qed.

Lemma books_reserve id q t d : books_step C d (counted (reserve_seats id q) t d).1.
Proof.
  apply books_counted. intros d' n. unfold reserve_seats. case_bool_decide; [|done]. apply books_types.
Qed.

Lemma books_release_items its d d' : release_items its d = Ok d' → books_step C d d'.
Proof. intros (? & ? & ? & ?)%release_items_same. by apply books_same. Qed.

Lemma books_release id q t d : books_step C d (counted (release_seats id q) t d).1.
Proof.
  apply books_counted. intros d' n Hr. apply (books_release_items [mkBookingItem "" "" id q 0 0]).
  cbn. by rewrite Hr.
Qed.

Lemma books_init id total t d :
  books_step C d (counted (λ d, if bool_decide (in_int4 total)
    then update_ticket_type id (λ _, true) (set_available total) d
    else Err numeric_out_of_range) t d).1.
Proof. apply books_counted. intros d' n. case_bool_decide; [|done]. apply books_types. Qed.

Lemma books_status id from to d d' n :
  allowed C id to → update_booking_status id from to d = Ok (d', n) → books_step C d d'.
Proof.
  intros Hto. unfold update_booking_status.
  destruct (bookings d !! id) as [row|] eqn:Hrow; [|by intros [= <- <-]].
  case_bool_decide; [|by intros [= <- <-]]. destruct (booking_check _); [|done].
  intros [= <- <-]. split; [done| | |apply adds_only_refl].
  - intros b row'. cbn. rewrite lookup_insert_Some. intros [[<- <-]|[Hne Hb]].
    + exists row. split_and!; [done..|]. by right.
    + exists row'. auto.
  - intros [Hfk Hid]. split; cbn; [intros k i Hk|intros k r].
    + rewrite lookup_insert_is_Some'. right. by eapply Hfk.
    + rewrite lookup_insert_Some. intros [[<- <-]|[_ Hr]]; [by apply (Hid id row)|by apply Hid].
Qed.

Lemma books_confirm bid t d :
  C bid "completed" →
  books_step C d (counted (update_booking_status bid "pending" "confirmed") t d).1.
Proof.
  intros HC. apply books_counted. intros d' n. apply books_status. by apply allowed_confirmed.
Qed.

Lemma books_transition b to t d :
  allowed C (bk_ID b) to → books_step C d (transition_and_release b to t d).1.
Proof.
  intros Hto. unfold transition_and_release.
  destruct (update_booking_status _ _ _ d) as [[d1 n]|e] eqn:Hu; [|done].
  case_bool_decide; [done|]. destruct (release_items _ d1) as [d2|e] eqn:Hr; [|done]. cbn.
  etrans; [by eapply books_status|]. by eapply books_release_items.
Qed.

Lemma books_delete bid t d : books_step C d (counted (delete_booking bid) t d).1.
Proof.
  apply books_counted. intros d' n. unfold delete_booking.
  destruct (bookings d !! bid) as [row|] eqn:Hrow; [|by intros [= <- <-]].
  case_bool_decide; [|by intros [= <- <-]]. case_bool_decide as Hno; [|done].
  intros [= <- <-]. split; [done| | |apply adds_only_refl].
  - intros b row'. cbn. rewrite lookup_delete_Some. intros [_ Hb]. exists row'. auto.
  - intros [Hfk Hid]. split; cbn; [intros k i Hk|intros k r [_ Hr]%lookup_delete_Some; auto].
    rewrite lookup_delete_ne; [by eapply Hfk|]. intros ->.
    assert (i ∈ items_of (ir_booking_id i) d) as Hin by (apply items_of_elem; eauto).
    rewrite Hno in Hin. by apply elem_of_nil in Hin.
Qed.
End statements.

#[export] Hint Resolve books_query books_insert_event books_update_event
  books_insert_ticket_type books_update_ticket_type books_reserve books_release books_init
  books_confirm books_transition books_delete : ticket.
#[export] Hint Extern 0 (books_step _ _ (insert_outbox _ _ _ _ _ _).1) =>
  solve [apply books_outbox; [done|intros ? ? [= <- <-]; done]] : ticket.

(** ** Programs of ticketing that make no call *)

(** What a statement may answer: its result on tables that are well formed, or
    a failure. *)
Definition answer_of {A} (f : stmt TicketDB A) (a : res A) : Prop :=
  (∃ t d, tables_wf d ∧ (f t d).2 = a) ∨ ∃ e, a = Err e.

Lemma answer_query {A} (f : TicketDB → res A) a :
  answer_of (query f) (Ok a) → ∃ d, tables_wf d ∧ f d = Ok a.
Proof. intros [(t & d & Hd & Ha)|[e He]]; [by exists d|done]. Qed.

Section quiet.
Context (C : string → string → Prop).

Fixpoint quiet {A} (p : tprog A) : Prop :=
  match p with
  | Ret _ => True
  | Vis e k =>
      match e in eff _ _ Y return (Y → Prop) → Prop with
      | Sql f => λ K, (∀ t d, books_step C d (f t d).1) ∧ ∀ a, answer_of f a → K a
      | Ext _ => λ _, False
      | _ => λ K, ∀ a, K a
      end (λ a, quiet (k a))
  end.

Lemma quiet_bind {A B} (f : A → tprog B) p :
  quiet p → (∀ a, quiet (f a)) → quiet (prog_bind f p).
Proof.
  intros Hp Hf. induction p as [a|Y e k IH]; cbn; [apply Hf|].
  destruct e as [B' g| | |B' x]; cbn in *; [|auto..|done].
  destruct Hp as [He Hk]. auto.
Qed.

Lemma quiet_map {A B} (f : A → B) (p : tprog A) : quiet p → quiet (prog_bind (λ a, Ret (f a)) p).
Proof. intros Hp. by apply quiet_bind. Qed.
End quiet.

Lemma quiet_mono (C C' : string → string → Prop) {A} (p : tprog A) :
  (∀ b s, C b s → C' b s) → quiet C p → quiet C' p.
Proof.
  intros HC. induction p as [a|Y e k IH]; cbn; [done|].
  destruct e as [B' g| | |B' x]; cbn; [|auto..|done].
  intros [He Hk]. split; [|auto]. intros t d. by eapply books_mono.
Qed.

(** Walks a program as [guards_solve] does. *)
Ltac quiet_solve :=
  repeat first
    [ progress intros
    | apply quiet_bind
    | insert_cases
    | progress cbn [quiet sql time_Now uuid_NewString]
    | split; [auto with ticket|]
    | done
    | case_match ].

Section programs.
Context (C : string → string → Prop).
Local Abbreviation qt := (quiet C).

Lemma qt_release ev id q : qt (SeatCounter_Release ev id q).
Proof. unfold SeatCounter_Release. quiet_solve. Qed.

Lemma qt_reserveLoop ev items todo : qt (reserveLoop ev items todo).
Proof.
  assert (∀ item its, qt (rollbackBefore ev item its)) as Hrb.
  { intros item its. induction its as [|i its IH]; cbn [rollbackBefore]; [done|].
    case_bool_decide; [done|]. apply quiet_bind; [apply qt_release|done]. }
  induction todo as [|i todo IH]; cbn [reserveLoop]; [done|].
  apply quiet_bind; [unfold SeatCounter_GetPrice; quiet_solve|]. intros [p|e]; [|done].
  destruct (negb _); [done|]. apply quiet_bind; [unfold SeatCounter_Reserve; quiet_solve|].
  intros []; [done|]. by apply quiet_bind.
Qed.

Lemma qt_rollbackSeats ev items : qt (rollbackSeats ev items).
Proof.
  induction items as [|i items IH]; cbn [rollbackSeats]; [done|].
  apply quiet_bind; [apply qt_release|done].
Qed.

Lemma qt_loadItems b : qt (BookingRepo_loadItems b).
Proof. unfold BookingRepo_loadItems. quiet_solve. Qed.

Lemma qt_load_all bs : qt (load_all bs).
Proof.
  induction bs as [|b bs IH]; cbn [load_all]; [done|].
  apply quiet_bind; [apply qt_loadItems|]. intros [b'|e]; [|done].
  by apply quiet_bind; [|intros []].
Qed.

Lemma qt_FindByID bid : qt (BookingRepo_FindByID bid).
Proof.
  unfold BookingRepo_FindByID. apply quiet_bind; [quiet_solve|].
  intros [b|e]; [apply qt_loadItems|done].
Qed.

(** The booking [loadPendingBooking] finds has the id it was asked for. *)
Lemma qt_loadPending {A} bid (f : res (option Booking) → tprog A) :
  (∀ b, bk_ID b = bid → qt (f (Ok (Some b)))) → qt (f (Ok None)) →
  qt (prog_bind f (loadPendingBooking bid)).
Proof.
  intros Hb Hn. unfold loadPendingBooking, BookingRepo_FindByID, BookingRepo_loadItems.
  cbn. split; [done|]. intros [row|e] Hrow; [|done]. apply answer_query in Hrow as (d & Hd & Hrow).
  destruct (bookings d !! bid) as [row'|] eqn:Hbid; [|done]. injection Hrow as ->.
  cbn. split; [done|]. intros [its|e] _; [|done]. cbn. change (foldl _ _ its) with (loaded row its).
  rewrite loaded_fields. destruct (negb _); [done|]. apply Hb. cbn. by apply (tw_ids d).
Qed.

Lemma qt_transition b to :
  allowed C (bk_ID b) to → qt (BookingRepo_TransitionAndReleaseSeats b to).
Proof. intros Hto. split; [|done]. intros t d. by apply books_transition. Qed.

Lemma qt_Confirm ctx bid pid : C bid "completed" → qt (Confirm ctx bid pid).
Proof.
  intros HC. unfold Confirm. apply qt_loadPending; [intros b _|done].
  apply quiet_bind; [unfold EventStatusRepo_IsPublished; quiet_solve|].
  intros [[]|e]; cbn [negb]; [| |done].
  - apply quiet_bind; [unfold BookingRepo_UpdateStatusIfPending; quiet_solve|].
    intros [[]|e]; cbn [negb]; [|done|done]. apply quiet_bind; [|done].
    induction (bk_Items b); cbn [issueTickets]; [done|]. apply quiet_bind; [quiet_solve|done].
  - apply quiet_bind; [by apply qt_transition|]. by intros [].
Qed.

Lemma qt_Expire bid : C bid "expired" → qt (ExpireOnPaymentExpired bid).
Proof.
  intros HC. unfold ExpireOnPaymentExpired, releaseReservation.
  apply qt_loadPending; [intros b Hb|done]. apply quiet_bind; [|by intros []].
  apply qt_transition. rewrite Hb. by apply allowed_expired.
Qed.

Lemma qt_CancelBookings ev : qt (CancelBookings ev).
Proof.
  unfold CancelBookings. apply quiet_bind.
  - unfold BookingRepo_ListByEventID. apply quiet_bind; [quiet_solve|].
    intros [rs|e]; [apply qt_load_all|done].
  - intros [bs|e]; [|done]. induction bs as [|b bs IH]; cbn [cancelLoop]; [done|].
    destruct (_ && _); [done|]. apply quiet_bind; [by apply qt_transition|by intros []].
Qed.

Lemma qt_initSeats ev types : qt (initSeats ev types).
Proof.
  induction types; cbn [initSeats]; [done|].
  apply quiet_bind; [unfold SeatCounter_Init; quiet_solve|]. intros [[]|e]; [|done].
  apply quiet_bind; [unfold SeatCounter_SetPrice; quiet_solve|]. by intros [[]|e].
Qed.

Lemma qt_stampTypes ev types : qt (stampTypes ev types).
Proof. induction types; cbn [stampTypes]; quiet_solve. Qed.

Lemma qt_CreateEvent o t de v a c st en types : qt (CreateEvent o t de v a c st en types).
Proof.
  unfold CreateEvent. repeat case_bool_decide; [done|done|].
  apply quiet_bind; [done|]. intros id.
  apply quiet_bind; [unfold EventRepo_CreateEvent; quiet_solve|]. intros []; [|done].
  apply quiet_bind; [apply qt_stampTypes|]. intros ts.
  apply quiet_bind; [|by intros []]. induction ts; cbn [EventRepo_CreateTicketTypes]; quiet_solve.
Qed.

Lemma qt_ApproveEvent ev admin : qt (ApproveEvent ev admin).
Proof.
  unfold ApproveEvent, EventRepo_FindEventByID.
  apply quiet_bind; [quiet_solve|]. intros [e|e]; [|done]. destruct (negb _); [done|].
  apply quiet_bind; [done|]. intros now. unfold EventRepo_UpdateEvent.
  apply quiet_bind; [quiet_solve|]. intros [[]|]; [|done]. unfold EventRepo_ListTicketTypesByEvent.
  apply quiet_bind; [quiet_solve|]. intros [ts|]; [|done].
  apply quiet_bind; [apply qt_initSeats|]. by intros [].
Qed.

Lemma qt_events :
  (∀ ev o t de st en, qt (UpdateEvent ev o t de st en)) ∧
  (∀ ev a r, qt (RejectEvent ev a r)) ∧ (∀ ctx ev u, qt (CancelEvent ctx ev u)) ∧
  (∀ ctx ev u c, qt (reprocessCancellation ctx ev u c)).
Proof.
  split_and!; intros; unfold UpdateEvent, RejectEvent, CancelEvent, reprocessCancellation,
    EventRepo_FindEventByID, EventRepo_UpdateEvent; quiet_solve.
Qed.

Lemma qt_GetEvent ev : qt (GetEvent ev).
Proof.
  unfold GetEvent, EventRepo_FindEventByID, EventRepo_ListTicketTypesByEvent.
  apply quiet_bind; [quiet_solve|]. intros [e|e]; [|done].
  apply quiet_bind; [quiet_solve|]. intros ts. apply quiet_bind; [|done].
  generalize (match ts with Ok types => types | Err _ => [] end). intros types.
  induction types as [|ty types IH]; cbn [liveTypes]; [done|].
  apply quiet_bind; [unfold SeatReader_Available; quiet_solve|]. intros n. by apply quiet_bind.
Qed.

Lemma qt_paged P order limit offset : qt (paged P order limit offset).
Proof. unfold paged, count_events, page_events. quiet_solve. Qed.
End programs.

(** ** The invariant *)

(** What a running program may own: a decided transaction to report, a booking
    id it has drawn, or a booking it has created and may ask payment about. *)
Inductive shold :=
  | HClaim (c : claim)
  | HFresh (b : string)
  | HBooked (b user ev : string) (amount : Z).

Definition hold_claim (h : shold) : option claim :=
  match h with HClaim c => Some c | _ => None end.
Definition hold_id (h : shold) : option string :=
  match h with HClaim _ => None | HFresh b | HBooked b _ _ _ => Some b end.
Definition claims (L : list shold) : list claim := omap hold_claim L.
Definition owned (L : list shold) : list string := omap hold_id L.

(** Payment has a decided transaction for the booking, of the given status. *)
Definition decided (w : world) (b s : string) : Prop :=
  terminal s ∧
  ∃ k t, transactions (w_pay w) !! k = Some t ∧ tx_BookingID t = b ∧ tx_Status t = s.

(** The price of a booking, as [GetBooking] computes it from its items. *)
Definition price (d : TicketDB) (b : string) : Z :=
  wrap64 (lsum ir_total_price_rupiah (items_of b d)).
Definition agrees (d : TicketDB) (b user ev : string) (amount : Z) : Prop :=
  ∀ row, bookings d !! b = Some row →
    br_user_id row = user ∧ br_event_id row = ev ∧ price d b = amount.

Definition txn_from (q : initiateRequest) (t : Transaction) : Prop :=
  tx_BookingID t = iq_BookingID q ∧ tx_UserID t = iq_UserID q ∧
  tx_EventID t = iq_EventID q ∧ tx_AmountRupiah t = iq_AmountRupiah q ∧
  tx_CustomerEmail t = iq_Email q.

Definition true_report (w : world) : message → Prop := vouches (decided w).

(** A session is asked for a booking at the amount of its transaction. *)
Definition billed (d : PayDB) (c : sessionCall) : Prop :=
  ∃ k t, transactions d !! k = Some t ∧ tx_BookingID t = sc_RefID c ∧
    tx_AmountRupiah t = sc_AmountRupiah c ∧ tx_Currency t = sc_Currency c.

Record sys_inv (w : world) (L : list shold) : Prop := {
  si_pay : pay_inv (w_pay w) (claims L);
  si_decided b row : bookings (w_ticket w) !! b = Some row →
    allowed (decided w) b (br_status row);
  si_outbox r : r ∈ outbox_rows (ticket_outbox (w_ticket w)) → true_report w (row_message r);
  si_reports r : r ∈ outbox_rows (pay_outbox (w_pay w)) → true_report w (row_message r);
  si_broker m : m ∈ w_broker w → true_report w m;
  si_txn k t : transactions (w_pay w) !! k = Some t → ∃ q, q ∈ w_requests w ∧ txn_from q t;
  si_req q : q ∈ w_requests w → iq_BookingID q ∈ w_ids w ∧
    agrees (w_ticket w) (iq_BookingID q) (iq_UserID q) (iq_EventID q) (iq_AmountRupiah q);
  si_rows b : is_Some (bookings (w_ticket w) !! b) → b ∈ w_ids w;
  si_tables : tables_wf (w_ticket w);
  si_own : NoDup (owned L);
  si_fresh b : HFresh b ∈ L → b ∈ w_ids w ∧ bookings (w_ticket w) !! b = None ∧
    ∀ q, q ∈ w_requests w → iq_BookingID q ≠ b;
  si_booked b u e a : HBooked b u e a ∈ L → b ∈ w_ids w ∧ agrees (w_ticket w) b u e a;
  si_sessions c : c ∈ w_sessions w → billed (w_pay w) c;
}.

(** What a step of any program may do, as far as the others care. *)
Definition sysR (w w' : world) : Prop :=
  txns_kept (w_pay w) (w_pay w') ∧ ∀ q, q ∈ w_requests w → q ∈ w_requests w'.

#[export] Instance sysR_preorder : PreOrder sysR.
Proof.
  split; [by split|]. intros w1 w2 w3 [H1 Q1] [H2 Q2]. split; [by etrans|auto].
Qed.

#[export] Instance sys_inv_perm w : Proper ((≡ₚ) ==> iff) (sys_inv w).
Proof.
  assert (∀ L L', L ≡ₚ L' → sys_inv w L → sys_inv w L') as Himp.
  { intros L L' HL []. split; try done.
    - unfold claims in *. by rewrite <- HL.
    - unfold owned in *. by rewrite <- HL.
    - intros b. rewrite <- HL. auto.
    - intros b u e a. rewrite <- HL. auto. }
  intros L L' HL. split; [by apply Himp|]. by apply Himp.
Qed.

Lemma decided_stable b s : stable sysR (λ w, decided w b s).
Proof.
  intros w w' [Hk _] (Hterm & k & t & Ht & Hb & Hs). split; [done|].
  destruct (Hk k t Ht) as (t' & Ht' & Hf & Hm).
  apply txn_fixed_eq in Hf as (_ & Hb' & _). exists k, t'. split_and!; [done|congruence|].
  rewrite Hs in Hm. destruct Hterm as [-> | ->];
    destruct Hm as [<-|[[? _]|[[?|?] _]]]; done.
Qed.

Lemma billed_stable c : stable txns_kept (λ d, billed d c).
Proof.
  intros d d' Hk (k & t & Ht & Hb & Ha & Hc). destruct (Hk k t Ht) as (t' & Ht' & Hf & _).
  unfold txn_fixed in Hf. injection Hf. intros. exists k, t'. split_and!; [done|congruence..].
Qed.

Lemma true_report_stable m : stable sysR (λ w, true_report w m).
Proof. intros w w' HR. apply vouches_mono. intros b s. by apply decided_stable. Qed.

Lemma true_sys : stable sysR (λ _, True).
Proof. by intros w w'. Qed.

Lemma inv_drop w h L : sys_inv w (h :: L) → sys_inv w L.
Proof.
  intros []. split; try done.
  - destruct h as [c| |]; cbn in si_pay0; [by eapply pay_inv_drop|done|done].
  - destruct h; cbn in si_own0; [done|by apply NoDup_cons in si_own0 as [_ ?]..].
  - intros b Hb. apply si_fresh0. by right.
  - intros b u e a Hb. eapply si_booked0. by right.
Qed.

(** ** Statements *)

(** A statement of ticketing that creates no booking. *)
Lemma inv_books C w d' L :
  sys_inv w L → books_step C (w_ticket w) d' → (∀ b s, C b s → decided w b s) →
  sys_inv (set_ticket d' w) L.
Proof.
  intros [] [] HC.
  assert (∀ b u e a, agrees (w_ticket w) b u e a → agrees d' b u e a) as Hag.
  { intros b u e a Ha row Hrow. destruct (bs_rows0 b row Hrow) as (row0 & Hrow0 & -> & -> & _).
    unfold price, items_of in *. rewrite bs_items0. by apply Ha. }
  split; cbn; auto.
  - intros b row Hrow. destruct (bs_rows0 b row Hrow) as (row0 & Hrow0 & _ & _ & Hc).
    destruct Hc as [-> |Ha]; [by apply si_decided0|]. eapply allowed_mono; [apply HC|done].
  - intros r' Hr'. destruct (bs_outbox0 r' Hr') as [(r & Hr & <-)|Hnew]; [by apply si_outbox0|].
    by apply (vouches_mono C).
  - intros q Hq. destruct (si_req0 q Hq). auto.
  - intros b [row Hrow]. destruct (bs_rows0 b row Hrow) as (row0 & Hrow0 & _). eauto.
  - intros b Hb. destruct (si_fresh0 b Hb) as (Hid & Hnone & Hq). split_and!; [done| |done].
    destruct (d'.(bookings) !! b) as [row|] eqn:Hrow; [|done].
    destruct (bs_rows0 b row Hrow) as (row0 & Hrow0 & _). congruence.
  - intros b u e a Hb. destruct (si_booked0 b u e a Hb). auto.
Qed.

(** What a statement of payment may do to the transactions: new ones satisfy
    [Q]; payment issues no tickets. *)
Definition is_ticket (p : payload) : bool :=
  match p with PTicketIssued _ => true | _ => false end.
Definition payment_message (m : message) : Prop :=
  is_ticket (msg_Value m) = false ∧ msg_Topic m = topic_of (msg_Value m).
(** Rows stay, with their fixed columns. *)
Definition rows_stay (d d' : PayDB) : Prop :=
  ∀ k t, transactions d !! k = Some t → ∃ t', transactions d' !! k = Some t' ∧ txn_fixed t' = txn_fixed t.
Definition txns_by (Q : Transaction → Prop) (d d' : PayDB) : Prop :=
  (∀ k t', transactions d' !! k = Some t' →
    (∃ t, transactions d !! k = Some t ∧ txn_fixed t' = txn_fixed t) ∨ Q t') ∧
  adds_only payment_message (pay_outbox d) (pay_outbox d') ∧ rows_stay d d'.

#[export] Instance rows_stay_preorder : PreOrder rows_stay.
Proof.
  split; [intros d k t Ht; by exists t|]. intros d1 d2 d3 H12 H23 k t Ht.
  destruct (H12 k t Ht) as (t2 & Ht2 & E2). destruct (H23 k t2 Ht2) as (t3 & Ht3 & E3).
  exists t3. split; [done|congruence].
Qed.
Lemma rows_stay_same d d' : transactions d' = transactions d → rows_stay d d'.
Proof. intros Hd k t. rewrite Hd. intros Ht. by exists t. Qed.
Lemma txns_kept_rows d d' : txns_kept d d' → rows_stay d d'.
Proof. intros Hk k t Ht. destruct (Hk k t Ht) as (t' & Ht' & Hf & _). by exists t'. Qed.
Lemma rows_stable (P : PayDB → Prop) : stable rows_stay P → stable txns_kept P.
Proof. intros Hst d d' Hk. by apply Hst, txns_kept_rows. Qed.

Lemma txns_by_same Q d d' :
  transactions d' = transactions d →
  adds_only payment_message (pay_outbox d) (pay_outbox d') → txns_by Q d d'.
Proof. intros Ht Ho. split_and!; [|done|by apply rows_stay_same]. intros k t. rewrite Ht. intros Hk. left. by exists t. Qed.

Lemma txns_by_refl Q d : txns_by Q d d.
Proof. apply txns_by_same; [done|apply adds_only_refl]. Qed.

Lemma txn_from_fixed q t t' : txn_fixed t' = txn_fixed t → txn_from q t → txn_from q t'.
Proof. unfold txn_fixed, txn_from. intros Hf. injection Hf. congruence. Qed.

Lemma claims_frame Lp F : claims ((HClaim <$> Lp) ++ F) = Lp ++ claims F.
Proof. induction Lp; cbn; [done|]. by f_equal. Qed.

Lemma owned_frame Lp F : owned ((HClaim <$> Lp) ++ F) = owned F.
Proof. by induction Lp. Qed.

Lemma hold_frame Lp F h :
  hold_claim h = None → h ∈ (HClaim <$> Lp) ++ F ↔ h ∈ F.
Proof.
  intros Hh. rewrite elem_of_app, list_elem_of_fmap. split; [|auto].
  by intros [(c & -> & _)|?].
Qed.

(** What payment's messages vouch for is what they report. *)
Lemma reports_vouched p b s :
  vouched p = Some (b, s) → is_ticket p = false →
  ∃ id, reports p = Some (id, s) ∧ report_booking p = b ∧ terminal s.
Proof.
  destruct p; intros [= <- <-] Hno; [| |done]; eexists; (split_and!; [done..|]); [by left|by right].
Qed.

Lemma inv_pay Q w d' Lp Lp' F :
  sys_inv w ((HClaim <$> Lp) ++ F) → pay_inv d' (Lp' ++ claims F) →
  txns_kept (w_pay w) d' → txns_by Q (w_pay w) d' →
  (∀ t, Q t → ∃ q, q ∈ w_requests w ∧ txn_from q t) →
  sys_inv (set_pay d' w) ((HClaim <$> Lp') ++ F).
Proof.
  intros [] Hpay Hk (Hby & Hob & _) HQ.
  assert (∀ b s, decided w b s → decided (set_pay d' w) b s) as Hset.
  { intros b s. by apply decided_stable. }
  split; cbn; auto.
  - by rewrite claims_frame.
  - intros b row Hrow. eapply allowed_mono; [apply Hset|by apply si_decided0].
  - intros r Hr. by apply (vouches_mono (decided w)), si_outbox0.
  - intros r Hr. destruct (Hob r Hr) as [(r0 & Hr0 & <-)|[Hno Htopic]];
      [by apply (vouches_mono (decided w)), si_reports0|].
    split; [done|]. cbn. intros b s Hb.
    destruct (reports_vouched _ _ _ Hb Hno) as (id & Hrep & <- & Hterm).
    destruct (pi_reports _ _ Hpay r id s Hr Hrep) as (u & Hu & Hs & Hbk).
    split; [done|]. by exists id, u.
  - intros m Hm. by apply (vouches_mono (decided w)), si_broker0.
  - intros k t' Ht'. destruct (Hby k t' Ht') as [(t & Ht & Hf)|Ht]; [|by apply HQ].
    destruct (si_txn0 k t Ht) as (q & Hq & Hfrom). exists q. split; [done|].
    by eapply txn_from_fixed.
  - rewrite owned_frame in *. done.
  - intros b. rewrite hold_frame by done. intros Hb. apply si_fresh0. by apply hold_frame.
  - intros b u e a. rewrite hold_frame by done. intros Hb. apply si_booked0. by apply hold_frame.
  - intros c Hc. by eapply billed_stable, si_sessions0.
Qed.

(** A session request for a transaction that is there. *)
Lemma inv_ask c t w L :
  sys_inv w L → billed (w_pay w) c → sys_inv (ask c t w).1 L ∧ sysR w (ask c t w).1.
Proof.
  intros [] Hb. split; [|by split]. split; cbn; try done.
  intros c' [Hc| ->%list_elem_of_singleton]%elem_of_app; auto.
Qed.

(** A new UUID, owned by who drew it. *)
Lemma inv_draw s t w L :
  sys_inv w L → ∃ id, (draw s t w).2 = Ok id ∧ sys_inv (draw s t w).1 (HFresh id :: L) ∧
    sysR w (draw s t w).1.
Proof.
  intros []. unfold draw. set (id := if decide _ then _ else _).
  assert (id ∉ w_ids w) as Hnew.
  { unfold id. case_decide; [apply is_fresh|done]. }
  assert (∀ b, HFresh b ∈ HFresh id :: L ↔ b = id ∨ HFresh b ∈ L) as Hel.
  { intros b. rewrite elem_of_cons. split; [intros [[= ->]|?]|intros [->|?]]; auto. }
  exists id. split_and!; [done| |by split]. split; cbn; try done.
  - intros q Hq. destruct (si_req0 q Hq). split; [by apply elem_of_union_r|done].
  - intros b Hb. apply elem_of_union_r. auto.
  - constructor; [|done]. intros (h & Hh & Hid)%list_elem_of_omap.
    destruct h as [c|b|b u e a]; [done| |]; injection Hid as ->.
    + by destruct (si_fresh0 id Hh).
    + by destruct (si_booked0 id u e a Hh).
  - intros b [->|Hb]%Hel; [|destruct (si_fresh0 b Hb) as (? & ? & ?); split_and!; [by apply elem_of_union_r|done..]].
    split_and!; [by apply elem_of_union_l, elem_of_singleton| |].
    + destruct (bookings (w_ticket w) !! id) eqn:Hb; [|done]. destruct Hnew. by apply si_rows0.
    + intros q Hq <-. by destruct (si_req0 q Hq).
  - intros b u e a [?|Hb]%elem_of_cons; [done|]. destruct (si_booked0 b u e a Hb).
    split; [by apply elem_of_union_r|done].
Qed.

(** A call about a booking the caller has created. *)
Lemma inv_send q t w L :
  sys_inv w L →
  HBooked (iq_BookingID q) (iq_UserID q) (iq_EventID q) (iq_AmountRupiah q) ∈ L →
  sys_inv (send q t w).1 L.
Proof.
  intros [] Hh. destruct (si_booked0 _ _ _ _ Hh) as [Hid Hag].
  split; cbn; try done.
  - intros k t' Ht'. destruct (si_txn0 k t' Ht') as (q' & Hq' & ?). exists q'.
    split; [apply elem_of_app; auto|done].
  - intros q' [Hq'| ->%list_elem_of_singleton]%elem_of_app; auto.
  - intros b Hb. destruct (si_fresh0 b Hb) as (? & ? & Hq). split_and!; [done..|].
    intros q' [Hq'| ->%list_elem_of_singleton]%elem_of_app; [by apply Hq|]. intros <-.
    apply list_elem_of_split in Hh as (L1 & L2 & ->).
    unfold owned in si_own0. rewrite omap_app in si_own0. cbn in si_own0.
    apply NoDup_app in si_own0 as (_ & Hdis & Hnd). apply NoDup_cons in Hnd as [Hnot _].
    apply elem_of_app in Hb as [Hb|Hb].
    + apply (Hdis (iq_BookingID q)); [|by left]. apply list_elem_of_omap. by exists (HFresh (iq_BookingID q)).
    + apply elem_of_cons in Hb as [?|Hb]; [done|]. apply Hnot.
      apply list_elem_of_omap. by exists (HFresh (iq_BookingID q)).
Qed.

Lemma inv_answer q c t w L : sys_inv w L → sys_inv (answer q c t w).1 L.
Proof. by intros []. Qed.

(** What ends up in the broker is true. *)
Lemma inv_broker m w L :
  sys_inv w L → true_report w m → sys_inv (set_broker (w_broker w ++ [m]) w) L.
Proof.
  intros [] Hm. split; cbn; try done.
  intros m' [Hm'| ->%list_elem_of_singleton]%elem_of_app; auto. by apply si_broker0.
Qed.

(** *** The creation of a booking *)

Lemma item_row_total bid i i' :
  stamped bid i i' → ir_booking_id (item_row i') = bid ∧
    ir_total_price_rupiah (item_row i') = wrap64 (item_total i).
Proof. intros [id ->]. split; [done|]. unfold item_row. cbn. by case_bool_decide. Qed.

Lemma price_stamped bid items items' :
  Forall2 (stamped bid) items items' →
  wrap64 (lsum ir_total_price_rupiah (item_row <$> items')) = calculateTotal items.
Proof.
  intros Hst. rewrite calculateTotal_sum.
  induction Hst as [|i i' l l' Hi Hst IH]; [done|]. unfold lsum in *. cbn -[item_row].
  destruct (item_row_total bid i i' Hi) as [_ ->].
  rewrite wrap64_add_l, <- wrap64_add_r, IH, wrap64_add_r. done.
Qed.

(** Items of a new booking are no items of another one. *)
Lemma items_of_other d' d its bid k :
  booking_items d' = foldl (λ m i, <[ir_id i := i]> m) (booking_items d) its →
  NoDup (ir_id <$> its) → Forall (λ i, booking_items d !! ir_id i = None) its →
  Forall (λ i, ir_booking_id i = bid) its → k ≠ bid → items_of k d' = items_of k d.
Proof.
  intros Hd' Hnd Hfr Hbid Hne. unfold items_of, rows. do 2 f_equal. apply map_eq. intros j.
  apply option_eq. intros i. rewrite !map_lookup_filter_Some, Hd', lookup_insert_rows by done.
  split; [|tauto]. intros [[Hj|[Hin _]] Hk]; [done|]. cbn in Hk. bool_cases.
  rewrite Forall_forall in Hbid. by rewrite Hbid in Hk.
Qed.

Lemma insert_booking_Ok b d d' :
  insert_booking b d = Ok d' →
  bookings d !! br_id b = None ∧ d' = set_bookings (<[br_id b := b]> (bookings d)) d.
Proof.
  unfold insert_booking. destruct (negb _); [done|]. case_bool_decide as Hfree; [done|].
  case_bool_decide; [|done]. intros [= <-]. split; [by apply eq_None_not_Some|done].
Qed.

Lemma inv_create b items u ev t w L d' :
  bk_UserID b = u → bk_EventID b = ev → bk_Status b = "pending" →
  Forall2 (stamped (bk_ID b)) items (bk_Items b) →
  sys_inv w (HFresh (bk_ID b) :: L) →
  create_booking b t (w_ticket w) = (d', Ok ()) →
  sys_inv (set_ticket d' w) (HBooked (bk_ID b) u ev (calculateTotal items) :: L).
Proof.
  intros Hu He Hs Hst HI Hc. pose proof HI as [].
  destruct (si_fresh0 (bk_ID b) (list_elem_of_here _ _)) as (Hid & _ & Hnoreq).
  unfold create_booking, transaction in Hc.
  destruct (insert_booking _ _) as [d1|e] eqn:Hb; [|done].
  destruct (insert_items _ d1) as [d2|e] eqn:Hi; [|done]. injection Hc as <-.
  apply insert_booking_Ok in Hb as [Hnone ->]. cbn in Hnone.
  apply insert_items_Ok in Hi as (-> & _ & Hnd & Hfr). cbn in Hfr.
  set (rows := item_row <$> bk_Items b) in *.
  assert (Forall (λ i, ir_booking_id i = bk_ID b) rows) as Hbid.
  { unfold rows. apply Forall_fmap. clear -Hst. induction Hst as [|i i' l l' Hi]; constructor;
      [by apply (item_row_total _ i)|done]. }
  set (d2 := set_booking_items _ _).
  assert (∀ bid, bid ≠ bk_ID b → price d2 bid = price (w_ticket w) bid) as Hother.
  { intros bid Hne. unfold price. by rewrite (items_of_other d2 (w_ticket w) rows (bk_ID b)). }
  assert (price d2 (bk_ID b) = calculateTotal items) as Hown.
  { unfold price. rewrite (lsum_perm _ _ rows); [by eapply price_stamped|].
    eapply items_of_inserted; [|exact Hnd|exact Hfr|exact Hbid|done].
    intros k i Hk Heq. destruct (tw_items _ si_tables0 k i Hk) as [r Hr]. congruence. }
  assert (∀ k row, bookings d2 !! k = Some row → (k = bk_ID b ∧ row = booking_row t b) ∨
    (k ≠ bk_ID b ∧ bookings (w_ticket w) !! k = Some row)) as Hrows.
  { intros k row. cbn. rewrite lookup_insert_Some. intros [[<- <-]|[? ?]]; auto. }
  assert (∀ k u e a, k ≠ bk_ID b → agrees (w_ticket w) k u e a → agrees d2 k u e a) as Hag.
  { intros k u' e' a' Hne Ha row [[-> _]|[_ Hrow]]%Hrows; [done|]. rewrite Hother by done. auto. }
  apply NoDup_cons in si_own0 as [Hnot Hnd0].
  split; auto.
  - intros k row [[-> ->]|[_ Hrow]]%Hrows; [|by apply si_decided0].
    cbn. rewrite Hs. apply allowed_pending.
  - intros q Hq. destruct (si_req0 q Hq). split; [done|]. apply Hag; [by apply Hnoreq|done].
  - intros k [row [[-> _]|[_ Hrow]]%Hrows]; [done|]. by apply si_rows0.
  - destruct si_tables0 as [Hfk Hids]. split.
    + intros k i. cbn. rewrite lookup_insert_rows by done. rewrite lookup_insert_is_Some'.
      intros [Hk|[Hin _]]; [right; by eapply Hfk|].
      left. rewrite Forall_forall in Hbid. by rewrite Hbid.
    + by intros k row [[-> ->]|[_ Hrow]]%Hrows; [|apply Hids].
  - by constructor.
  - intros k [?|Hk]%elem_of_cons; [done|]. destruct (si_fresh0 k) as (? & Hk0 & ?); [by right|].
    split_and!; [done| |done]. cbn. rewrite lookup_insert_ne; [done|]. intros Heq. apply Hnot.
    rewrite Heq. apply list_elem_of_omap. by exists (HFresh k).
  - intros k u' e' a' [[= -> -> -> ->]|Hk]%elem_of_cons.
    + split; [done|]. intros row [[_ ->]|[? _]]%Hrows; [|done]. done.
    + destruct (si_booked0 k u' e' a') as [? Ha]; [by right|]. split; [done|]. apply Hag; [|done].
      intros ->. apply Hnot. apply list_elem_of_omap. by exists (HBooked (bk_ID b) u' e' a').
Qed.

(** ** Running ticketing in the world *)

Lemma set_ticket_id w : set_ticket (w_ticket w) w = w.
Proof. by destruct w. Qed.
Lemma set_pay_id w : set_pay (w_pay w) w = w.
Proof. by destruct w. Qed.

Local Abbreviation swp := (wp (any_env sysE) sys_inv sysR).

Section ticketing.
Context {A : Type} (dead : A).
Implicit Types (L : list shold) (P : world → Prop) (Q : A → list shold → (world → Prop) → Prop).

(** A statement of ticketing, in its three outcomes. *)
Lemma swp_ticket_sql {B} (f : stmt TicketDB B) (k : res B → sprog A) L P Q :
  stable sysR P →
  (∀ w F t, sys_inv w (L ++ F) → P w →
     let '(d', r) := f t (w_ticket w) in
     ∃ L', sys_inv (set_ticket d' w) (L' ++ F) ∧ swp (k r) L' P Q ∧
       ∀ e, swp (k (Err e)) L' P Q) →
  (∀ e, swp (k (Err e)) L P Q) →
  swp (Vis (Sql (on_ticket f)) k) L P Q.
Proof.
  intros Hst Hf Hfail. apply wp_sql; [apply _|done| |done].
  intros w F t HI HP. specialize (Hf w F t HI HP). unfold on_ticket.
  destruct (f t (w_ticket w)) as [d' r]. destruct Hf as (L' & HI' & Hk & Hlost).
  assert (sysR w (set_ticket d' w)) as HR by (by split).
  split; [done|]. exists L', P. split_and!; [done|by eapply Hst|done|done|auto].
Qed.

Lemma swp_uuid (k : string → sprog A) L P Q :
  stable sysR P → (∀ id, swp (k id) (HFresh id :: L) P Q) → (∀ L', Q dead L' P) →
  swp (new_uuid dead k) L P Q.
Proof.
  intros Hst Hk Hd. unfold new_uuid. apply wp_uuid; [apply _|done|]. intros s.
  apply wp_sql; [apply _|done| |by intros e; apply Hd].
  intros w F t HI HP. destruct (inv_draw s t w (L ++ F) HI) as (id & Hid & HI' & HR).
  destruct (draw s t w) as [w' r]. cbn in Hid. subst r. split; [done|].
  exists (HFresh id :: L), P. split_and!; [done|by eapply Hst|done|apply Hk|]. intros e _. apply Hd.
Qed.

(** An id nobody makes a booking with. *)
Lemma swp_uuid_drop (k : string → sprog A) L P Q :
  stable sysR P → (∀ id, swp (k id) L P Q) → (∀ L', Q dead L' P) →
  swp (new_uuid dead k) L P Q.
Proof.
  intros Hst Hk Hd. unfold new_uuid. apply wp_uuid; [apply _|done|]. intros s.
  apply wp_sql; [apply _|done| |by intros e; apply Hd].
  intros w F t HI HP. destruct (inv_draw s t w (L ++ F) HI) as (id & Hid & HI' & HR).
  destruct (draw s t w) as [w' r]. cbn in Hid. subst r. split; [done|].
  exists L, P. split_and!; [done|by eapply Hst|by eapply inv_drop|apply Hk|]. intros e _. apply Hd.
Qed.

Lemma swp_quiet_bind {B} C (p : tprog B) (f : B → tprog A) L P Q :
  quiet C p → stable sysR P → (∀ w b s, P w → C b s → decided w b s) →
  (∀ b, swp (ticket_prog dead (f b)) L P Q) → (∀ L', Q dead L' P) →
  swp (ticket_prog dead (prog_bind f p)) L P Q.
Proof.
  intros Hq Hst HC Hf Hd. induction p as [b|Y e k IH]; [apply Hf|].
  destruct e as [B' g| | |B' x]; cbn -[wp]; [| | |done].
  - destruct Hq as [He Hk].
    assert (∀ e, swp (ticket_prog dead (prog_bind f (k (Err e)))) L P Q) as Hfail.
    { intros e. apply IH, Hk. right. by exists e. }
    apply swp_ticket_sql; [done| |done].
    intros w F t HI HP. pose proof (He t (w_ticket w)) as Hb.
    assert (answer_of g (g t (w_ticket w)).2) as Ha.
    { left. exists t, (w_ticket w). split; [apply HI|done]. }
    destruct (g t (w_ticket w)) as [d' r]. exists L. split_and!; [|by apply IH, Hk|done].
    eapply inv_books; [done|done|]. intros b s. by apply HC.
  - apply wp_time; [apply _|done|]. intros t. by apply IH.
  - apply swp_uuid_drop; [done| |done]. intros id. by apply IH.
Qed.

(** The call of payment about a booking the program has created. *)
Lemma swp_call q (k : res Z → sprog A) L P Q :
  stable sysR P →
  HBooked (iq_BookingID q) (iq_UserID q) (iq_EventID q) (iq_AmountRupiah q) ∈ L →
  (∀ r, swp (k r) L P Q) → swp (http_call q k) L P Q.
Proof.
  intros Hst Hh Hk. unfold http_call. apply wp_sql; [apply _|done| |by intros e; apply Hk].
  intros w F t HI HP.
  assert (sysR w (send q t w).1) as HR by (split; [done|]; intros; apply elem_of_app; auto).
  pose proof (inv_send q t w (L ++ F) HI) as HI'. rewrite elem_of_app in HI'.
  split; [done|]. exists L, P. split_and!; [done|by eapply Hst|by apply HI'; left| |by intros; apply Hk].
  apply wp_ext; [apply _|done|]. intros [i|r] _; [|apply Hk].
  apply wp_query; [apply _|done|done| |by intros e; apply Hk]. intros w' F' t' _ HP'.
  exists P. auto.
Qed.
End ticketing.

(** Sequences are associative as far as [wp] can tell. *)
Lemma wp_vis_mono {A B} (e : eff world sysE B) (k k' : B → sprog A) L P Q :
  (∀ x L P, swp (k x) L P Q → swp (k' x) L P Q) → swp (Vis e k) L P Q → swp (Vis e k') L P Q.
Proof.
  intros Hk Hwp w F w' x HI HP Hout.
  destruct (Hwp w F w' x HI HP Hout) as (HR & L' & P' & ? & ? & ? & ?).
  split; [done|]. exists L', P'. auto.
Qed.

Lemma handler_mono {A B} (dead : A) (e : eff TicketDB ticketE B) (k k' : B → sprog A) L P Q :
  (∀ x L P, swp (k x) L P Q → swp (k' x) L P Q) →
  swp (ticket_handler dead B e k) L P Q → swp (ticket_handler dead B e k') L P Q.
Proof.
  intros Hk. destruct e as [B' g| | |B' x]; cbn -[wp].
  - by apply wp_vis_mono.
  - by apply wp_vis_mono.
  - apply wp_vis_mono. intros s L' P'. apply wp_vis_mono. intros [id|e] L2 P2; [apply Hk|done].
  - destruct x as [q]. apply wp_vis_mono. intros [u|e] L' P'; [|apply Hk].
    apply wp_vis_mono. intros [i|r] L2 P2; [|apply Hk]. apply wp_vis_mono. intros r. apply Hk.
Qed.

Lemma swp_assoc {A B B'} (dead : A) (f : B → tprog A) (g : B' → tprog B) p L P Q :
  swp (ticket_prog dead (prog_bind (λ a, prog_bind f (g a)) p)) L P Q →
  swp (ticket_prog dead (prog_bind f (prog_bind g p))) L P Q.
Proof.
  revert L P. induction p as [b|Y e k IH]; intros L P; [done|]. apply handler_mono.
  intros x L' P'. apply IH.
Qed.

(** ** A reservation *)

Section reserve.
Context {A : Type} (dead : A).
Implicit Types (f : res Reservation → tprog A).
Local Abbreviation anyQ := (λ _ _ _, True).

Lemma swp_silent {B} (p : tprog B) (f : B → tprog A) L :
  quiet (λ _ _, False) p → (∀ b, swp (ticket_prog dead (f b)) L (λ _, True) anyQ) →
  swp (ticket_prog dead (prog_bind f p)) L (λ _, True) anyQ.
Proof. intros Hq Hf. by apply (swp_quiet_bind dead (λ _ _, False)); [|apply true_sys|..]. Qed.

Lemma swp_stampItems bid items (f : list BookingItem → tprog A) L :
  (∀ items', Forall2 (stamped bid) items items' →
     swp (ticket_prog dead (f items')) L (λ _, True) anyQ) →
  swp (ticket_prog dead (prog_bind f (stampItems bid items))) L (λ _, True) anyQ.
Proof.
  revert f. induction items as [|i items IH]; intros f Hf; cbn [stampItems]; [by apply Hf|].
  apply swp_assoc. apply (swp_uuid_drop dead); [apply true_sys| |done]. intros id.
  change (swp (ticket_prog dead (prog_bind f (prog_bind (λ rest, Ret (stampItem bid id i :: rest))
    (stampItems bid items)))) L (λ _, True) anyQ).
  apply swp_assoc, IH. intros rest Hst. apply Hf. constructor; [by exists id|done].
Qed.

Lemma swp_client c bid ev u em amt exp (f : res unit → tprog A) L :
  HBooked bid u ev amt ∈ L → (∀ r, swp (ticket_prog dead (f r)) L (λ _, True) anyQ) →
  swp (ticket_prog dead (prog_bind f
    (Client_InitiateTxnForBooking c bid ev u em amt exp))) L (λ _, True) anyQ.
Proof.
  intros Hh Hf. unfold Client_InitiateTxnForBooking. destruct (negb _); [apply Hf|].
  set (q := mkInitiateRequest _ _ _ _ _ _ _ _). generalize 0%nat 2%nat. intros a n.
  revert a. induction n as [|n IH]; intros a; cbn [attempt_loop]; [apply Hf|].
  apply swp_assoc. apply (swp_call q); [apply true_sys|done|].
  intros [code|e]; cbn -[wp interp attempt_loop].
  - case_bool_decide; [apply Hf|]. destruct (_ && _); [apply IH|apply Hf].
  - case_bool_decide; [apply IH|apply Hf].
Qed.

Lemma swp_Create b items (f : res unit → tprog A) L :
  bk_Status b = "pending" → Forall2 (stamped (bk_ID b)) items (bk_Items b) →
  (∀ r, swp (ticket_prog dead (f r))
     (HBooked (bk_ID b) (bk_UserID b) (bk_EventID b) (calculateTotal items) :: L)
     (λ _, True) anyQ) →
  (∀ e, swp (ticket_prog dead (f (Err e))) (HFresh (bk_ID b) :: L) (λ _, True) anyQ) →
  swp (ticket_prog dead (prog_bind f (BookingRepo_Create b))) (HFresh (bk_ID b) :: L)
    (λ _, True) anyQ.
Proof.
  intros Hs Hst Hf Hfail. apply (swp_ticket_sql (create_booking b)); [apply true_sys| |done].
  intros w F t HI _. destruct (create_booking b t (w_ticket w)) as [d' [[]|e]] eqn:Hc.
  - exists (HBooked (bk_ID b) (bk_UserID b) (bk_EventID b) (calculateTotal items) :: L).
    split_and!; [by eapply inv_create|apply Hf|intros; apply Hf].
  - assert (d' = w_ticket w) as ->.
    { unfold create_booking, transaction in Hc. by repeat case_match; simplify_eq. }
    exists (HFresh (bk_ID b) :: L). rewrite set_ticket_id. split_and!; [done|apply Hfail|apply Hfail].
Qed.

Lemma swp_Reserve s u em ev items f :
  (∀ r L, swp (ticket_prog dead (f r)) L (λ _, True) anyQ) →
  swp (ticket_prog dead (prog_bind f (Reserve s u em ev items))) [] (λ _, True) anyQ.
Proof.
  intros Hdone.
  assert (∀ items' e L, swp (ticket_prog dead (prog_bind f
    (prog_bind (λ _, Ret (Err e)) (rollbackSeats ev items')))) L (λ _, True) anyQ) as Hroll.
  { intros items' e L. apply swp_assoc, swp_silent; [apply qt_rollbackSeats|]. intros _. apply Hdone. }
  unfold Reserve. case_bool_decide; [apply Hdone|].
  apply swp_assoc, swp_silent; [apply qt_reserveLoop|]. intros [[]|e]; [|apply Hdone].
  apply swp_assoc, swp_silent; [done|]. intros now.
  apply swp_assoc, (swp_uuid dead); [apply true_sys| |done]. intros bid.
  apply swp_assoc, swp_silent; [done|]. intros created.
  apply swp_assoc, swp_stampItems. intros items' Hst.
  apply swp_assoc. eapply (swp_Create (mkBooking bid u ev "pending" _ 0 "" "" items' 0));
    [done|exact Hst| |intros e; apply Hroll].
  intros [[]|e]; [|apply Hroll].
  apply swp_assoc, swp_client; [by left|]. intros [[]|e]; [apply Hdone|].
  apply swp_assoc, swp_silent; [unfold BookingRepo_Delete; quiet_solve|]. intros _. apply Hroll.
Qed.
End reserve.

(** ** Running payment in the world *)

Lemma on_pay_outcome {B} (f : stmt PayDB B) t flt w w' r :
  sql_outcome (on_pay f) t flt w = (w', r) →
  ∃ d', w' = set_pay d' w ∧ sql_outcome f t flt (w_pay w) = (d', r).
Proof.
  destruct flt as [|e|e]; cbn; unfold on_pay.
  - destruct (f t (w_pay w)) as [d' r']. intros [= <- <-]. by exists d'.
  - intros [= <- <-]. exists (w_pay w). by rewrite set_pay_id.
  - destruct (f t (w_pay w)) as [d' r']. intros [= <- <-]. by exists d'.
Qed.

Lemma txns_by_outcome {B} Qt (f : stmt PayDB B) t flt d d' r :
  (∀ t d, txns_by Qt d (f t d).1) → sql_outcome f t flt d = (d', r) → txns_by Qt d d'.
Proof.
  intros Hf. specialize (Hf t d). destruct flt as [|e|e]; cbn.
  - intros Heq. by rewrite Heq in Hf.
  - intros [= <- <-]. apply txns_by_refl.
  - by intros [= <- <-].
Qed.

Local Abbreviation pwp := (wp (any_env payE) pay_inv txns_kept).

(** The session requests of a program are for transactions it has seen: at each
    the facts it has gathered give [B]. *)
Definition session_call {B} (x : payE B) : option sessionCall :=
  match x with
  | CreateSession ref amount cur _ _ _ => Some (mkSessionCall ref amount cur)
  | _ => None
  end.

Fixpoint bills_for (B : PayDB → sessionCall → Prop) {A} (p : pprog A) (P : PayDB → Prop) : Prop :=
  match p with
  | Ret _ => True
  | Vis e k =>
      match e in eff _ _ Y return (Y → (PayDB → Prop) → Prop) → Prop with
      | Sql f => λ K, ∀ t flt d d' r, P d → sql_outcome f t flt d = (d', r) →
          ∃ P', stable rows_stay P' ∧ P' d' ∧ K r P'
      | Ext x => λ K,
          match session_call x with Some c => ∀ d, P d → B d c | None => True end ∧
          ∀ a, K a P
      | _ => λ K, ∀ a, K a P
      end (λ a, bills_for B (k a))
  end.
Abbreviation bills := (bills_for billed).

Lemma bills_mono (B B' : PayDB → sessionCall → Prop) {A} (p : pprog A) P :
  (∀ d c, B d c → B' d c) → bills_for B p P → bills_for B' p P.
Proof.
  intros HB. revert P. induction p as [a|Y e k IH]; intros P; [done|].
  destruct e as [C f| | |C x]; cbn; [|auto..|].
  - intros Hp t flt d d' r HP Hout. destruct (Hp t flt d d' r HP Hout) as (P' & ? & ? & ?).
    exists P'. auto.
  - intros [Hc Hk]. split; [|auto]. destruct (session_call x); [auto|done].
Qed.

(** A program that makes no session request. *)
Definition no_session B (x : payE B) : Prop := session_call x = None.

Lemma bills_free B {A} (p : pprog A) P : calls no_session p → bills_for B p P.
Proof.
  revert P. induction p as [a|Y e k IH]; intros P; [done|]. intros [He Hk].
  destruct e as [C f| | |C x]; cbn; auto.
  - intros. exists (λ _, True). split_and!; [by intros d1 d2|done|auto].
  - unfold no_session in He. rewrite He. auto.
Qed.

Lemma bills_free_bind Bl {A B} (p : pprog A) (f : A → pprog B) P :
  bills_for Bl p P → (∀ a, calls no_session (f a)) → bills_for Bl (prog_bind f p) P.
Proof.
  intros Hp Hf. revert P Hp. induction p as [a|Y e k IH]; intros P Hp; [apply bills_free, Hf|].
  destruct e as [C g| | |C x]; cbn in *; auto.
  - intros t flt d d' r HP Hout. destruct (Hp t flt d d' r HP Hout) as (P' & ? & ? & ?).
    exists P'. auto.
  - destruct Hp as [Hc Hk]. auto.
Qed.

Section pay.
Context {A : Type} (dead : A) (Qt : Transaction → Prop) (PW : world → Prop).
Context (Qp : A → list claim → (PayDB → Prop) → Prop) (Q : A → list shold → (world → Prop) → Prop).
Context (HstW : stable sysR PW) (HQt : ∀ w t, PW w → Qt t → ∃ q, q ∈ w_requests w ∧ txn_from q t).
Context (HQ : ∀ a L P', stable sysR P' → Q a L P').

(** What a payment program that runs on the world knows of payment and of the rest. *)
Definition knows (P PB : PayDB → Prop) (w : world) : Prop := (P (w_pay w) ∧ PB (w_pay w)) ∧ PW w.

Lemma knows_stable P PB : stable txns_kept P → stable txns_kept PB → stable sysR (knows P PB).
Proof using HstW.
  intros HP HB w w' HR [[? ?] ?]. split; [split|by eapply HstW].
  - eapply HP; [apply HR|done].
  - eapply HB; [apply HR|done].
Qed.

(** [swp_pay], of the rest of a program. *)
Definition lifts (p : pprog A) : Prop := ∀ Lp P PB, pwp p Lp P Qp → bills p PB →
  stable txns_kept P → stable txns_kept PB → swp (pay_prog dead p) (HClaim <$> Lp) (knows P PB) Q.

Section effect.
Context {Y : Type} (e : eff PayDB payE Y) (k : Y → pprog A) (Lp : list claim) (P : PayDB → Prop).
Context (Hwp : pwp (Vis e k) Lp P Qp) (HP : stable txns_kept P) (IH : ∀ a, lifts (k a)).

(** The step of payment behind a step of the world. *)
Lemma pay_step w F d' a PB :
  sys_inv w ((HClaim <$> Lp) ++ F) → P (w_pay w) → PW w →
  eff_out (any_env payE) e (w_pay w) d' a → txns_by Qt (w_pay w) d' →
  stable txns_kept PB → PB d' → bills (k a) PB →
  sysR w (set_pay d' w) ∧ ∃ L' P', stable sysR P' ∧ P' (set_pay d' w) ∧
    sys_inv (set_pay d' w) (L' ++ F) ∧ swp (pay_prog dead (k a)) L' P' Q.
Proof using HstW HQt Hwp IH.
  intros HI HPw HPW Hout Hby HB HPB Hbl.
  pose proof (si_pay _ _ HI) as Hpay. rewrite claims_frame in Hpay.
  destruct (Hwp _ _ _ _ Hpay HPw Hout) as (HR & Lp' & P' & Hst' & HP' & HI' & Hk').
  assert (sysR w (set_pay d' w)) as HRw by (by split).
  split; [done|]. exists (HClaim <$> Lp'), (knows P' PB).
  split_and!; [by apply knows_stable|split; [done|by eapply HstW]| |by apply IH].
  eapply inv_pay; [done|done|done|done|]. intros t. by apply HQt.
Qed.

(** An answer that leaves the database alone. *)
Lemma pay_stays w F a PB :
  sys_inv w ((HClaim <$> Lp) ++ F) → knows P PB w → stable txns_kept PB →
  eff_out (any_env payE) e (w_pay w) (w_pay w) a → bills (k a) PB →
  ∃ L' P', stable sysR P' ∧ P' w ∧ sys_inv w (L' ++ F) ∧ swp (pay_prog dead (k a)) L' P' Q.
Proof using HstW HQt Hwp IH.
  intros HI [[HPw HPB] HPW] HB Hout Hbl.
  destruct (pay_step w F (w_pay w) a PB HI HPw HPW Hout) as [_ Hnext];
    [apply txns_by_refl|done..|]. by rewrite set_pay_id in Hnext.
Qed.
End effect.

Lemma lifts_uuid k : (∀ a, lifts (k a)) → lifts (Vis NewUUID k).
Proof using HstW HQt HQ.
  intros IH Lp P PB Hwp Hbl HP HB. cbn -[wp]. unfold new_uuid.
  apply wp_uuid; [apply _|by apply knows_stable|]. intros s w F w' r HI HPs (t & flt & _ & Hout).
  destruct (inv_draw s t w _ HI) as (id & Hid & HI'%inv_drop & HR).
  pose proof (knows_stable P PB HP HB w _ HR HPs) as HPw.
  destruct (draw s t w) as [w1 r1] eqn:Hdraw. cbn in Hid, HI', HR, HPw. subst r1.
  destruct flt as [|e|e]; cbn [sql_outcome] in Hout; rewrite ?Hdraw in Hout; injection Hout as <- <-.
  - split; [done|]. by eapply (pay_stays NewUUID).
  - split; [done|]. exists (HClaim <$> Lp), (knows P PB).
    split_and!; [by apply knows_stable|done|done|by apply HQ, knows_stable].
  - split; [done|]. exists (HClaim <$> Lp), (knows P PB).
    split_and!; [by apply knows_stable|exact HPw|done|by apply HQ, knows_stable].
Qed.

Lemma lifts_call {B} (x : payE B) k : (∀ a, lifts (k a)) → lifts (Vis (Ext x) k).
Proof using HstW HQt.
  intros IH Lp P PB Hwp Hbl HP HB.
  assert (∀ x : payE B, swp (Vis (Ext (Gateway x)) (λ b, pay_prog dead (k b))) (HClaim <$> Lp) (knows P PB) Q) as Hcall.
  { intros x' w F w' a HI Hw [-> _]. split; [done|]. eapply (pay_stays (Ext x)); [done..|apply Hbl]. }
  destruct x as [ref amount cur exp channels email|ref|ref]; cbn -[wp]; [|apply Hcall..].
  destruct Hbl as [Hbill Hbl]. cbn in Hbill. intros w F w' r HI Hw (t & flt & _ & Hout).
  destruct (inv_ask (mkSessionCall ref amount cur) t w _ HI (Hbill _ (proj2 (proj1 Hw)))) as [HI' HR].
  set (w1 := (ask (mkSessionCall ref amount cur) t w).1) in HI', HR.
  pose proof (knows_stable P PB HP HB w w1 HR Hw) as Hw1.
  destruct flt as [|e|e]; cbn [sql_outcome] in Hout; injection Hout as <- <-.
  - split; [exact HR|]. exists (HClaim <$> Lp), (knows P PB).
    split_and!; [by apply knows_stable|exact Hw1|exact HI'|apply Hcall].
  - split; [done|]. eapply (pay_stays (Ext _)); [done..|apply Hbl].
  - split; [exact HR|]. eapply (pay_stays (Ext _)); [done..|apply Hbl].
Qed.

(** A program proved against the invariant of payment keeps the invariant of
    the world, when the transactions it creates come from calls that were sent. *)
Lemma lifts_guarded p : guards (txns_by Qt) p → lifts p.
Proof using HstW HQt HQ.
  induction p as [a|Y e k IH]; intros Hg Lp P PB Hwp Hbl HP HB; [by apply HQ, knows_stable|].
  destruct Hg as [He Hk]. destruct e as [B' g| | |B' x].
  - intros w F w' r HI [[HPw HPB] HPW] (t & flt & _ & Hout).
    destruct (on_pay_outcome _ _ _ _ _ _ Hout) as (d' & -> & Hd').
    destruct (Hbl t flt _ _ _ HPB Hd') as (PB' & HstB'%rows_stable & HPB' & Hbl').
    apply (pay_step (Sql g) k Lp P Hwp (λ a, IH a (Hk a)) w F d' r PB'); [done|done|done|by exists t, flt|by eapply txns_by_outcome|done..].
  - intros w F w' t HI Hw Hout. cbn in Hout. subst w'. split; [done|].
    by apply (pay_stays Now k Lp P Hwp (λ a, IH a (Hk a)) w F t PB).
  - apply lifts_uuid; [|done..]. intros a. by apply IH.
  - apply lifts_call; [|done..]. intros a. by apply IH.
Qed.
End pay.

Lemma swp_pay {A} (dead : A) (Qt : Transaction → Prop) (PW : world → Prop) (p : pprog A)
    Lp (P PB : PayDB → Prop) Qp (Q : A → list shold → (world → Prop) → Prop) :
  pwp p Lp P Qp → guards (txns_by Qt) p → bills p PB →
  stable txns_kept P → stable txns_kept PB → stable sysR PW →
  (∀ w t, PW w → Qt t → ∃ q, q ∈ w_requests w ∧ txn_from q t) →
  (∀ a L P', stable sysR P' → Q a L P') →
  swp (pay_prog dead p) (HClaim <$> Lp) (λ w, (P (w_pay w) ∧ PB (w_pay w)) ∧ PW w) Q.
Proof.
  intros Hwp Hg Hbl HP HB HstW HQt HQ.
  exact (lifts_guarded dead Qt PW Qp Q HstW HQt HQ p Hg Lp P PB Hwp Hbl HP HB).
Qed.

(** *** Which transactions the statements create *)

Section created.
Context (Qt : Transaction → Prop).

Lemma by_query {B} (f : PayDB → res B) t d : txns_by Qt d (query f t d).1.
Proof. apply txns_by_refl. Qed.

Lemma by_outbox topic key p tc t d :
  is_ticket p = false → topic = topic_of p → txns_by Qt d (insert_outbox topic key p tc t d).1.
Proof. intros Hp Ht. apply txns_by_same; [done|by apply adds_only_insert]. Qed.

Lemma by_refund r t d : txns_by Qt d (insert_refund r t d).1.
Proof. unfold insert_refund. repeat case_match; apply txns_by_same; done || apply adds_only_refl. Qed.

Lemma by_update id cond g t d :
  (∀ u, txn_fixed (g t u) = txn_fixed u) → txns_by Qt d (update_txn id cond g t d).1.
Proof.
  intros Hg. unfold update_txn. destruct (transactions d !! id) as [u|] eqn:Hu; [|apply txns_by_refl].
  destruct (cond u); [|apply txns_by_refl]. destruct (txn_check _); [|apply txns_by_refl].
  split_and!; [|apply adds_only_refl|].
  - intros k u'. cbn. rewrite lookup_insert_Some. intros [[<- <-]|[_ Hk]]; left; eauto.
  - intros k u' Hk. cbn. destruct (decide (k = id)) as [->|]; [|rewrite lookup_insert_ne by done; eauto].
    rewrite lookup_insert_eq. eexists. split; [done|]. rewrite Hg. congruence.
Qed.

Lemma by_status_ref id cond st ref t d :
  txns_by Qt d (update_txn id cond (with_status_ref st ref) t d).1.
Proof. by apply by_update. Qed.
Lemma by_session id cond ref link t d :
  txns_by Qt d (update_txn id cond (with_session ref link) t d).1.
Proof. by apply by_update. Qed.
Lemma by_refund_status id cond rs t d :
  txns_by Qt d (update_txn id cond (with_refund_status rs) t d).1.
Proof. by apply by_update. Qed.

Lemma by_insert u t d : Qt (txn_row t u) → txns_by Qt d (insert_txn u t d).1.
Proof.
  intros HQ. unfold insert_txn. destruct (negb _); [apply txns_by_refl|].
  destruct (_ || _) eqn:Hdup; [apply txns_by_refl|]. apply orb_false_iff in Hdup as [Hno%bool_decide_eq_false _].
  split_and!; [|apply adds_only_refl|].
  - intros k u'. cbn. rewrite lookup_insert_Some. intros [[<- <-]|[_ Hk]]; [by right|]. left. eauto.
  - intros k u' Hk. cbn. rewrite lookup_insert_ne; [eauto|]. intros <-. by rewrite Hk in Hno; destruct Hno.
Qed.
End created.

#[export] Hint Extern 0 (txns_by _ _ (insert_outbox _ _ _ _ _ _).1) =>
  by apply by_outbox : ticket.
#[export] Hint Resolve by_query by_refund by_status_ref by_session by_refund_status : ticket.

Section created_programs.
Context (Qt : Transaction → Prop).
Local Abbreviation by_ := (guards (X := payE) (txns_by Qt)).

Lemma by_Initiate s b ev u em amt exp :
  (∀ id now, Qt (txn_row now (new_txn s id b ev u em amt exp))) →
  by_ (InitiateTxnForBooking s b ev u em amt exp).
Proof.
  intros HQ. unfold InitiateTxnForBooking. apply guards_bind; [done|]. intros id.
  apply guards_bind; [split; [|done]; intros t d; by apply by_insert|].
  unfold TransactionRepo_FindByBookingID. guards_solve.
Qed.

Lemma by_ProcessPayment s b u : by_ (ProcessPayment s b u).
Proof.
  unfold ProcessPayment, hold_over, TransactionRepo_FindByBookingID,
    TransactionRepo_TransitionIfInitiated, TransactionRepo_UpdateSession. guards_solve.
Qed.

Lemma by_webhook ctx body : by_ (HandleSessionWebhook ctx body).
Proof.
  unfold HandleSessionWebhook, TransactionRepo_FindByBookingID, webhook_completed,
    webhook_expired, TransactionRepo_TransitionIfActive, requestLatePaymentRefund,
    RefundRepo_Create, TransactionRepo_UpdateRefundStatus. guards_solve.
Qed.

Lemma by_poll ctx : by_ (expiryTick ctx).
Proof.
  unfold expiryTick, discard, ProcessExpired, TransactionRepo_ListActiveExpired.
  apply guards_bind; [|done]. apply guards_bind; [done|]. intros now.
  apply guards_bind; [guards_solve|]. intros [txns|e]; [|done]. apply guards_bind; [|done].
  induction txns as [|t txns IH]; cbn [expireLoop]; [done|]. apply guards_bind; [|done].
  unfold expireOne, TransactionRepo_TransitionIfActive. guards_solve.
Qed.

Lemma by_eventCancelled m : by_ (pay_onEventCancelled m).
Proof.
  unfold pay_onEventCancelled. split_match; [|done].
  unfold HandleEventCancelled, TransactionRepo_ListByEventID.
  apply guards_bind; [guards_solve|]. intros [txns|e]; [|done].
  induction txns as [|t txns IH]; cbn [refundLoop]; [done|]. case_bool_decide; [|done].
  unfold RefundRepo_Create, TransactionRepo_UpdateRefundStatus.
  apply guards_bind; [done|]. intros id. apply guards_bind; [guards_solve|]. intros [[]|e]; [|done].
  apply guards_bind; [guards_solve|]. by intros [].
Qed.
End created_programs.

(** *** Which sessions the programs ask for *)

Lemma free_webhook ctx body : calls no_session (HandleSessionWebhook ctx body).
Proof. unfold_payment. calls_solve. Qed.

Lemma free_poll ctx : calls no_session (expiryTick ctx).
Proof. unfold_payment. calls_solve. by apply calls_expireLoop. Qed.

Lemma free_eventCancelled m : calls no_session (pay_onEventCancelled m).
Proof. unfold_payment. calls_solve. apply calls_refundLoop. Qed.

Lemma free_Initiate s b ev u em amt exp :
  calls no_session (InitiateTxnForBooking s b ev u em amt exp).
Proof. unfold_payment. calls_solve. Qed.

Lemma free_status b : calls no_session (GetPaymentStatus b).
Proof. unfold GetPaymentStatus. unfold_payment. calls_solve. Qed.

(** The amount and the currency of a session are those of the transaction, which
    is the user's. *)
Definition billed_for (user : string) (d : PayDB) (c : sessionCall) : Prop :=
  ∃ k t, transactions d !! k = Some t ∧ tx_BookingID t = sc_RefID c ∧
    tx_AmountRupiah t = sc_AmountRupiah c ∧ tx_Currency t = sc_Currency c ∧ tx_UserID t = user.
Lemma billed_for_stable user c : stable rows_stay (λ d, billed_for user d c).
Proof.
  intros d d' Hk (k & t & Ht & Hb & Ha & Hc & Hu). destruct (Hk k t Ht) as (t' & Ht' & Hf).
  unfold txn_fixed in Hf. injection Hf. intros. exists k, t'. split_and!; [done|congruence..].
Qed.

Lemma billed_for_ProcessPayment s b u : bills_for (billed_for u) (ProcessPayment s b u) (λ _, True).
Proof.
  unfold ProcessPayment, TransactionRepo_FindByBookingID.
  cbn [prog_bind sql mbind prog_mbind bills_for]. intros t flt d d' r _ Hout.
  exists (λ d, ∀ txn, r = Ok txn → billed_for (tx_UserID txn) d
    (mkSessionCall b (tx_AmountRupiah txn) (tx_Currency txn))). split_and!.
  - intros d1 d2 Hk H1 txn Hr. by eapply billed_for_stable, H1.
  - intros txn ->. destruct flt as [|e|e]; cbn in Hout; [|done|done]. injection Hout as <- Hrow.
    destruct (txn_of_booking b d) as [u'|] eqn:Hu; [|done]. injection Hrow as ->.
    apply txn_of_booking_elem in Hu as (k & Hk & Hb). by exists k, txn.
  - destruct r as [txn|e]; [|done]. destruct (negb _); [done|].
    assert (∀ (f : bool → pprog (res (Transaction * SessionResult))) P,
      (∀ o, bills_for (billed_for u) (f o) P) →
      bills_for (billed_for u) (prog_bind f (hold_over (tx_ExpiresAt txn))) P) as Hhold.
    { intros f P Hf. unfold hold_over. destruct (tx_ExpiresAt txn); [|apply Hf].
      intros now. cbn. destruct (negb _); [apply Hf|]. intros now'. apply Hf. }
    apply Hhold. intros [|]; [done|]. destruct (bool_decide (tx_UserID txn = u)) eqn:Hu; [|done].
    apply bool_decide_eq_true in Hu. intros now.
    split; [cbn; intros d1 HP; rewrite <- Hu; by apply HP|]. intros a. apply bills_free.
    unfold_payment. calls_solve.
Qed.

Lemma bills_ProcessPayment s b u : bills (ProcessPayment s b u) (λ _, True).
Proof.
  eapply bills_mono, billed_for_ProcessPayment. intros d c (k & t & ? & ? & ? & ? & _). by exists k, t.
Qed.

(** ** The programs of the system *)

Section entries.
Local Abbreviation anyQ := (λ _ _ _, True).
Local Abbreviation ssafe p := (safe (any_env sysE) sys_inv sysR p [] (λ _, True)).

Lemma weaken {A} (p : sprog A) P :
  stable sysR P → (∀ w, P w) → swp p [] P anyQ → swp p [] (λ _, True) anyQ.
Proof.
  intros Hst HP Hwp. eapply wp_mono; [done|].
  eapply (wp_frame _ _ _ p [] P _ [] (λ _, True)); [done|apply true_sys|by intros|done].
Qed.

(** *** Requests to ticketing *)

Definition ticket_safe {A} (p : tprog A) : Prop := ssafe (ticket_prog () (discard p)).

Lemma quiet_safe {A} (p : tprog A) : quiet (λ _ _, False) p → ticket_safe p.
Proof. intros Hq. by apply swp_silent. Qed.

Lemma qt_reprocess ctx ev u c : quiet (λ _ _, False) (reprocessCancellation ctx ev u c).
Proof. by apply qt_events. Qed.

Lemma ticket_handlers_quiet `{!Validator} :
  Forall (λ h : request → tprog (response ticketData), ∀ r, quiet (λ _ _, False) (h r))
    [EventHandler_ListPublished; EventHandler_GetEvent; EventHandler_CreateEvent;
     EventHandler_UpdateEvent; EventHandler_CancelEvent; EventHandler_ReprocessCancellation;
     EventHandler_ListMyEvents; EventHandler_ListAll; EventHandler_ListPending;
     EventHandler_ApproveEvent; EventHandler_RejectEvent; BookingHandler_Release;
     BookingHandler_ListMyBookings; BookingHandler_GetBooking].
Proof.
  destruct (qt_events (λ _ _, False)) as (Hu & Hr & Hc & Hp).
  repeat (apply Forall_cons_2; [intros r|]); [..|constructor];
    try solve [by apply quiet_map, qt_paged | done].
  - apply quiet_map, qt_GetEvent.
  - unfold EventHandler_CreateEvent. destruct (Decode _ _); [|done].
    destruct (validate_Struct _); [done|]. apply quiet_map, qt_CreateEvent.
  - unfold EventHandler_UpdateEvent. destruct (Decode _ _); [|done].
    destruct (validate_Struct _); [done|]. apply quiet_map, Hu.
  - apply quiet_map, Hc.
  - unfold EventHandler_ReprocessCancellation. case_bool_decide; apply quiet_map, Hp.
  - apply quiet_map, qt_ApproveEvent.
  - unfold EventHandler_RejectEvent. destruct (Decode _ _); [|done].
    destruct (validate_Struct _); [done|]. apply quiet_map, Hr.
  - unfold BookingHandler_ListMyBookings. case_bool_decide; [done|]. apply quiet_map.
    unfold ListMyBookings, BookingRepo_ListByUser. apply quiet_bind; [quiet_solve|].
    intros [bs|e]; [apply qt_load_all|done].
  - apply quiet_map, qt_FindByID.
Qed.

Lemma with_role_safe role h r : (∀ r, ticket_safe (h r)) → ticket_safe (with_role role h r).
Proof.
  intros Hh. unfold with_role, WithUserContext, RequireRole. by destruct (existsb _ _).
Qed.

Lemma Reserve_safe `{!Validator} s r : ticket_safe (BookingHandler_Reserve s r).
Proof.
  unfold ticket_safe, BookingHandler_Reserve. destruct (Decode _ _); [|done].
  destruct (validate_Struct _); [done|]. case_bool_decide; [done|].
  apply swp_assoc. by apply swp_Reserve.
Qed.

Lemma ticket_routes_safe `{!Validator} s method pattern f r :
  (method, pattern, f) ∈ ticketing_routes s → ticket_safe (f r).
Proof.
  pose proof ticket_handlers_quiet as Hq. rewrite Forall_forall in Hq.
  assert (Forall (λ e, ∀ r, ticket_safe (e.2 r)) (ticketing_routes s)) as Hall;
    [|intros Hin; rewrite Forall_forall in Hall; exact (Hall _ Hin r)].
  unfold ticketing_routes, EventHandler_Routes, BookingHandler_Routes. cbn [app].
  repeat (apply Forall_cons_2; [cbn [snd]; intros r'|]); [..|constructor];
    try (apply with_role_safe; clear r'; intros r');
    first [apply Reserve_safe | apply quiet_safe; apply Hq; set_solver | idtac].
  apply quiet_safe. unfold WithUserContext. apply Hq. set_solver.
Qed.

(** *** Requests to payment *)

Definition pay_safe {A} (p : pprog A) : Prop :=
  pwp p [] (λ _, True) anyQ ∧ guards (txns_by (λ _, False)) p ∧ bills p (λ _, True).

Lemma pay_safe_entry {A} (dead : A) (p : pprog A) :
  pay_safe p → swp (pay_prog dead p) [] (λ _, True) anyQ.
Proof.
  intros (Hwp & Hby & Hbl). apply (weaken _ (λ _, (True ∧ True) ∧ True)); [by intros w w'|done|].
  by apply (swp_pay dead (λ _, False) (λ _, True) p [] (λ _, True) (λ _, True) anyQ anyQ);
    [..|apply true_kept|apply true_kept|apply true_sys| |].
Qed.

Lemma pay_safe_bind {A B} (p : pprog A) (f : A → pprog B) :
  guards (X := payE) (keeps pay_inv txns_kept) p → guards (txns_by (λ _, False)) p →
  bills p (λ _, True) → (∀ a, calls no_session (f a)) →
  (∀ a, pay_safe (f a)) → pay_safe (prog_bind f p).
Proof.
  intros Hn Hby Hbl Hfree Hf. split_and!.
  - apply wp_pneutral_bind; [done|apply true_kept|]. intros a. apply Hf.
  - apply guards_bind; [done|]. intros a. apply Hf.
  - by apply bills_free_bind.
Qed.

Lemma pay_safe_map {A B} (p : pprog A) (f : A → B) :
  pay_safe p → pay_safe (prog_bind (λ a, Ret (f a)) p).
Proof.
  intros (Hwp & Hby & Hbl).
  split_and!; [by apply wp_bind|by apply guards_bind|by apply bills_free_bind].
Qed.

Lemma pay_safe_query {A} (f : PayDB → res A) : pay_safe (sql (query f)).
Proof.
  split; [|split; [split; [intros t d; apply by_query|done]|by apply bills_free]].
  apply (wp_keeps (any_env payE) pay_inv txns_kept (sql (query f)) [] (λ _, True) anyQ);
    [split; [intros t d; apply neutral_pquery|done]|apply true_kept|done].
Qed.

Lemma webhook_safe ctx body : pay_safe (HandleSessionWebhook ctx body).
Proof. split_and!; [apply safe_webhook|apply by_webhook|apply bills_free, free_webhook]. Qed.

Lemma GetPaymentStatus_guards R (b : string) :
  (∀ f : PayDB → res Transaction, ∀ t d, R d (query f t d).1) →
  guards (X := payE) R (GetPaymentStatus b).
Proof. intros HR. apply guards_bind; [by split|]. by intros []. Qed.

Lemma mock_webhook_safe r : pay_safe (PaymentHandler_MockSessionWebhook r).
Proof.
  assert (∀ e st, pay_safe
    (t ← GetPaymentStatus (r_param r "booking_id");
     match t with
     | Err _ => Ret (NotFound "transaction not found")
     | Ok txn =>
         w ← HandleSessionWebhook (r_ctx r)
               (Ok (mkSessionWebhook e (r_param r "booking_id") (tx_ProviderRef txn) "" st));
         Ret (webhook_response "mock webhook failed" w)
     end)) as Hd.
  { intros e st. apply pay_safe_bind.
    - apply GetPaymentStatus_guards. apply neutral_pquery.
    - apply GetPaymentStatus_guards. apply by_query.
    - apply bills_free, free_status.
    - intros [t|err]; [|done]. apply calls_bind; [apply free_webhook|done].
    - intros [t|err]; [|done]. apply pay_safe_map, webhook_safe. }
  unfold PaymentHandler_MockSessionWebhook. case_bool_decide; [apply Hd|].
  case_bool_decide; [apply Hd|done].
Qed.

Lemma pay_role_safe role f r :
  (∀ r, pay_safe (f r)) → pay_safe (pay_with_role role f r).
Proof.
  intros Hf. unfold pay_with_role, WithUserContext, RequireRole. by destruct (existsb _ _).
Qed.

Lemma pay_handlers_safe h :
  (∀ r, pay_safe (PaymentHandler_ProcessPayment h r)) ∧
  (∀ r, pay_safe (PaymentHandler_GetPaymentStatus r)) ∧
  (∀ r, pay_safe (PaymentHandler_GetStatus r)) ∧
  (∀ r, pay_safe (PaymentHandler_GetTransaction r)) ∧
  (∀ r, pay_safe (PaymentHandler_ListTransactions r)).
Proof.
  split_and!; intros r.
  - unfold PaymentHandler_ProcessPayment. case_bool_decide; [done|].
    apply pay_safe_bind;
      [apply pg_ProcessPayment|apply by_ProcessPayment|apply bills_ProcessPayment|done|done].
  - apply pay_safe_bind; [| |apply bills_free, free_status|done|done];
      apply GetPaymentStatus_guards; [apply neutral_pquery|apply by_query].
  - apply pay_safe_map, pay_safe_query.
  - apply pay_safe_map, pay_safe_query.
  - unfold PaymentHandler_ListTransactions. case_bool_decide; [done|].
    apply pay_safe_map, pay_safe_query.
Qed.

Lemma pay_routes_safe h readable method pattern f r :
  (method, pattern, f) ∈ PaymentHandler_Routes h readable →
  (pattern = "/api/payments/internal" → r_header r "X-Internal-Key" ≠ ph_internalKey h) →
  pay_safe (f r).
Proof.
  destruct (pay_handlers_safe h) as (H1 & H2 & H3 & H4 & H5).
  assert (Forall (λ e, ∀ r, (e.1.2 = "/api/payments/internal" →
    r_header r "X-Internal-Key" ≠ ph_internalKey h) → pay_safe (e.2 r))
    (PaymentHandler_Routes h readable)) as Hall;
    [|intros Hin Hk; rewrite Forall_forall in Hall; exact (Hall _ Hin r Hk)].
  unfold PaymentHandler_Routes.
  repeat (apply Forall_cons_2; [cbn [fst snd]; intros r' Hk|]); [..|constructor];
    try (by apply pay_role_safe).
  - unfold PaymentHandler_Webhook. case_bool_decide; [|done]. destruct readable; [|done]. cbn [negb].
    apply pay_safe_map, webhook_safe.
  - apply mock_webhook_safe.
  - unfold requireInternalKey. rewrite bool_decide_eq_false_2 by (by apply Hk). done.
Qed.

(** *** The call, served *)

Lemma stable_requested q : stable sysR (λ w, q ∈ w_requests w).
Proof. intros w w' [_ HR]. apply HR. Qed.

Lemma serve_safe h i : ssafe (serve h i).
Proof.
  unfold safe, serve. apply wp_bind, wp_query; [apply _|apply true_sys|done| |done].
  intros w F t HI _. cbn. destruct (w_requests w !! i) as [q|] eqn:Hq; cbn -[wp].
  2:{ exists (λ _, True). split_and!; [apply true_sys|done|done]. }
  exists (λ w, (True ∧ True) ∧ q ∈ w_requests w).
  split_and!; [|done|done|by eapply list_elem_of_lookup_2|].
  { intros w1 w2 HR [_ ?]. split; [done|]. by eapply stable_requested. }
  apply wp_bind.
  apply (swp_pay _ (txn_from q) (λ w, q ∈ w_requests w) _ [] (λ _, True) (λ _, True) anyQ).
  - unfold initiate_route, requireInternalKey. destruct (negb _); [done|].
    unfold PaymentHandler_InitiateTxnForBooking. rewrite decode_wire.
    case_bool_decide; [|done]. destruct (ParseRFC3339 _); [|done]. destruct (_ || _); [done|].
    apply wp_pneutral_bind; [apply pg_Initiate|apply true_kept|done].
  - unfold initiate_route, requireInternalKey. destruct (negb _); [done|].
    unfold PaymentHandler_InitiateTxnForBooking. rewrite decode_wire.
    case_bool_decide; [|done]. destruct (ParseRFC3339 _); [|done]. destruct (_ || _); [done|]. apply guards_bind; [|done].
    by apply by_Initiate.
  - apply bills_free. unfold initiate_route, requireInternalKey. destruct (negb _); [done|].
    unfold PaymentHandler_InitiateTxnForBooking. destruct (Decode _ _); [|done].
    destruct (_ || _); [done|]. apply calls_bind; [apply free_Initiate|done].
  - apply true_kept.
  - apply true_kept.
  - apply stable_requested.
  - eauto.
  - intros resp L P HstP.
    apply (wp_sql (any_env sysE) sys_inv sysR (answer q (response_status resp)) (λ _, Ret ()));
      [done| |done].
    intros w1 F1 t1 HI1 HP1. cbn -[wp].
    assert (sysR w1 (answer q (response_status resp) t1 w1).1) as HR by (by split).
    split; [done|]. exists L, P. split_and!; [done|by eapply HstP|by apply (inv_answer _ _ t1)|done|done].
Qed.

(** *** The workers *)

Lemma reports_on_deliver id rid r : reports_on rid (deliver id r) = reports_on rid r.
Proof. unfold reports_on. by rewrite deliver_payload. Qed.

Lemma report_count_deliver id rid l :
  length (filter (λ r, reports_on rid r = true) (deliver id <$> l)) =
  length (filter (λ r, reports_on rid r = true) l).
Proof.
  induction l as [|r l IH]; [done|]. rewrite fmap_cons, !filter_cons, reports_on_deliver.
  case_decide; cbn [length]; by rewrite IH.
Qed.

Lemma pay_inv_mark id t d L : pay_inv d L → pay_inv (mark_delivered id t d).1 L.
Proof.
  intros [? ? Honce Hrep ? ? ?]. split; try done.
  - intros rid. specialize (Honce rid). unfold report_count in *. cbn.
    by rewrite report_count_deliver.
  - intros r rid s. cbn. intros (r0 & -> & Hr)%list_elem_of_fmap. rewrite deliver_payload.
    by apply Hrep.
Qed.

Lemma books_mark C id t d : books_step C d (mark_delivered id t d).1.
Proof.
  split; [done| |by apply tables_wf_same|apply adds_only_mark]. intros b row Hrow. exists row. auto.
Qed.

Definition all_true (rows : list outboxRow) (w : world) : Prop :=
  Forall (λ r, true_report w (row_message r)) rows.

Lemma all_true_stable rows : stable sysR (all_true rows).
Proof.
  intros w w' HR Hall. eapply Forall_impl; [done|]. intros r. by apply true_report_stable.
Qed.

(** A worker seen through its lens: it appends to the log, marks rows of its
    own table, and reads rows that report the truth. *)
Section worker.
Context {D : Type} `{!HasOutbox D} (lens : ∀ B, stmt (D * broker) B → stmt world B).
Context (Hproduce : ∀ m t w, (lens _ (produce m) t w).1 = set_broker (w_broker w ++ [m]) w).
Context (Hmark : ∀ id t w L, sys_inv w L →
  sys_inv (lens _ (on_db (mark_delivered id)) t w).1 L ∧
  sysR w (lens _ (on_db (mark_delivered id)) t w).1).
Context (Hselect : ∀ t w L, sys_inv w L →
  ∃ rows, lens _ (on_db select_batch) t w = (w, Ok rows) ∧ all_true rows w).

Lemma worker_drain_safe rows P :
  stable sysR P → (∀ w, P w → all_true rows w) →
  swp (interp (worker_handler lens ()) (drain rows)) [] P anyQ.
Proof.
  intros Hst. induction rows as [|row rows IH]; intros HP; [done|].
  assert (∀ w, P w → true_report w (row_message row) ∧ all_true rows w) as HP'.
  { intros w Hw. specialize (HP w Hw). by apply Forall_cons in HP. }
  assert (swp (interp (worker_handler lens ()) (drain rows)) [] P anyQ) as Hrest.
  { apply IH. intros w Hw. by apply HP'. }
  cbn -[wp]. apply wp_sql; [apply _|done| |done]. intros w F t HI Hw.
  pose proof (Hproduce (row_message row) t w) as Hw'.
  destruct (lens _ _ t w) as [w' r]. cbn in Hw'. subst w'.
  assert (sysR w (set_broker (w_broker w ++ [row_message row]) w)) as HR by (by split).
  split; [done|]. exists [], P.
  split_and!; [done|by eapply Hst|by apply inv_broker; [|apply HP']| |done].
  destruct r as [[]|e]; cbn -[wp]; [|done]. apply wp_sql; [apply _|done| |done].
  intros w1 F1 t1 HI1 Hw1. destruct (Hmark (ob_ID row) t1 w1 _ HI1) as [HI2 HR2].
  destruct (lens _ _ t1 w1) as [w2 r2]. split; [done|]. exists [], P.
  split_and!; [done|by eapply Hst|done|done|done].
Qed.

Lemma worker_safe : ssafe (interp (worker_handler lens ()) processBatch).
Proof.
  unfold safe. cbn -[wp drain]. apply wp_sql; [apply _|apply true_sys| |done].
  intros w F t HI _. destruct (Hselect t w _ HI) as (rows & -> & Hall). split; [done|].
  exists [], (all_true rows). split_and!; [apply all_true_stable|done|done| |done].
  apply worker_drain_safe; [apply all_true_stable|done].
Qed.
End worker.

Lemma ticket_worker_safe : ssafe ticket_worker.
Proof.
  apply worker_safe.
  - intros m t w. by destruct w.
  - intros id t w L HI. split; [|by split]. cbn.
    eapply (inv_books (λ _ _, False)) in HI; [|apply (books_mark _ id t)|done]. by destruct w.
  - intros t w L HI. eexists. split; [by destruct w|].
    apply Forall_forall. intros r Hr. apply (si_outbox _ _ HI).
    exact (select_batch_elem t (w_ticket w) _ r eq_refl Hr).
Qed.

Lemma pay_worker_safe : ssafe pay_worker.
Proof.
  apply worker_safe.
  - intros m t w. by destruct w.
  - intros id t w L HI. split; [|split; [by apply txns_kept_same|done]]. cbn.
    eapply (inv_pay (λ _, False) w (mark_delivered id t (w_pay w)).1 [] [] L) in HI;
      [by destruct w|apply pay_inv_mark, HI|by apply txns_kept_same|apply txns_by_same; [done|apply adds_only_mark]|done].
  - intros t w L HI. eexists. split; [by destruct w|].
    apply Forall_forall. intros r Hr. apply (si_reports _ _ HI).
    exact (select_batch_elem t (w_pay w) _ r eq_refl Hr).
Qed.

(** *** The consumers *)

Lemma fetch_safe topic i (f : message → sprog unit) :
  (∀ m, topic = topic_of (msg_Value m) → swp (f m) [] (λ w, true_report w m) anyQ) →
  ssafe (prog_bind (λ r, match r with Err _ => Ret () | Ok m => f m end) (sql (fetch topic i))).
Proof.
  intros Hf. apply wp_bind, wp_query; [apply _|apply true_sys|done| |done].
  intros w F t HI _. cbn.
  destruct (w_broker w !! i) as [m|] eqn:Hm; [|exists (λ _, True); by split_and!; [apply true_sys|..]].
  case_decide as Ht; [|exists (λ _, True); by split_and!; [apply true_sys|..]].
  assert (true_report w m) as Hm' by (apply (si_broker _ _ HI); by eapply list_elem_of_lookup_2).
  exists (λ w, true_report w m). split_and!; [apply true_report_stable|done|].
  apply Hf. destruct Hm' as [<- _]. congruence.
Qed.

Lemma consumer_safe topic handler i :
  (∀ m, topic = topic_of (msg_Value m) →
     quiet (λ b s, vouched (msg_Value m) = Some (b, s)) (handler m)) →
  ssafe (ticket_consumer topic handler i).
Proof.
  intros Hq. apply fetch_safe. intros m Ht.
  apply (swp_quiet_bind () (λ b s, vouched (msg_Value m) = Some (b, s)));
    [auto|apply true_report_stable| |done|done].
  intros w b s [_ Hv]. apply Hv.
Qed.

(** On their own topics the consumers read the booking the message reports. *)
Lemma qt_onPaymentCompleted ctx m :
  "payment.completed" = topic_of (msg_Value m) →
  quiet (λ b s, vouched (msg_Value m) = Some (b, s)) (onPaymentCompleted ctx m).
Proof.
  intros Ht. unfold onPaymentCompleted. destruct (msg_Value m) as [|e| |]; try done.
  destruct (Unmarshal_payload _) as [e'|] eqn:Hu; [|done].
  rewrite (unmarshal_completed e e' Hu). by apply qt_Confirm.
Qed.

Lemma qt_onPaymentExpired m :
  "payment.expired" = topic_of (msg_Value m) →
  quiet (λ b s, vouched (msg_Value m) = Some (b, s)) (onPaymentExpired m).
Proof.
  intros Ht. unfold onPaymentExpired. destruct (msg_Value m) as [| |e|]; try done.
  destruct (Unmarshal_payload _) as [e'|] eqn:Hu; [|done].
  rewrite (unmarshal_expired e e' Hu). by apply qt_Expire.
Qed.

Lemma ticket_consumers_safe :
  (∀ ctx i, ssafe (ticket_consumer "payment.completed" (onPaymentCompleted ctx) i)) ∧
  (∀ i, ssafe (ticket_consumer "payment.expired" onPaymentExpired i)) ∧
  (∀ i, ssafe (ticket_consumer "event.cancelled" onEventCancelled i)).
Proof.
  split_and!; intros; apply consumer_safe; intros m Ht.
  - by apply qt_onPaymentCompleted.
  - by apply qt_onPaymentExpired.
  - unfold onEventCancelled. split_match; [apply qt_CancelBookings|done].
Qed.

Lemma pay_consumer_safe i : ssafe (pay_consumer i).
Proof.
  apply fetch_safe. intros m _.
  assert (pay_safe (discard (pay_onEventCancelled m))) as Hp.
  { apply pay_safe_map. split_and!; [|apply by_eventCancelled|apply bills_free, free_eventCancelled].
    unfold pay_onEventCancelled. split_match; [apply safe_eventCancelled|done]. }
  eapply wp_mono; [done|].
  eapply (wp_frame _ _ _ _ [] (λ _, True) anyQ [] (λ w, true_report w m));
    [apply true_sys|apply true_report_stable|done|by apply pay_safe_entry].
Qed.

Lemma sys_entry_safe `{!Validator} s h p : sys_entry s h p → ssafe p.
Proof.
  destruct ticket_consumers_safe as (H1 & H2 & H3). destruct 1; auto.
  - by eapply ticket_routes_safe.
  - apply pay_safe_entry, pay_safe_map. by eapply pay_routes_safe.
  - apply serve_safe.
  - apply pay_safe_entry. split_and!; [|apply by_poll|apply bills_free, free_poll].
    apply wp_bind, safe_ProcessExpired.
  - apply pay_consumer_safe.
  - apply ticket_worker_safe.
  - apply pay_worker_safe.
Qed.
End entries.

Lemma launched_inv w : launched w → sys_inv w [].
Proof.
  intros [(Hb & Hi & Ho) (Ht & Hr & Hp) (Hbr & Hrq & Hse)].
  split; cbn; rewrite ?Hb, ?Hbr, ?Hrq, ?Hse, ?Ht.
  - split; rewrite ?Ht, ?Hr, ?Hp; try done.
    + intros id. unfold report_count. rewrite Hp. cbn. lia.
    + by intros r id s ?%elem_of_nil.
    + by intros id s ?%elem_of_nil.
  - done.
  - rewrite Ho. by intros r ?%elem_of_nil.
  - rewrite Hp. by intros r ?%elem_of_nil.
  - by intros m ?%elem_of_nil.
  - done.
  - by intros q ?%elem_of_nil.
  - intros b [row Hrow]. done.
  - split; [by rewrite Hi|by rewrite Hb].
  - constructor.
  - by intros b ?%elem_of_nil.
  - by intros b u e a ?%elem_of_nil.
  - by intros c ?%elem_of_nil.
Qed.

Lemma system_inv `{!Validator} s h w0 w :
  launched w0 → reachable (any_env sysE) (sys_entry s h) w0 w → ∃ L, sys_inv w L.
Proof.
  intros Hl. apply (reachable_inv (any_env sysE) sys_inv sysR); [apply sys_entry_safe|].
  by apply launched_inv.
Qed.

