(* ===== verification/SystemSpec.v ===== *)
(** * What the two services guarantee together

    The invariant of [SystemSafety] read off as theorems, and two complete runs
    of the system: a reservation that is paid and confirmed, and one whose
    payment session expires. *)
From S2P Require Import Prelude Effects Json Dto Outbox TicketDB Booking TicketSamples Event Seats SeatSafety ReserveSpec TransitionSpec TicketHandler TicketHttp PayDB Payment PaymentSafety PaymentSpec PayHandler PayHttp System SystemSafety.

(** *** A run of the system *)

Definition sys_answers : ∀ A, sysE A → A := λ A x,
  match x in sysE A return A with
  | Gateway x => gateway_ok _ x
  | Network => inl 0%nat
  end.
Definition sys_oracle : oracle sysE := calm sample_time sys_answers.
Definition opening : world := mkWorld sample_db pay_empty [] [] [] ∅ [].

Definition sample_request (headers params : list (string * string)) (body : option json) :
    request :=
  let get l k := default "" (snd <$> find (λ kv, bool_decide (kv.1 = k)) l) in
  mkRequest background (get headers) (get params) (λ _, "") body.

Section sample.
#[local] Existing Instance sample_validator.

(** A customer reserves two seats, payment serves the call, the customer asks
    for a payment link, and the gateway reports on the session. *)
Definition until_report (status : string) : list (sprog unit) :=
  [ticket_prog () (discard (http_reserve 2));
   serve sample_pay_handler 0;
   pay_prog () (discard (pay_with_role RoleCustomer
     (PaymentHandler_ProcessPayment sample_pay_handler)
     (sample_request [("X-Authenticated-User-ID", "u");
        ("X-Authenticated-User-Role", RoleCustomer)] [("booking_id", "id-3")] None)));
   pay_prog () (discard (PaymentHandler_Webhook sample_pay_handler true
     (sample_request [("x-callback-token", "token")] []
       (Some (JObj [("event", JStr ("payment_session." +:+ status));
                    ("data", JObj [("reference_id", JStr "id-3");
                                   ("payment_session_id", JStr "ps-mock-id-3")])])))))].

(** The worker and the consumer carry the news to ticketing. *)
Definition sale : list (sprog unit) :=
  until_report "completed" ++
  [pay_worker; ticket_consumer "payment.completed" (onPaymentCompleted background) 0; ticket_worker].
Definition lapse : list (sprog unit) :=
  until_report "expired" ++ [pay_worker; ticket_consumer "payment.expired" onPaymentExpired 0].

(** The reservation waits for the answer to its call after ten effects. *)
Definition sale_steps : list nat :=
  replicate 10 0%nat ++ replicate 9 1%nat ++ replicate 2 0%nat ++ concat (replicate 20 <$> seq 2 5).
Definition sold : world := (schedule sys_oracle sale_steps 0 sale opening).2.
Definition lapsed : world := (schedule sys_oracle sale_steps 0 lapse opening).2.

Lemma opening_launched : launched opening.
Proof. by split. Qed.

Lemma until_report_entries status :
  Forall (sys_entry sample_service sample_pay_handler) (until_report status).
Proof.
  repeat (apply Forall_cons_2); [..|constructor].
  - apply (SY_ticket _ _ "POST" "/api/bookings/reserve"). apply (list_elem_of_lookup_2 _ 12). done.
  - apply SY_serve.
  - eapply (SY_pay _ _ true "POST" "/api/payments/booking/{booking_id}"); [|done].
    apply (list_elem_of_lookup_2 _ 3). done.
  - eapply (SY_pay _ _ true "POST" "/api/payments/webhook"); [|done].
    apply (list_elem_of_lookup_2 _ 0). done.
Qed.

Lemma sold_reachable :
  reachable (any_env sysE) (sys_entry sample_service sample_pay_handler) opening sold.
Proof.
  apply schedule_reachable; [by split|]. apply Forall_app; split; [apply until_report_entries|].
  repeat apply Forall_cons_2; [apply SY_pay_worker|apply SY_completed|apply SY_ticket_worker|constructor].
Qed.

Lemma lapsed_reachable :
  reachable (any_env sysE) (sys_entry sample_service sample_pay_handler) opening lapsed.
Proof.
  apply schedule_reachable; [by split|]. apply Forall_app; split; [apply until_report_entries|].
  repeat apply Forall_cons_2; [apply SY_pay_worker|apply SY_expired|constructor].
Qed.

Definition sold_ticket : TicketIssued := mkTicketIssued "id-6" "id-3" "u" "ev" "vip".
Lemma sold_state :
  br_status <$> bookings (w_ticket sold) !! "id-3" = Some "confirmed" ∧
  PTicketIssued sold_ticket ∈ msg_Value <$> w_broker sold.
Proof. vm_compute. split; [done|]. right. left. Qed.
End sample.

(** ** The theorems *)

(** The transaction behind a confirmed booking. *)
Lemma confirmed_txn w L b row :
  sys_inv w L → bookings (w_ticket w) !! b = Some row → br_status row = "confirmed" →
  ∃ k t, transactions (w_pay w) !! k = Some t ∧ tx_BookingID t = b ∧
    tx_Status t = "completed" ∧ tx_UserID t = br_user_id row ∧ tx_EventID t = br_event_id row ∧
    tx_AmountRupiah t = bk_TotalRupiah (loaded row (items_of b (w_ticket w))).
Proof.
  intros HI Hrow Hs.
  destruct (si_decided _ _ HI b row Hrow "completed") as (_ & k & t & Ht & Hb & Hst);
    [by rewrite Hs|].
  destruct (si_txn _ _ HI k t Ht) as (q & Hq & Hqb & Hqu & Hqe & Hqa & _).
  destruct (si_req _ _ HI q Hq) as [_ Hag]. rewrite <- Hqb, Hb in Hag.
  destruct (Hag row Hrow) as (Hu & He & Hp).
  exists k, t. rewrite loaded_fields. cbn. unfold price in Hp. split_and!; congruence.
Qed.

(** C1. Tickets are paid for, across the services: starting from a deployment
    that has sold nothing, however the requests, consumers, pollers and workers
    of both services interleave, whatever arrives over HTTP, is lost, repeated
    or fails, a confirmed booking has a completed transaction in payment, of
    the same user and event, over exactly the price of its items. *)
Theorem confirmed_paid `{!Validator} (s : BookingService) (h : PaymentHandler) (w0 w : world) b row :
  launched w0 → reachable (any_env sysE) (sys_entry s h) w0 w →
  bookings (w_ticket w) !! b = Some row → br_status row = "confirmed" →
  ∃ k t, transactions (w_pay w) !! k = Some t ∧ tx_BookingID t = b ∧
    tx_Status t = "completed" ∧ tx_UserID t = br_user_id row ∧ tx_EventID t = br_event_id row ∧
    tx_AmountRupiah t = bk_TotalRupiah (loaded row (items_of b (w_ticket w))).
Proof.
  intros Hl Hreach Hrow Hs. destruct (system_inv s h w0 w Hl Hreach) as [L HI].
  by eapply confirmed_txn.
Qed.

Lemma confirmed_paid_witness : ∃ k t,
  transactions (w_pay sold) !! k = Some t ∧ tx_BookingID t = "id-3" ∧
  tx_Status t = "completed" ∧ tx_UserID t = "u" ∧ tx_EventID t = "ev" ∧ tx_AmountRupiah t = 1000.
Proof.
  exact (@confirmed_paid sample_validator sample_service sample_pay_handler opening sold "id-3"
    (mkBookingRow "id-3" "u" "ev" "confirmed" (Some (sample_time + 900 * Second)) sample_time)
    opening_launched sold_reachable ltac:(vm_compute; reflexivity) eq_refl).
Defined.

(** C2. The services agree about the expired: under the same executions an
    expired booking has exactly one transaction in payment, and the status of
    that transaction is expired, so that no transaction of the booking has
    completed. A customer whose payment the gateway reports after the expiry is
    left to the late-payment refund; the booking stays expired. *)
Theorem expired_unpaid `{!Validator} (s : BookingService) (h : PaymentHandler) (w0 w : world) b row :
  launched w0 → reachable (any_env sysE) (sys_entry s h) w0 w →
  bookings (w_ticket w) !! b = Some row → br_status row = "expired" →
  ∃ k t, transactions (w_pay w) !! k = Some t ∧ tx_BookingID t = b ∧ tx_Status t = "expired" ∧
    ∀ k' t', transactions (w_pay w) !! k' = Some t' → tx_BookingID t' = b → t' = t.
Proof.
  intros Hl Hreach Hrow Hs. destruct (system_inv s h w0 w Hl Hreach) as [L HI].
  destruct (si_decided _ _ HI b row Hrow "expired") as (_ & k & t & Ht & Hb & Hst);
    [by rewrite Hs|].
  exists k, t. split_and!; [done..|]. intros k' t' Ht' Hb'.
  assert (k' = k) as -> by (eapply (pi_booking _ _ (si_pay _ _ HI)); [done|done|congruence]).
  congruence.
Qed.

Lemma expired_unpaid_witness : ∃ k t,
  transactions (w_pay lapsed) !! k = Some t ∧ tx_BookingID t = "id-3" ∧ tx_Status t = "expired".
Proof.
  destruct (@expired_unpaid sample_validator sample_service sample_pay_handler opening lapsed "id-3"
    (mkBookingRow "id-3" "u" "ev" "expired" (Some (sample_time + 900 * Second)) sample_time)
    opening_launched lapsed_reachable ltac:(vm_compute; reflexivity) eq_refl) as (k & t & ? & ? & ? & _).
  exists k, t. split; [assumption|split; assumption].
Defined.

(** C15. No ticket without payment: under the same executions, every ticket
    that was published is for a booking with a completed transaction. *)
Theorem tickets_paid `{!Validator} (s : BookingService) (h : PaymentHandler) (w0 w : world) m ti :
  launched w0 → reachable (any_env sysE) (sys_entry s h) w0 w →
  m ∈ w_broker w → msg_Value m = PTicketIssued ti →
  ∃ k t, transactions (w_pay w) !! k = Some t ∧ tx_BookingID t = ti_BookingID ti ∧
    tx_Status t = "completed".
Proof.
  intros Hl Hreach Hm Hti. destruct (system_inv s h w0 w Hl Hreach) as [L HI].
  destruct (si_broker _ _ HI m Hm) as [_ Hv].
  destruct (Hv (ti_BookingID ti) "completed") as [_ ?]; [by rewrite Hti|done].
Qed.

Lemma tickets_paid_witness : ∃ k t,
  transactions (w_pay sold) !! k = Some t ∧ tx_BookingID t = "id-3" ∧ tx_Status t = "completed".
Proof.
  destruct sold_state as [_ (m & Hm & Hin)%list_elem_of_fmap].
  exact (@tickets_paid sample_validator sample_service sample_pay_handler opening sold m sold_ticket
    opening_launched sold_reachable Hin (eq_sym Hm)).
Defined.

(** C7. The customer is asked for the right amount: under the same executions,
    every session that payment asks of the gateway for a booking is over the
    amount of the booking's transaction, which is the price of the items
    ticketing has on record. *)
Theorem charged_price `{!Validator} (s : BookingService) (h : PaymentHandler) (w0 w : world) c row :
  launched w0 → reachable (any_env sysE) (sys_entry s h) w0 w →
  c ∈ w_sessions w → bookings (w_ticket w) !! sc_RefID c = Some row →
  sc_AmountRupiah c = bk_TotalRupiah (loaded row (items_of (sc_RefID c) (w_ticket w))) ∧
  ∃ k t, transactions (w_pay w) !! k = Some t ∧ tx_BookingID t = sc_RefID c ∧
    tx_UserID t = br_user_id row ∧ tx_AmountRupiah t = sc_AmountRupiah c.
Proof.
  intros Hl Hreach Hc Hrow. destruct (system_inv s h w0 w Hl Hreach) as [L HI].
  destruct (si_sessions _ _ HI c Hc) as (k & t & Ht & Hb & Ha & _).
  destruct (si_txn _ _ HI k t Ht) as (q & Hq & Hqb & Hqu & _ & Hqa & _).
  destruct (si_req _ _ HI q Hq) as [_ Hag]. rewrite <- Hqb, Hb in Hag.
  destruct (Hag row Hrow) as (Hu & _ & Hp).
  rewrite loaded_fields. cbn. unfold price in Hp. split; [congruence|].
  exists k, t. split_and!; congruence.
Qed.

Lemma charged_price_witness :
  mkSessionCall "id-3" 1000 "IDR" ∈ w_sessions sold ∧
  1000 = bk_TotalRupiah (loaded
    (mkBookingRow "id-3" "u" "ev" "confirmed" (Some (sample_time + 900 * Second)) sample_time)
    (items_of "id-3" (w_ticket sold))).
Proof.
  assert (w_sessions sold = [mkSessionCall "id-3" 1000 "IDR"]) as Hs by (vm_compute; reflexivity).
  assert (mkSessionCall "id-3" 1000 "IDR" ∈ w_sessions sold) as Hin by (rewrite Hs; by left).
  split; [exact Hin|].
  exact (proj1 (@charged_price sample_validator sample_service sample_pay_handler opening sold
    (mkSessionCall "id-3" 1000 "IDR")
    (mkBookingRow "id-3" "u" "ev" "confirmed" (Some (sample_time + 900 * Second)) sample_time)
    opening_launched sold_reachable Hin ltac:(vm_compute; reflexivity))).
Defined.
