(* ===== verification/SystemFlows.v ===== *)
(** * Messages on their way through both services

    From the request that settles a payment or cancels an event, through the
    outbox, its worker and the broker, to what the consumers make of it. *)
From S2P Require Import Prelude Effects Json Dto Outbox TicketDB Booking TicketSamples Event Seats SeatSafety ReserveSpec TransitionSpec EventSpec TicketHandler TicketHttp PayDB Payment PaymentSafety PaymentSpec PayHandler PayHttp System SystemSafety SystemSpec.

(** ** What the requests leave in the outbox *)

(** The sequence of the outbox stays well formed. *)
Definition wf_kept {D} `{!HasOutbox D} (d d' : D) : Prop :=
  outbox_wf (get_outbox d) → outbox_wf (get_outbox d').

#[export] Instance wf_kept_preorder {D} `{!HasOutbox D} : PreOrder (wf_kept (D := D)).
Proof. split; [by intros d Hd|]. intros d1 d2 d3 H12 H23 H1. auto. Qed.

Section wf.
Context {D : Type} `{!HasOutbox D}.

Lemma wf_query {A} (f : D → res A) t d : wf_kept d (query f t d).1.
Proof. by intros Hd. Qed.
Lemma wf_outbox topic key p tc t (d : D) : wf_kept d (insert_outbox topic key p tc t d).1.
Proof. intros Hwf. exact (insert_outbox_wf topic key p tc t d Hwf). Qed.

Lemma exec_wf {X} (o : oracle X) {A} (p : prog (eff D X) A) d d' a :
  guards wf_kept p → exec o p d = (d', a) → wf_kept d d'.
Proof.
  intros Hg Hex. pose proof (run_guards wf_kept o p 0 d Hg) as Hrun. unfold exec in Hex.
  destruct (run o p 0 d) as [[n d1] a1]. by injection Hex as <- <-.
Qed.
End wf.

Lemma wf_update id cond g t (d : PayDB) : wf_kept d (update_txn id cond g t d).1.
Proof. intros Hd. unfold update_txn. by repeat case_match. Qed.
Lemma wf_refund r t (d : PayDB) : wf_kept d (insert_refund r t d).1.
Proof. intros Hd. unfold insert_refund. by repeat case_match. Qed.
Lemma wf_event e now t (d : TicketDB) : wf_kept d (update_event e now t d).1.
Proof. intros Hd. unfold update_event. by repeat case_match. Qed.
#[export] Hint Resolve wf_query wf_outbox wf_update wf_refund wf_event : ticket.

Lemma wf_webhook ctx body : guards (X := payE) wf_kept (HandleSessionWebhook ctx body).
Proof.
  unfold HandleSessionWebhook, TransactionRepo_FindByBookingID, webhook_completed,
    webhook_expired, TransactionRepo_TransitionIfActive, requestLatePaymentRefund,
    RefundRepo_Create, TransactionRepo_UpdateRefundStatus. guards_solve.
Qed.

Lemma wf_poll ctx limit : guards (X := payE) wf_kept (ProcessExpired ctx limit).
Proof.
  unfold ProcessExpired, TransactionRepo_ListActiveExpired.
  apply guards_bind; [done|]. intros now. apply guards_bind; [guards_solve|].
  intros [txns|e]; [|done]. apply guards_bind; [|done].
  induction txns as [|t txns IH]; cbn [expireLoop]; [done|]. apply guards_bind; [|done].
  unfold expireOne, TransactionRepo_TransitionIfActive. guards_solve.
Qed.

Lemma wf_CancelEvent ctx ev u : guards (X := ticketE) wf_kept (CancelEvent ctx ev u).
Proof. unfold CancelEvent, EventRepo_FindEventByID, EventRepo_UpdateEvent. guards_solve. Qed.

Lemma report_vouches p t st :
  reports p = Some (tx_ID t, st) →
  vouched p = Some (report_booking p, st) ∧ is_ticket p = false.
Proof. unfold reports. by destruct p; intros; simplify_eq. Qed.

Lemma undelivered_app ob ob' new :
  outbox_rows ob' = outbox_rows ob ++ new → Forall (λ r, ob_delivered r = false) new →
  undelivered ob' = undelivered ob ++ new.
Proof.
  intros Hr Hd. unfold undelivered. rewrite Hr, filter_app. f_equal.
  clear Hr. induction Hd as [|r l Hr Hd IH]; [done|].
  rewrite filter_cons, decide_True by done. by rewrite IH.
Qed.

(** One pass of a worker publishes the backlog and the new rows behind it. *)
Lemma pass_publishes {D} `{!HasOutbox D} (o : oracle noExt) (d0 d : D) new log :
  faultless o → outbox_wf (get_outbox d) →
  outbox_rows (get_outbox d) = outbox_rows (get_outbox d0) ++ new →
  Forall (λ r, ob_delivered r = false) new →
  (length (undelivered (get_outbox d0)) + length new ≤ batch_limit)%nat →
  ∃ d', exec o processBatch (d, log) =
      ((d', log ++ (row_message <$> undelivered (get_outbox d0)) ++ (row_message <$> new)), ()) ∧
    undelivered (get_outbox d') = [].
Proof.
  intros Hcalm Hwf Hr Hd Hlen. destruct (processBatch_exec o Hcalm d log Hwf) as (d' & Hex & Hrest).
  rewrite (undelivered_app _ _ new Hr Hd) in Hex, Hrest.
  rewrite take_ge in Hex by (rewrite length_app; lia).
  rewrite drop_ge in Hrest by (rewrite length_app; lia).
  exists d'. split; [|done]. by rewrite Hex, fmap_app.
Qed.

(** ** A settled payment, reported *)

(** What settling a payment leaves behind: the transaction in status [st], and
    after a pass of payment's worker the message [m] that vouches for it at the
    end of the log. *)
Definition published (op : oracle payE) (ow : oracle noExt) cp ev (t : Transaction) (st : string)
    (dp : PayDB) (log : list message) (m : message) : Prop :=
  ∃ dp1 dp2,
    exec op (HandleSessionWebhook cp (Ok ev)) dp = (dp1, Ok ()) ∧
    status_is dp1 (tx_ID t) st ∧
    exec ow processBatch (dp1, log) =
      ((dp2, log ++ (row_message <$> undelivered (pay_outbox dp)) ++ [m]), ()) ∧
    undelivered (pay_outbox dp2) = [] ∧ msg_Topic m = "payment." +:+ st.

Lemma webhook_published op ow cp ev t st dp log :
  faultless op → dated op → faultless ow → pay_inv dp [] → outbox_wf (pay_outbox dp) →
  (length (undelivered (pay_outbox dp)) < batch_limit)%nat →
  transactions dp !! tx_ID t = Some t → txn_active t = true → tx_BookingID t ≠ "" →
  wh_ReferenceID ev = tx_BookingID t → for_session ev t → hook_status ev = Some st →
  ∃ m, published op ow cp ev t st dp log m ∧ payload_dated (msg_Value m) ∧
    vouched (msg_Value m) = Some (tx_BookingID t, st) ∧ is_ticket (msg_Value m) = false.
Proof.
  intros Hop Hdate How HI Hwf Hlen Ht Ha Hne Href Hses Hst.
  destruct (exec_ex op (HandleSessionWebhook cp (Ok ev)) dp (Ok ()) (reported t st dp))
    as (dp1 & Hex & [Htx _ (r & Hr & [Hrep Hbk Hd Htop Hdt])]).
  { by eapply runs_webhook_settles. }
  pose proof (exec_wf op _ _ _ _ (wf_webhook _ _) Hex Hwf) as Hwf1.
  destruct (pass_publishes (D := PayDB) ow dp dp1 [r] log) as (dp2 & Hpass & Hrest);
    [done..|by constructor|cbn; lia|].
  exists (row_message r). split; [|split; [exact Hdt|]].
  - exists dp1, dp2. split_and!; try done. destruct Htx as [now Htx].
    exists (with_status_ref st (tx_ProviderRef t) now t). by rewrite Htx, lookup_insert_eq.
  - rewrite <- Hbk. by eapply report_vouches.
Qed.

(** ** A poller's pass, reported *)

Lemma poll_published op ow cp limit t dp log :
  faultless op → dated op → faultless ow → pay_inv dp [] → outbox_wf (pay_outbox dp) →
  let overdue := overdue_txns (o_now op 0) limit dp in
  0 ≤ limit → t ∈ overdue →
  (length (undelivered (pay_outbox dp)) + length overdue ≤ batch_limit)%nat →
  ∃ dp1 dp2 ms m,
    exec op (ProcessExpired cp limit) dp = (dp1, Ok ()) ∧ status_is dp1 (tx_ID t) "expired" ∧
    exec ow processBatch (dp1, log) =
      ((dp2, log ++ (row_message <$> undelivered (pay_outbox dp)) ++ ms), ()) ∧
    undelivered (pay_outbox dp2) = [] ∧ m ∈ ms ∧ msg_Topic m = "payment.expired" ∧
    payload_dated (msg_Value m) ∧ vouched (msg_Value m) = Some (tx_BookingID t, "expired").
Proof.
  intros Hop Hdate How HI Hwf overdue Hlim Hin Hlen.
  destruct (exec_ex op (ProcessExpired cp limit) dp (Ok ()) (swept overdue dp))
    as (dp1 & Hex & [Hsw _ (new & Hnew & Hrows) _]).
  { by apply runs_ProcessExpired. }
  pose proof (exec_wf op _ _ _ _ (wf_poll _ _) Hex Hwf) as Hwf1.
  assert (Forall (λ r, ob_delivered r = false) new) as Hd.
  { clear -Hrows. induction Hrows as [|x r ts new [] _ IH]; by constructor. }
  pose proof (Forall2_length _ _ _ Hrows) as Hl.
  destruct (pass_publishes (D := PayDB) ow dp dp1 new log) as (dp2 & Hpass & Hrest);
    [done..|cbn; lia|].
  apply list_elem_of_lookup in Hin as [i Hi].
  destruct (Forall2_lookup_l _ _ _ _ _ Hrows Hi) as (r & Hr & [Hrep Hbk _ Htop Hdt]).
  destruct (Hsw t (list_elem_of_lookup_2 _ _ _ Hi)) as [now Htx].
  exists dp1, dp2, (row_message <$> new), (row_message r). split_and!; try done.
  - by exists (with_status_ref StatusExpired (tx_ProviderRef t) now t).
  - apply list_elem_of_fmap_2. by eapply list_elem_of_lookup_2.
  - rewrite <- Hbk. by eapply report_vouches.
Qed.

(** What the message of a completed payment makes ticketing do. *)
Lemma completed_confirms (o : oracle ticketE) ctx m row d :
  faultless o → payload_dated (msg_Value m) →
  vouched (msg_Value m) = Some (br_id row, "completed") → is_ticket (msg_Value m) = false →
  bookings d !! br_id row = Some row → br_status row = "pending" →
  ev_Status <$> events d !! br_event_id row = Some "published" →
  ∃ d', exec o (onPaymentCompleted ctx m) d = (d', Ok ()) ∧
    queued (ticket_message row <$> items_of (br_id row) d)
      (set_bookings (<[br_id row := set_status "confirmed" row]> (bookings d)) d) d'.
Proof.
  intros Hcalm Hdate Hv Hno Hrow Hst Hev. apply exec_ex. unfold onPaymentCompleted.
  destruct (msg_Value m) as [|e|e|e]; [done| |injection Hv; done|done]. injection Hv as Hb.
  rewrite (dated_decodes _ Hdate), Hb. by apply runs_Confirm.
Qed.

(** What the message of an expired session makes ticketing do. *)
Lemma expired_releases (o : oracle ticketE) m row d :
  faultless o → payload_dated (msg_Value m) →
  vouched (msg_Value m) = Some (br_id row, "expired") →
  seats_inv d [] → types_wf d →
  bookings d !! br_id row = Some row → br_status row = "pending" →
  ∃ d', exec o (onPaymentExpired m) d = (d', Ok ()) ∧ settled (br_id row) row "expired" d d'.
Proof.
  intros Hcalm Hdate Hv HI Hwf Hrow Hst. apply exec_ex. unfold onPaymentExpired.
  destruct (msg_Value m) as [|e|e|e]; [done|injection Hv; done| |injection Hv; done].
  injection Hv as Hb. rewrite (dated_decodes _ Hdate), Hb. by apply runs_releaseReservation.
Qed.

(** C20. A payment reaches its booking. Suppose that nothing fails, the clock
    has four-digit years, payment's tables satisfy its invariant with the rows
    of its outbox in the order of their ids, and fewer than a hundred of these
    wait. When the gateway reports that the session of a booking's active
    transaction was completed, naming the stored session or none, this settles
    the transaction, and the next pass of payment's worker publishes one
    message after the backlog. If the booking is then pending and its event
    still published, the consumer of that message in ticketing confirms the
    booking and queues one ticket per item. *)
Theorem payment_flow (op : oracle payE) (ow : oracle noExt) (ot : oracle ticketE) cp ct
    ev t row dp dt log :
  faultless op → dated op → faultless ow → faultless ot →
  pay_inv dp [] → outbox_wf (pay_outbox dp) →
  (length (undelivered (pay_outbox dp)) < batch_limit)%nat →
  transactions dp !! tx_ID t = Some t → txn_active t = true → br_id row ≠ "" →
  tx_BookingID t = br_id row → wh_ReferenceID ev = br_id row → for_session ev t →
  wh_Event ev = "payment_session.completed" →
  bookings dt !! br_id row = Some row → br_status row = "pending" →
  ev_Status <$> events dt !! br_event_id row = Some "published" →
  ∃ m dt', published op ow cp ev t "completed" dp log m ∧
    exec ot (onPaymentCompleted ct m) dt = (dt', Ok ()) ∧
    queued (ticket_message row <$> items_of (br_id row) dt)
      (set_bookings (<[br_id row := set_status "confirmed" row]> (bookings dt)) dt) dt'.
Proof.
  intros Hop Hdate How Hot HI Hwf Hlen Ht Ha Hne Hb Href Hses Hev Hrow Hst Hpub.
  destruct (webhook_published op ow cp ev t "completed" dp log) as (m & Hm & Hd & Hv & Hno);
    [try done; try congruence..|].
  { unfold hook_status. by rewrite decide_True. }
  rewrite Hb in Hv. destruct (completed_confirms ot ct m row dt) as (dt' & Hex & Hq); [done..|].
  by exists m, dt'.
Qed.

(** An unpaid reservation gives its seats back: when nothing fails, the
    gateway's report of an expired session settles the transaction, the next
    pass of payment's worker publishes one message after the backlog, and its
    consumer in ticketing expires the pending booking and puts exactly its
    seats back on sale. *)
Theorem expiry_flow (op : oracle payE) (ow : oracle noExt) (ot : oracle ticketE) cp
    ev t row dp dt log :
  faultless op → dated op → faultless ow → faultless ot →
  pay_inv dp [] → outbox_wf (pay_outbox dp) →
  (length (undelivered (pay_outbox dp)) < batch_limit)%nat →
  transactions dp !! tx_ID t = Some t → txn_active t = true → br_id row ≠ "" →
  tx_BookingID t = br_id row → wh_ReferenceID ev = br_id row → for_session ev t →
  wh_Event ev = "payment_session.expired" →
  seats_inv dt [] → types_wf dt →
  bookings dt !! br_id row = Some row → br_status row = "pending" →
  ∃ m dt', published op ow cp ev t "expired" dp log m ∧
    exec ot (onPaymentExpired m) dt = (dt', Ok ()) ∧
    settled (br_id row) row "expired" dt dt'.
Proof.
  intros Hop Hdate How Hot HI Hwf Hlen Ht Ha Hne Hb Href Hses Hev HIt Hwft Hrow Hst.
  destruct (webhook_published op ow cp ev t "expired" dp log) as (m & Hm & Hd & Hv & Hno);
    [try done; try congruence..|].
  { unfold hook_status. by rewrite Hev. }
  rewrite Hb in Hv. destruct (expired_releases ot m row dt) as (dt' & Hex & Hq); [done..|].
  by exists m, dt'.
Qed.

(** C21. An overdue reservation gives its seats back. Suppose that nothing
    fails, the clock has four-digit years, payment's tables satisfy its
    invariant with the rows of its outbox in the order of their ids, and the
    waiting rows and the transactions of the pass are at most a hundred
    together. A pass of the poller that picks an overdue transaction up expires
    it whatever the gateway answers, and the next pass of payment's worker
    publishes the backlog and the reports of the pass. If ticketing's seat
    accounting is right, which a double approval breaks, its ticket types are
    well-formed and the booking is pending, the consumer of the report expires
    the booking and puts exactly its seats back on sale. *)
Theorem abandoned_released (op : oracle payE) (ow : oracle noExt) (ot : oracle ticketE) cp limit
    t row dp dt log :
  faultless op → dated op → faultless ow → faultless ot →
  pay_inv dp [] → outbox_wf (pay_outbox dp) →
  0 ≤ limit → t ∈ overdue_txns (o_now op 0) limit dp →
  (length (undelivered (pay_outbox dp)) + length (overdue_txns (o_now op 0) limit dp)
     ≤ batch_limit)%nat →
  tx_BookingID t = br_id row →
  seats_inv dt [] → types_wf dt →
  bookings dt !! br_id row = Some row → br_status row = "pending" →
  ∃ dp1 dp2 ms m dt',
    exec op (ProcessExpired cp limit) dp = (dp1, Ok ()) ∧ status_is dp1 (tx_ID t) "expired" ∧
    exec ow processBatch (dp1, log) =
      ((dp2, log ++ (row_message <$> undelivered (pay_outbox dp)) ++ ms), ()) ∧
    m ∈ ms ∧ msg_Topic m = "payment.expired" ∧
    exec ot (onPaymentExpired m) dt = (dt', Ok ()) ∧
    settled (br_id row) row "expired" dt dt'.
Proof.
  intros Hop Hdate How Hot HI Hwf Hlim Hin Hlen Hb HIt Hwft Hrow Hst.
  destruct (poll_published op ow cp limit t dp log) as (dp1 & dp2 & ms & m & H1 & H2 & H3 & _ & H4 & H5 & Hd & Hv);
    [done..|].
  rewrite Hb in Hv. destruct (expired_releases ot m row dt) as (dt' & Hex & Hset); [done..|].
  by exists dp1, dp2, ms, m, dt'.
Qed.

(** ** A cancelled event *)

(** What the message of a cancelled event makes ticketing do. *)
Lemma cancelled_releases (o : oracle ticketE) m ev at_ d :
  faultless o → msg_Value m = PEventCancelled (mkEventCancelled ev at_) → payload_dated (msg_Value m) →
  seats_inv d [] → types_wf d → bookings_wf d →
  ∃ d', exec o (onEventCancelled m) d = (d', Ok ()) ∧ event_released ev d d'.
Proof.
  intros Hcalm Hm Hdate HI Hwf Hbw. apply exec_ex. unfold onEventCancelled. rewrite Hm in *.
  rewrite (dated_decodes _ Hdate). by apply runs_CancelBookings.
Qed.

(** And payment: the requests it files are kept consistent with the transactions. *)
Lemma cancelled_refunds (o : oracle payE) m ev at_ d :
  faultless o → Inj (=) (=) (o_uuid o) → ids_fresh o 0 d →
  msg_Value m = PEventCancelled (mkEventCancelled ev at_) → payload_dated (msg_Value m) →
  pay_inv d [] →
  ∃ d', exec o (pay_onEventCancelled m) d = (d', Ok ()) ∧ event_refunded ev d d' ∧ pay_inv d' [].
Proof.
  intros Hcalm Huuid Hf Hm Hdate HI. apply exec_ex. unfold pay_onEventCancelled. rewrite Hm in *.
  rewrite (dated_decodes _ Hdate). by apply runs_HandleEventCancelled.
Qed.

(** C22. A cancelled event is undone in both services. Suppose that nothing
    fails, the clock has four-digit years, generated ids are distinct, and the
    rows of ticketing's outbox are in the order of their ids with fewer than a
    hundred waiting. The organizer's cancellation takes a published event that
    satisfies the checks of its table off sale, and the next pass of
    ticketing's worker publishes one message after the backlog. In every state
    of ticketing with right seat accounting, which a double approval breaks,
    and well-formed bookings and ticket types, its consumer then cancels every
    active booking of the event, giving back exactly its seats; in every state
    of payment that satisfies its invariant and has not used the ids to come,
    its consumer files a refund request for every completed transaction of the
    event, keeping the earlier ones. *)
Theorem cancellation_flow (oc ot : oracle ticketE) (ow : oracle noExt) (op : oracle payE) ctx ev e d
    log :
  faultless oc → dated oc → faultless ow → faultless ot →
  faultless op → Inj (=) (=) (o_uuid op) →
  outbox_wf (ticket_outbox d) → (length (undelivered (ticket_outbox d)) < batch_limit)%nat →
  events d !! ev = Some e → ev_ID e = ev → event_check e = true →
  ev_Status e = EventStatusPublished →
  ∃ d1 d2 e' m,
    exec oc (CancelEvent ctx ev (ev_OrganizerID e)) d = (d1, Ok e') ∧
    ev_Status <$> events d1 !! ev = Some EventStatusCancelled ∧
    exec ow processBatch (d1, log) =
      ((d2, log ++ (row_message <$> undelivered (ticket_outbox d)) ++ [m]), ()) ∧
    undelivered (ticket_outbox d2) = [] ∧ msg_Topic m = "event.cancelled" ∧
    (∀ dt, seats_inv dt [] → types_wf dt → bookings_wf dt →
      ∃ dt', exec ot (onEventCancelled m) dt = (dt', Ok ()) ∧ event_released ev dt dt') ∧
    (∀ dp, ids_fresh op 0 dp → pay_inv dp [] →
      ∃ dp', exec op (pay_onEventCancelled m) dp = (dp', Ok ()) ∧ event_refunded ev dp dp').
Proof.
  intros Hoc Hdate How Hot Hop Huuid Hwf Hlen Hev Hid Hck Hst.
  pose proof (runs_CancelEvent oc ctx ev e d Hoc Hdate Hev Hid Hck Hst) as Hrun.
  destruct (exec_ok oc _ _ _ Hrun) as (d1 & e' & Hex & row & at_ & Hrow & Hat & Hq).
  pose proof (exec_wf oc _ _ _ _ (wf_CancelEvent _ _ _) Hex Hwf) as Hwf1.
  destruct (qu_rows _ _ _ Hq) as (new & Hnew & Hms & Hd).
  assert (length new = 1%nat) as Hl by (apply (f_equal length) in Hms; by rewrite length_fmap in Hms).
  destruct (pass_publishes (D := TicketDB) ow d d1 new log) as (d2 & Hpass & Hrest); [done..|cbn; lia|].
  rewrite Hms in Hpass. eexists d1, d2, e', _. split_and!; [done| |exact Hpass|done|done| |].
  - rewrite (qu_events _ _ _ Hq). cbn. rewrite lookup_insert_eq. cbn. by rewrite Hrow.
  - intros dt HI Ht Hb. by apply (cancelled_releases ot _ ev at_).
  - intros dp Hf HI.
    destruct (cancelled_refunds op (mkMessage "event.cancelled" ev
      (PEventCancelled (mkEventCancelled ev at_))) ev at_ dp) as (dp' & ? & ? & _); [done..|].
    by exists dp'.
Qed.

(** *** What a cancelled event gives back *)

Lemma pay_inv_unclaimed d L : pay_inv d L → pay_inv d [].
Proof. induction L as [|c L IH]; [done|]. intros HI. by apply IH, (pay_inv_drop d c). Qed.

(** The request filed for a transaction is over its amount. *)
Lemma event_refunded_amount ev d d' k t :
  event_refunded ev d d' → pay_inv d [] → pay_inv d' [] →
  transactions d !! k = Some t → tx_EventID t = ev → tx_Status t = "completed" →
  ∃ j r, refund_requests d' !! j = Some r ∧ rf_BookingID r = tx_BookingID t ∧
    rf_AmountRupiah r = tx_AmountRupiah t.
Proof.
  intros [Hin _ Hcore] HI HI' Ht Hev Hst.
  destruct (Hin k t Ht Hev Hst) as (j & r & Hr & Hkey).
  destruct (pi_refunds _ _ HI' j r Hr) as (t' & Ht' & Ha & Hb & Hk).
  destruct (pi_txn _ _ HI' _ _ Ht') as [Hid _].
  rewrite Hkey in Hk. destruct Hk as [[? _]|[Heq _]]; [done|].
  apply (inj (String.append "event-cancelled:")) in Heq as ->. rewrite <- Hid in Ht'.
  specialize (Hcore (tx_ID t')). rewrite Ht', Ht in Hcore. injection Hcore. intros.
  exists j, r. split_and!; congruence.
Qed.

(** C9. A cancelled event costs its customers nothing: starting from a
    deployment that has sold nothing, whatever has happened until then, when
    payment's consumer handles the cancellation of an event without failure
    every confirmed booking of the event has a refund request over the full
    price of its items. *)
Theorem cancelled_in_full `{!Validator} (s : BookingService) (h : PaymentHandler) (w0 w : world)
    (o : oracle payE) m ev at_ :
  launched w0 → reachable (any_env sysE) (sys_entry s h) w0 w →
  faultless o → Inj (=) (=) (o_uuid o) → ids_fresh o 0 (w_pay w) →
  msg_Value m = PEventCancelled (mkEventCancelled ev at_) → payload_dated (msg_Value m) →
  ∃ dp, exec o (pay_onEventCancelled m) (w_pay w) = (dp, Ok ()) ∧
    ∀ b row, bookings (w_ticket w) !! b = Some row → br_event_id row = ev →
      br_status row = "confirmed" →
      ∃ k r, refund_requests dp !! k = Some r ∧ rf_BookingID r = b ∧
        rf_AmountRupiah r = bk_TotalRupiah (loaded row (items_of b (w_ticket w))).
Proof.
  intros Hl Hreach Hcalm Huuid Hf Hm Hd. destruct (system_inv s h w0 w Hl Hreach) as [L HI].
  pose proof (pay_inv_unclaimed _ _ (si_pay _ _ HI)) as Hpay.
  destruct (cancelled_refunds o m ev at_ (w_pay w)) as (dp & Hex & Her & Hpay'); [done..|].
  exists dp. split; [done|]. intros b row Hrow Hev Hs.
  destruct (confirmed_txn w L b row HI Hrow Hs) as (k & t & Ht & Hb & Hst & _ & He & Ha).
  destruct (event_refunded_amount ev (w_pay w) dp k t) as (j & r & Hr & Hrb & Hra);
    [done..|congruence|done|]. exists j, r. split_and!; congruence.
Qed.

(** ** Samples *)

(** The sample transaction, for the booking of [reserved_db]. *)
Definition flow_txn : Transaction :=
  mkTransaction "t1" "u" sample_booking_id "ev" 1100 "IDR" "pending" "mock" "ps" "https://mock" ""
    "none" (Some (sample_time + 900 * Second)) sample_time sample_time.
Definition flow_db : PayDB := mkPayDB {[ "t1" := flow_txn ]} ∅ (mkOutbox 0 []).

Lemma flow_inv : pay_inv flow_db [].
Proof.
  split; cbn; try done.
  - intros k t [<- <-]%lookup_singleton_Some. split; [done|vm_compute; done].
  - by intros k1 k2 t1 t2 [<- _]%lookup_singleton_Some [<- _]%lookup_singleton_Some _.
  - intros id. cbn. lia.
  - by intros r id s ?%elem_of_nil.
  - by intros id s ?%elem_of_nil.
Qed.

Lemma payment_flow_witness : ∃ dp1 m dt',
  exec (pay_oracle pay_time) (HandleSessionWebhook background
    (Ok (mkSessionWebhook "payment_session.completed" sample_booking_id "ps" "" ""))) flow_db =
    (dp1, Ok ()) ∧
  exec sample_oracle (onPaymentCompleted background m) reserved_db = (dt', Ok ()) ∧
  bookings dt' !! sample_booking_id = Some (set_status "confirmed" sample_row).
Proof.
  destruct (payment_flow (pay_oracle pay_time) quiet_oracle sample_oracle background background
    (mkSessionWebhook "payment_session.completed" sample_booking_id "ps" "" "") flow_txn
    sample_row flow_db reserved_db [])
    as (m & dt' & (dp1 & dp2 & H1 & _) & H2 & Hq).
  1, 3, 4: done.
  - apply pay_dated. by vm_compute.
  - apply flow_inv.
  - split; constructor.
  - cbn. unfold batch_limit. lia.
  - reflexivity.
  - reflexivity.
  - discriminate.
  - reflexivity.
  - reflexivity.
  - right. reflexivity.
  - reflexivity.
  - vm_compute. reflexivity.
  - reflexivity.
  - vm_compute. reflexivity.
  - exists dp1, m, dt'. split; [exact H1|]. split; [exact H2|].
    rewrite (qu_bookings _ _ _ Hq). apply lookup_insert_eq.
Defined.

Lemma expiry_flow_witness : ∃ m dt',
  exec sample_oracle (onPaymentExpired m) reserved_db = (dt', Ok ()) ∧
  seat_avail dt' "vip" = seat_avail reserved_db "vip" + 2.
Proof.
  destruct (expiry_flow (pay_oracle pay_time) quiet_oracle sample_oracle background
    (mkSessionWebhook "payment_session.expired" sample_booking_id "ps" "" "") flow_txn
    sample_row flow_db reserved_db [])
    as (m & dt' & _ & H & Hset).
  1, 3, 4: done.
  - apply pay_dated. by vm_compute.
  - apply flow_inv.
  - split; constructor.
  - cbn. unfold batch_limit. lia.
  - reflexivity.
  - reflexivity.
  - discriminate.
  - reflexivity.
  - reflexivity.
  - right. reflexivity.
  - reflexivity.
  - apply seats_inv_b_sound. vm_compute. reflexivity.
  - apply (bool_decide_unpack (types_wf reserved_db)). vm_compute. exact I.
  - vm_compute. reflexivity.
  - reflexivity.
  - exists m, dt'. split; [exact H|]. rewrite (st_avail _ _ _ _ _ Hset). f_equal.
Defined.

Lemma cancellation_flow_witness : ∃ m dt' dp',
  exec sample_oracle (onEventCancelled m) reserved_db = (dt', Ok ()) ∧
  exec (pay_oracle pay_time) (pay_onEventCancelled m)
    (single_db (sample_txn "completed" "ps-mock-bk" "")) = (dp', Ok ()) ∧
  bookings dt' !! "id-5" = Some (set_status "cancelled" sample_row) ∧
  refund_with_key "event-cancelled:id-0" dp'.
Proof.
  destruct (cancellation_flow sample_oracle sample_oracle quiet_oracle (pay_oracle pay_time)
    background "ev" (sample_event EventStatusPublished) reserved_db [])
    as (d1 & d2 & e' & m & _ & _ & _ & _ & _ & Ht & Hp).
  - done.
  - exact sample_dated.
  - done.
  - done.
  - done.
  - intros n k Heq. unfold pay_oracle, calm, calm_uuid in Heq. cbn in Heq. by simplify_eq.
  - vm_compute. split; constructor.
  - vm_compute. lia.
  - vm_compute. reflexivity.
  - reflexivity.
  - reflexivity.
  - reflexivity.
  - destruct (Ht reserved_db) as (dt' & Hdt & Hel).
    + apply seats_inv_b_sound. vm_compute. reflexivity.
    + apply (bool_decide_unpack (types_wf reserved_db)). vm_compute. exact I.
    + apply (bool_decide_unpack (bookings_wf reserved_db)). vm_compute. exact I.
    + destruct (Hp (single_db (sample_txn "completed" "ps-mock-bk" ""))) as (dp' & Hdp & Her).
      * intros k _. reflexivity.
      * apply single_inv; reflexivity.
      * exists m, dt', dp'. split; [exact Hdt|]. split; [exact Hdp|]. split.
        { apply (el_rows _ _ _ Hel "id-5" sample_row). vm_compute. reflexivity. }
        by apply (er_in _ _ _ Her "id-0" (sample_txn "completed" "ps-mock-bk" "")).
Defined.

Lemma cancelled_in_full_witness : ∃ dp k r,
  exec (pay_oracle pay_time) (pay_onEventCancelled (mkMessage "event.cancelled" "ev"
    (PEventCancelled (mkEventCancelled "ev" sample_time)))) (w_pay sold) = (dp, Ok ()) ∧
  refund_requests dp !! k = Some r ∧ rf_BookingID r = "id-3" ∧ rf_AmountRupiah r = 1000.
Proof.
  destruct (@cancelled_in_full sample_validator sample_service sample_pay_handler opening sold
    (pay_oracle pay_time) (mkMessage "event.cancelled" "ev"
      (PEventCancelled (mkEventCancelled "ev" sample_time))) "ev" sample_time)
    as (dp & Hex & Hall).
  - apply opening_launched.
  - apply sold_reachable.
  - done.
  - intros n k Heq. unfold pay_oracle, calm, calm_uuid in Heq. cbn in Heq. by simplify_eq.
  - intros k _. vm_compute. reflexivity.
  - reflexivity.
  - vm_compute. by split.
  - destruct (Hall "id-3"
      (mkBookingRow "id-3" "u" "ev" "confirmed" (Some (sample_time + 900 * Second)) sample_time))
      as (k & r & Hr & Hb & Ha).
    + vm_compute. reflexivity.
    + reflexivity.
    + reflexivity.
    + exists dp, k, r. split; [exact Hex|]. split; [exact Hr|]. split; [exact Hb|].
      rewrite Ha. vm_compute. reflexivity.
Defined.

Lemma abandoned_released_witness : ∃ dp1 m dt',
  exec (pay_oracle (pay_time + 1000 * Second)) (ProcessExpired background 100) flow_db = (dp1, Ok ()) ∧
  exec sample_oracle (onPaymentExpired m) reserved_db = (dt', Ok ()) ∧
  br_status <$> bookings dt' !! sample_booking_id = Some "expired" ∧
  seat_avail dt' "vip" = seat_avail reserved_db "vip" + 2.
Proof.
  destruct (abandoned_released (pay_oracle (pay_time + 1000 * Second)) quiet_oracle sample_oracle
    background 100 flow_txn sample_row flow_db reserved_db [])
    as (dp1 & dp2 & ms & m & dt' & H1 & _ & _ & _ & _ & H2 & Hset).
  1, 3, 4: done.
  - apply pay_dated. by vm_compute.
  - apply flow_inv.
  - split; constructor.
  - lia.
  - vm_compute. left.
  - vm_compute. lia.
  - reflexivity.
  - apply seats_inv_b_sound. vm_compute. reflexivity.
  - apply (bool_decide_unpack (types_wf reserved_db)). vm_compute. exact I.
  - vm_compute. reflexivity.
  - reflexivity.
  - exists dp1, m, dt'. split; [exact H1|]. split; [exact H2|]. split.
    + rewrite (st_bookings _ _ _ _ _ Hset). reflexivity.
    + rewrite (st_avail _ _ _ _ _ Hset). f_equal.
Defined.
