(* ===== verification/AuthDB.v ===== *)
(** * The auth database and its repositories

    The tables [users] and [refresh_tokens] of [migrations/auth] with their
    constraints, the domain types of [service/auth/internal/domain] and the
    repositories [UserRepo] and [RefreshTokenRepo] of
    [service/auth/internal/postgres]. *)
From S2P Require Import Prelude Effects Json Dto.

(** ** Domain types *)

Record User := mkUser {
  us_ID : string;
  us_Email : string;
  us_PasswordHash : string;
  us_Name : string;
  us_Role : Role;
  us_CreatedAt : Z;
  us_UpdatedAt : Z;
}.

Record RefreshToken := mkRefreshToken {
  rt_ID : string;
  rt_UserID : string;
  rt_TokenHash : string;
  rt_ExpiresAt : Z;
  rt_CreatedAt : Z;
}.

Record TokenPair := mkTokenPair {
  tp_AccessToken : string;
  tp_RefreshToken : string;
  tp_ExpiresIn : Z;
}.

Record Claims := mkClaims { cm_UserID : string; cm_Email : string; cm_Role : Role }.

#[export] Instance User_eq_dec : EqDecision User.
Proof. solve_decision. Defined.
#[export] Instance RefreshToken_eq_dec : EqDecision RefreshToken.
Proof. solve_decision. Defined.

Definition ErrUserExists : error := Sentinel "user with this email already exists".
Definition ErrInvalidCredentials : error := Sentinel "invalid email or password".
Definition ErrUserNotFound : error := Sentinel "user not found".
Definition ErrTokenNotFound : error := Sentinel "refresh token not found".
Definition ErrTokenExpired : error := Sentinel "refresh token expired".

(** ** Tables *)

Record AuthDB := mkAuthDB {
  users : gmap string User;
  refresh_tokens : gmap string RefreshToken;
}.

Definition set_users m (d : AuthDB) : AuthDB := mkAuthDB m (refresh_tokens d).
Definition set_tokens m (d : AuthDB) : AuthDB := mkAuthDB (users d) m.

(** [CHECK (role IN ('admin', 'eo', 'customer'))]. *)
Definition user_check (u : User) : bool :=
  bool_decide (us_Role u ∈ ["admin"; "eo"; "customer"]).

Definition has_email (email : string) (u : User) : bool := bool_decide (us_Email u = email).
Definition has_hash (hash : string) (t : RefreshToken) : bool :=
  bool_decide (rt_TokenHash t = hash).
Definition owned_by (userID : string) (t : RefreshToken) : bool :=
  bool_decide (rt_UserID t = userID).

(** ** Statements *)

(** [INSERT INTO users]: [id] and [email] are unique; the timestamps default to [NOW()]. *)
Definition insert_user (u : User) : stmt AuthDB unit := λ now d,
  let row := mkUser (us_ID u) (us_Email u) (us_PasswordHash u) (us_Name u) (us_Role u) now now in
  if negb (user_check row) then (d, Err check_violation)
  else if bool_decide (is_Some (users d !! us_ID u)) ||
          negb (bool_decide (rows (has_email (us_Email u)) (users d) = []))
  then (d, Err unique_violation)
  else (set_users (<[us_ID u := row]> (users d)) d, Ok ()).

(** [DELETE FROM users WHERE id = $1]; the refresh tokens go with it. *)
Definition delete_user (id : string) : stmt AuthDB unit := λ _ d,
  (mkAuthDB (delete id (users d))
     (filter (λ kt, owned_by id kt.2 = false) (refresh_tokens d)), Ok ()).

(** [INSERT INTO refresh_tokens]: [token_hash] is not unique. *)
Definition insert_token (t : RefreshToken) : stmt AuthDB unit := λ now d,
  let row := mkRefreshToken (rt_ID t) (rt_UserID t) (rt_TokenHash t)
    (pg_timestamp (rt_ExpiresAt t)) now in
  if bool_decide (is_Some (refresh_tokens d !! rt_ID t)) then (d, Err unique_violation)
  else if bool_decide (is_Some (users d !! rt_UserID t))
  then (set_tokens (<[rt_ID t := row]> (refresh_tokens d)) d, Ok ())
  else (d, Err foreign_key_violation).

(** [DELETE FROM refresh_tokens WHERE ...]. *)
Definition delete_tokens (P : RefreshToken → bool) : stmt AuthDB unit := λ _ d,
  (set_tokens (filter (λ kt, P kt.2 = false) (refresh_tokens d)) d, Ok ()).

(** ** The repositories *)

(** [fmt.Errorf(pre + ": %w", err)] on the error of a query. *)
Definition wrap_error {A} (pre : string) (r : res A) : res A :=
  match r with Ok a => Ok a | Err e => Err (Wrapped pre e "") end.

Section repos.
Context {X : Type → Type}.
Local Abbreviation M := (prog (eff AuthDB X)).

Definition UserRepo_Create (user : User) : M (res unit) := sql (insert_user user).

Definition UserRepo_FindByEmail (email : string) : M (res User) :=
  r ← sql (query (λ d, row_or_error (head (rows (has_email email) (users d)))));
  Ret (wrap_error "user not found: " r).

Definition UserRepo_FindByID (id : string) : M (res User) :=
  r ← sql (query (λ d, row_or_error (users d !! id)));
  Ret (wrap_error "user not found: " r).

Definition UserRepo_DeleteByID (id : string) : M (res unit) := sql (delete_user id).

Definition RefreshTokenRepo_Create (token : RefreshToken) : M (res unit) :=
  sql (insert_token token).

Definition RefreshTokenRepo_FindByHash (hash : string) : M (res RefreshToken) :=
  r ← sql (query (λ d, row_or_error (head (rows (has_hash hash) (refresh_tokens d)))));
  Ret (wrap_error "refresh token not found: " r).

Definition RefreshTokenRepo_DeleteByHash (hash : string) : M (res unit) :=
  sql (delete_tokens (has_hash hash)).

Definition RefreshTokenRepo_DeleteByUserID (userID : string) : M (res unit) :=
  sql (delete_tokens (owned_by userID)).
End repos.
