(* ===== verification/Auth.v ===== *)
(** * The auth service

    [AuthService] ([service/auth/internal/application]), the RS256 token
    service ([service/auth/internal/jwt]) and the password hasher
    ([service/auth/internal/bcrypt]).  The JWT and bcrypt libraries are
    parameters. *)
From Stdlib Require Import Ascii.
From S2P Require Import Prelude Effects Json Dto Sha256 AuthDB.

(** ** The libraries *)

(** Claims as the JWT library carries them; numbers are JSON numbers. *)
Inductive claim :=
  | CString (s : string)
  | CNumber (z : Z).
Abbreviation MapClaims := (gmap string claim).

(** The algorithm a token's header names. *)
Inductive signingMethod :=
  | SigningMethodRSA (alg : string)
  | OtherMethod (alg : string).

(** A parsed token: its claims, when they are [MapClaims], and [Valid]. *)
Record jwtToken := mkToken { jt_Claims : option MapClaims; jt_Valid : bool }.

(** [github.com/golang-jwt/jwt]: signing with RS256 and parsing.  [jwt_Parse]
    sees the time, since it checks [exp], and asks the callback for the key. *)
Class JWT := {
  PrivateKey : Type;
  PublicKey : Type;
  ParseRSAPrivateKeyFromPEM : string → res PrivateKey;
  ParseRSAPublicKeyFromPEM : string → res PublicKey;
  SignedString : PrivateKey → MapClaims → res string;
  jwt_Parse : Z → (signingMethod → res PublicKey) → string → res jwtToken;
}.

(** What the service relies on: a token signed with a private key parses, until
    its [exp], under the public key of the pair, to the claims that were signed. *)
Definition jwt_verifies `{!JWT} (priv : PrivateKey) (pub : PublicKey) : Prop :=
  ∀ claims tok exp now keyfunc,
    SignedString priv claims = Ok tok → claims !! "exp" = Some (CNumber exp) →
    now < exp * Second → keyfunc (SigningMethodRSA "RS256") = Ok pub →
    jwt_Parse now keyfunc tok = Ok (mkToken (Some claims) true).

(** [golang.org/x/crypto/bcrypt]: hashing draws a salt and is an effect,
    comparing is a function. *)
Class Bcrypt := CompareHashAndPassword : string → string → res unit.

Inductive authE : Type → Type :=
  | GenerateFromPassword (password : string) : authE (res string)
  | RandRead (n : nat) : authE (res (list Z)).

Abbreviation aprog := (prog (eff AuthDB authE)).

(** ** [bcrypt/hasher.go] *)

Definition Hasher_Hash (password : string) : aprog (res string) :=
  call (GenerateFromPassword password).
Definition Hasher_Verify `{!Bcrypt} (password hash : string) : res unit :=
  CompareHashAndPassword hash password.

(** ** [jwt/token_service.go] *)

Record TokenService `{!JWT} := mkTokenService {
  ts_privateKey : PrivateKey;
  ts_publicKey : PublicKey;
  ts_jwtTTL : Z;
}.
Arguments TokenService {_}.
Arguments mkTokenService {_}.

Section tokens.
Context `{!JWT}.

Definition NewTokenService (privateKeyPEM publicKeyPEM : string) (jwtTTL : Z) :
    res TokenService :=
  if bool_decide (privateKeyPEM = "") then Err (Plain "JWT_PRIVATE_KEY is required")
  else if bool_decide (publicKeyPEM = "") then Err (Plain "JWT_PUBLIC_KEY is required")
  else match ParseRSAPrivateKeyFromPEM privateKeyPEM with
       | Err e => Err (Wrapped "failed to parse private key: " e "")
       | Ok priv =>
           match ParseRSAPublicKeyFromPEM publicKeyPEM with
           | Err e => Err (Wrapped "failed to parse public key: " e "")
           | Ok pub => Ok (mkTokenService priv pub jwtTTL)
           end
       end.

(** [t.Unix()]. *)
Definition unix (t : Z) : Z := t `div` Second.

Definition access_claims (c : Claims) (exp iat : Z) : MapClaims :=
  <["sub" := CString (cm_UserID c)]> (<["email" := CString (cm_Email c)]>
    (<["role" := CString (cm_Role c)]> (<["exp" := CNumber exp]>
      {[ "iat" := CNumber iat ]}))).

Definition GenerateAccessToken (s : TokenService) (userID email : string) (role : Role) :
    aprog (res (string * Z)) :=
  now ← time_Now;
  now' ← time_Now;
  match SignedString (ts_privateKey s)
          (access_claims (mkClaims userID email role) (unix (now + ts_jwtTTL s)) (unix now')) with
  | Err e => Ret (Err (Wrapped "failed to sign token: " e ""))
  | Ok signed => Ret (Ok (signed, ts_jwtTTL s))
  end.

Definition GenerateRefreshToken : aprog (res string) :=
  r ← call (RandRead 32);
  match r with
  | Err e => Ret (Err (Wrapped "failed to generate refresh token: " e ""))
  | Ok b => Ret (Ok (Base64.EncodeToString b))
  end.

Definition HashRefreshToken (token : string) : string :=
  Base64.EncodeToString (Sha256.Sum256 (bytes_of token)).

(** [v, _ := claims[k].(string)]. *)
Definition claim_string (k : string) (claims : MapClaims) : string :=
  match claims !! k with Some (CString s) => s | _ => "" end.

(** The callback that picks the key. *)
Definition rsa_key (s : TokenService) (m : signingMethod) : res PublicKey :=
  match m with
  | SigningMethodRSA _ => Ok (ts_publicKey s)
  | OtherMethod alg => Err (Plain ("unexpected signing method: " +:+ alg))
  end.

Definition VerifyAccessToken (s : TokenService) (tokenString : string) : aprog (res Claims) :=
  now ← time_Now;
  match jwt_Parse now (rsa_key s) tokenString with
  | Err e => Ret (Err (Wrapped "failed to parse token: " e ""))
  | Ok token =>
      match jt_Claims token with
      | Some claims =>
          if negb (jt_Valid token) then Ret (Err (Plain "invalid token claims"))
          else Ret (Ok (mkClaims (claim_string "sub" claims) (claim_string "email" claims)
                          (claim_string "role" claims)))
      | None => Ret (Err (Plain "invalid token claims"))
      end
  end.
End tokens.

(** [crypto/x509] and [encoding/pem]: the key as bytes, and a block as text. *)
Class PublicKeyText `{!JWT} := {
  MarshalPKIXPublicKey : PublicKey → res string;
  EncodeToMemory : string → string → string;
}.
(** What a reader of the text relies on: the key that was printed is parsed. *)
Definition prints_keys `{!JWT, !PublicKeyText} : Prop := ∀ key bytes,
  MarshalPKIXPublicKey key = Ok bytes →
  EncodeToMemory "PUBLIC KEY" bytes ≠ "" ∧
  ParseRSAPublicKeyFromPEM (EncodeToMemory "PUBLIC KEY" bytes) = Ok key.

Definition PublicKeyPEM `{!JWT, !PublicKeyText} (s : TokenService) : res string :=
  match MarshalPKIXPublicKey (ts_publicKey s) with
  | Err e => Err (Wrapped "failed to marshal public key: " e "")
  | Ok bytes => Ok (EncodeToMemory "PUBLIC KEY" bytes)
  end.

(** ** [application/auth_service.go] *)

Record AdminSeed := mkAdminSeed { as_Email : string; as_Password : string; as_Name : string }.

Section service.
Context `{!JWT, !Bcrypt}.

(** The service: its token service and the lifetime of a refresh token
    ([TokensConfig.RefreshTokenTTL]; [AccessTokenTTL] is read nowhere). *)
Record AuthService := mkAuthService {
  as_tokenSvc : TokenService;
  as_RefreshTokenTTL : Z;
}.
Context (s : AuthService).

Definition new_user (id email hash name : string) (role : Role) : User :=
  mkUser id email hash name role 0 0.

Definition Register (email password name : string) (role : Role) : aprog (res User) :=
  existing ← UserRepo_FindByEmail email;
  if is_ok existing then Ret (Err ErrUserExists)
  else
    passwordHash ←? Hasher_Hash password;
    id ← uuid_NewString;
    let user := new_user id email passwordHash name role in
    _ ←? UserRepo_Create user;
    Ret (Ok user).

(** The organizer's profile is not stored. *)
Definition RegisterOrganizer
    (email password name organizerName description profileLink contactEmail : string) :
    aprog (res User) :=
  Register email password name RoleEO.

(** The tail [Login] and [RefreshToken] share: a new pair for the user, the
    refresh token stored by its hash.  [ExpiresIn] is [int64(ttl.Seconds())]. *)
Definition issuePair (user : User) : aprog (res TokenPair) :=
  at_ ←? GenerateAccessToken (as_tokenSvc s) (us_ID user) (us_Email user) (us_Role user);
  refreshToken ←? GenerateRefreshToken;
  id ← uuid_NewString;
  now ← time_Now;
  let rt := mkRefreshToken id (us_ID user) (HashRefreshToken refreshToken)
    (now + as_RefreshTokenTTL s) 0 in
  _ ←? RefreshTokenRepo_Create rt;
  Ret (Ok (mkTokenPair at_.1 refreshToken (at_.2 `quot` Second))).

Definition Login (email password : string) : aprog (res TokenPair) :=
  r ← UserRepo_FindByEmail email;
  match r with
  | Err _ => Ret (Err ErrInvalidCredentials)
  | Ok user =>
      match Hasher_Verify password (us_PasswordHash user) with
      | Err _ => Ret (Err ErrInvalidCredentials)
      | Ok _ => issuePair user
      end
  end.

Definition AuthService_RefreshToken (rawRefreshToken : string) : aprog (res TokenPair) :=
  let hash := HashRefreshToken rawRefreshToken in
  r ← RefreshTokenRepo_FindByHash hash;
  match r with
  | Err _ => Ret (Err ErrTokenNotFound)
  | Ok stored =>
      now ← time_Now;
      if bool_decide (rt_ExpiresAt stored < now) then Ret (Err ErrTokenExpired)
      else
        r ← UserRepo_FindByID (rt_UserID stored);
        match r with
        | Err _ => Ret (Err ErrUserNotFound)
        | Ok user =>
            _ ←? RefreshTokenRepo_DeleteByHash hash;
            issuePair user
        end
  end.

Definition GetMe (userID : string) : aprog (res User) := UserRepo_FindByID userID.

Definition VerifyToken (tokenString : string) : aprog (res Claims) :=
  VerifyAccessToken (as_tokenSvc s) tokenString.

Definition DeleteUser (userID : string) : aprog (res unit) := UserRepo_DeleteByID userID.

Definition seedOne (email password name : string) : aprog (res bool) :=
  existing ← UserRepo_FindByEmail email;
  if is_ok existing then Ret (Ok false)
  else
    hash ←? Hasher_Hash password;
    id ← uuid_NewString;
    _ ←? UserRepo_Create (new_user id email hash name RoleAdmin);
    Ret (Ok true).

(** The loop of [SeedAdmins]; the pair it returns is the count and the error. *)
Fixpoint seedLoop (created : Z) (admins : list AdminSeed) : aprog (Z * option error) :=
  match admins with
  | [] => Ret (created, None)
  | a :: admins =>
      let name := if bool_decide (as_Name a = "") then before_at (as_Email a) else as_Name a in
      r ← seedOne (as_Email a) (as_Password a) name;
      match r with
      | Err e => Ret (created, Some e)
      | Ok ok => seedLoop (if (ok : bool) then created + 1 else created) admins
      end
  end.

Definition SeedAdmins (admins : list AdminSeed) : aprog (Z * option error) := seedLoop 0 admins.
End service.
Arguments AuthService {_}.
