(* ===== verification/AuthHandler.v ===== *)
(** * HTTP interface of the auth service

    [service/auth/internal/handler]: the request and response structs, the
    handlers, the bearer middleware and the routes. *)
From S2P Require Import Prelude Effects Json Dto Sha256 AuthDB Auth.

(** ** [dto.go] *)

Record RegisterRequest := mkRegisterRequest {
  rr_Email : string; rr_Password : string; rr_Name : string; rr_Role : Role }.
Record RegisterOrganizerRequest := mkRegisterOrganizerRequest {
  ro_Email : string; ro_Password : string; ro_Name : string; ro_OrganizerName : string;
  ro_Description : string; ro_ProfileLink : string; ro_ContactEmail : string }.
Record LoginRequest := mkLoginRequest { lr_Email : string; lr_Password : string }.
Record RefreshRequest := mkRefreshRequest { fr_RefreshToken : string }.
Record UserResponse := mkUserResponse {
  ur_ID : string; ur_Email : string; ur_Name : string; ur_Role : Role }.
(** An absent user is omitted from the text. *)
Record AuthResponse := mkAuthResponse {
  ar_User : option UserResponse; ar_AccessToken : string; ar_ExpiresIn : Z }.
Record LoginResponse := mkLoginResponse {
  lo_AuthResponse : AuthResponse; lo_RefreshToken : string }.

Definition decode_register : json → res RegisterRequest := dec_struct (λ o,
  email ←! string_field "email" o;
  password ←! string_field "password" o;
  name ←! string_field "name" o;
  role ←! string_field "role" o;
  Ok (mkRegisterRequest email password name role)).
Definition RegisterRequest_fields (r : RegisterRequest) : fields :=
  [("Email", "required,email", VString (rr_Email r));
   ("Password", "required,min=8", VString (rr_Password r));
   ("Name", "required", VString (rr_Name r));
   ("Role", "oneof=customer eo", VString (rr_Role r))].

Definition decode_register_organizer : json → res RegisterOrganizerRequest := dec_struct (λ o,
  email ←! string_field "email" o;
  password ←! string_field "password" o;
  name ←! string_field "name" o;
  organizer ←! string_field "organizer_name" o;
  description ←! string_field "description" o;
  link ←! string_field "profile_link" o;
  contact ←! string_field "contact_email" o;
  Ok (mkRegisterOrganizerRequest email password name organizer description link contact)).
Definition RegisterOrganizerRequest_fields (r : RegisterOrganizerRequest) : fields :=
  [("Email", "required,email", VString (ro_Email r));
   ("Password", "required,min=8", VString (ro_Password r));
   ("Name", "required", VString (ro_Name r));
   ("OrganizerName", "required", VString (ro_OrganizerName r));
   ("ContactEmail", "required,email", VString (ro_ContactEmail r))].

Definition decode_login : json → res LoginRequest := dec_struct (λ o,
  email ←! string_field "email" o;
  password ←! string_field "password" o;
  Ok (mkLoginRequest email password)).
Definition LoginRequest_fields (r : LoginRequest) : fields :=
  [("Email", "required,email", VString (lr_Email r));
   ("Password", "required", VString (lr_Password r))].

Definition decode_refresh : json → res RefreshRequest := dec_struct (λ o,
  token ←! string_field "refresh_token" o;
  Ok (mkRefreshRequest token)).
Definition RefreshRequest_fields (r : RefreshRequest) : fields :=
  [("RefreshToken", "required", VString (fr_RefreshToken r))].

(** What a handler answers: the registered user, a pair of tokens, the current
    user, or the headers of a forward-auth reply, which has no body. *)
Inductive authData :=
  | DRegistered (user : UserResponse)
  | DLogin (l : LoginResponse)
  | DMe (a : AuthResponse)
  | DForward (userID : string) (role : Role) (email : string).

(** ** [auth_handler.go] *)

Section handlers.
Context `{!JWT, !Bcrypt, !Validator} (s : AuthService).
Local Abbreviation reply := (aprog (response authData)).

Definition userToResponse (user : User) : UserResponse :=
  mkUserResponse (us_ID user) (us_Email user) (us_Name user) (us_Role user).

(** The reply of both registration handlers to the outcome of the service. *)
Definition registered (r : res User) : response authData :=
  match r with
  | Err err =>
      if errors_Is err ErrUserExists then Error 409 (error_text err)
      else InternalServerError "registration failed"
  | Ok user => Created (DRegistered (userToResponse user))
  end.

Definition AuthHandler_Register (r : request) : reply :=
  match Decode decode_register (r_body r) with
  | Err _ => Ret (BadRequest "invalid request body")
  | Ok req =>
      match validate_Struct (RegisterRequest_fields req) with
      | Some err => Ret (BadRequest ("validation failed: " +:+ err))
      | None =>
          let role := if bool_decide (rr_Role req = "") then RoleCustomer else rr_Role req in
          u ← Register (rr_Email req) (rr_Password req) (rr_Name req) role;
          Ret (registered u)
      end
  end.

Definition AuthHandler_RegisterOrganizer (r : request) : reply :=
  match Decode decode_register_organizer (r_body r) with
  | Err _ => Ret (BadRequest "invalid request body")
  | Ok req =>
      match validate_Struct (RegisterOrganizerRequest_fields req) with
      | Some err => Ret (BadRequest ("validation failed: " +:+ err))
      | None =>
          u ← RegisterOrganizer (ro_Email req) (ro_Password req) (ro_Name req)
                (ro_OrganizerName req) (ro_Description req) (ro_ProfileLink req)
                (ro_ContactEmail req);
          Ret (registered u)
      end
  end.

Definition pair_response (tp : TokenPair) : response authData :=
  OK (DLogin (mkLoginResponse (mkAuthResponse None (tp_AccessToken tp) (tp_ExpiresIn tp))
               (tp_RefreshToken tp))).

Definition AuthHandler_Login (r : request) : reply :=
  match Decode decode_login (r_body r) with
  | Err _ => Ret (BadRequest "invalid request body")
  | Ok req =>
      match validate_Struct (LoginRequest_fields req) with
      | Some err => Ret (BadRequest ("validation failed: " +:+ err))
      | None =>
          p ← Login s (lr_Email req) (lr_Password req);
          Ret match p with
              | Err err =>
                  if errors_Is err ErrInvalidCredentials then Unauthorized (error_text err)
                  else InternalServerError "login failed"
              | Ok tp => pair_response tp
              end
      end
  end.

Definition AuthHandler_Refresh (r : request) : reply :=
  match Decode decode_refresh (r_body r) with
  | Err _ => Ret (BadRequest "invalid request body")
  | Ok req =>
      match validate_Struct (RefreshRequest_fields req) with
      | Some err => Ret (BadRequest ("validation failed: " +:+ err))
      | None =>
          p ← AuthService_RefreshToken s (fr_RefreshToken req);
          Ret match p with
              | Err err =>
                  if errors_Is err ErrTokenNotFound || errors_Is err ErrTokenExpired
                  then Unauthorized (error_text err)
                  else InternalServerError "token refresh failed"
              | Ok tp => pair_response tp
              end
      end
  end.

Definition AuthHandler_Me (r : request) : reply :=
  let userID := UserIDFromContext (r_ctx r) in
  if bool_decide (userID = "") then Ret (Unauthorized "missing authentication")
  else
    u ← GetMe userID;
    Ret match u with
        | Err _ => NotFound "user not found"
        | Ok user => OK (DMe (mkAuthResponse (Some (userToResponse user)) "" 0))
        end.

(** [strings.CutPrefix(s, prefix)]. *)
Fixpoint CutPrefix (s prefix : string) {struct prefix} : option string :=
  match prefix, s with
  | EmptyString, _ => Some s
  | String c prefix, String c' s => if bool_decide (c = c') then CutPrefix s prefix else None
  | String _ _, EmptyString => None
  end.
Definition bearer (authHeader : string) : option string := CutPrefix authHeader "Bearer ".

Definition AuthHandler_Verify (r : request) : reply :=
  let authHeader := r_header r "Authorization" in
  if bool_decide (authHeader = "") then Ret (Unauthorized "missing Authorization header")
  else match bearer authHeader with
       | None => Ret (Unauthorized "invalid Authorization header")
       | Some token =>
           c ← VerifyToken s token;
           Ret match c with
               | Err _ => Unauthorized "invalid token"
               | Ok claims => OK (DForward (cm_UserID claims) (cm_Role claims) (cm_Email claims))
               end
       end.

(** ** [middleware.go] *)

Definition BearerAuth (next : request → reply) (r : request) : reply :=
  if negb (bool_decide (UserIDFromContext (r_ctx r) = "")) then next r
  else match bearer (r_header r "Authorization") with
       | None => Ret (Unauthorized "missing or invalid authorization header")
       | Some tokenString =>
           c ← VerifyToken s tokenString;
           match c with
           | Err _ => Ret (Unauthorized "invalid token")
           | Ok claims =>
               next (with_ctx r (mkContext (Some (cm_UserID claims)) (Some (cm_Role claims))
                 (Some (cm_Email claims)) (ctx_traceparent (r_ctx r))))
           end
       end.

(** ** [routes.go] *)

Definition AuthHandler_Routes : list (string * string * (request → reply)) :=
  [("POST", "/api/auth/register", AuthHandler_Register);
   ("POST", "/api/auth/register/organizer", AuthHandler_RegisterOrganizer);
   ("POST", "/api/auth/login", AuthHandler_Login);
   ("POST", "/api/auth/refresh", AuthHandler_Refresh);
   ("GET", "/api/auth/verify", AuthHandler_Verify);
   ("GET", "/api/auth/me", WithUserContext (BearerAuth AuthHandler_Me))].
End handlers.
