(* ===== verification/AuthSamples.v ===== *)
(** * Sample libraries and states of the auth service

    A JWT library whose tokens are the claims written in binary, a password
    hasher that prefixes, and a database: the concrete inputs of the witnesses. *)
From Stdlib Require Import Ascii.
From S2P Require Import Prelude Effects Json Dto Sha256 AuthDB Auth AuthHandler.

#[export] Instance claim_eq_dec : EqDecision claim.
Proof. solve_decision. Defined.
#[export] Program Instance claim_countable : Countable claim :=
  inj_countable' (λ c, match c with CString s => inl s | CNumber z => inr z end)
    (λ v, match v with inl s => CString s | inr z => CNumber z end) _.
Next Obligation. by intros []. Qed.

(** Numbers as strings of binary digits. *)
Fixpoint pos_text (p : positive) : string :=
  match p with
  | xH => ""
  | xO p => String "0"%char (pos_text p)
  | xI p => String "1"%char (pos_text p)
  end.
Fixpoint text_pos (s : string) : positive :=
  match s with
  | EmptyString => xH
  | String c s => if bool_decide (c = "0"%char) then xO (text_pos s) else xI (text_pos s)
  end.

Lemma text_pos_text p : text_pos (pos_text p) = p.
Proof. induction p as [p IH|p IH|]; cbn; [by rewrite IH..|done]. Qed.

Definition sample_jwt : JWT := {|
  PrivateKey := unit;
  PublicKey := unit;
  ParseRSAPrivateKeyFromPEM _ := Ok ();
  ParseRSAPublicKeyFromPEM _ := Ok ();
  SignedString _ claims := Ok (pos_text (encode claims));
  jwt_Parse now keyfunc tok :=
    match keyfunc (SigningMethodRSA "RS256") with
    | Err e => Err e
    | Ok _ =>
        match decode (text_pos tok) with
        | None => Err (Plain "token is malformed")
        | Some claims =>
            match (claims : MapClaims) !! "exp" with
            | Some (CNumber exp) =>
                if bool_decide (now < exp * Second) then Ok (mkToken (Some claims) true)
                else Err (Plain "token is expired")
            | _ => Ok (mkToken (Some claims) true)
            end
        end
    end
|}.
#[local] Existing Instance sample_jwt.

Lemma sample_jwt_verifies (priv : PrivateKey) (pub : PublicKey) : jwt_verifies priv pub.
Proof.
  intros claims tok exp now keyfunc [= <-] Hexp Hnow Hkey. cbn.
  rewrite Hkey, text_pos_text, decode_encode, Hexp, bool_decide_eq_true_2 by done. done.
Qed.

Definition sample_bcrypt : Bcrypt := λ hash password,
  if bool_decide (hash = "$2a$" +:+ password) then Ok () else Err (Plain "hash mismatch").

Definition sample_auth : AuthService :=
  mkAuthService (mkTokenService () () (15 * Minute)) (7 * 24 * Hour).

(** Answers that depend on the position in the run: no two random strings of
    one run are the same. *)
Definition auth_answers (n : nat) (A : Type) (x : authE A) : A :=
  match x with
  | GenerateFromPassword password => Ok ("$2a$" +:+ password)
  | RandRead k => Ok (Z.of_nat n :: replicate (k - 1) 0)
  end.
Definition auth_time : Z := 1767225600 * Second.
Definition auth_oracle : oracle authE := {|
  o_now := λ _, auth_time;
  o_uuid := calm_uuid;
  o_fault := λ _, FDone;
  o_ext := auth_answers;
|}.

Definition sample_user : User :=
  mkUser "u1" "ana@mail" "$2a$secret" "Ana" RoleCustomer auth_time auth_time.
Definition sample_token : RefreshToken :=
  mkRefreshToken "t1" "u1" (HashRefreshToken "raw") (auth_time + Hour) auth_time.
Definition sample_auth_db : AuthDB :=
  mkAuthDB {[ "u1" := sample_user ]} {[ "t1" := sample_token ]}.
