(* ===== verification/Fixtures.v ===== *)
(** * The fixtures of the test suites

    The functional options and constructors of [testfixtures] in the three
    services: each option sets one field of the value it is given, and a
    constructor applies its options in order to a value with fresh UUIDs.  What
    the tables make of the defaults: the users, refresh tokens, events and ticket
    types can be stored, the bookings and transactions only with options. *)
From S2P Require Import Prelude Effects TimeText Json Dto Outbox TicketDB PayDB AuthDB AuthSamples.

(** [for _, o := range opts { o(v) }]. *)
Definition apply_options {A} (opts : list (A → A)) (v : A) : A := foldl (λ v o, o v) v opts.

(** [t.Truncate(d)]; the zero time is a whole number of seconds away. *)
Definition Truncate (t d : Z) : Z := t - t mod d.

Section fixtures.
Context {D : Type} {X : Type → Type}.
Local Abbreviation M := (prog (eff D X)).

(** ** Ticketing *)

Definition BookingItemOption : Type := BookingItem → BookingItem.
Definition WithBookingItemID (id : string) : BookingItemOption := λ bi,
  mkBookingItem id (bi_BookingID bi) (bi_TicketTypeID bi) (bi_Quantity bi)
    (bi_UnitPriceRupiah bi) (bi_TotalPriceRupiah bi).
Definition WithBookingItemBookingID (bookingID : string) : BookingItemOption := λ bi,
  mkBookingItem (bi_ID bi) bookingID (bi_TicketTypeID bi) (bi_Quantity bi)
    (bi_UnitPriceRupiah bi) (bi_TotalPriceRupiah bi).
Definition WithBookingItemTicketTypeID (ttID : string) : BookingItemOption := λ bi,
  mkBookingItem (bi_ID bi) (bi_BookingID bi) ttID (bi_Quantity bi) (bi_UnitPriceRupiah bi)
    (bi_TotalPriceRupiah bi).
Definition WithBookingItemQuantity (qty : Z) : BookingItemOption := λ bi,
  mkBookingItem (bi_ID bi) (bi_BookingID bi) (bi_TicketTypeID bi) qty (bi_UnitPriceRupiah
    bi) (bi_TotalPriceRupiah bi).
Definition WithBookingItemUnitPrice (rupiah : Z) : BookingItemOption := λ bi,
  mkBookingItem (bi_ID bi) (bi_BookingID bi) (bi_TicketTypeID bi) (bi_Quantity bi) rupiah
    (bi_TotalPriceRupiah bi).

Definition NewTestBookingItem (opts : list BookingItemOption) : M BookingItem :=
  id ← uuid_NewString;
  bookingID ← uuid_NewString;
  ttID ← uuid_NewString;
  Ret (apply_options opts (mkBookingItem id bookingID ttID 1 5000 0)).

Definition BookingOption : Type := Booking → Booking.
Definition WithBookingID (id : string) : BookingOption := λ b,
  mkBooking id (bk_UserID b) (bk_EventID b) (bk_Status b) (bk_ExpiresAt b) (bk_TotalRupiah
    b) (bk_PaymentID b) (bk_RefundStatus b) (bk_Items b) (bk_CreatedAt b).
Definition WithBookingUserID (userID : string) : BookingOption := λ b,
  mkBooking (bk_ID b) userID (bk_EventID b) (bk_Status b) (bk_ExpiresAt b) (bk_TotalRupiah
    b) (bk_PaymentID b) (bk_RefundStatus b) (bk_Items b) (bk_CreatedAt b).
Definition WithBookingEventID (eventID : string) : BookingOption := λ b,
  mkBooking (bk_ID b) (bk_UserID b) eventID (bk_Status b) (bk_ExpiresAt b) (bk_TotalRupiah
    b) (bk_PaymentID b) (bk_RefundStatus b) (bk_Items b) (bk_CreatedAt b).
Definition WithBookingStatus (status : string) : BookingOption := λ b,
  mkBooking (bk_ID b) (bk_UserID b) (bk_EventID b) status (bk_ExpiresAt b) (bk_TotalRupiah
    b) (bk_PaymentID b) (bk_RefundStatus b) (bk_Items b) (bk_CreatedAt b).
Definition WithBookingPaymentID (paymentID : string) : BookingOption := λ b,
  mkBooking (bk_ID b) (bk_UserID b) (bk_EventID b) (bk_Status b) (bk_ExpiresAt b)
    (bk_TotalRupiah b) paymentID (bk_RefundStatus b) (bk_Items b) (bk_CreatedAt b).
Definition WithBookingItems (items : list BookingItem) : BookingOption := λ b,
  mkBooking (bk_ID b) (bk_UserID b) (bk_EventID b) (bk_Status b) (bk_ExpiresAt b)
    (bk_TotalRupiah b) (bk_PaymentID b) (bk_RefundStatus b) items (bk_CreatedAt b).

Definition NewTestBooking (opts : list BookingOption) : M Booking :=
  t ← time_Now;
  let now := Truncate t Second in
  id ← uuid_NewString;
  userID ← uuid_NewString;
  eventID ← uuid_NewString;
  paymentID ← uuid_NewString;
  itemID ← uuid_NewString;
  bookingID ← uuid_NewString;
  item ← NewTestBookingItem [WithBookingItemID itemID; WithBookingItemBookingID bookingID];
  Ret (apply_options opts
    (mkBooking id userID eventID "confirmed" None 10000 paymentID "" [item] now)).

Definition ReservationOption : Type := Reservation → Reservation.
Definition WithReservationBookingID (id : string) : ReservationOption := λ r,
  mkReservation id (rs_UserID r) (rs_EventID r) (rs_Items r) (rs_TotalRupiah r) (rs_Status
    r) (rs_ExpiresAt r) (rs_CreatedAt r).
Definition WithReservationUserID (userID : string) : ReservationOption := λ r,
  mkReservation (rs_BookingID r) userID (rs_EventID r) (rs_Items r) (rs_TotalRupiah r)
    (rs_Status r) (rs_ExpiresAt r) (rs_CreatedAt r).
Definition WithReservationEventID (eventID : string) : ReservationOption := λ r,
  mkReservation (rs_BookingID r) (rs_UserID r) eventID (rs_Items r) (rs_TotalRupiah r)
    (rs_Status r) (rs_ExpiresAt r) (rs_CreatedAt r).
Definition WithReservationItems (items : list BookingItem) : ReservationOption := λ r,
  mkReservation (rs_BookingID r) (rs_UserID r) (rs_EventID r) items (rs_TotalRupiah r)
    (rs_Status r) (rs_ExpiresAt r) (rs_CreatedAt r).
Definition WithReservationTotalRupiah (rupiah : Z) : ReservationOption := λ r,
  mkReservation (rs_BookingID r) (rs_UserID r) (rs_EventID r) (rs_Items r) rupiah (rs_Status
    r) (rs_ExpiresAt r) (rs_CreatedAt r).
Definition WithReservationStatus (status : string) : ReservationOption := λ r,
  mkReservation (rs_BookingID r) (rs_UserID r) (rs_EventID r) (rs_Items r) (rs_TotalRupiah
    r) status (rs_ExpiresAt r) (rs_CreatedAt r).

(** The zero [time.Time] of [ExpiresAt]. *)
Definition NewTestReservation (opts : list ReservationOption) : M Reservation :=
  t ← time_Now;
  let now := Truncate t Second in
  bookingID ← uuid_NewString;
  userID ← uuid_NewString;
  eventID ← uuid_NewString;
  item ← NewTestBookingItem [WithBookingItemUnitPrice 5000; WithBookingItemQuantity 2];
  Ret (apply_options opts (mkReservation bookingID userID eventID [item] 10000 "held" zero_time now)).

Definition EventOption : Type := Event → Event.
Definition WithEventID (id : string) : EventOption := λ e,
  mkEvent id (ev_OrganizerID e) (ev_Title e) (ev_Description e) (ev_VenueName e)
    (ev_VenueAddress e) (ev_VenueCapacity e) (ev_StartAt e) (ev_EndAt e) (ev_Status e)
    (ev_ReviewedBy e) (ev_ReviewedAt e) (ev_CreatedAt e) (ev_UpdatedAt e).
Definition WithEventOrganizerID (id : string) : EventOption := λ e,
  mkEvent (ev_ID e) id (ev_Title e) (ev_Description e) (ev_VenueName e) (ev_VenueAddress e)
    (ev_VenueCapacity e) (ev_StartAt e) (ev_EndAt e) (ev_Status e) (ev_ReviewedBy e)
    (ev_ReviewedAt e) (ev_CreatedAt e) (ev_UpdatedAt e).
Definition WithEventTitle (title : string) : EventOption := λ e,
  mkEvent (ev_ID e) (ev_OrganizerID e) title (ev_Description e) (ev_VenueName e)
    (ev_VenueAddress e) (ev_VenueCapacity e) (ev_StartAt e) (ev_EndAt e) (ev_Status e)
    (ev_ReviewedBy e) (ev_ReviewedAt e) (ev_CreatedAt e) (ev_UpdatedAt e).
Definition WithEventStatus (status : EventStatus) : EventOption := λ e,
  mkEvent (ev_ID e) (ev_OrganizerID e) (ev_Title e) (ev_Description e) (ev_VenueName e)
    (ev_VenueAddress e) (ev_VenueCapacity e) (ev_StartAt e) (ev_EndAt e) status
    (ev_ReviewedBy e) (ev_ReviewedAt e) (ev_CreatedAt e) (ev_UpdatedAt e).
Definition WithEventVenueCapacity (capacity : Z) : EventOption := λ e,
  mkEvent (ev_ID e) (ev_OrganizerID e) (ev_Title e) (ev_Description e) (ev_VenueName e)
    (ev_VenueAddress e) capacity (ev_StartAt e) (ev_EndAt e) (ev_Status e) (ev_ReviewedBy e)
    (ev_ReviewedAt e) (ev_CreatedAt e) (ev_UpdatedAt e).
Definition WithEventStartAt (t : Z) : EventOption := λ e,
  mkEvent (ev_ID e) (ev_OrganizerID e) (ev_Title e) (ev_Description e) (ev_VenueName e)
    (ev_VenueAddress e) (ev_VenueCapacity e) t (ev_EndAt e) (ev_Status e) (ev_ReviewedBy e)
    (ev_ReviewedAt e) (ev_CreatedAt e) (ev_UpdatedAt e).
Definition WithEventEndAt (t : Z) : EventOption := λ e,
  mkEvent (ev_ID e) (ev_OrganizerID e) (ev_Title e) (ev_Description e) (ev_VenueName e)
    (ev_VenueAddress e) (ev_VenueCapacity e) (ev_StartAt e) t (ev_Status e) (ev_ReviewedBy
    e) (ev_ReviewedAt e) (ev_CreatedAt e) (ev_UpdatedAt e).

Definition NewTestEvent (opts : list EventOption) : M Event :=
  t ← time_Now;
  let now := Truncate t Second in
  let start := Truncate (now + 24 * Hour) Second in
  id ← uuid_NewString;
  organizerID ← uuid_NewString;
  Ret (apply_options opts
    (mkEvent id organizerID "Test Event" "A test event for unit testing." "Test Venue"
       "123 Test Street" 100 start (start + 3 * Hour) EventStatusDraft None None now now)).

Definition TicketTypeOption : Type := TicketType → TicketType.
Definition WithTicketTypeID (id : string) : TicketTypeOption := λ tt,
  mkTicketType id (tt_EventID tt) (tt_Name tt) (tt_PriceRupiah tt) (tt_Quantity tt)
    (tt_Available tt) (tt_MaxPerOrder tt).
Definition WithTicketTypeEventID (eventID : string) : TicketTypeOption := λ tt,
  mkTicketType (tt_ID tt) eventID (tt_Name tt) (tt_PriceRupiah tt) (tt_Quantity tt)
    (tt_Available tt) (tt_MaxPerOrder tt).
Definition WithTicketTypeName (name : string) : TicketTypeOption := λ tt,
  mkTicketType (tt_ID tt) (tt_EventID tt) name (tt_PriceRupiah tt) (tt_Quantity tt)
    (tt_Available tt) (tt_MaxPerOrder tt).
Definition WithTicketTypePrice (rupiah : Z) : TicketTypeOption := λ tt,
  mkTicketType (tt_ID tt) (tt_EventID tt) (tt_Name tt) rupiah (tt_Quantity tt) (tt_Available
    tt) (tt_MaxPerOrder tt).
Definition WithTicketTypeQuantity (qty : Z) : TicketTypeOption := λ tt,
  mkTicketType (tt_ID tt) (tt_EventID tt) (tt_Name tt) (tt_PriceRupiah tt) qty (tt_Available
    tt) (tt_MaxPerOrder tt).
Definition WithTicketTypeMaxPerOrder (max : Z) : TicketTypeOption := λ tt,
  mkTicketType (tt_ID tt) (tt_EventID tt) (tt_Name tt) (tt_PriceRupiah tt) (tt_Quantity tt)
    (tt_Available tt) max.

Definition NewTestTicketType (opts : list TicketTypeOption) : M TicketType :=
  id ← uuid_NewString;
  eventID ← uuid_NewString;
  Ret (apply_options opts (mkTicketType id eventID "General Admission" 5000 50 50 5)).

(** ** Auth *)

Definition UserOption : Type := User → User.
Definition WithUserID (id : string) : UserOption := λ u,
  mkUser id (us_Email u) (us_PasswordHash u) (us_Name u) (us_Role u) (us_CreatedAt u)
    (us_UpdatedAt u).
Definition WithUserEmail (email : string) : UserOption := λ u,
  mkUser (us_ID u) email (us_PasswordHash u) (us_Name u) (us_Role u) (us_CreatedAt u)
    (us_UpdatedAt u).
Definition WithUserName (name : string) : UserOption := λ u,
  mkUser (us_ID u) (us_Email u) (us_PasswordHash u) name (us_Role u) (us_CreatedAt u)
    (us_UpdatedAt u).
Definition WithUserRole (role : Role) : UserOption := λ u,
  mkUser (us_ID u) (us_Email u) (us_PasswordHash u) (us_Name u) role (us_CreatedAt u)
    (us_UpdatedAt u).
Definition WithUserPasswordHash (hash : string) : UserOption := λ u,
  mkUser (us_ID u) (us_Email u) hash (us_Name u) (us_Role u) (us_CreatedAt u) (us_UpdatedAt
    u).

Definition NewTestUser (opts : list UserOption) : M User :=
  t ← time_Now;
  let now := Truncate t Second in
  id ← uuid_NewString;
  Ret (apply_options opts
    (mkUser id "customer@example.com" "$2a$10$test-hash" "Test Customer" RoleCustomer now now)).

Definition TokenPairOption : Type := TokenPair → TokenPair.
Definition WithAccessToken (token : string) : TokenPairOption := λ p,
  mkTokenPair token (tp_RefreshToken p) (tp_ExpiresIn p).
Definition WithRefreshTokenString (token : string) : TokenPairOption := λ p,
  mkTokenPair (tp_AccessToken p) token (tp_ExpiresIn p).

Definition NewTestTokenPair (opts : list TokenPairOption) : TokenPair :=
  apply_options opts (mkTokenPair "eyJ.access.token" "base64RefreshTokenString" 900).

Definition RefreshTokenOption : Type := RefreshToken → RefreshToken.
Definition WithRefreshTokenUserID (userID : string) : RefreshTokenOption := λ r,
  mkRefreshToken (rt_ID r) userID (rt_TokenHash r) (rt_ExpiresAt r) (rt_CreatedAt r).
Definition WithRefreshTokenHash (hash : string) : RefreshTokenOption := λ r,
  mkRefreshToken (rt_ID r) (rt_UserID r) hash (rt_ExpiresAt r) (rt_CreatedAt r).
Definition WithRefreshTokenExpiry (t : Z) : RefreshTokenOption := λ r,
  mkRefreshToken (rt_ID r) (rt_UserID r) (rt_TokenHash r) t (rt_CreatedAt r).

Definition NewTestRefreshToken (opts : list RefreshTokenOption) : M RefreshToken :=
  t ← time_Now;
  let now := Truncate t Second in
  id ← uuid_NewString;
  userID ← uuid_NewString;
  hash ← uuid_NewString;
  Ret (apply_options opts
    (mkRefreshToken id userID ("sha256-hash-" +:+ hash) (now + 7 * 24 * Hour) now)).

(** ** Payment *)

Definition TransactionOption : Type := Transaction → Transaction.
Definition WithTransactionID (id : string) : TransactionOption := λ tx,
  mkTransaction id (tx_UserID tx) (tx_BookingID tx) (tx_EventID tx) (tx_AmountRupiah tx)
    (tx_Currency tx) (tx_Status tx) (tx_Provider tx) (tx_ProviderRef tx) (tx_PaymentLinkURL
    tx) (tx_CustomerEmail tx) (tx_RefundStatus tx) (tx_ExpiresAt tx) (tx_CreatedAt tx)
    (tx_UpdatedAt tx).
Definition WithTransactionUserID (userID : string) : TransactionOption := λ tx,
  mkTransaction (tx_ID tx) userID (tx_BookingID tx) (tx_EventID tx) (tx_AmountRupiah tx)
    (tx_Currency tx) (tx_Status tx) (tx_Provider tx) (tx_ProviderRef tx) (tx_PaymentLinkURL
    tx) (tx_CustomerEmail tx) (tx_RefundStatus tx) (tx_ExpiresAt tx) (tx_CreatedAt tx)
    (tx_UpdatedAt tx).
Definition WithTransactionBookingID (bookingID : string) : TransactionOption := λ tx,
  mkTransaction (tx_ID tx) (tx_UserID tx) bookingID (tx_EventID tx) (tx_AmountRupiah tx)
    (tx_Currency tx) (tx_Status tx) (tx_Provider tx) (tx_ProviderRef tx) (tx_PaymentLinkURL
    tx) (tx_CustomerEmail tx) (tx_RefundStatus tx) (tx_ExpiresAt tx) (tx_CreatedAt tx)
    (tx_UpdatedAt tx).
Definition WithTransactionAmount (rupiah : Z) : TransactionOption := λ tx,
  mkTransaction (tx_ID tx) (tx_UserID tx) (tx_BookingID tx) (tx_EventID tx) rupiah
    (tx_Currency tx) (tx_Status tx) (tx_Provider tx) (tx_ProviderRef tx) (tx_PaymentLinkURL
    tx) (tx_CustomerEmail tx) (tx_RefundStatus tx) (tx_ExpiresAt tx) (tx_CreatedAt tx)
    (tx_UpdatedAt tx).
Definition WithTransactionCurrency (currency : string) : TransactionOption := λ tx,
  mkTransaction (tx_ID tx) (tx_UserID tx) (tx_BookingID tx) (tx_EventID tx) (tx_AmountRupiah
    tx) currency (tx_Status tx) (tx_Provider tx) (tx_ProviderRef tx) (tx_PaymentLinkURL tx)
    (tx_CustomerEmail tx) (tx_RefundStatus tx) (tx_ExpiresAt tx) (tx_CreatedAt tx)
    (tx_UpdatedAt tx).
Definition WithTransactionStatus (status : string) : TransactionOption := λ tx,
  mkTransaction (tx_ID tx) (tx_UserID tx) (tx_BookingID tx) (tx_EventID tx) (tx_AmountRupiah
    tx) (tx_Currency tx) status (tx_Provider tx) (tx_ProviderRef tx) (tx_PaymentLinkURL tx)
    (tx_CustomerEmail tx) (tx_RefundStatus tx) (tx_ExpiresAt tx) (tx_CreatedAt tx)
    (tx_UpdatedAt tx).
Definition WithTransactionProvider (provider : string) : TransactionOption := λ tx,
  mkTransaction (tx_ID tx) (tx_UserID tx) (tx_BookingID tx) (tx_EventID tx) (tx_AmountRupiah
    tx) (tx_Currency tx) (tx_Status tx) provider (tx_ProviderRef tx) (tx_PaymentLinkURL tx)
    (tx_CustomerEmail tx) (tx_RefundStatus tx) (tx_ExpiresAt tx) (tx_CreatedAt tx)
    (tx_UpdatedAt tx).
Definition WithTransactionProviderRef (ref : string) : TransactionOption := λ tx,
  mkTransaction (tx_ID tx) (tx_UserID tx) (tx_BookingID tx) (tx_EventID tx) (tx_AmountRupiah
    tx) (tx_Currency tx) (tx_Status tx) (tx_Provider tx) ref (tx_PaymentLinkURL tx)
    (tx_CustomerEmail tx) (tx_RefundStatus tx) (tx_ExpiresAt tx) (tx_CreatedAt tx)
    (tx_UpdatedAt tx).
Definition WithTransactionExpiresAt (t : Z) : TransactionOption := λ tx,
  mkTransaction (tx_ID tx) (tx_UserID tx) (tx_BookingID tx) (tx_EventID tx) (tx_AmountRupiah
    tx) (tx_Currency tx) (tx_Status tx) (tx_Provider tx) (tx_ProviderRef tx)
    (tx_PaymentLinkURL tx) (tx_CustomerEmail tx) (tx_RefundStatus tx) (Some t) (tx_CreatedAt
    tx) (tx_UpdatedAt tx).
Definition WithTransactionPaymentLinkURL (url : string) : TransactionOption := λ tx,
  mkTransaction (tx_ID tx) (tx_UserID tx) (tx_BookingID tx) (tx_EventID tx) (tx_AmountRupiah
    tx) (tx_Currency tx) (tx_Status tx) (tx_Provider tx) (tx_ProviderRef tx) url
    (tx_CustomerEmail tx) (tx_RefundStatus tx) (tx_ExpiresAt tx) (tx_CreatedAt tx)
    (tx_UpdatedAt tx).
Definition WithTransactionCustomerEmail (email : string) : TransactionOption := λ tx,
  mkTransaction (tx_ID tx) (tx_UserID tx) (tx_BookingID tx) (tx_EventID tx) (tx_AmountRupiah
    tx) (tx_Currency tx) (tx_Status tx) (tx_Provider tx) (tx_ProviderRef tx)
    (tx_PaymentLinkURL tx) email (tx_RefundStatus tx) (tx_ExpiresAt tx) (tx_CreatedAt tx)
    (tx_UpdatedAt tx).

Definition NewTestTransaction (opts : list TransactionOption) : M Transaction :=
  t ← time_Now;
  let now := Truncate t Second in
  id ← uuid_NewString;
  userID ← uuid_NewString;
  bookingID ← uuid_NewString;
  Ret (apply_options opts
    (mkTransaction id userID bookingID "" 10000 "USD" StatusPending "mock" "" "" "" "" None now now)).
End fixtures.

(** ** What the options do *)

Lemma apply_options_app {A} (l1 l2 : list (A → A)) v :
  apply_options (l1 ++ l2) v = apply_options l2 (apply_options l1 v).
Proof. apply foldl_app. Qed.

(** What every option keeps, the options keep together. *)
Lemma apply_options_keep {A B} (f : A → B) (l : list (A → A)) v :
  Forall (λ o, ∀ v, f (o v) = f v) l → f (apply_options l v) = f v.
Proof.
  intros Hl. revert v. induction Hl as [|o l Ho _ IH]; intros v; [done|].
  cbn. change (foldl _ (o v) l) with (apply_options l (o v)). by rewrite IH, Ho.
Qed.

(** The options of a transaction. *)
Inductive transaction_option : TransactionOption → Prop :=
  | TO_ID id : transaction_option (WithTransactionID id)
  | TO_UserID u : transaction_option (WithTransactionUserID u)
  | TO_BookingID b : transaction_option (WithTransactionBookingID b)
  | TO_Amount n : transaction_option (WithTransactionAmount n)
  | TO_Currency c : transaction_option (WithTransactionCurrency c)
  | TO_Status s : transaction_option (WithTransactionStatus s)
  | TO_Provider p : transaction_option (WithTransactionProvider p)
  | TO_ProviderRef r : transaction_option (WithTransactionProviderRef r)
  | TO_ExpiresAt t : transaction_option (WithTransactionExpiresAt t)
  | TO_PaymentLinkURL u : transaction_option (WithTransactionPaymentLinkURL u)
  | TO_CustomerEmail e : transaction_option (WithTransactionCustomerEmail e).

(** ** What the tables make of the fixtures *)

Section stored.
Context {D : Type} {X : Type → Type} (o : oracle X).

(** The default user is stored in a database that has neither its address nor
    its id; a second one, whose address is the same, is refused. *)
Theorem default_user_stored (d : D) u t (db : AuthDB) :
  exec o (NewTestUser []) d = (d, u) →
  users db !! us_ID u = None → rows (has_email (us_Email u)) (users db) = [] →
  ∃ db' row, insert_user u t db = (db', Ok ()) ∧ users db' !! us_ID u = Some row ∧ us_Role row = RoleCustomer ∧
    ∀ (d2 : D) u2 t2, exec o (NewTestUser []) d2 = (d2, u2) →
      insert_user u2 t2 db' = (db', Err unique_violation).
Proof.
  intros [= <-] Hid Hmail. cbn in Hid, Hmail. unfold insert_user. cbn [us_ID us_Email us_Role us_Name us_PasswordHash].
  rewrite Hid, Hmail. cbn. eexists _, _. split; [reflexivity|]. cbn.
  rewrite lookup_insert_eq. split; [reflexivity|]. split; [done|].
  intros d2 u2 t2 [= <-]. cbn. by rewrite lookup_insert_eq.
Qed.

(** A draft event and a ticket type of it are stored in ticketing. *)
Theorem default_event_stored (d : D) e ty t (db : TicketDB) :
  exec o (NewTestEvent []) d = (d, e) →
  exec o (NewTestTicketType [WithTicketTypeEventID (ev_ID e)]) d = (d, ty) →
  events db !! ev_ID e = None → ticket_types db !! tt_ID ty = None →
  ∃ db1 db2, insert_event e t db = (db1, Ok ()) ∧ insert_ticket_type ty t db1 = (db2, Ok ()) ∧
    tt_Available <$> ticket_types db2 !! tt_ID ty = Some 0.
Proof.
  intros [= <-] [= <-] He Hty. cbn in He, Hty. unfold insert_event. cbn [ev_ID ev_VenueCapacity ev_Status].
  rewrite He. cbn. eexists _, _. split; [reflexivity|]. unfold insert_ticket_type. cbn. rewrite Hty.
  rewrite lookup_insert_eq. cbn. split; [reflexivity|]. cbn. by rewrite lookup_insert_eq.
Qed.

(** The default booking is refused by the tables, with nothing stored: its item
    names another booking.  With the items replaced by ones that name it, it is
    stored. *)
Theorem default_booking_refused (d : D) b t (db : TicketDB) :
  exec o (NewTestBooking []) d = (d, b) → o_uuid o 1 ≠ o_uuid o 6 →
  bookings db !! o_uuid o 6 = None →
  (∃ err, create_booking b t db = (db, Err err)) ∧
  ∀ b' item, exec o (NewTestBooking [WithBookingItems [WithBookingItemBookingID (bk_ID b) item]]) d = (d, b') →
    bookings db !! bk_ID b' = None → is_Some (events db !! bk_EventID b') →
    booking_items db !! bi_ID item = None → in_int4 (bi_Quantity item) →
    item_check (item_row item) = true → ∃ db', create_booking b' t db = (db', Ok ()).
Proof.
  intros [= <-] Hne Hno. split.
  - unfold create_booking, transaction. cbn -[insert_booking insert_item].
    destruct (insert_booking _ db) as [d1|err] eqn:Hb; cbn -[insert_booking insert_item]; [|by eexists].
    assert (bookings d1 !! o_uuid o 6 = None) as Hno1.
    { unfold insert_booking in Hb. repeat case_match; try discriminate. injection Hb as <-. cbn.
      by rewrite lookup_insert_ne. }
    destruct (insert_item _ d1) as [d2|err] eqn:Hi; cbn -[insert_item]; [exfalso|by eexists].
    unfold insert_item in Hi. cbn in Hi. rewrite Hno1 in Hi.
    repeat case_match; discriminate.
  - intros b' item [= <-] Hb Hev Hit Hq Hck. cbn in Hb, Hev. unfold create_booking, transaction.
    cbn -[insert_booking insert_item]. unfold insert_booking at 1.
    match goal with |- context [booking_check ?b] => replace (booking_check b) with true by done end.
    cbn -[insert_item]. rewrite Hb, (bool_decide_eq_true_2 _ Hev). cbn -[insert_item].
    unfold insert_item. cbn [ir_quantity item_row WithBookingItemBookingID].
    rewrite (bool_decide_eq_true_2 _ Hq). cbn [negb].
    change (item_check (item_row (WithBookingItemBookingID (o_uuid o 1) item))) with (item_check (item_row item)).
    rewrite Hck. cbn. rewrite Hit, lookup_insert_eq. by eexists.
Qed.

(** No options make a transaction of the fixtures that the table accepts: none
    sets the refund status, and the empty one is not allowed. *)
Theorem fixture_transaction_refused opts (d : D) txn now (db : PayDB) :
  Forall transaction_option opts → exec o (NewTestTransaction opts) d = (d, txn) →
  insert_txn txn now db = (db, Err check_violation).
Proof.
  intros Hopts [= <-]. unfold insert_txn, txn_check. cbn [txn_row tx_RefundStatus].
  rewrite (apply_options_keep tx_RefundStatus); [|by eapply Forall_impl; [exact Hopts|]; destruct 1].
  cbn [tx_RefundStatus]. by rewrite andb_false_r.
Qed.
End stored.
