(* ===== verification/AuthSpec.v ===== *)
(** * Accounts and tokens: what the auth service guarantees

    Accounts under every interleaving of requests, the way from registration
    to the user context of a request behind the gateway, and the rotation of
    refresh tokens. *)
From S2P Require Import Prelude Effects Json Dto Outbox Sha256 AuthDB Auth AuthHandler AuthSamples.

(** ** Accounts *)

Definition emails_unique (d : AuthDB) : Prop :=
  ∀ k k' u u', users d !! k = Some u → users d !! k' = Some u' →
    us_Email u = us_Email u' → k = k'.

(** Accounts stay as they are, and a new one is a customer or an organizer. *)
Definition accounts_kept (d d' : AuthDB) : Prop :=
  users d ⊆ users d' ∧
  (∀ k u, users d' !! k = Some u → users d !! k = None →
     us_Role u = RoleCustomer ∨ us_Role u = RoleEO) ∧
  (emails_unique d → emails_unique d').

#[export] Instance accounts_kept_preorder : PreOrder accounts_kept.
Proof.
  split.
  - intros d. split_and!; [done|congruence|done].
  - intros d1 d2 d3 (S1 & N1 & E1) (S2 & N2 & E2). split_and!; [by etrans| |auto].
    intros k u Hu Hnone. destruct (users d2 !! k) as [u2|] eqn:H2; [|by eapply N2].
    pose proof (lookup_weaken _ _ _ _ H2 S2) as Hu2. simplify_eq. by eapply N1.
Qed.

Lemma accounts_kept_same d d' : users d' = users d → accounts_kept d d'.
Proof.
  intros Hu. unfold accounts_kept, emails_unique. rewrite Hu.
  split_and!; [done|congruence|done].
Qed.

Lemma insert_user_kept u t d :
  us_Role u = RoleCustomer ∨ us_Role u = RoleEO → accounts_kept d (insert_user u t d).1.
Proof.
  intros Hrole. unfold insert_user. destruct (negb _); [done|].
  destruct (bool_decide _ || negb _) eqn:Hdup; [done|]. cbn.
  apply orb_false_iff in Hdup as [Hid Hem]. bool_cases. apply eq_None_not_Some in Hid.
  split_and!; cbn.
  - by apply insert_subseteq.
  - intros k u' [[<- <-]|[_ ?]]%lookup_insert_Some; [done|congruence].
  - assert (∀ k v, users d !! k = Some v → us_Email v ≠ us_Email u) as Hfresh.
    { intros k v Hv He. assert (v ∈ rows (has_email (us_Email u)) (users d)) as Hin;
        [|rewrite Hem in Hin; set_solver].
      apply elem_of_rows. exists k. split; [done|]. by apply bool_decide_eq_true. }
    intros Hu k k' v v' Hk Hk' Heq. cbn in Hk, Hk'. revert Hk Hk' Heq.
    intros [[<- <-]|[_ Hv]]%lookup_insert_Some
      [[<- <-]|[_ Hv']]%lookup_insert_Some Heq;
      cbn in *; [done| | |by eapply Hu].
    + by destruct (Hfresh k' v').
    + by destruct (Hfresh k v).
Qed.

Lemma insert_token_kept rt t d : accounts_kept d (insert_token rt t d).1.
Proof.
  apply accounts_kept_same. unfold insert_token. by repeat case_bool_decide.
Qed.

Lemma delete_tokens_kept P t d : accounts_kept d (delete_tokens P t d).1.
Proof. by apply accounts_kept_same. Qed.

Lemma insert_new_user_kept id email hash name role t d :
  role = RoleCustomer ∨ role = RoleEO →
  accounts_kept d (insert_user (new_user id email hash name role) t d).1.
Proof. apply (insert_user_kept (new_user id email hash name role)). Qed.

Lemma query_kept {A} (f : AuthDB → res A) t d : accounts_kept d (query f t d).1.
Proof. done. Qed.

#[local] Hint Resolve insert_new_user_kept query_kept insert_token_kept delete_tokens_kept : ticket.

(** Requests to any route. *)
Inductive auth_entry `{!JWT, !Bcrypt, !Validator} (s : AuthService) : aprog unit → Prop :=
  | AE_request method pattern h r :
      (method, pattern, h) ∈ AuthHandler_Routes s → auth_entry s (discard (h r)).

Section accounts.
Context `{!JWT, !Bcrypt, !Validator}.
Local Abbreviation ag := (guards (X := authE) accounts_kept).

Lemma ag_Register email password name role :
  role = RoleCustomer ∨ role = RoleEO → ag (Register email password name role).
Proof.
  intros Hrole. unfold Register, UserRepo_FindByEmail, Hasher_Hash, UserRepo_Create.
  guards_solve.
Qed.

Lemma ag_VerifyToken s tok : ag (VerifyToken s tok).
Proof. unfold VerifyToken, VerifyAccessToken. guards_solve. Qed.

Lemma ag_routes `{!ValidatorLaws} s method pattern h r :
  (method, pattern, h) ∈ AuthHandler_Routes s → ag (h r).
Proof.
  intros Hin. unfold AuthHandler_Routes in Hin.
  repeat (apply elem_of_cons in Hin as [[= -> -> ->]|Hin]); [..|by apply elem_of_nil in Hin].
  - unfold AuthHandler_Register. destruct (Decode _ _) as [req|e]; [|done].
    destruct (validate_Struct _) eqn:Hv; [done|].
    apply guards_bind; [|done]. apply ag_Register.
    destruct (oneof_holds _ "Role" (rr_Role req) Hv) as [->| ->]; [set_solver|by left|by right].
  - unfold AuthHandler_RegisterOrganizer. destruct (Decode _ _) as [req|e]; [|done].
    destruct (validate_Struct _); [done|].
    apply guards_bind; [|done]. apply ag_Register. by right.
  - unfold AuthHandler_Login, Login, UserRepo_FindByEmail. destruct (Decode _ _) as [req|e]; [|done].
    destruct (validate_Struct _); [done|].
    apply guards_bind; [|done]. guards_solve.
  - unfold AuthHandler_Refresh, AuthService_RefreshToken. destruct (Decode _ _) as [req|e]; [|done].
    destruct (validate_Struct _); [done|].
    apply guards_bind; [|done].
    unfold RefreshTokenRepo_FindByHash, RefreshTokenRepo_DeleteByHash, UserRepo_FindByID.
    guards_solve.
  - unfold AuthHandler_Verify. repeat case_match; try done.
    apply guards_bind; [apply ag_VerifyToken|done].
  - unfold WithUserContext, BearerAuth. case_match; [|case_match; [|done]].
    + unfold AuthHandler_Me, GetMe, UserRepo_FindByID. guards_solve.
    + apply guards_bind; [apply ag_VerifyToken|]. intros [c|e]; [|done].
      unfold AuthHandler_Me, GetMe, UserRepo_FindByID. guards_solve.
Qed.
End accounts.

(** C24. Accounts under every interleaving of requests to the auth service,
    with any failing statement and any answer of the libraries: no account is
    changed or removed, no two share an email, and nobody becomes an
    administrator through the HTTP interface. *)
Theorem accounts_safe `{!JWT, !Bcrypt, !Validator, !ValidatorLaws} (s : AuthService)
    (d0 d : AuthDB) :
  emails_unique d0 → reachable (any_env authE) (auth_entry s) d0 d →
  users d0 ⊆ users d ∧ emails_unique d ∧
  ∀ k u, users d !! k = Some u → us_Role u = RoleAdmin → users d0 !! k = Some u.
Proof.
  intros Hu Hreach. eapply (reachable_guards accounts_kept) in Hreach as (Hsub & Hnew & He).
  - split_and!; [done|auto|]. intros k u Hk Hadm.
    destruct (users d0 !! k) as [u0|] eqn:Hold.
    + pose proof (lookup_weaken _ _ _ _ Hold Hsub). congruence.
    + destruct (Hnew k u Hk Hold) as [Hr|Hr]; rewrite Hr in Hadm; discriminate.
  - intros p [method pattern h r Hin]. unfold discard. apply guards_bind; [|done].
    by eapply ag_routes.
Qed.

Definition json_request (fields : list (string * json)) : request :=
  mkRequest background (λ _, "") (λ _, "") (λ _, "") (Some (JObj fields)).
Definition register_ben : request :=
  json_request [("email", JStr "ben@mail"); ("password", JStr "longenough");
                ("name", JStr "Ben"); ("role", JStr "eo")].

Section samples.
#[local] Existing Instances sample_jwt sample_bcrypt sample_validator sample_validator_laws.

Lemma accounts_safe_witness : ∃ d,
  reachable (any_env authE) (auth_entry sample_auth) sample_auth_db d ∧
  us_Role <$> users d !! "id-2" = Some RoleEO ∧
  users sample_auth_db ⊆ users d ∧ emails_unique d ∧
  ∀ k u, users d !! k = Some u → us_Role u = RoleAdmin → users sample_auth_db !! k = Some u.
Proof.
  exists (run auth_oracle (discard (AuthHandler_Register register_ben)) 0 sample_auth_db).1.2.
  assert (reachable (any_env authE) (auth_entry sample_auth) sample_auth_db
    (run auth_oracle (discard (AuthHandler_Register register_ben)) 0 sample_auth_db).1.2) as Hreach.
  { apply reachable_run; [by split| |exists []; apply rtc_refl].
    apply (AE_request _ "POST" "/api/auth/register"). left. }
  split; [exact Hreach|]. split; [vm_compute; reflexivity|].
  apply (accounts_safe sample_auth); [|exact Hreach].
  intros k k' u u' Hk Hk' _. cbn [users sample_auth_db] in Hk, Hk'.
  apply lookup_singleton_Some in Hk as [<- _], Hk' as [<- _]. done.
Defined.
End samples.

(** ** From registration to the request behind the gateway *)

(** What [Register] has done when it returns a user. *)
Definition registered_as (email hash name : string) (role : Role) (d d' : AuthDB) (u : User) : Prop :=
  ∃ t, let row := mkUser (us_ID u) email hash name role t t in
  u = new_user (us_ID u) email hash name role ∧
  users d !! us_ID u = None ∧ rows (has_email email) (users d) = [] ∧
  d' = set_users (<[us_ID u := row]> (users d)) d.

Lemma insert_user_ok u t d d' :
  insert_user u t d = (d', Ok ()) →
  users d !! us_ID u = None ∧ rows (has_email (us_Email u)) (users d) = [] ∧
  d' = set_users (<[us_ID u := mkUser (us_ID u) (us_Email u) (us_PasswordHash u) (us_Name u)
                     (us_Role u) t t]> (users d)) d.
Proof.
  unfold insert_user. destruct (negb _); [done|].
  destruct (bool_decide _ || negb _) eqn:Hdup; [done|]. intros [= <-].
  apply orb_false_iff in Hdup as [Hid Hem]. bool_cases. by apply eq_None_not_Some in Hid.
Qed.

Section login.
Context `{!JWT, !Bcrypt} (s : AuthService).
Implicit Types (o : oracle authE).

(** The hasher answers with hashes that verify. *)
Definition hashes_verify o : Prop := ∀ n password hash,
  o_ext o n _ (GenerateFromPassword password) = Ok hash →
  CompareHashAndPassword hash password = Ok ().

(** The random source and the signer work. *)
Definition tokens_available o : Prop :=
  (∀ n k, ∃ b, o_ext o n _ (RandRead k) = Ok b) ∧
  ∀ claims, ∃ tok, SignedString (ts_privateKey (as_tokenSvc s)) claims = Ok tok.

Lemma runs_Register o email password name role d :
  runs o (Register email password name role) 0 d (λ _ d' r,
    match r with
    | Ok u => ∃ n hash, o_ext o n _ (GenerateFromPassword password) = Ok hash ∧
                registered_as email hash name role d d' u
    | Err _ => True
    end).
Proof.
  unfold Register, UserRepo_FindByEmail, Hasher_Hash, UserRepo_Create.
  apply runs_bind, runs_bind.
  assert (∀ (existing : res User) n, runs o (if is_ok existing then Ret (Err ErrUserExists) else
      passwordHash ←? call (GenerateFromPassword password);
      id ← uuid_NewString;
      _ ←? sql (insert_user (new_user id email passwordHash name role));
      Ret (Ok (new_user id email passwordHash name role))) n d (λ _ d' r,
    match r with
    | Ok u => ∃ n hash, o_ext o n _ (GenerateFromPassword password) = Ok hash ∧
                registered_as email hash name role d d' u
    | Err _ => True
    end)) as Htail.
  { intros existing n. destruct (is_ok existing); [done|].
    apply runs_bind, runs_call. destruct (o_ext o n _ _) as [hash|e] eqn:Hhash; [|done].
    apply runs_bind, runs_uuid, runs_bind, runs_sql; [|done|done].
    destruct (insert_user _ _ _) as [d' [[]|e]] eqn:Hins; [|done]. cbn.
    apply insert_user_ok in Hins as (Hid & Hem & ->).
    exists n, hash. split; [done|]. exists (o_now o (S (S n))). by split_and!. }
  apply runs_query; [done|..]; intros; apply runs_ret, Htail.
Qed.

(** The one account with an email is the row registered under it. *)
Lemma registered_found email hash name role d d' u :
  registered_as email hash name role d d' u →
  ∃ t, head (rows (has_email email) (users d')) = Some (mkUser (us_ID u) email hash name role t t) ∧
    users d' !! us_ID u = Some (mkUser (us_ID u) email hash name role t t).
Proof.
  intros (t & _ & Hid & Hem & ->). exists t. cbn. split; [|apply lookup_insert_eq].
  pose proof (rows_insert (has_email email) (users d) (us_ID u)
    (mkUser (us_ID u) email hash name role t t) Hid) as Hp.
  rewrite Hem, app_nil_r in Hp. unfold has_email in Hp at 2.
  cbn [us_Email] in Hp. rewrite bool_decide_eq_true_2 in Hp by done.
  apply Permutation_singleton_r in Hp. by rewrite Hp.
Qed.

(** The pair issued for a user: the access token signs his claims, the refresh
    token is stored by its hash with its deadline; nothing else changes. *)
Definition issued (o : oracle authE) (user : User) (d d' : AuthDB) (tp : TokenPair) : Prop :=
  ∃ n1 n2 n3 id t,
  SignedString (ts_privateKey (as_tokenSvc s))
    (access_claims (mkClaims (us_ID user) (us_Email user) (us_Role user))
       (unix (o_now o n1 + ts_jwtTTL (as_tokenSvc s))) (unix (o_now o n2))) = Ok (tp_AccessToken tp) ∧
  refresh_tokens d !! id = None ∧
  d' = set_tokens (<[id := mkRefreshToken id (us_ID user) (HashRefreshToken (tp_RefreshToken tp))
         (pg_timestamp (o_now o n3 + as_RefreshTokenTTL s)) t]> (refresh_tokens d)) d.

Lemma insert_token_ok rt t d d' :
  insert_token rt t d = (d', Ok ()) →
  refresh_tokens d !! rt_ID rt = None ∧
  d' = set_tokens (<[rt_ID rt := mkRefreshToken (rt_ID rt) (rt_UserID rt) (rt_TokenHash rt)
         (pg_timestamp (rt_ExpiresAt rt)) t]> (refresh_tokens d)) d.
Proof.
  unfold insert_token. case_bool_decide as Hid; [done|]. case_bool_decide; [|done].
  intros [= <-]. by apply eq_None_not_Some in Hid.
Qed.

Lemma runs_issuePair o user n d (Φ : nat → AuthDB → res TokenPair → Prop) :
  (∀ n' d' tp, issued o user d d' tp → Φ n' d' (Ok tp)) →
  (∀ n' d' e, Φ n' d' (Err e)) →
  runs o (issuePair s user) n d Φ.
Proof.
  intros Hok Herr. unfold issuePair, GenerateAccessToken, GenerateRefreshToken, RefreshTokenRepo_Create.
  apply runs_bind, runs_bind, runs_now, runs_bind, runs_now.
  destruct (SignedString _ _) as [tok|e] eqn:Hsig; [|apply runs_ret, Herr].
  apply runs_ret, runs_bind, runs_bind, runs_call.
  destruct (o_ext o _ _ _) as [b|e]; [|apply runs_ret, Herr].
  apply runs_ret, runs_bind, runs_uuid, runs_bind, runs_now, runs_bind, runs_sql;
    [|intros; apply Herr|intros; apply Herr].
  destruct (insert_token _ _ _) as [d' [[]|e]] eqn:Hins; [|apply Herr]. cbn.
  apply insert_token_ok in Hins as [Hid ->]. apply Hok. cbn in *. by repeat eexists.
Qed.

Lemma runs_issuePair_total o user n d :
  faultless o → tokens_available o → (∀ n, refresh_tokens d !! o_uuid o n = None) →
  is_Some (users d !! us_ID user) →
  runs o (issuePair s user) n d (λ _ d' r, ∃ tp, r = Ok tp ∧ issued o user d d' tp).
Proof.
  intros Hcalm [Hrand Hsign] Hfresh Huser.
  unfold issuePair, GenerateAccessToken, GenerateRefreshToken, RefreshTokenRepo_Create.
  apply runs_bind, runs_bind, runs_now, runs_bind, runs_now.
  destruct (Hsign (access_claims (mkClaims (us_ID user) (us_Email user) (us_Role user))
    (unix (o_now o n + ts_jwtTTL (as_tokenSvc s))) (unix (o_now o (S n))))) as [tok Hsig].
  rewrite Hsig. apply runs_ret, runs_bind, runs_bind, runs_call.
  destruct (Hrand (S (S n)) 32%nat) as [b ->].
  apply runs_ret, runs_bind, runs_uuid, runs_bind, runs_now, runs_bind, runs_sql_calm; [done|].
  assert (∀ rt t, rt_UserID rt = us_ID user → refresh_tokens d !! rt_ID rt = None →
    (insert_token rt t d).2 = Ok ()) as Hins.
  { intros rt t Hu Hid. unfold insert_token.
    rewrite Hid, Hu, bool_decide_eq_false_2, bool_decide_eq_true_2 by (done || by intros []).
    done. }
  destruct (insert_token _ _ _) as [d' r] eqn:Heq.
  assert (r = Ok ()) as ->.
  { change r with (d', r).2. rewrite <- Heq. apply Hins; [done|apply Hfresh]. }
  apply insert_token_ok in Heq as [Hid ->]. apply runs_ret. eexists. split; [done|]. cbn in *.
  exists n, (S n), (S (S (S (S n)))). by eexists _, _.
Qed.

Lemma runs_Login o email password d user :
  faultless o → tokens_available o → (∀ n, refresh_tokens d !! o_uuid o n = None) →
  head (rows (has_email email) (users d)) = Some user → users d !! us_ID user = Some user →
  CompareHashAndPassword (us_PasswordHash user) password = Ok () →
  runs o (Login s email password) 0 d (λ _ d' r, ∃ tp, r = Ok tp ∧ issued o user d d' tp).
Proof.
  intros Hcalm Hav Hfresh Hhead Huser Hcmp. unfold Login, UserRepo_FindByEmail.
  apply runs_bind, runs_bind, runs_sql_calm; [done|]. cbn [fst snd query].
  rewrite Hhead. apply runs_ret. cbn [wrap_error row_or_error]. unfold Hasher_Verify.
  rewrite Hcmp. by apply runs_issuePair_total.
Qed.

(** The claims of an issued access token come back from verification. *)
Lemma runs_VerifyToken o o' user d d' tp n (d1 : AuthDB) (Φ : nat → AuthDB → res Claims → Prop) :
  jwt_verifies (ts_privateKey (as_tokenSvc s)) (ts_publicKey (as_tokenSvc s)) →
  issued o user d d' tp →
  (∀ n n', o_now o' n' < rfc3339 (o_now o n + ts_jwtTTL (as_tokenSvc s))) →
  Φ (S n) d1 (Ok (mkClaims (us_ID user) (us_Email user) (us_Role user))) →
  runs o' (VerifyToken s (tp_AccessToken tp)) n d1 Φ.
Proof.
  intros Hjwt (n1 & n2 & n3 & id & t & Hsig & _) Hnow HΦ.
  unfold VerifyToken, VerifyAccessToken. apply runs_bind, runs_now.
  erewrite Hjwt; [|exact Hsig|reflexivity|apply Hnow|reflexivity].
  apply runs_ret. exact HΦ.
Qed.
End login.

(** What the gateway sends on after [Verify] has answered: the request with the
    three headers of the answer ([authResponseHeaders] of its configuration). *)
Definition forwarded (r : request) (userID : string) (role : Role) (email : string) : request :=
  mkRequest (r_ctx r)
    (λ h, if bool_decide (h = "X-Authenticated-User-ID") then userID
          else if bool_decide (h = "X-Authenticated-User-Role") then role
          else if bool_decide (h = "X-Authenticated-User-Email") then email
          else r_header r h)
    (r_param r) (r_query r) (r_body r).

(** The user context a handler behind [WithUserContext] sees. *)
Definition user_context (r : request) : string * Role * string :=
  WithUserContext (λ r', (UserIDFromContext (r_ctx r'), UserRoleFromContext (r_ctx r'),
    UserEmailFromContext (r_ctx r'))) r.

Lemma user_context_forwarded r userID role email :
  r_ctx r = background → user_context (forwarded r userID role email) = (userID, role, email).
Proof.
  intros Hr. unfold user_context, WithUserContext, forwarded. cbn. rewrite Hr. cbn.
  unfold UserIDFromContext, UserRoleFromContext, UserEmailFromContext. cbn.
  by rewrite !default_nonempty.
Qed.

Lemma bearer_token tok : bearer ("Bearer " +:+ tok) = Some tok.
Proof. reflexivity. Qed.

(** C25. The way of a user into the system: after a successful registration,
    logging in with the same password on a working database succeeds, and until
    the access token expires the gateway's check of it, on any state of the
    database, answers with the id, role and email of the registered account,
    which are then the user context of every handler behind the gateway. *)
Theorem register_then_login `{!JWT, !Bcrypt} (s : AuthService) (o o' o'' : oracle authE)
    email password name role d d' u r (d1 : AuthDB) :
  hashes_verify o → exec o (Register email password name role) d = (d', Ok u) →
  faultless o' → tokens_available s o' → (∀ n, refresh_tokens d' !! o_uuid o' n = None) →
  jwt_verifies (ts_privateKey (as_tokenSvc s)) (ts_publicKey (as_tokenSvc s)) →
  (∀ n n', o_now o'' n' < rfc3339 (o_now o' n + ts_jwtTTL (as_tokenSvc s))) →
  r_ctx r = background →
  ∃ d'' tp, exec o' (Login s email password) d' = (d'', Ok tp) ∧
    (r_header r "Authorization" = "Bearer " +:+ tp_AccessToken tp →
     exec o'' (AuthHandler_Verify s r) d1 = (d1, OK (DForward (us_ID u) role email)) ∧
     user_context (forwarded r (us_ID u) role email) = (us_ID u, role, email)).
Proof.
  intros Hhash Hreg Hcalm Hav Hfresh Hjwt Hnow Hctx.
  destruct (runs_exec o _ _ _ _ _ (runs_Register o email password name role d) Hreg)
    as (n & hash & Hgen & Has).
  destruct (registered_found _ _ _ _ _ _ _ Has) as (t & Hhead & Hrow).
  destruct (exec_ok o' (Login s email password) d' _
    (runs_Login s o' email password d' _ Hcalm Hav Hfresh Hhead Hrow (Hhash _ _ _ Hgen)))
    as (d'' & tp & Hlogin & Hiss).
  exists d'', tp. split; [done|]. intros Hhdr. split; [|by apply user_context_forwarded].
  apply exec_eq. unfold AuthHandler_Verify. rewrite Hhdr, bearer_token.
  rewrite bool_decide_eq_false_2 by done. apply runs_bind.
  by eapply runs_VerifyToken.
Qed.

(** ** Rotation of refresh tokens *)

Definition drop_hash (hash : string) (d : AuthDB) : AuthDB :=
  set_tokens (filter (λ kt, has_hash hash kt.2 = false) (refresh_tokens d)) d.

Lemma rows_drop_hash hash d : rows (has_hash hash) (refresh_tokens (drop_hash hash d)) = [].
Proof.
  apply elem_of_nil_inv. intros t (k & Hk & Ht)%elem_of_rows.
  apply map_lookup_filter_Some in Hk as [_ Hk]. cbn in Hk. congruence.
Qed.

Section rotation.
Context `{!JWT} (s : AuthService).

(** What a successful refresh has done. *)
Definition rotated (o : oracle authE) (raw : string) (d d' : AuthDB) (tp : TokenPair) : Prop :=
  ∃ n k stored user,
  refresh_tokens d !! k = Some stored ∧ rt_TokenHash stored = HashRefreshToken raw ∧
  o_now o n ≤ rt_ExpiresAt stored ∧ users d !! rt_UserID stored = Some user ∧
  issued s o user (drop_hash (HashRefreshToken raw) d) d' tp.

Lemma runs_RefreshToken o raw d :
  runs o (AuthService_RefreshToken s raw) 0 d (λ _ d' r,
    match r with Ok tp => rotated o raw d d' tp | Err _ => True end).
Proof.
  unfold AuthService_RefreshToken, RefreshTokenRepo_FindByHash.
  apply runs_bind, runs_bind, runs_query; [done| |by intros e].
  cbn [fst snd query]. destruct (head _) as [stored|] eqn:Hhead; [|done].
  cbn [row_or_error wrap_error]. apply runs_ret, runs_bind, runs_now.
  case_bool_decide as Hexp; [done|]. unfold UserRepo_FindByID.
  apply runs_bind, runs_bind, runs_query; [done| |by intros e]. cbn [fst snd query].
  destruct (users d !! rt_UserID stored) as [user|] eqn:Huser; [|done].
  cbn [row_or_error wrap_error]. apply runs_ret. unfold RefreshTokenRepo_DeleteByHash.
  apply runs_bind, runs_sql; [|done|done]. cbn [fst snd delete_tokens].
  apply runs_issuePair; [|done]. intros n' d' tp Hiss.
  apply head_Some_elem_of, elem_of_rows in Hhead as (k & Hk & Hh).
  apply bool_decide_eq_true in Hh.
  exists 1%nat, k, stored, user. split_and!; [done|done|lia|done|exact Hiss].
Qed.

(** A hash no stored token has. *)
Lemma exec_unknown_token (o : oracle authE) raw d :
  rows (has_hash (HashRefreshToken raw)) (refresh_tokens d) = [] →
  exec o (AuthService_RefreshToken s raw) d = (d, Err ErrTokenNotFound).
Proof.
  intros Hnone. apply exec_eq. unfold AuthService_RefreshToken, RefreshTokenRepo_FindByHash.
  apply runs_bind, runs_bind, runs_query; [done| |by intros e].
  cbn [fst snd query]. by rewrite Hnone.
Qed.

Lemma rotated_gone o raw d d' tp :
  rotated o raw d d' tp → HashRefreshToken (tp_RefreshToken tp) ≠ HashRefreshToken raw →
  rows (has_hash (HashRefreshToken raw)) (refresh_tokens d') = [].
Proof.
  intros (n & k & stored & user & _ & _ & _ & _ & n1 & n2 & n3 & id & t & _ & Hid & ->) Hne.
  cbn [refresh_tokens set_tokens].
  apply Permutation_nil_r. rewrite rows_insert by done. unfold has_hash at 1. cbn.
  rewrite bool_decide_eq_false_2 by done.
  pose proof (rows_drop_hash (HashRefreshToken raw) d) as Hdrop. cbn in Hdrop. by rewrite Hdrop.
Qed.
End rotation.

(** C26. Rotation: a successful refresh was made with a stored, unexpired token
    of an existing user; it removed that token, issued a pair whose access
    token signs the user's claims and whose refresh token is stored by its
    hash, and changed nothing else.  Unless the hashes collide, the old token
    is refused from then on, without effect. *)
Theorem refresh_rotates `{!JWT} (s : AuthService) (o o' : oracle authE) raw d d' tp :
  exec o (AuthService_RefreshToken s raw) d = (d', Ok tp) →
  rotated s o raw d d' tp ∧
  (HashRefreshToken (tp_RefreshToken tp) ≠ HashRefreshToken raw →
   exec o' (AuthService_RefreshToken s raw) d' = (d', Err ErrTokenNotFound)).
Proof.
  intros Hex. pose proof (runs_exec o _ _ _ _ _ (runs_RefreshToken s o raw d) Hex) as Hrot.
  split; [done|]. intros Hne. apply exec_unknown_token. exact (rotated_gone s o raw d d' tp Hrot Hne).
Qed.

(** ** Samples *)

Section samples.
#[local] Existing Instances sample_jwt sample_bcrypt.

Definition empty_auth_db : AuthDB := mkAuthDB ∅ ∅.
Definition registered_db : AuthDB :=
  (exec auth_oracle (Register "ana@mail" "secret" "Ana" RoleCustomer) empty_auth_db).1.
(** A request that carries the access token of a login. *)
Definition ana_request : request :=
  mkRequest background
    (λ _, match (exec auth_oracle (Login sample_auth "ana@mail" "secret") registered_db).2 with
          | Ok tp => "Bearer " +:+ tp_AccessToken tp
          | Err _ => ""
          end) (λ _, "") (λ _, "") None.

Lemma register_then_login_witness : ∃ d'' tp,
  exec auth_oracle (Login sample_auth "ana@mail" "secret") registered_db = (d'', Ok tp) ∧
  exec auth_oracle (AuthHandler_Verify sample_auth ana_request) d'' =
    (d'', OK (DForward "id-2" RoleCustomer "ana@mail")) ∧
  user_context (forwarded ana_request "id-2" RoleCustomer "ana@mail") =
    ("id-2", RoleCustomer, "ana@mail").
Proof.
  set (d1 := (exec auth_oracle (Login sample_auth "ana@mail" "secret") registered_db).1).
  destruct (register_then_login sample_auth auth_oracle auth_oracle auth_oracle
    "ana@mail" "secret" "Ana" RoleCustomer empty_auth_db registered_db
    (new_user "id-2" "ana@mail" "$2a$secret" "Ana" RoleCustomer) ana_request d1)
    as (d'' & tp & Hlogin & Hgate).
  - intros n password hash [= <-]. unfold CompareHashAndPassword, sample_bcrypt.
    by rewrite bool_decide_eq_true_2.
  - vm_compute. reflexivity.
  - done.
  - split; [by eexists|]. intros claims. by eexists.
  - done.
  - apply sample_jwt_verifies.
  - intros n n'. vm_compute. done.
  - done.
  - exists d'', tp. split; [exact Hlogin|].
    assert (d1 = d'') as <- by (unfold d1; by rewrite Hlogin).
    apply Hgate. unfold ana_request. cbn [r_header]. by rewrite Hlogin.
Defined.

Definition rotated_db : AuthDB :=
  (exec auth_oracle (AuthService_RefreshToken sample_auth "raw") sample_auth_db).1.

(** The refresh succeeds, with a token of another hash. *)
Lemma rotation_fresh :
  match (exec auth_oracle (AuthService_RefreshToken sample_auth "raw") sample_auth_db).2 with
  | Ok tp => negb (String.eqb (HashRefreshToken (tp_RefreshToken tp)) (HashRefreshToken "raw"))
  | Err _ => false
  end = true.
Proof. vm_compute. reflexivity. Qed.

Lemma refresh_rotates_witness : ∃ tp,
  exec auth_oracle (AuthService_RefreshToken sample_auth "raw") sample_auth_db =
    (rotated_db, Ok tp) ∧
  rotated sample_auth auth_oracle "raw" sample_auth_db rotated_db tp ∧
  exec auth_oracle (AuthService_RefreshToken sample_auth "raw") rotated_db =
    (rotated_db, Err ErrTokenNotFound).
Proof.
  pose proof rotation_fresh as Hfresh.
  destruct (exec auth_oracle (AuthService_RefreshToken sample_auth "raw") sample_auth_db)
    as [d' r] eqn:Hex.
  assert (rotated_db = d') as -> by (unfold rotated_db; by rewrite Hex).
  destruct r as [tp|e]; [|discriminate]. apply negb_true_iff, String.eqb_neq in Hfresh.
  destruct (refresh_rotates sample_auth auth_oracle auth_oracle "raw" sample_auth_db d' tp Hex)
    as [Hrot Hgone].
  exists tp. auto.
Defined.

(** Two refreshes with one token, each having read it before either deletes. *)
Definition reused_db : AuthDB :=
  (schedule auth_oracle ([0; 1] ++ replicate 10 0 ++ replicate 10 1)%nat 0
     [discard (AuthService_RefreshToken sample_auth "raw");
      discard (AuthService_RefreshToken sample_auth "raw")] sample_auth_db).2.

(** A refresh token is not good for one use only: two requests that
    present it at the same time both succeed, and its owner ends up with two
    live sessions where there was one. *)
Theorem refresh_reused :
  reachable (any_env authE) (λ p, p = discard (AuthService_RefreshToken sample_auth "raw"))
    sample_auth_db reused_db ∧
  size (refresh_tokens sample_auth_db) = 1%nat ∧ size (refresh_tokens reused_db) = 2%nat ∧
  rows (has_hash (HashRefreshToken "raw")) (refresh_tokens reused_db) = [].
Proof.
  split; [|vm_compute; done].
  apply schedule_reachable; [by split|]. by repeat constructor.
Qed.
End samples.

(** ** The published key *)

(** The key [PublicKeyPEM] prints is the one that checks the tokens: a service
    made from the printed text, with whatever private key and lifetime, verifies
    every token exactly as the service that printed it. *)
Theorem public_key_verifies `{!JWT, !PublicKeyText} (s : TokenService) text privateKeyPEM priv ttl :
  prints_keys → PublicKeyPEM s = Ok text →
  privateKeyPEM ≠ "" → ParseRSAPrivateKeyFromPEM privateKeyPEM = Ok priv →
  ∃ s', NewTokenService privateKeyPEM text ttl = Ok s' ∧
    ∀ (o : oracle authE) tok d, exec o (VerifyAccessToken s' tok) d = exec o (VerifyAccessToken s tok) d.
Proof.
  intros Hlaw Htext Hne Hpriv. unfold PublicKeyPEM in Htext.
  destruct (MarshalPKIXPublicKey _) as [bytes|e] eqn:Hb; [|done]. injection Htext as <-.
  destruct (Hlaw _ _ Hb) as [Hne' Hparse]. unfold NewTokenService.
  rewrite !bool_decide_eq_false_2, Hpriv, Hparse by done. by eexists.
Qed.

#[local] Existing Instance sample_jwt.
#[local] Instance sample_key_text : @PublicKeyText sample_jwt :=
  {| MarshalPKIXPublicKey _ := Ok "key"; EncodeToMemory ty bytes := ty +:+ bytes |}.

Lemma public_key_verifies_witness : ∃ s',
  NewTokenService "private" "PUBLIC KEYkey" Hour = Ok s' ∧
  ∀ (o : oracle authE) tok d, exec o (VerifyAccessToken s' tok) d =
    exec o (VerifyAccessToken (as_tokenSvc sample_auth) tok) d.
Proof.
  apply (@public_key_verifies sample_jwt sample_key_text (as_tokenSvc sample_auth) "PUBLIC KEYkey"
    "private" ()).
  - intros [] bytes [= <-]. split; [discriminate|reflexivity].
  - reflexivity.
  - discriminate.
  - reflexivity.
Defined.
