(* ===== verification/AuthSeed.v ===== *)
(** * Seeding the administrators

    [SeedAdmins] runs at every start of the auth service: it only adds
    administrators of the list, and what it reports is what happened. *)
From S2P Require Import Prelude Effects Json Dto AuthDB Auth AuthSamples AuthSpec.

Definition has_account (d : AuthDB) (email : string) : Prop :=
  ∃ k u, users d !! k = Some u ∧ us_Email u = email.

(** The account an entry of the list gets. *)
Definition seeded_from (o : oracle authE) (a : AdminSeed) (u : User) : Prop :=
  us_Role u = RoleAdmin ∧ us_Email u = as_Email a ∧
  us_Name u = (if bool_decide (as_Name a = "") then before_at (as_Email a) else as_Name a) ∧
  ∃ n, o_ext o n _ (GenerateFromPassword (as_Password a)) = Ok (us_PasswordHash u).

(** Accounts are added for entries of the list, the others stay. *)
Record seeds_added (o : oracle authE) (admins : list AdminSeed) (d d' : AuthDB) : Prop := {
  sa_kept : users d ⊆ users d';
  sa_tokens : refresh_tokens d' = refresh_tokens d;
  sa_new k u : users d' !! k = Some u → users d !! k = None → ∃ a, a ∈ admins ∧ seeded_from o a u;
}.

Lemma seeds_added_refl o admins d : seeds_added o admins d d.
Proof. split; [done|done|congruence]. Qed.

Lemma seeds_added_trans o admins d1 d2 d3 :
  seeds_added o admins d1 d2 → seeds_added o admins d2 d3 → seeds_added o admins d1 d3.
Proof.
  intros [K1 T1 N1] [K2 T2 N2]. split; [by etrans|congruence|].
  intros k u H3 H1. destruct (users d2 !! k) as [u2|] eqn:H2; [|by eapply N2].
  assert (users d3 !! k = Some u2) by (by eapply lookup_weaken). simplify_eq. by eapply N1.
Qed.

Lemma seeds_added_mono o admins admins' d d' :
  (∀ a, a ∈ admins → a ∈ admins') → seeds_added o admins d d' → seeds_added o admins' d d'.
Proof. intros Hsub []. split; [done|done|]. naive_solver. Qed.

Lemma has_account_kept o admins d d' email :
  seeds_added o admins d d' → has_account d email → has_account d' email.
Proof. intros [HK _ _] (k & u & Hk & Hu). exists k, u. split; [by eapply lookup_weaken|done]. Qed.

Lemma found_account email d u :
  row_or_error (head (rows (has_email email) (users d))) = Ok u → has_account d email.
Proof.
  destruct (head _) as [u'|] eqn:Hh; [|done]. intros [= <-].
  apply head_Some_elem_of, elem_of_rows in Hh as (k & Hk & Hu).
  exists k, u'. split; [done|]. by apply bool_decide_eq_true_1 in Hu.
Qed.
Lemma account_found email d :
  has_account d email → ∃ u, row_or_error (head (rows (has_email email) (users d))) = Ok u.
Proof.
  intros (k & u & Hk & Hu). destruct (head _) as [u'|] eqn:Hh; [by exists u'|].
  apply head_None in Hh. assert (u ∈ rows (has_email email) (users d)) as Hin.
  { apply elem_of_rows. exists k. split; [done|]. by apply bool_decide_eq_true_2. }
  rewrite Hh in Hin. by apply elem_of_nil in Hin.
Qed.

Section seed.
Context (o : oracle authE).

Definition seed_name (a : AdminSeed) : string :=
  if bool_decide (as_Name a = "") then before_at (as_Email a) else as_Name a.

(** One entry: an account added, one found, or an error. *)
Lemma insert_seeded a id hash t d n :
  o_ext o n _ (GenerateFromPassword (as_Password a)) = Ok hash →
  let '(d', r) := insert_user (new_user id (as_Email a) hash (seed_name a) RoleAdmin) t d in
  seeds_added o [a] d d' ∧
  (r = Ok () → has_account d' (as_Email a) ∧ size (users d') = S (size (users d))).
Proof.
  intros Hh. destruct (insert_user _ t d) as [d' [[]|e]] eqn:Hins.
  - apply insert_user_ok in Hins as (Hid & _ & ->). cbn in *. split.
    + split; [by apply insert_subseteq|done|]. intros k u Hk Hn. exists a. split; [by left|]. cbn in Hk.
      apply lookup_insert_Some in Hk as [[<- <-]|[_ Hk]]; [|cbn in *; congruence].
      split_and!; [done..|by exists n].
    + intros _. split; [|by apply map_size_insert_None].
      eexists id, _. split; [apply lookup_insert_eq|done].
  - unfold insert_user in Hins. repeat case_match; simplify_eq; (split; [apply seeds_added_refl|done]).
Qed.

Lemma runs_seedOne a n d :
  runs o (seedOne (as_Email a) (as_Password a) (seed_name a)) n d (λ _ d' r,
    seeds_added o [a] d d' ∧
    match r with
    | Ok true => has_account d' (as_Email a) ∧ size (users d') = S (size (users d))
    | Ok false => has_account d' (as_Email a) ∧ d' = d
    | Err _ => True
    end).
Proof.
  unfold seedOne, UserRepo_FindByEmail, Hasher_Hash, UserRepo_Create.
  apply runs_bind, runs_bind.
  set (Post := (λ (_ : nat) d' (r : res bool), _)).
  assert (∀ m, runs o (hash ←? call (GenerateFromPassword (as_Password a));
      id ← uuid_NewString;
      _ ←? sql (insert_user (new_user id (as_Email a) hash (seed_name a) RoleAdmin));
      Ret (Ok true)) m d Post) as Htail.
  { intros m. apply runs_bind, runs_call.
    destruct (o_ext o m _ _) as [hash|e] eqn:Hh; [|by split; [apply seeds_added_refl|]].
    apply runs_bind, runs_uuid, runs_bind.
    pose proof (insert_seeded a (o_uuid o (S m)) hash (o_now o (S (S m))) d m Hh) as Hi.
    apply runs_sql; destruct (insert_user _ _ d) as [d' r]; destruct Hi as [Ha Hr].
    - destruct r as [[]|e]; [|by split]. destruct (Hr eq_refl). by split.
    - intros e. by split; [apply seeds_added_refl|].
    - intros e. by split. }
  apply runs_query; [done| |intros e; apply runs_ret, Htail]. apply runs_ret. cbn.
  destruct (row_or_error _) as [u|e] eqn:Hf; [|apply Htail].
  split; [apply seeds_added_refl|]. split; [by eapply found_account|done].
Qed.

Lemma runs_seedLoop admins created n d :
  runs o (seedLoop created admins) n d (λ _ d' r,
    seeds_added o admins d d' ∧
    (r.2 = None → (∀ a, a ∈ admins → has_account d' (as_Email a)) ∧
       r.1 = created + (Z.of_nat (size (users d')) - Z.of_nat (size (users d))))).
Proof.
  revert created n d. induction admins as [|a admins IH]; intros created n d; cbn [seedLoop].
  { apply runs_ret. split; [apply seeds_added_refl|]. cbn. intros _. split; [|lia].
    by intros a ?%elem_of_nil. }
  apply runs_bind. eapply runs_mono, (runs_seedOne a n d). intros n1 d1 [ok|e] [Ha Hr]; cbn.
  2:{ split; [|done]. eapply seeds_added_mono, Ha. set_solver. }
  eapply runs_mono, IH. intros n2 d2 r [Ha2 Hr2]. cbn in *. split.
  - eapply seeds_added_trans; eapply seeds_added_mono; [|exact Ha| |exact Ha2]; set_solver.
  - intros Hn. destruct (Hr2 Hn) as [Hall Hsize].
    assert (has_account d1 (as_Email a)) as Hacc by (destruct ok; naive_solver). split.
    + intros a' [->|Hin]%elem_of_cons; [by eapply has_account_kept|auto].
    + rewrite Hsize. destruct ok; destruct Hr as [_ Hr]; [rewrite Hr|subst d1]; lia.
Qed.
End seed.

(** When every account is there, seeding finds them all. *)
Lemma runs_seedLoop_again (o : oracle authE) admins created n d :
  faultless o → (∀ a, a ∈ admins → has_account d (as_Email a)) →
  runs o (seedLoop created admins) n d (λ _ d' r, d' = d ∧ r = (created, None)).
Proof.
  intros Hcalm. revert created n. induction admins as [|a admins IH]; intros created n Hall; [done|].
  cbn [seedLoop]. apply runs_bind. unfold seedOne, UserRepo_FindByEmail.
  apply runs_bind, runs_bind, runs_sql_calm; [done|]. apply runs_ret. cbn.
  destruct (account_found (as_Email a) d) as [u ->]; [apply Hall; by left|]. cbn.
  apply IH. intros a' ?. apply Hall. by right.
Qed.

(** Seeding is safe and idempotent: whatever statements fail or lose their
    answers, accounts and tokens that exist stay as they are, and a new account
    is an administrator of the list, with its password hashed and its name or
    the local part of its address; a run that reports no error leaves an
    account for every entry and reports how many it created, and the next run
    on that database, when nothing fails, changes nothing and creates none. *)
Theorem seeds_idempotent (o o' : oracle authE) admins d d' created err :
  exec o (SeedAdmins admins) d = (d', (created, err)) →
  seeds_added o admins d d' ∧
  (err = None →
     (∀ a, a ∈ admins → has_account d' (as_Email a)) ∧
     created = Z.of_nat (size (users d')) - Z.of_nat (size (users d)) ∧
     (faultless o' → exec o' (SeedAdmins admins) d' = (d', (0, None)))).
Proof.
  intros Hrun. pose proof (runs_exec o _ _ _ _ _ (runs_seedLoop o admins 0 0 d) Hrun) as [Ha Hok].
  split; [done|]. intros ->. destruct (Hok eq_refl) as [Hall Hn]. split_and!; [done|done|].
  intros Hcalm. apply exec_eq. by apply runs_seedLoop_again.
Qed.

Definition sample_seeds : list AdminSeed :=
  [mkAdminSeed "root@mail" "hunter2" "Root"; mkAdminSeed "ana@mail" "x" "Ana"].
Definition seeded_db : AuthDB := (exec auth_oracle (SeedAdmins sample_seeds) sample_auth_db).1.

Lemma seeds_idempotent_witness :
  size (users seeded_db) = 2%nat ∧
  exec auth_oracle (SeedAdmins sample_seeds) seeded_db = (seeded_db, (0, None)).
Proof.
  split; [vm_compute; reflexivity|].
  exact (proj2 (proj2 (proj2 (seeds_idempotent auth_oracle auth_oracle sample_seeds sample_auth_db
    seeded_db 1 None ltac:(vm_compute; reflexivity)) eq_refl)) (λ n, eq_refl)).
Defined.
