(* ===== verification/Config.v ===== *)
(** * The configuration of the three services

    The [Config] structs ([service/*/internal/config]) with the checks that
    decide whether a service starts.  Reading the environment is the env
    library's: what [Load] relies on is that it fills every field tagged
    [notEmpty] ([required_set]). *)
From Stdlib Require Import Ascii.
From stdpp Require Import strings.
From S2P Require Import Prelude Effects TimeText Json AuthDB Auth AuthHandler.

(** ** [strings.TrimSpace] *)

(** The UTF-8 forms of the characters of [unicode.IsSpace]. *)
Definition utf8 (bytes : list N) : string := String.string_of_list_ascii (ascii_of_N <$> bytes).
Definition space_forms : list string := utf8 <$>
  ([[9]; [10]; [11]; [12]; [13]; [32]; [194; 133]; [194; 160]; [225; 154; 128]] ++
   ((λ b, [226; 128; b]) <$>
     [128; 129; 130; 131; 132; 133; 134; 135; 136; 137; 138; 168; 169; 175]) ++
   [[226; 129; 159]; [227; 128; 128]])%N.

(** One form taken off the front of a string. *)
Definition strip (forms : list string) (s : string) : option string :=
  head (omap (CutPrefix s) forms).

Fixpoint trim_forms (forms : list string) (fuel : nat) (s : string) : string :=
  match fuel with
  | O => s
  | S fuel => match strip forms s with Some s' => trim_forms forms fuel s' | None => s end
  end.

(** The first bytes of the forms are no continuation bytes, so a form ends a
    string exactly when it is its last character. *)
Definition TrimSpace (s : string) : string :=
  let s := trim_forms space_forms (String.length s) s in
  String.rev (trim_forms (String.rev <$> space_forms) (String.length s) (String.rev s)).

(** ** The structs *)

(** [ADMIN_SEEDS]: the text and what a JSON parser makes of it. *)
Record seedsText := mkSeedsText { st_text : string; st_json : option json }.

Record AuthConfig := mkAuthConfig {
  acf_AppEnv : string;
  acf_Port : string;
  acf_DatabaseURL : string;
  acf_JWTPrivateKey : string;
  acf_JWTPublicKey : string;
  acf_AdminSeedsRaw : seedsText;
}.

Record PayConfig := mkPayConfig {
  pcf_AppEnv : string;
  pcf_Port : string;
  pcf_DatabaseURL : string;
  pcf_KafkaBrokers : string;
  pcf_WebhookBaseURL : string;
  pcf_ConsumerConcurrency : Z;
  pcf_OutboxConcurrency : Z;
  pcf_OutboxPollMs : Z;
  pcf_Provider : string;
  pcf_XenditAPIKey : string;
  pcf_XenditBaseURL : string;
  pcf_WebhookCallbackTok : string;
  pcf_InternalAPIKey : string;
  pcf_GatewayExpiryBufferMin : Z;
  pcf_ExpiryPollSec : Z;
  pcf_PaymentMethods : string;
}.

Record TicketConfig := mkTicketConfig {
  tcf_AppEnv : string;
  tcf_Port : string;
  tcf_DatabaseURL : string;
  tcf_KafkaBrokers : string;
  tcf_ReservationTTL : Z;
  tcf_ConsumerConcurrency : Z;
  tcf_OutboxConcurrency : Z;
  tcf_OutboxPollMs : Z;
  tcf_PaymentServiceURL : string;
  tcf_PaymentTimeoutSec : Z;
  tcf_InternalAPIKey : string;
}.

(** ** The methods *)

Definition decode_seed : json → res AdminSeed := dec_struct (λ o,
  email ←! string_field "email" o;
  password ←! string_field "password" o;
  name ←! string_field "name" o;
  Ok (mkAdminSeed email password name)).

Definition AdminSeeds (c : AuthConfig) : res (list AdminSeed) :=
  if bool_decide (TrimSpace (st_text (acf_AdminSeedsRaw c)) = "") then Ok []
  else
    match Decode (dec_slice decode_seed []) (st_json (acf_AdminSeedsRaw c)) with
    | Err e => Err (Wrapped "ADMIN_SEEDS must be a valid JSON array: " e "")
    | Ok seeds => Ok seeds
    end.

Fixpoint check_seeds (i : Z) (seeds : list AdminSeed) : res unit :=
  match seeds with
  | [] => Ok ()
  | seed :: seeds =>
      if bool_decide (as_Email seed = "") || bool_decide (as_Password seed = "") ||
         bool_decide (as_Name seed = "")
      then Err (Plain ("ADMIN_SEEDS[" +:+ pretty i +:+ "] requires email, password and name"))
      else check_seeds (i + 1) seeds
  end.

(** [EnabledMethods]: the entries of the comma-separated list. *)
Definition EnabledMethods (c : PayConfig) : list string :=
  filter (λ p, p ≠ "") (TrimSpace <$> split_on ","%char "" (pcf_PaymentMethods c)).

Definition AuthConfig_Validate (c : AuthConfig) : res unit :=
  match AdminSeeds c with
  | Err e => Err e
  | Ok seeds => check_seeds 0 seeds
  end.

(** The text of the first error also quotes the value. *)
Definition PayConfig_Validate (c : PayConfig) : res unit :=
  if negb (bool_decide (pcf_Provider c = "mock") || bool_decide (pcf_Provider c = "xendit"))
  then Err (Plain "PROVIDER must be 'mock' or 'xendit'")
  else if bool_decide (pcf_Provider c = "xendit") && bool_decide (pcf_XenditAPIKey c = "")
  then Err (Plain "XENDIT_API_KEY is required when PROVIDER=xendit")
  else if bool_decide (pcf_GatewayExpiryBufferMin c < 0)
  then Err (Plain ("GATEWAY_EXPIRY_BUFFER_MIN must be >= 0, got " +:+
                   pretty (pcf_GatewayExpiryBufferMin c)))
  else if bool_decide (pcf_ExpiryPollSec c ≤ 0)
  then Err (Plain ("EXPIRY_POLL_SEC must be > 0, got " +:+ pretty (pcf_ExpiryPollSec c)))
  else Ok ().

Definition TicketConfig_Validate (c : TicketConfig) : res unit :=
  if bool_decide (tcf_ReservationTTL c ≤ 0)
  then Err (Plain ("RESERVATION_TTL must be > 0, got " +:+ pretty (tcf_ReservationTTL c)))
  else if bool_decide (tcf_PaymentTimeoutSec c ≤ 0)
  then Err (Plain ("PAYMENT_TIMEOUT_SEC must be > 0, got " +:+ pretty (tcf_PaymentTimeoutSec c)))
  else Ok ().

(** What a service asks of its configuration: the strings the environment has
    to set, and [Validate]. *)
Class ServiceConfig (C : Type) := {
  required : C → list string;
  Validate : C → res unit;
}.
Definition required_set `{!ServiceConfig C} (c : C) : Prop := Forall (λ v, v ≠ "") (required c).

#[export] Instance AuthConfig_service : ServiceConfig AuthConfig := {|
  required c :=
    [acf_AppEnv c; acf_Port c; acf_DatabaseURL c; acf_JWTPrivateKey c; acf_JWTPublicKey c];
  Validate := AuthConfig_Validate;
|}.
#[export] Instance PayConfig_service : ServiceConfig PayConfig := {|
  required c :=
    [pcf_AppEnv c; pcf_Port c; pcf_DatabaseURL c; pcf_KafkaBrokers c; pcf_WebhookBaseURL c;
     pcf_Provider c; pcf_XenditBaseURL c; pcf_WebhookCallbackTok c; pcf_InternalAPIKey c];
  Validate := PayConfig_Validate;
|}.
#[export] Instance TicketConfig_service : ServiceConfig TicketConfig := {|
  required c :=
    [tcf_AppEnv c; tcf_Port c; tcf_DatabaseURL c; tcf_KafkaBrokers c; tcf_PaymentServiceURL c;
     tcf_InternalAPIKey c];
  Validate := TicketConfig_Validate;
|}.

(** ** Trimming *)

Lemma string_app_cons c (p s : string) : String c p +:+ s = String c (p +:+ s).
Proof. done. Qed.
Lemma string_app_nil_l (s : string) : "" +:+ s = s.
Proof. done. Qed.

Lemma CutPrefix_Some s p s' : CutPrefix s p = Some s' ↔ s = p +:+ s'.
Proof.
  revert s. induction p as [|c p IH]; intros s; cbn; [rewrite string_app_nil_l; split; congruence|].
  rewrite string_app_cons. destruct s as [|c' s]; [split; discriminate|].
  case_bool_decide as Hc; [rewrite IH, Hc|]; split; congruence.
Qed.

Lemma strip_Some forms s s' :
  strip forms s = Some s' → ∃ f, f ∈ forms ∧ s = f +:+ s'.
Proof.
  unfold strip. intros (f & Hf & Hs%CutPrefix_Some)%head_Some_elem_of%list_elem_of_omap. eauto.
Qed.
Lemma strip_None forms s :
  strip forms s = None ↔ ∀ f s', f ∈ forms → s ≠ f +:+ s'.
Proof.
  unfold strip. rewrite head_None. split.
  - intros Hnil f s' Hf Heq%CutPrefix_Some.
    assert (s' ∈ omap (CutPrefix s) forms) as Hin by (apply list_elem_of_omap; eauto).
    rewrite Hnil in Hin. by apply elem_of_nil in Hin.
  - intros Hs. destruct (omap _ _) as [|s' l] eqn:Heq; [done|].
    assert (s' ∈ omap (CutPrefix s) forms) as (f & Hf & Hp%CutPrefix_Some)%list_elem_of_omap
      by (rewrite Heq; left). by destruct (Hs f s' Hf).
Qed.

Lemma length_app_string s1 s2 : String.length (s1 +:+ s2) = (String.length s1 + String.length s2)%nat.
Proof. induction s1 as [|c s1 IH]; [done|]. rewrite string_app_cons. cbn. by rewrite IH. Qed.

(** The fuel is enough: the result starts with no form. *)
Lemma trim_forms_clean forms fuel s :
  Forall (λ f, f ≠ "") forms → (String.length s ≤ fuel)%nat →
  strip forms (trim_forms forms fuel s) = None.
Proof.
  intros Hne. revert s. induction fuel as [|fuel IH]; intros s Hlen; cbn.
  - apply strip_None. intros f s' Hf ->. rewrite length_app_string in Hlen.
    rewrite Forall_forall in Hne. specialize (Hne f Hf). destruct f; [done|cbn in Hlen; lia].
  - destruct (strip forms s) as [s'|] eqn:Hs; [|done]. apply IH.
    apply strip_Some in Hs as (f & Hf & ->). rewrite length_app_string in Hlen.
    rewrite Forall_forall in Hne. specialize (Hne f Hf). destruct f; [done|cbn in Hlen; lia].
Qed.

Lemma trim_forms_id forms fuel s : strip forms s = None → trim_forms forms fuel s = s.
Proof. intros Hs. destruct fuel; [done|]. cbn. by rewrite Hs. Qed.

(** Trimming keeps an end of the string. *)
Lemma trim_forms_suffix forms fuel s : ∃ p, s = p +:+ trim_forms forms fuel s.
Proof.
  revert s. induction fuel as [|fuel IH]; intros s; cbn; [by exists ""|].
  destruct (strip forms s) as [s'|] eqn:Hs; [|by exists ""].
  apply strip_Some in Hs as (f & _ & ->). destruct (IH s') as [p Hp].
  exists (f +:+ p). by rewrite string_app_assoc, <- Hp.
Qed.

Lemma rev_app_spec s1 s2 : String.rev_app s1 s2 = String.rev s1 +:+ s2.
Proof.
  unfold String.rev. revert s2. induction s1 as [|c s1 IH]; intros s2; [done|].
  cbn. by rewrite IH, (IH (String c "")), string_app_assoc.
Qed.
Lemma rev_cons c s : String.rev (String c s) = String.rev s +:+ String c "".
Proof. unfold String.rev at 1. cbn. apply rev_app_spec. Qed.
Lemma string_app_nil_r s : s +:+ "" = s.
Proof. induction s as [|c s IH]; [done|]. by rewrite string_app_cons, IH. Qed.
Lemma rev_app s1 s2 : String.rev (s1 +:+ s2) = String.rev s2 +:+ String.rev s1.
Proof.
  induction s1 as [|c s1 IH]; [by rewrite string_app_nil_l, string_app_nil_r|].
  by rewrite string_app_cons, !rev_cons, IH, string_app_assoc.
Qed.
Lemma rev_rev s : String.rev (String.rev s) = s.
Proof. induction s as [|c s IH]; [done|]. rewrite rev_cons, rev_app, IH. done. Qed.

(** A string with white space at neither end. *)
Definition trimmed (s : string) : Prop :=
  strip space_forms s = None ∧ strip (String.rev <$> space_forms) (String.rev s) = None.

Lemma space_forms_ne : Forall (λ f, f ≠ "") space_forms.
Proof. apply Forall_fmap. repeat (constructor; [done|]). constructor. Qed.
Lemma rev_forms_ne : Forall (λ f, f ≠ "") (String.rev <$> space_forms).
Proof.
  apply Forall_fmap. eapply Forall_impl; [apply space_forms_ne|]. intros f Hf Hr. apply Hf.
  by rewrite <- (rev_rev f), Hr.
Qed.

Lemma TrimSpace_middle s : ∃ p q, s = p +:+ TrimSpace s +:+ q.
Proof.
  unfold TrimSpace. destruct (trim_forms_suffix space_forms (String.length s) s) as [p Hp].
  set (t := trim_forms space_forms _ s) in *.
  destruct (trim_forms_suffix (String.rev <$> space_forms) (String.length t) (String.rev t)) as [q Hq].
  exists p, (String.rev q). rewrite <- rev_app, <- Hq, rev_rev. done.
Qed.

Lemma length_rev s : String.length (String.rev s) = String.length s.
Proof.
  induction s as [|c s IH]; [done|]. rewrite rev_cons, length_app_string, IH. cbn. lia.
Qed.

Lemma TrimSpace_trimmed s : trimmed (TrimSpace s).
Proof.
  unfold TrimSpace, trimmed. pose proof (trim_forms_clean space_forms (String.length s) s
    space_forms_ne ltac:(lia)) as Hl. set (t := trim_forms space_forms _ s) in *.
  destruct (trim_forms_suffix (String.rev <$> space_forms) (String.length t) (String.rev t))
    as [q Hq].
  rewrite rev_rev. split; [|apply trim_forms_clean; [apply rev_forms_ne|by rewrite length_rev]].
  set (u := trim_forms (String.rev <$> space_forms) _ _) in *.
  rewrite strip_None in Hl |- *. intros f s' Hf Hu. apply (Hl f (s' +:+ String.rev q) Hf).
  by rewrite <- string_app_assoc, <- Hu, <- rev_app, <- Hq, rev_rev.
Qed.

Lemma TrimSpace_id s : trimmed s → TrimSpace s = s.
Proof.
  intros [Hl Hr]. unfold TrimSpace. rewrite (trim_forms_id space_forms) by done.
  rewrite trim_forms_id by done. apply rev_rev.
Qed.

(** ** Splitting at commas *)

Fixpoint has_char (c : ascii) (s : string) : bool :=
  match s with
  | EmptyString => false
  | String c' s => bool_decide (c' = c) || has_char c s
  end.

Lemma has_char_app c s1 s2 : has_char c (s1 +:+ s2) = has_char c s1 || has_char c s2.
Proof.
  induction s1 as [|c' s1 IH]; [done|]. rewrite string_app_cons. cbn. by rewrite IH, orb_assoc.
Qed.

Lemma split_on_parts c cur s :
  has_char c cur = false → Forall (λ p, has_char c p = false) (split_on c cur s).
Proof.
  revert cur. induction s as [|c' s IH]; intros cur Hcur; cbn; [by repeat constructor|].
  case_bool_decide as Hc; [constructor; auto|]. apply IH. rewrite has_char_app, Hcur. cbn.
  by rewrite bool_decide_false.
Qed.

Lemma split_on_last c cur s : has_char c s = false → split_on c cur s = [cur +:+ s].
Proof.
  revert cur. induction s as [|c' s IH]; intros cur; cbn; [by rewrite string_app_nil_r|].
  intros [Hc Hs]%orb_false_iff. rewrite Hc, (IH _ Hs), string_app_assoc. done.
Qed.
Lemma split_on_more c cur s rest :
  has_char c s = false → split_on c cur (s +:+ String c rest) = (cur +:+ s) :: split_on c "" rest.
Proof.
  revert cur. induction s as [|c' s IH]; intros cur.
  - intros _. rewrite string_app_nil_l, string_app_nil_r. cbn. by rewrite bool_decide_true.
  - rewrite string_app_cons. cbn. intros [Hc Hs]%orb_false_iff. rewrite Hc, (IH _ Hs), string_app_assoc. done.
Qed.

Lemma split_on_concat c l :
  l ≠ [] → Forall (λ p, has_char c p = false) l →
  split_on c "" (String.concat (String c "") l) = l.
Proof.
  intros Hne Hl. induction Hl as [|p l Hp Hl IH]; [done|]. destruct l as [|p' l].
  - cbn. by rewrite split_on_last.
  - change (String.concat _ _) with (p +:+ String c (String.concat (String c "") (p' :: l))).
    rewrite split_on_more by done. f_equal. by apply IH.
Qed.

(** ** The payment channels *)

(** A channel code as the list has it. *)
Definition channel_code (p : string) : Prop :=
  p ≠ "" ∧ has_char ","%char p = false ∧ trimmed p.

Lemma has_char_TrimSpace c s : has_char c s = false → has_char c (TrimSpace s) = false.
Proof.
  destruct (TrimSpace_middle s) as (p & q & Hs). rewrite Hs at 1. rewrite !has_char_app.
  by intros [_ [? _]%orb_false_iff]%orb_false_iff.
Qed.

(** The payment channels: whatever the text, [EnabledMethods] returns codes
    that are not empty, contain no comma and have no white space at either end;
    and every list of such codes is read back from its comma-separated text. *)
Theorem enabled_methods (c : PayConfig) :
  Forall channel_code (EnabledMethods c) ∧
  ∀ codes, Forall channel_code codes → pcf_PaymentMethods c = String.concat "," codes →
    EnabledMethods c = codes.
Proof.
  unfold EnabledMethods. split.
  - apply Forall_forall. intros p [Hp (s & -> & Hs)%list_elem_of_fmap]%list_elem_of_filter.
    split_and!; [done| |apply TrimSpace_trimmed]. apply has_char_TrimSpace.
    by eapply (Forall_forall _ _) in Hs; [|apply split_on_parts].
  - intros codes Hcodes ->. destruct codes as [|p codes]; [done|].
    rewrite (split_on_concat ","%char); [|done|eapply Forall_impl; [done|]; by intros ? (? & ? & _)].
    assert (TrimSpace <$> p :: codes = p :: codes) as ->.
    { induction Hcodes as [|q l (_ & _ & Hq) Hl IH]; [done|].
      rewrite fmap_cons, TrimSpace_id by done. by f_equal. }
    induction Hcodes as [|q l (Hq & _) Hl IH]; [done|]. rewrite filter_cons_True by done. by f_equal.
Qed.

(** ** The administrators *)

(** An accepted configuration names every administrator in full. *)
Lemma check_seeds_Ok i seeds :
  check_seeds i seeds = Ok () ↔
  Forall (λ a, as_Email a ≠ "" ∧ as_Password a ≠ "" ∧ as_Name a ≠ "") seeds.
Proof.
  revert i. induction seeds as [|a seeds IH]; intros i; cbn; [done|].
  rewrite Forall_cons, <- (IH (i + 1)). repeat case_bool_decide; cbn; intuition congruence.
Qed.

Lemma Validate_auth c :
  Validate c = Ok () → ∃ seeds, AdminSeeds c = Ok seeds ∧
    Forall (λ a, as_Email a ≠ "" ∧ as_Password a ≠ "" ∧ as_Name a ≠ "") seeds.
Proof.
  cbn. unfold AuthConfig_Validate. destruct (AdminSeeds c) as [seeds|e]; [|done]. intros Hs%check_seeds_Ok. eauto.
Qed.

Lemma Validate_pay c :
  Validate c = Ok () ↔
  (pcf_Provider c = "mock" ∨ pcf_Provider c = "xendit" ∧ pcf_XenditAPIKey c ≠ "") ∧
  0 ≤ pcf_GatewayExpiryBufferMin c ∧ 0 < pcf_ExpiryPollSec c.
Proof.
  cbn. unfold PayConfig_Validate. repeat (case_bool_decide; cbn); intuition (congruence || lia).
Qed.

Lemma Validate_ticket c :
  Validate c = Ok () ↔ 0 < tcf_ReservationTTL c ∧ 0 < tcf_PaymentTimeoutSec c.
Proof.
  cbn. unfold TicketConfig_Validate. repeat (case_bool_decide; cbn); intuition (congruence || lia).
Qed.
