(* ===== verification/Pool.v ===== *)
(** * The connection pool

    [db.NewPool] ([pkg/db/db.go]) as a program over the calls it makes to pgx,
    whose configuration and pool are parameters: the limits it sets, the
    deadline it connects under, and the errors it returns.  [NewPool] of
    [Startup] is one call of this program. *)
From S2P Require Import Prelude Effects.

Section pool.
Context {connConfig tracer pool : Type}.

(** The fields of [pgxpool.Config] that [NewPool] touches, and the connection
    part, which [ParseConfig] reads from the DSN with them. *)
Record poolConfig := mkPoolConfig {
  MaxConns : Z;
  MinConns : Z;
  MaxConnLifetime : Z;
  MaxConnIdleTime : Z;
  ConnConfig : connConfig;
  ConnConfig_Tracer : option tracer;
}.

Inductive poolE : Type → Type :=
  | ParseConfig (dsn : string) : poolE (res poolConfig)
  | NewTracer : poolE tracer
  | WithTimeout (d : Z) : poolE unit
  | NewWithConfig (c : poolConfig) : poolE (res pool)
  | Ping (p : pool) : poolE (res unit)
  | Cancel : poolE unit.

Definition pool_call {B} (e : poolE B) : prog poolE B := Vis e Ret.

(** [fmt.Errorf(msg + "%w", err)]; [defer cancel()] is in every return after
    the context is made. *)
Definition NewPool (dsn : string) : prog poolE (res pool) :=
  parsed ← pool_call (ParseConfig dsn);
  match parsed with
  | Err e => Ret (Err (Wrapped "failed to parse pgx config: " e ""))
  | Ok config =>
    tr ← pool_call NewTracer;
    let config := mkPoolConfig 25 5 (60 * 60 * 1000000000) (60 * 1000000000 * 30)
                    (ConnConfig config) (Some tr) in
    _ ← pool_call (WithTimeout (10 * 1000000000));
    made ← pool_call (NewWithConfig config);
    match made with
    | Err e => _ ← pool_call Cancel; Ret (Err (Wrapped "failed to create pool: " e ""))
    | Ok pool =>
      pinged ← pool_call (Ping pool);
      _ ← pool_call Cancel;
      match pinged with
      | Err e => Ret (Err (Wrapped "failed to ping database: " e ""))
      | Ok _ => Ret (Ok pool)
      end
    end
  end.

(** The deadline in force when a call is made: the last [WithTimeout] that has
    not been cancelled. *)
Fixpoint deadlines (armed : option Z) (calls : list {B & poolE B}) :
    list (option Z * {B & poolE B}) :=
  match calls with
  | [] => []
  | existT _ e as c :: cs =>
    (armed, c) :: deadlines match e with
                            | WithTimeout d => Some d | Cancel => None | _ => armed
                            end cs
  end.

(** What a call is made with: the four limits and the tracer for a pool, on top
    of what the DSN says of the connection, and the deadline. *)
Definition bounded (parsed : res poolConfig) (call : option Z * {B & poolE B}) : Prop :=
  match projT2 call.2 with
  | NewWithConfig c =>
    call.1 = Some 10000000000 ∧
    MaxConns c = 25 ∧ MinConns c = 5 ∧ MaxConnLifetime c = 3600000000000 ∧
    MaxConnIdleTime c = 1800000000000 ∧ is_Some (ConnConfig_Tracer c) ∧
    ∃ c0, parsed = Ok c0 ∧ ConnConfig c = ConnConfig c0
  | Ping _ => call.1 = Some 10000000000
  | _ => True
  end.

Definition arms (call : {B & poolE B}) : bool :=
  match projT2 call with WithTimeout _ => true | _ => false end.
Definition cancels (call : {B & poolE B}) : bool :=
  match projT2 call with Cancel => true | _ => false end.

(** Whatever pgx and the server answer, a pool is only ever made with the four
    limits of the code, whatever the DSN asks for, and with the tracer; it is
    made and pinged under the ten-second deadline, which no return leaves
    armed; and [NewPool] returns a pool exactly when the DSN parses and that
    pool was made and answered the ping, the error of the first call that
    failed otherwise. *)
Theorem new_pool_bounded (answer : ∀ B, poolE B → B) dsn :
  let '(calls, r) := traced answer (NewPool dsn) in
  Forall (bounded (answer _ (ParseConfig dsn))) (deadlines None calls) ∧
  existsb arms calls = (if last calls is Some c then cancels c else false) ∧
  match answer _ (ParseConfig dsn) with
  | Err e => r = Err (Wrapped "failed to parse pgx config: " e "")
  | Ok c0 => ∃ c, existT _ (NewWithConfig c) ∈ calls ∧
    match answer _ (NewWithConfig c) with
    | Err e => r = Err (Wrapped "failed to create pool: " e "")
    | Ok p => existT _ (Ping p) ∈ calls ∧
      match answer _ (Ping p) with
      | Err e => r = Err (Wrapped "failed to ping database: " e "")
      | Ok _ => r = Ok p
      end
    end
  end.
Proof.
  cbn. destruct (answer _ (ParseConfig dsn)) as [c0|e] eqn:Hp; cbn;
    [|split_and!; [repeat constructor|done..]].
  set (c := mkPoolConfig 25 5 _ _ _ _).
  destruct (answer _ (NewWithConfig c)) as [p|e] eqn:Hn; cbn;
    [destruct (answer _ (Ping p)) as [[]|e] eqn:Hg|]; cbn;
    (split; [once (repeat constructor; cbn; eauto 10)|]; split; [done|];
     exists c; rewrite Hn; rewrite ?Hg; repeat split; try done; repeat (left + right)).
Qed.
End pool.
