(* ===== verification/Startup.v ===== *)
(** * Starting and stopping the services

    The [main] functions ([service/*/cmd/api/main.go]) as programs over the
    calls they make in order: reading the environment, telemetry, the database
    pool, the topics, the goroutines and the server, up to the shutdown after a
    signal or the end of a server that fails.  A process that ends with
    [os.Exit(1)] runs no deferred call. *)
From Stdlib Require Import Ascii Sorting.Sorted.
From S2P Require Import Prelude Effects TimeText Json Kafka Dto Outbox TicketDB Booking Event TicketHandler TicketHttp PayDB Payment Gateway PayHandler PayHttp System SystemSafety AuthDB Auth AuthHandler Config.

(** ** The calls *)

(** [startConsumer]: a consumer of one topic with its workers. *)
Record consumer := mkConsumer { co_Topic : string; co_GroupID : string; co_Concurrency : Z }.

Inductive goroutine :=
  | GoWorker (w : Worker)
  | GoConsumers (cs : list consumer)
  | GoPoller (interval : Z).

(** [r.Use]: the middleware of chi and of [pkg/http], outermost first. *)
Inductive middleware := RequestID | OTelMiddleware | RequestLogger | Recoverer | UserContext.

(** The HTTP server: its address, the middleware, the health routes with the
    service they report, and the application that is mounted. *)
Record server (R : Type) := mkServer {
  srv_Addr : string;
  srv_Use : list middleware;
  srv_Health : list (string * string);
  srv_App : R;
}.
Arguments mkServer {R}.

Definition common_middleware : list middleware :=
  [RequestID; OTelMiddleware; RequestLogger; Recoverer].

(** [C] is the configuration and [R] what the server serves. *)
Inductive bootE (C R : Type) : Type → Type :=
  | ParseEnv : bootE C R (res C)
  | InitTelemetry (service environment : string) : bootE C R (res unit)
  | NewPool (url : string) : bootE C R (res unit)
  | KafkaAdmin {B} (k : kafkaE B) : bootE C R B
  | SeedDatabase (admins : list AdminSeed) : bootE C R (Z * option error)
  | Go (g : goroutine) : bootE C R unit
  | ListenAndServe (srv : server R) : bootE C R unit
  | AwaitSignal : bootE C R (res unit)
  | CancelContext : bootE C R unit
  | Shutdown : bootE C R (res unit)
  | ShutdownTelemetry : bootE C R unit
  | CloseConsumer : bootE C R unit
  | ClosePool : bootE C R unit.
Arguments ParseEnv {C R}.
Arguments InitTelemetry {C R}.
Arguments NewPool {C R}.
Arguments KafkaAdmin {C R B}.
Arguments SeedDatabase {C R}.
Arguments Go {C R}.
Arguments ListenAndServe {C R}.
Arguments AwaitSignal {C R}.
Arguments CancelContext {C R}.
Arguments Shutdown {C R}.
Arguments ShutdownTelemetry {C R}.
Arguments CloseConsumer {C R}.
Arguments ClosePool {C R}.

Section boot.
Context {C R : Type}.
Local Abbreviation boot := (prog (bootE C R)).

Definition do_call {B} (e : bootE C R B) : boot B := Vis e Ret.

(** [if err != nil { logger.Error(...); os.Exit(1) }]. *)
Definition or_exit {B} (r : res B) (k : B → boot Z) : boot Z :=
  match r with Err _ => Ret 1 | Ok b => k b end.

Definition ensure_topics_of (brokers topics : list string) : boot (res unit) :=
  interp (λ B (k : kafkaE B) cont, Vis (KafkaAdmin k) cont)
    (EnsureTopics (default "" (head brokers)) topics 4 3).

(** [ListenAndServe] runs in a goroutine, which ends the process with
    [os.Exit(1)] when it fails, whatever else is running: while the process waits
    for a signal ([AwaitSignal]) or after it, until [Shutdown] has closed the
    server.  The error of these two calls is that failure; the error that
    [Shutdown] itself returns is ignored. *)
Definition if_serving (r : res unit) (k : boot Z) : boot Z := or_exit r (λ _, k).

(** [<-quit] and what follows it; the deferred calls come last.  Auth has no
    context to cancel and no consumer. *)
Definition graceful_stop (consuming : bool) : boot Z :=
  waited ← do_call AwaitSignal;
  if_serving waited (
  _ ← (if consuming then do_call CancelContext else Ret ());
  down ← do_call Shutdown;
  if_serving down (
  _ ← do_call ShutdownTelemetry;
  _ ← (if consuming then do_call CloseConsumer else Ret ());
  _ ← do_call ClosePool;
  Ret 0)).
End boot.

Notation "x ←exit p ; k" := (p ≫= λ r, or_exit r (λ x, k))
  (at level 20, p at level 100, k at level 200) : stdpp_scope.

(** ** Payment *)

Definition startConsumer (groupID : string) (concurrency : Z) (topic : string) : consumer :=
  mkConsumer topic groupID (NewConsumer [WithConcurrency concurrency]).

(** The callbacks [StartConsumer] and [StartConsumers] register, by topic. *)
Definition StartConsumer : list (string * (message → pprog (res unit))) :=
  [("event.cancelled", pay_onEventCancelled)].
Definition StartConsumers (ctx : context) : list (string * (message → tprog (res unit))) :=
  [("payment.completed", onPaymentCompleted ctx);
   ("payment.expired", onPaymentExpired);
   ("event.cancelled", onEventCancelled)].

(** [Start] runs one consumer per callback. *)
Definition PaymentConsumer_Start (groupID : string) (concurrency : Z) : list consumer :=
  startConsumer groupID concurrency <$> StartConsumer.*1.
Definition TicketingConsumer_Start (groupID : string) (concurrency : Z) : list consumer :=
  startConsumer groupID concurrency <$> (StartConsumers background).*1.

Definition NewPaymentService (provider : string) (gatewayExpiryBufferMin : Z)
    (allowedChannels : list string) : PaymentService :=
  mkPaymentService provider gatewayExpiryBufferMin allowedChannels.
Definition NewPaymentHandler (svc : PaymentService) (internalKey callbackToken : string) :
    PaymentHandler :=
  mkPaymentHandler svc internalKey callbackToken.

(** The gateway behind [domain.PaymentProcessor]. *)
Inductive gateway :=
  | ViaMock (p : MockProcessor)
  | ViaXendit (p : XenditProcessor).

Record PaymentApp := mkPaymentApp { pa_handler : PaymentHandler; pa_processor : gateway }.

(** [switch cfg.Provider]; ["mock"] falls through to the default. *)
Definition payment_processor (cfg : PayConfig) : gateway :=
  if bool_decide (pcf_Provider cfg = "xendit")
  then ViaXendit (NewXenditProcessor (pcf_XenditBaseURL cfg) (pcf_XenditAPIKey cfg))
  else ViaMock NewMockProcessor.

Definition payment_app (cfg : PayConfig) : PaymentApp :=
  mkPaymentApp
    (NewPaymentHandler
       (NewPaymentService (pcf_Provider cfg) (pcf_GatewayExpiryBufferMin cfg) (EnabledMethods cfg))
       (pcf_InternalAPIKey cfg) (pcf_WebhookCallbackTok cfg))
    (payment_processor cfg).

Definition payment_server (cfg : PayConfig) : server PaymentApp :=
  mkServer (":" +:+ pcf_Port cfg) common_middleware
    [("/api/payments/health", "payment-service")] (payment_app cfg).

(** The ticker of [StartExpiryPoller]. *)
Definition expiry_interval (intervalSec : Z) : Z := wrap64 (intervalSec * Second).

Definition payment_topics : list string := ["event.cancelled"; "payment.completed"; "payment.expired"].

Definition payment_main : prog (bootE PayConfig PaymentApp) Z :=
  cfg ←exit do_call ParseEnv;
  or_exit (Validate cfg) (λ _,
  _ ←exit do_call (InitTelemetry "payment-service" (pcf_AppEnv cfg));
  _ ←exit do_call (NewPool (pcf_DatabaseURL cfg));
  let kafkaBrokers := split_on ","%char "" (pcf_KafkaBrokers cfg) in
  _ ←exit ensure_topics_of kafkaBrokers payment_topics;
  _ ← do_call (Go (GoWorker (NewWorker (pcf_OutboxConcurrency cfg) (pcf_OutboxPollMs cfg))));
  _ ← do_call (Go (GoConsumers (PaymentConsumer_Start "payment-service"
                                  (pcf_ConsumerConcurrency cfg))));
  _ ← do_call (Go (GoPoller (expiry_interval (pcf_ExpiryPollSec cfg))));
  _ ← do_call (ListenAndServe (payment_server cfg));
  graceful_stop true).

(** ** Ticketing *)

Definition NewBookingService (paymentClient : Client) (reservationTTL : Z) : BookingService :=
  mkBookingService paymentClient reservationTTL.

Definition ticketing_topics : list string :=
  ["event.cancelled"; "ticket.issued"; "payment.completed"; "payment.expired"].

Section ticketing.
(** Whether net/url accepts a URL. *)
Context (url_ok : string → bool).

Definition ticketing_app (cfg : TicketConfig) : BookingService :=
  NewBookingService
    (NewClient (tcf_PaymentServiceURL cfg) (tcf_InternalAPIKey cfg) (tcf_PaymentTimeoutSec cfg)
       (url_ok (tcf_PaymentServiceURL cfg)))
    (tcf_ReservationTTL cfg).

Definition ticketing_server (cfg : TicketConfig) : server BookingService :=
  mkServer (":" +:+ tcf_Port cfg) common_middleware
    [("/api/events/health", "ticketing-service"); ("/api/bookings/health", "ticketing-service")]
    (ticketing_app cfg).

Definition ticketing_main : prog (bootE TicketConfig BookingService) Z :=
  cfg ←exit do_call ParseEnv;
  or_exit (Validate cfg) (λ _,
  _ ←exit do_call (InitTelemetry "ticketing-service" (tcf_AppEnv cfg));
  _ ←exit do_call (NewPool (tcf_DatabaseURL cfg));
  let kafkaBrokers := split_on ","%char "" (tcf_KafkaBrokers cfg) in
  _ ←exit ensure_topics_of kafkaBrokers ticketing_topics;
  _ ← do_call (Go (GoWorker (NewWorker (tcf_OutboxConcurrency cfg) (tcf_OutboxPollMs cfg))));
  _ ← do_call (Go (GoConsumers (TicketingConsumer_Start "ticketing-service"
                                  (tcf_ConsumerConcurrency cfg))));
  _ ← do_call (ListenAndServe (ticketing_server cfg));
  graceful_stop true).
End ticketing.

(** ** Auth *)

Section auth.
Context `{!JWT, !Bcrypt}.

Definition accessTokenTTL : Z := 15 * Minute.
Definition refreshTokenTTL : Z := 7 * 24 * Hour.

Definition auth_server (cfg : AuthConfig) (svc : AuthService) : server AuthService :=
  mkServer (":" +:+ acf_Port cfg) (common_middleware ++ [UserContext])
    [("/api/auth/health", "auth-service")] svc.

Definition auth_main : prog (bootE AuthConfig AuthService) Z :=
  cfg ←exit do_call ParseEnv;
  or_exit (Validate cfg) (λ _,
  _ ←exit do_call (InitTelemetry "auth-service" (acf_AppEnv cfg));
  or_exit (NewTokenService (acf_JWTPrivateKey cfg) (acf_JWTPublicKey cfg) accessTokenTTL)
    (λ tokenSvc,
  _ ←exit do_call (NewPool (acf_DatabaseURL cfg));
  let authSvc := mkAuthService tokenSvc refreshTokenTTL in
  or_exit (AdminSeeds cfg) (λ admins,
  seeded ← (if bool_decide (admins = []) then Ret (Ok 0)
            else '(created, err) ← do_call (SeedDatabase admins);
                 Ret (if err is Some e then Err e else Ok created));
  or_exit seeded (λ _,
  _ ← do_call (ListenAndServe (auth_server cfg authSvc));
  graceful_stop false)))).
End auth.

(** ** The calls of a start, in order *)

Lemma traced_requested {A} cluster (p : prog kafkaE A) :
  (traced cluster p).2 = (requested cluster p).2.
Proof.
  induction p as [a|B e k IH]; cbn; [done|]. specialize (IH (cluster _ e)).
  destruct (traced _ _), (requested _ _). done.
Qed.

Section order.
Context {C R : Type}.
Local Abbreviation call_of := ({B & bootE C R B}).

(** The stages of a process. *)
Definition stage (c : call_of) : nat :=
  match projT2 c with
  | ParseEnv => 0
  | InitTelemetry _ _ => 1
  | NewPool _ => 2
  | KafkaAdmin _ | SeedDatabase _ => 3
  | Go _ => 4
  | ListenAndServe _ => 5
  | AwaitSignal => 6
  | CancelContext => 7
  | Shutdown => 8
  | ShutdownTelemetry => 9
  | CloseConsumer => 10
  | ClosePool => 11
  end.

(** The calls from the first goroutine on. *)
Definition up (tr : list call_of) : list call_of := filter (λ c, 4 ≤ stage c)%nat tr.
(** No call comes after one of a later stage. *)
Definition in_order (tr : list call_of) : Prop := StronglySorted le (stage <$> tr).
Definition call_ {B} (e : bootE C R B) : call_of := existT B e.

(** The cluster behind the Kafka calls. *)
Definition cluster (env : ∀ B, bootE C R B → B) : ∀ B, kafkaE B → B :=
  λ B k, env B (KafkaAdmin k).

(** The requests to the cluster are one stage. *)
Lemma traced_topics env brokers topics (rest : prog (bootE C R) Z) :
  ∃ ks : list call_of, Forall (λ c, stage c = 3%nat) ks ∧
    traced env (_ ←exit ensure_topics_of brokers topics; rest) =
    if is_ok (requested (cluster env) (EnsureTopics (default "" (head brokers)) topics 4 3)).2
    then (ks ++ (traced env rest).1, (traced env rest).2) else (ks, 1).
Proof.
  rewrite traced_bind, <- traced_requested. unfold ensure_topics_of.
  generalize (EnsureTopics (default "" (head brokers)) topics 4 3) as p.
  induction p as [[u|e]|B e k IH]; cbn.
  - exists []. split; [constructor|done].
  - exists []. split; [constructor|done].
  - destruct (IH (cluster env B e)) as (ks & Hks & Htr).
    exists (existT B (KafkaAdmin e) :: ks). split; [by constructor|].
    change (env B (KafkaAdmin e)) with (cluster env B e).
    destruct (traced env (interp _ _)) as [t r], (traced (cluster env) (k (cluster env B e))) as [t' r'].
    cbn in *. destruct (is_ok r'); injection Htr as -> ->; done.
Qed.

Lemma up_topics (ks after : list call_of) :
  Forall (λ c, stage c = 3%nat) ks → up (ks ++ after) = up after.
Proof.
  intros Hks. unfold up. rewrite filter_app.
  replace (filter (λ c, 4 ≤ stage c)%nat ks) with (@nil call_of); [done|].
  induction Hks as [|c ks Hc _ IH]; [done|]. rewrite filter_cons_False by lia. done.
Qed.

Lemma sorted_topics (ks after : list call_of) :
  Forall (λ c, stage c = 3%nat) ks → StronglySorted le (stage <$> after) →
  Forall (λ c, 3 ≤ stage c)%nat after →
  StronglySorted le (stage <$> ks ++ after) ∧ Forall (λ c, 3 ≤ stage c)%nat (ks ++ after).
Proof.
  intros Hks Hs Hf. induction Hks as [|c ks Hc _ [IHs IHf]]; [done|]. split.
  - rewrite <- app_comm_cons, fmap_cons, Hc. constructor; [done|]. by apply Forall_fmap.
  - constructor; [lia|done].
Qed.

(** Three calls, the requests and what follows them. *)
Lemma up_start (c0 c1 c2 : call_of) ks after :
  stage <$> [c0; c1; c2] = [0; 1; 2]%nat → Forall (λ c, stage c = 3%nat) ks →
  up (c0 :: c1 :: c2 :: ks ++ after) = up after.
Proof.
  intros [= H0 H1 H2] Hks. rewrite <- (up_topics ks after Hks). unfold up.
  rewrite !filter_cons_False by lia. done.
Qed.

Lemma sorted_start (c0 c1 c2 : call_of) ks after :
  stage <$> [c0; c1; c2] = [0; 1; 2]%nat → Forall (λ c, stage c = 3%nat) ks →
  StronglySorted le (stage <$> after) → Forall (λ c, 3 ≤ stage c)%nat after →
  in_order (c0 :: c1 :: c2 :: ks ++ after).
Proof.
  unfold in_order. intros [= H0 H1 H2] Hks Hs Hf. destruct (sorted_topics ks after Hks Hs Hf) as [Hs' Hf'].
  rewrite !fmap_cons, H0, H1, H2.
  assert (∀ n, n ≤ 3 → Forall (le n) (stage <$> ks ++ after))%nat as Hle.
  { intros n Hn. apply Forall_fmap. eapply Forall_impl; [done|]. cbn. lia. }
  repeat constructor; try done; apply Hle; lia.
Qed.
End order.

(** ** Start and stop *)

Lemma NewConsumer_workers n : NewConsumer [WithConcurrency n] = Z.max 1 n.
Proof. cbn. unfold WithConcurrency. case_bool_decide; lia. Qed.

Ltac boot_cbn :=
  cbn -[up in_order ensure_topics_of Validate requested EnsureTopics NewConsumer NewTokenService
        AdminSeeds].
(** A call that fails ends the process before anything is up. *)
Ltac boot_fails := by unfold in_order; repeat constructor.
(** How a process that is up ends: the calls and the exit code. *)
Definition ending {C R} (env : ∀ B, bootE C R B → B) (consuming : bool) : list {B & bootE C R B} * Z :=
  let cancel := if consuming then [call_ CancelContext] else [] in
  if is_ok (env _ AwaitSignal) then
    if is_ok (env _ Shutdown) then
      (call_ AwaitSignal :: cancel ++ [call_ Shutdown; call_ ShutdownTelemetry] ++
         (if consuming then [call_ CloseConsumer] else []) ++ [call_ ClosePool], 0)
    else (call_ AwaitSignal :: cancel ++ [call_ Shutdown], 1)
  else ([call_ AwaitSignal], 1).
Ltac boot_ends env :=
  unfold ending; destruct (env _ AwaitSignal) as [[]|?]; boot_cbn; [destruct (env _ Shutdown) as [[]|?]; boot_cbn|].

(** The requests to the cluster, and the two ways on from there. *)
Ltac boot_topics env :=
  edestruct (traced_topics env) as (?ks & ?Hks & ?Htr); rewrite Htr; clear Htr;
  destruct (is_ok (requested _ _).2); boot_cbn;
    [boot_ends env|rewrite <- (app_nil_r ks)];
  rewrite up_start by done;
  (split; [apply sorted_start; [done|done|repeat constructor..]|done]).

(** What payment needs to come up, as a reference definition. *)
Definition payment_ready (env : ∀ B, bootE PayConfig PaymentApp B → B) : option PayConfig :=
  match env _ ParseEnv with
  | Err _ => None
  | Ok cfg =>
      if is_ok (Validate cfg) &&
         is_ok (env _ (InitTelemetry "payment-service" (pcf_AppEnv cfg))) &&
         is_ok (env _ (NewPool (pcf_DatabaseURL cfg))) &&
         is_ok (requested (cluster env)
                  (EnsureTopics (default "" (head (split_on ","%char "" (pcf_KafkaBrokers cfg))))
                     payment_topics 4 3)).2
      then Some cfg else None
  end.

(** Payment comes up in order or not at all: against any environment, telemetry
    is initialised before the pool is opened and the topics are there before
    anything runs.  When the configuration, telemetry, the pool or a topic fails
    the process exits with code 1 and has started nothing; otherwise it starts its
    worker, its consumer, its poller and its server, which traces a request before
    it is logged, and on a signal stops server, telemetry, consumer and pool in
    this order with code 0.  If the server fails before it is shut down, which
    includes an address that is in use, the process ends there with code 1, with
    everything else running and nothing closed. *)
Theorem payment_starts (env : ∀ B, bootE PayConfig PaymentApp B → B) :
  let '(tr, code) := traced env payment_main in
  in_order tr ∧
  match payment_ready env with
  | None => code = 1 ∧ up tr = []
  | Some cfg =>
      code = (ending env true).2 ∧
      up tr =
        [call_ (Go (GoWorker (NewWorker (pcf_OutboxConcurrency cfg) (pcf_OutboxPollMs cfg))));
         call_ (Go (GoConsumers [mkConsumer "event.cancelled" "payment-service"
                                   (Z.max 1 (pcf_ConsumerConcurrency cfg))]));
         call_ (Go (GoPoller (expiry_interval (pcf_ExpiryPollSec cfg))));
         call_ (ListenAndServe (mkServer (":" +:+ pcf_Port cfg)
           [RequestID; OTelMiddleware; RequestLogger; Recoverer]
           [("/api/payments/health", "payment-service")] (payment_app cfg)))] ++ (ending env true).1
  end.
Proof.
  unfold payment_ready, payment_main, PaymentConsumer_Start, startConsumer. boot_cbn.
  destruct (env _ ParseEnv) as [cfg|e]; boot_cbn; [|boot_fails].
  rewrite !NewConsumer_workers.
  destruct (Validate cfg) as [[]|e]; boot_cbn; [|boot_fails].
  destruct (env _ (InitTelemetry _ _)) as [[]|e]; boot_cbn; [|boot_fails].
  destruct (env _ (NewPool _)) as [[]|e]; boot_cbn; [|boot_fails].
  boot_topics env.
Qed.

Definition ticketing_ready (env : ∀ B, bootE TicketConfig BookingService B → B) :
    option TicketConfig :=
  match env _ ParseEnv with
  | Err _ => None
  | Ok cfg =>
      if is_ok (Validate cfg) &&
         is_ok (env _ (InitTelemetry "ticketing-service" (tcf_AppEnv cfg))) &&
         is_ok (env _ (NewPool (tcf_DatabaseURL cfg))) &&
         is_ok (requested (cluster env)
                  (EnsureTopics (default "" (head (split_on ","%char "" (tcf_KafkaBrokers cfg))))
                     ticketing_topics 4 3)).2
      then Some cfg else None
  end.

(** Ticketing comes up in the same order or not at all, with its worker, the
    consumers of its three topics and its server, and ends in the same ways. *)
Theorem ticketing_starts url_ok (env : ∀ B, bootE TicketConfig BookingService B → B) :
  let '(tr, code) := traced env (ticketing_main url_ok) in
  in_order tr ∧
  match ticketing_ready env with
  | None => code = 1 ∧ up tr = []
  | Some cfg =>
      let workers := Z.max 1 (tcf_ConsumerConcurrency cfg) in
      code = (ending env true).2 ∧
      up tr =
        [call_ (Go (GoWorker (NewWorker (tcf_OutboxConcurrency cfg) (tcf_OutboxPollMs cfg))));
         call_ (Go (GoConsumers [mkConsumer "payment.completed" "ticketing-service" workers;
                                 mkConsumer "payment.expired" "ticketing-service" workers;
                                 mkConsumer "event.cancelled" "ticketing-service" workers]));
         call_ (ListenAndServe (mkServer (":" +:+ tcf_Port cfg)
           [RequestID; OTelMiddleware; RequestLogger; Recoverer]
           [("/api/events/health", "ticketing-service");
            ("/api/bookings/health", "ticketing-service")] (ticketing_app url_ok cfg)))] ++ (ending env true).1
  end.
Proof.
  unfold ticketing_ready, ticketing_main, TicketingConsumer_Start, startConsumer. boot_cbn.
  destruct (env _ ParseEnv) as [cfg|e]; boot_cbn; [|boot_fails].
  rewrite !NewConsumer_workers.
  destruct (Validate cfg) as [[]|e]; boot_cbn; [|boot_fails].
  destruct (env _ (InitTelemetry _ _)) as [[]|e]; boot_cbn; [|boot_fails].
  destruct (env _ (NewPool _)) as [[]|e]; boot_cbn; [|boot_fails].
  boot_topics env.
Qed.

Section auth_start.
Context `{!JWT, !Bcrypt}.

(** What auth needs to come up: also its keys, and the administrators seeded. *)
Definition auth_ready (env : ∀ B, bootE AuthConfig AuthService B → B) :
    option (AuthConfig * AuthService) :=
  match env _ ParseEnv with
  | Err _ => None
  | Ok cfg =>
      match NewTokenService (acf_JWTPrivateKey cfg) (acf_JWTPublicKey cfg) accessTokenTTL,
            AdminSeeds cfg with
      | Ok tokenSvc, Ok admins =>
          if is_ok (Validate cfg) &&
             is_ok (env _ (InitTelemetry "auth-service" (acf_AppEnv cfg))) &&
             is_ok (env _ (NewPool (acf_DatabaseURL cfg))) &&
             (bool_decide (admins = []) ||
              bool_decide ((env _ (SeedDatabase admins)).2 = None))
          then Some (cfg, mkAuthService tokenSvc refreshTokenTTL) else None
      | _, _ => None
      end
  end.

(** Auth comes up in order or not at all: it listens exactly when its configuration,
    keys, telemetry and pool are fine and its administrators are seeded, and
    it seeds them before it listens; it ends in the same ways. *)
Theorem auth_starts (env : ∀ B, bootE AuthConfig AuthService B → B) :
  let '(tr, code) := traced env auth_main in
  in_order tr ∧
  match auth_ready env with
  | None => code = 1 ∧ up tr = []
  | Some (cfg, svc) =>
      code = (ending env false).2 ∧
      up tr = [call_ (ListenAndServe (mkServer (":" +:+ acf_Port cfg)
                 [RequestID; OTelMiddleware; RequestLogger; Recoverer; UserContext]
                 [("/api/auth/health", "auth-service")] svc))] ++ (ending env false).1
  end.
Proof.
  unfold auth_ready, auth_main. boot_cbn.
  destruct (env _ ParseEnv) as [cfg|e]; boot_cbn; [|boot_fails].
  destruct (Validate cfg) as [[]|e] eqn:Hv; boot_cbn.
  2:{ repeat case_match; boot_fails. }
  destruct (Validate_auth cfg Hv) as (admins & Hs & _). rewrite Hs.
  destruct (env _ (InitTelemetry _ _)) as [[]|e]; boot_cbn; [|repeat case_match; boot_fails].
  destruct (NewTokenService _ _ _) as [tokenSvc|e]; boot_cbn; [|boot_fails].
  destruct (env _ (NewPool _)) as [[]|e]; boot_cbn; [|boot_fails].
  case_bool_decide; boot_cbn; [boot_ends env; boot_fails|].
  destruct (env _ (SeedDatabase admins)) as [n [e|]]; boot_cbn; [boot_fails|boot_ends env; boot_fails].
Qed.
End auth_start.
