(* ===== verification/TestInfra.v ===== *)
(** * The infrastructure of the integration tests

    [testinfra] ([pkg/testinfra]): [Start], [Migrate] and [Close] as programs
    over the calls they make to the file system, to testcontainers and to pgx,
    whose containers, pools and producers are parameters.  Directories are
    lists of names from the root, as [os.Getwd] gives absolute paths;
    [kafka.EnsureTopics] is one call here and a program in [Kafka]. *)
From Stdlib Require Import Ascii.
From S2P Require Import Prelude Effects Telemetry Startup.

(** ** Paths and names *)

Abbreviation dirname := (list string).
Definition dir_text (d : dirname) : string :=
  match d with [] => "/" | _ => String.concat "" ((λ n, "/" +:+ n) <$> d) end.

(** [%q] of a text without control characters. *)
Definition quote_char : ascii := "034"%char.
Fixpoint escaped (s : string) : string :=
  match s with
  | EmptyString => ""
  | String c s =>
      if bool_decide (c = quote_char) || bool_decide (c = "\"%char)
      then String "\" (String c (escaped s)) else String c (escaped s)
  end.
Definition quoted (s : string) : string := String quote_char (escaped s +:+ String quote_char "").

(** [sort.Strings]. *)
Definition name_le (a b : string) : Prop := String.leb a b = true.
#[export] Instance name_le_dec a b : Decision (name_le a b) := bool_eq_dec _ _.
Definition sort_Strings (l : list string) : list string := merge_sort name_le l.

Definition Topics : list string :=
  ["event.cancelled"; "ticket.issued"; "payment.completed"; "payment.expired"].
Definition smokeTopic : string := "test-smoke".
Definition clusterID : string := "5L6g3nShT-eMCtK--X86sw".

(** ** The calls *)

Section infra.
Context {container pool producer : Type}.

(** What a module's [Run] returns: with an error there may be a container that
    was started all the same. *)
Inductive run_answer :=
  | Running (c : container)
  | RunFailed (c : option container) (e : error).

Inductive infraE : Type → Type :=
  | Getwd : infraE (res dirname)
  | IsDir (d : dirname) : infraE bool
  | ReadDir (d : dirname) : infraE (res (list string))
  | ReadFile (d : dirname) (name : string) : infraE (res string)
  | RunPostgres (image user password database : string) : infraE run_answer
  | Host (c : container) : infraE (res string)
  | MappedPort (c : container) (port : string) : infraE (res string)
  | RunKafka (image cluster : string) : infraE run_answer
  | Brokers (c : container) : infraE (res (list string))
  | Terminate (c : container) : infraE (res unit)
  | NewPool (dsn : string) : infraE (res pool)
  | PingPool (p : pool) : infraE (res unit)
  | Exec (p : pool) (sql : string) : infraE (res unit)
  | ClosePool (p : pool) : infraE unit
  | EnsureTopics (brokers topics : list string) (partitions replication : Z) : infraE (res unit)
  | NewProducer (brokers : list string) : infraE producer
  | Produce (p : producer) (topic key : string) (value : list (string * string)) : infraE (res unit)
  | CloseProducer (p : producer) : infraE (res unit)
  | Sleep (d : Z) : infraE unit.
Abbreviation iprog := (prog infraE).
Definition icall {B} (e : infraE B) : iprog B := Vis e Ret.

Record Infra := mkInfra {
  if_Pool : option pool;
  if_Brokers : list string;
  if_Producer : option producer;
  if_pg : option container;
  if_kafka : option container;
}.

Record config := mkConfig { cf_withKafka : bool }.
Definition Option_ : Type := config → config.
Definition WithoutKafka : Option_ := λ _, mkConfig false.

(** ** The operations *)

(** [Infra.Close]. *)
Definition if_some {A} (o : option A) (f : A → iprog unit) : iprog unit :=
  match o with Some a => f a | None => Ret () end.
Definition Close (i : Infra) : iprog unit :=
  _ ← if_some (if_Producer i) (λ p, _ ← icall (CloseProducer p); Ret ());
  _ ← if_some (if_Pool i) (λ p, icall (ClosePool p));
  _ ← if_some (if_kafka i) (λ c, _ ← icall (Terminate c); Ret ());
  if_some (if_pg i) (λ c, _ ← icall (Terminate c); Ret ()).

(** The loop of [MigrationsDir]: [up] is the directory from its last name to
    its first. *)
Fixpoint find_up (service : string) (up : list string) : iprog (res dirname) :=
  let candidate := reverse up ++ ["migrations"; service] in
  found ← icall (IsDir candidate);
  if (found : bool) then Ret (Ok candidate)
  else
    match up with
    | [] => Ret (Err (Plain ("migrations dir for " +:+ quoted service +:+ " not found above /")))
    | _ :: up => find_up service up
    end.

Definition MigrationsDir (service : string) : iprog (res dirname) :=
  wd ← icall Getwd;
  match wd with
  | Err e => Ret (Err (Wrapped "working directory: " e ""))
  | Ok dir => find_up service (reverse dir)
  end.

Fixpoint apply_files (p : pool) (dir : dirname) (files : list string) : iprog (res unit) :=
  match files with
  | [] => Ret (Ok ())
  | f :: files =>
      r ← icall (ReadFile dir f);
      match r with
      | Err e => Ret (Err (Wrapped ("read " +:+ f +:+ ": ") e ""))
      | Ok sql =>
          x ← icall (Exec p sql);
          match x with
          | Err e => Ret (Err (Wrapped ("apply " +:+ f +:+ ": ") e (String "010" sql)))
          | Ok _ => apply_files p dir files
          end
      end
  end.

Definition migrations_of (entries : list string) : list string :=
  sort_Strings (filter (λ n, HasSuffix n ".up.sql" = true) entries).
Definition Migrate (p : pool) (dir : dirname) : iprog (res unit) :=
  entries ← icall (ReadDir dir);
  match entries with
  | Err e => Ret (Err (Wrapped ("read migrations dir " +:+ dir_text dir +:+ ": ") e ""))
  | Ok entries => apply_files p dir (migrations_of entries)
  end.

Definition startPostgres (service : string) : iprog (res (string * container)) :=
  r ← icall (RunPostgres "postgres:16-alpine" "ticketsaas" "ticketsaas" (service +:+ "_db"));
  match r with
  | RunFailed _ e => Ret (Err (Wrapped "postgres: " e ""))
  | Running c =>
      _ ← icall (Sleep (2 * Second));
      h ← icall (Host c);
      match h with
      | Err e => Ret (Err (Wrapped "postgres host: " e ""))
      | Ok host =>
          p ← icall (MappedPort c "5432");
          match p with
          | Err e => Ret (Err (Wrapped "postgres port: " e ""))
          | Ok port =>
              Ret (Ok ("postgres://ticketsaas:ticketsaas@" +:+ host +:+ ":" +:+ port +:+ "/" +:+
                       service +:+ "_db?sslmode=disable", c))
          end
      end
  end.

(** The attempts of [openPool]; [err] is the error of the one before. *)
Fixpoint openPool_loop (dsn : string) (attempts : nat) (first : bool) (err : error) : iprog (res pool) :=
  match attempts with
  | O => Ret (Err (Wrapped "connect after retries: " err ""))
  | S attempts =>
      _ ← (if first then Ret () else icall (Sleep Second));
      made ← icall (NewPool dsn);
      match made with
      | Err err => openPool_loop dsn attempts false err
      | Ok p =>
          r ← icall (PingPool p);
          match r with
          | Ok _ => Ret (Ok p)
          | Err err => _ ← icall (ClosePool p); openPool_loop dsn attempts false err
          end
      end
  end.
Definition openPool (dsn : string) : iprog (res pool) := openPool_loop dsn 10 true (Plain "").

(** The module reports one broker. *)
Definition startKafka : iprog (res (list string * container)) :=
  r ← icall (RunKafka "confluentinc/cp-kafka:7.7.0" clusterID);
  match r with
  | RunFailed _ e => Ret (Err (Wrapped "kafka: " e ""))
  | Running c =>
      b ← icall (Brokers c);
      match b with
      | Err e => Ret (Err (Wrapped "kafka brokers: " e ""))
      | Ok brokers => Ret (Ok ([default "" (head brokers)], c))
      end
  end.

(** [for attempt := 1; ; attempt++]: [more] attempts after this one. *)
Fixpoint retry (action : iprog (res unit)) (pause : Z) (more : nat) : iprog (res unit) :=
  r ← action;
  match r, more with
  | Ok _, _ => Ret (Ok ())
  | Err e, O => Ret (Err e)
  | Err _, S more => _ ← icall (Sleep pause); retry action pause more
  end.

Definition fail_closed {A} (i : Infra) (e : error) : iprog (res A) := _ ← Close i; Ret (Err e).

(** The part of [Start] that boots Kafka. *)
Definition boot_kafka (i : Infra) : iprog (res Infra) :=
  k ← startKafka;
  match k with
  | Err e => fail_closed i e
  | Ok (brokers, kc) =>
      let i := mkInfra (if_Pool i) brokers (if_Producer i) (if_pg i) (Some kc) in
      t ← retry (icall (EnsureTopics brokers (Topics ++ [smokeTopic]) 1 1)) (2 * Second) 14;
      match t with
      | Err e => fail_closed i (Wrapped "kafka: ensure topics failed after 15 retries: " e "")
      | Ok _ =>
          p ← icall (NewProducer brokers);
          let i := mkInfra (if_Pool i) brokers (Some p) (if_pg i) (if_kafka i) in
          s ← retry (icall (Produce p smokeTopic "healthcheck" [("ping", "pong")])) Second 19;
          match s with
          | Err e => fail_closed i (Wrapped "kafka: smoke test failed after 20 retries: " e "")
          | Ok _ => Ret (Ok i)
          end
      end
  end.

Definition Start (service : string) (opts : list Option_) : iprog (res Infra) :=
  let cfg := foldl (λ c opt, opt c) (mkConfig true) opts in
  migrationsDir ←? MigrationsDir service;
  pg ←? startPostgres service;
  let i := mkInfra None [] None (Some pg.2) None in
  opened ← openPool pg.1;
  match opened with
  | Err e => fail_closed i e
  | Ok p =>
      let i := mkInfra (Some p) [] None (Some pg.2) None in
      m ← Migrate p migrationsDir;
      match m with
      | Err e => fail_closed i e
      | Ok _ => if cf_withKafka cfg then boot_kafka i else Ret (Ok i)
      end
  end.

(** ** What is open *)

Inductive resource :=
  | RContainer (c : container)
  | RPool (p : pool)
  | RProducer (p : producer).

(** A call with its answer. *)
Record called := mkCalled { ca_type : Type; ca_call : infraE ca_type; ca_answer : ca_type }.

Definition opened_by (ev : called) : list resource :=
  match ca_call ev in infraE B return B → list resource with
  | RunPostgres _ _ _ _ | RunKafka _ _ => λ r,
      match r with Running c => [RContainer c] | RunFailed o _ => RContainer <$> option_list o end
  | NewPool _ => λ r, match r with Ok p => [RPool p] | Err _ => [] end
  | NewProducer _ => λ p, [RProducer p]
  | _ => λ _, []
  end (ca_answer ev).
Definition closed_by (ev : called) : list resource :=
  match ca_call ev with
  | Terminate c => [RContainer c]
  | ClosePool p => [RPool p]
  | CloseProducer p => [RProducer p]
  | _ => []
  end.
(** A container that [Start] lets go of: one that [Run] returned with an error,
    and one whose address is not found. *)
Definition dropped_by (ev : called) : list resource :=
  match ca_call ev in infraE B return B → list resource with
  | RunPostgres _ _ _ _ | RunKafka _ _ => λ r,
      if r is RunFailed o _ then RContainer <$> option_list o else []
  | Host c | MappedPort c _ => λ r, if is_ok r then [] else [RContainer c]
  | Brokers c => λ r, if is_ok r then [] else [RContainer c]
  | _ => λ _, []
  end (ca_answer ev).
Definition opened (calls : list called) : list resource := calls ≫= opened_by.
Definition closed (calls : list called) : list resource := calls ≫= closed_by.
Definition dropped (calls : list called) : list resource := calls ≫= dropped_by.

Definition held (i : Infra) : list resource :=
  (RProducer <$> option_list (if_Producer i)) ++ (RPool <$> option_list (if_Pool i)) ++
  (RContainer <$> option_list (if_kafka i)) ++ (RContainer <$> option_list (if_pg i)).

(** The runs of a program, with every answer. *)
Fixpoint runs_with {A} (p : iprog A) (calls : list called) (r : A) : Prop :=
  match p with
  | Ret a => calls = [] ∧ r = a
  | Vis e k => ∃ a calls', calls = mkCalled _ e a :: calls' ∧ runs_with (k a) calls' r
  end.

(** With [live] open, the program closes and drops only what is open, and ends
    with [Q]: a weakest precondition over all answers. *)
Fixpoint settles {A} (p : iprog A) (live : list resource) (Q : A → list resource → Prop) : Prop :=
  match p with
  | Ret a => Q a live
  | Vis e k => ∀ a, let ev := mkCalled _ e a in ∃ rest,
      opened_by ev ++ live ≡ₚ closed_by ev ++ dropped_by ev ++ rest ∧
      closed_by ev ⊆+ live ∧ settles (k a) rest Q
  end.

Lemma settles_bind {A B} (f : A → iprog B) p live Q :
  settles p live (λ a l, settles (f a) l Q) → settles (prog_bind f p) live Q.
Proof.
  revert live. induction p as [a|X e k IH]; intros live; cbn; [done|].
  intros Hp a. destruct (Hp a) as (rest & Hl & Hc & Hk). exists rest. split_and!; [done..|by apply IH].
Qed.

Lemma settles_mono {A} (p : iprog A) live (Q Q' : A → list resource → Prop) :
  (∀ a l, Q a l → Q' a l) → settles p live Q → settles p live Q'.
Proof.
  intros HQ. revert live. induction p as [a|X e k IH]; intros live; cbn; [apply HQ|].
  intros Hp a. destruct (Hp a) as (rest & Hl & Hc & Hk). exists rest. split_and!; [done..|by apply IH].
Qed.

(** A call that neither opens, closes nor drops anything, with one answer or any. *)
Definition no_effect (ev : called) : Prop := opened_by ev = [] ∧ closed_by ev = [] ∧ dropped_by ev = [].
Definition bystander {B} (e : infraE B) : Prop := ∀ a, no_effect (mkCalled B e a).

Lemma settles_step (ev : called) live (P : list resource → Prop) :
  no_effect ev → P live →
  ∃ rest, opened_by ev ++ live ≡ₚ closed_by ev ++ dropped_by ev ++ rest ∧ closed_by ev ⊆+ live ∧ P rest.
Proof. intros (-> & -> & ->) HP. exists live. split_and!; [done|apply submseteq_nil_l|done]. Qed.

Lemma settles_call {A B} (e : infraE B) (k : B → iprog A) live Q :
  bystander e → (∀ a, settles (k a) live Q) → settles (Vis e k) live Q.
Proof. intros He Hk a ev. apply (settles_step ev live (λ rest, settles (k a) rest Q)); [apply He|apply Hk]. Qed.

(** A call that closes one thing. *)
Lemma settles_close {A B} (e : infraE B) (k : B → iprog A) x live rest Q :
  (∀ a, let ev := mkCalled B e a in opened_by ev = [] ∧ closed_by ev = [x] ∧ dropped_by ev = []) →
  live ≡ₚ x :: rest → (∀ a, settles (k a) rest Q) → settles (Vis e k) live Q.
Proof.
  intros He Hl Hk a ev. subst ev. destruct (He a) as (-> & -> & ->). exists rest. split_and!; [done| |done].
  rewrite Hl. apply submseteq_skip, submseteq_nil_l.
Qed.

(** Soundness: nothing is closed that is not open, at any moment of a run, and
    what is left at the end is what [Q] says. *)
Lemma settles_sound {A} (p : iprog A) live Q calls r :
  settles p live Q → runs_with p calls r →
  (∃ rest, live ++ opened calls ≡ₚ closed calls ++ dropped calls ++ rest ∧ Q r rest) ∧
  ∀ n, closed (take n calls) ⊆+ live ++ opened (take n calls).
Proof.
  revert live calls. induction p as [a|X e k IH]; intros live calls; cbn.
  - intros HQ [-> ->]. split; [exists live; split; [|done]; change (live ++ [] ≡ₚ live); by rewrite app_nil_r|].
    intros n. rewrite take_nil. apply submseteq_nil_l.
  - intros Hp (a & calls' & -> & Hrun). destruct (Hp a) as (rest & Hl & Hc & Hk).
    destruct (IH a _ _ Hk Hrun) as [(end_ & Hend & HQ) Hpre].
    unfold opened, closed, dropped in *. cbn. set (ev := mkCalled X e a) in *. split.
    + exists end_. split; [|done].
      transitivity ((closed_by ev ++ dropped_by ev ++ rest) ++ (calls' ≫= opened_by)).
      { rewrite <- Hl. solve_Permutation. }
      transitivity (closed_by ev ++ dropped_by ev ++ (rest ++ (calls' ≫= opened_by))); [solve_Permutation|].
      rewrite Hend. solve_Permutation.
    + intros [|n]; cbn; [apply submseteq_nil_l|].
      transitivity (closed_by ev ++ dropped_by ev ++ (rest ++ (take n calls' ≫= opened_by))).
      * apply submseteq_app; [done|]. etrans; [apply Hpre|]. by apply submseteq_inserts_l.
      * apply Permutation_submseteq.
        transitivity ((closed_by ev ++ dropped_by ev ++ rest) ++ (take n calls' ≫= opened_by)); [solve_Permutation|].
        rewrite <- Hl. solve_Permutation.
Qed.

(** Programs that open, close and drop nothing. *)
Fixpoint idle {A} (p : iprog A) : Prop :=
  match p with Ret _ => True | Vis e k => bystander e ∧ ∀ a, idle (k a) end.

Lemma idle_bind {A B} (f : A → iprog B) p : idle p → (∀ a, idle (f a)) → idle (prog_bind f p).
Proof. intros Hp Hf. induction p as [a|X e k IH]; cbn; [apply Hf|]. destruct Hp. auto. Qed.

Lemma settles_idle {A} (p : iprog A) live : idle p → settles p live (λ _ l, l = live).
Proof.
  induction p as [a|X e k IH]; [done|]. intros [He Hk]. apply settles_call; [done|]. auto.
Qed.

Lemma idle_call {B} (e : infraE B) : bystander e → idle (icall e).
Proof. by split. Qed.

Lemma idle_MigrationsDir service : idle (MigrationsDir service).
Proof.
  split; [done|]. intros [dir|e]; [|done]. change (idle (find_up service (reverse dir))).
  induction (reverse dir) as [|n up IH]; cbn [find_up]; (split; [done|]; intros []; [done|]); [done|exact IH].
Qed.

Lemma idle_Migrate p dir : idle (Migrate p dir).
Proof.
  split; [done|]. intros [entries|e]; [|done].
  change (idle (apply_files p dir (migrations_of entries))).
  induction (migrations_of entries) as [|f files IH]; cbn [apply_files]; [done|].
  split; [done|]. intros [sql|e]; [|done]. split; [done|]. by intros [[]|e].
Qed.

Lemma idle_retry action pause more : idle action → idle (retry action pause more).
Proof.
  intros Ha. induction more as [|more IH]; cbn [retry]; (apply idle_bind; [done|]); intros [[]|e]; done.
Qed.

(** ** Nothing is left running *)

(** What a failed or finished start leaves. *)
Definition left_by (r : res Infra) : list resource :=
  match r with Ok i => held i | Err _ => [] end.

Lemma settles_if_some {A} (o : option A) (f : A → iprog unit) R live rest :
  live ≡ₚ (R <$> option_list o) ++ rest →
  (∀ a l Q, l ≡ₚ R a :: rest → (∀ l', l' ≡ₚ rest → Q () l') → settles (f a) l Q) →
  settles (if_some o f) live (λ _ l, l ≡ₚ rest).
Proof. intros Hl Hf. destruct o as [a|]; cbn in *; [|done]. by apply Hf. Qed.

Lemma settles_Close i live :
  live ≡ₚ held i → settles (Close i) live (λ _ l, l = []).
Proof.
  intros Hl. unfold Close, held in *.
  apply settles_bind. eapply settles_mono; [|apply (settles_if_some _ _ RProducer _ _ Hl)].
  2:{ intros p l Q Hp HQ. eapply settles_close; [done|exact Hp|]. intros a. by apply HQ. }
  clear live Hl. intros [] live Hl.
  apply settles_bind. eapply settles_mono; [|apply (settles_if_some _ _ RPool _ _ Hl)].
  2:{ intros p l Q Hp HQ. eapply settles_close; [done|exact Hp|]. intros []. by apply HQ. }
  clear live Hl. intros [] live Hl.
  apply settles_bind. eapply settles_mono; [|apply (settles_if_some _ _ RContainer _ _ Hl)].
  2:{ intros p l Q Hp HQ. eapply settles_close; [done|exact Hp|]. intros a. by apply HQ. }
  clear live Hl. intros [] live Hl.
  eapply settles_mono; [|apply (settles_if_some _ _ RContainer live [])].
  - intros [] l Hl'. by apply Permutation_nil_r.
  - by rewrite app_nil_r.
  - intros p l Q Hp HQ. eapply settles_close; [done|exact Hp|]. intros a. by apply HQ.
Qed.

Lemma Close_drops i calls u : runs_with (Close i) calls u → dropped calls = [].
Proof.
  intros Hrun. destruct i as [[po|] bs [pr|] [pg|] [kf|]]; cbn in Hrun; destruct_and?;
    repeat match goal with
    | H : ∃ _, _ |- _ => destruct H
    | H : _ ∧ _ |- _ => destruct H
    end; subst; done.
Qed.

Lemma settles_fail {A} i e live (Q : res A → list resource → Prop) :
  live ≡ₚ held i → Q (Err e) [] → settles (fail_closed i e) live Q.
Proof.
  intros Hl HQ. apply settles_bind. eapply settles_mono; [|by apply settles_Close]. by intros [] l ->.
Qed.

Lemma settles_startPostgres service :
  settles (startPostgres service) []
    (λ r l, l = match r with Ok (_, c) => [RContainer c] | Err _ => [] end).
Proof.
  intros [c|o e]; [exists [RContainer c]|exists []]; cbn.
  2:{ split_and!; [by rewrite !app_nil_r|done|done]. }
  split_and!; [done|done|]. intros []. exists [RContainer c]. split_and!; [done|apply submseteq_nil_l|].
  intros [h|e]; [exists [RContainer c]|exists []]; (split_and!; [done|apply submseteq_nil_l|]); [|done].
  intros [port|e]; [exists [RContainer c]|exists []]; by (split_and!; [done|apply submseteq_nil_l|]).
Qed.

Lemma settles_startKafka live :
  settles startKafka live
    (λ r l, l = match r with Ok (_, c) => RContainer c :: live | Err _ => live end).
Proof.
  intros [c|o e]; [exists (RContainer c :: live)|exists live]; cbn.
  2:{ split_and!; [done|apply submseteq_nil_l|done]. }
  split_and!; [done|apply submseteq_nil_l|].
  by intros [b|e]; [exists (RContainer c :: live)|exists live]; (split_and!; [|apply submseteq_nil_l|]).
Qed.

Lemma settles_openPool dsn live :
  settles (openPool dsn) live (λ r l, l = match r with Ok p => RPool p :: live | Err _ => live end).
Proof.
  unfold openPool. generalize (Plain "") as err. generalize true as first. generalize 10%nat as attempts.
  induction attempts as [|n IH]; intros first err; cbn [openPool_loop]; [done|].
  apply settles_bind. eapply settles_mono; [|apply (settles_idle _ live); by destruct first].
  intros [] l ->. intros [p|e]; [exists (RPool p :: live)|exists live];
    (split_and!; [done|apply submseteq_nil_l|]); [|apply IH].
  apply settles_call; [done|]. intros [[]|e]; [done|].
  eapply settles_close; [done|done|]. intros []. apply IH.
Qed.

Lemma settles_boot_kafka i live :
  live ≡ₚ held i → if_Producer i = None → if_kafka i = None →
  settles (boot_kafka i) live (λ r l, l ≡ₚ left_by r).
Proof.
  intros Hl Hp Hk. destruct i as [po bs pr pg kf]. cbn in Hp, Hk. subst pr kf.
  apply settles_bind. eapply settles_mono; [|apply settles_startKafka]. intros [[brokers kc]|e] l ->.
  2:{ by apply settles_fail. }
  cbn [if_Pool if_Producer if_pg if_kafka].
  apply settles_bind. eapply settles_mono; [|by apply settles_idle, idle_retry, idle_call].
  assert (RContainer kc :: live ≡ₚ held (mkInfra po brokers None pg (Some kc))) as Hl2.
  { rewrite Hl. unfold held. cbn. by rewrite <- Permutation_middle. }
  intros [[]|e] l ->; [|by apply settles_fail].
  intros p. exists (RProducer p :: RContainer kc :: live). split_and!; [done|apply submseteq_nil_l|].
  assert (RProducer p :: RContainer kc :: live ≡ₚ held (mkInfra po brokers (Some p) pg (Some kc))) as Hl3.
  { by rewrite Hl2. }
  apply (settles_bind _ (retry (icall (Produce p smokeTopic "healthcheck" [("ping", "pong")])) Second 19)).
  eapply settles_mono; [|by apply settles_idle, idle_retry, idle_call].
  intros [[]|e] l ->; [done|by apply settles_fail].
Qed.

Lemma settles_Start service opts :
  settles (Start service opts) [] (λ r l, l ≡ₚ left_by r).
Proof.
  unfold Start. apply settles_bind. eapply settles_mono; [|apply settles_idle, idle_MigrationsDir].
  intros [dir|e] l ->; [|by cbn].
  apply settles_bind. eapply settles_mono; [|apply settles_startPostgres].
  intros [[dsn c]|e] l ->; [|by cbn].
  apply settles_bind. eapply settles_mono; [|apply settles_openPool].
  intros [p|e] l ->; [|by apply settles_fail].
  apply settles_bind. eapply settles_mono; [|apply settles_idle, idle_Migrate].
  intros [[]|e] l ->; [|by apply settles_fail]. destruct (cf_withKafka _); [|by cbn].
  by apply settles_boot_kafka.
Qed.

(** C39. What [Start] leaves running: whatever the file system, testcontainers,
    pgx and Kafka answer, a failed [Start] has called for the end of every
    container, pool and producer it had opened, and a successful one of all but
    what its [Infra] holds, which [Close] then ends, except the containers it
    has let go of: those that [Run] returned together with an error, and those
    whose address was not found.  Nothing is ever closed that is not open. *)
Theorem start_leaves_nothing service opts calls calls' r u :
  runs_with (Start service opts) calls r →
  runs_with (match r with Ok i => Close i | Err _ => Ret () end) calls' u →
  opened calls ≡ₚ closed calls ++ dropped calls ++ left_by r ∧
  opened (calls ++ calls') ≡ₚ closed (calls ++ calls') ++ dropped calls ∧
  ∀ n, closed (take n calls) ⊆+ opened (take n calls).
Proof.
  intros Hrun Hclose.
  destruct (settles_sound _ _ _ _ _ (settles_Start service opts) Hrun) as [(rest & Hrest & HQ) Hpre].
  cbn in Hrest. rewrite HQ in Hrest. split_and!; [done| |exact Hpre].
  assert (left_by r ++ opened calls' ≡ₚ closed calls') as Hleft.
  { destruct r as [i|e]; cbn in *; [|by destruct Hclose as [-> _]].
    destruct (settles_sound (Close i) (held i) (λ _ l, l = []) calls' u)
      as [(rest' & Hrest' & ->) _]; [by apply settles_Close|done|].
    rewrite app_nil_r in Hrest'. rewrite Hrest'.
    assert (dropped calls' = []) as ->; [|by rewrite app_nil_r]. by eapply Close_drops. }
  unfold opened, closed, dropped in *. rewrite !bind_app, Hrest, <- Hleft. solve_Permutation.
Qed.

(** [Start] fails and drops a container that is running: it came with an error,
    or its address was not found. *)
Theorem container_leaked service opts dir c e (came_with_error : bool) :
  ∃ calls err, runs_with (Start service opts) calls (Err err) ∧
    opened calls = [RContainer c] ∧ closed calls = [] ∧ mkCalled _ Getwd (Ok dir) ∈ calls ∧
    (if came_with_error
     then ∃ x, mkCalled _ x (RunFailed (Some c) e) ∈ calls
     else mkCalled _ (Host c) (Err e) ∈ calls).
Proof.
  set (here := [mkCalled _ Getwd (Ok dir);
    mkCalled _ (IsDir (reverse (reverse dir) ++ ["migrations"; service])) true]).
  set (run := RunPostgres "postgres:16-alpine" "ticketsaas" "ticketsaas" (service +:+ "_db")).
  exists (here ++ if came_with_error then [mkCalled _ run (RunFailed (Some c) e)]
    else [mkCalled _ run (Running c); mkCalled _ (Sleep (2 * Second)) (); mkCalled _ (Host c) (Err e)]).
  exists (Wrapped (if came_with_error then "postgres: " else "postgres host: ") e "").
  destruct came_with_error; (split_and!; [|done|done|by left|]).
  2:{ exists run. do 2 right. by left. }
  3:{ do 4 right. by left. }
  all: exists (Ok dir); eexists; (split; [reflexivity|]); cbn;
    destruct (reverse dir) as [|n up]; cbn;
    repeat first [done | (eexists; eexists; split; [reflexivity|]; cbn)].
Qed.

(** ** The migrations *)

Definition read_of (ev : {B & infraE B}) : list string :=
  match projT2 ev with ReadFile _ f => [f] | _ => [] end.
Definition sql_of (ev : {B & infraE B}) : list string :=
  match projT2 ev with Exec _ sql => [sql] | _ => [] end.

#[local] Instance name_le_total : Total name_le.
Proof.
  intros a b. unfold name_le. destruct (String.leb_total a b); auto.
Qed.

Definition script_of (answer : ∀ B, infraE B → B) (dir : dirname) (f : string) : string :=
  match answer _ (ReadFile dir f) with Ok sql => sql | Err _ => "" end.

Lemma traced_apply answer p dir files :
  let '(calls, r) := traced answer (apply_files p dir files) in
  match r with
  | Ok _ => calls ≫= read_of = files ∧ calls ≫= sql_of = script_of answer dir <$> files ∧
      Forall (λ f, is_ok (answer _ (ReadFile dir f)) = true ∧
        is_ok (answer _ (Exec p (script_of answer dir f))) = true) files
  | Err _ => ∃ done_ f rest, files = done_ ++ f :: rest ∧ calls ≫= read_of = done_ ++ [f] ∧
      (calls ≫= sql_of = script_of answer dir <$> done_ ∨
       calls ≫= sql_of = script_of answer dir <$> (done_ ++ [f]))
  end.
Proof.
  induction files as [|f files IH]; cbn [apply_files]; [by split_and!|]. cbn.
  destruct (answer _ (ReadFile dir f)) as [sql|e] eqn:Hread; cbn.
  2:{ exists [], f, files. split_and!; [done..|by left]. }
  assert (script_of answer dir f = sql) as Hscript by (unfold script_of; by rewrite Hread).
  destruct (answer _ (Exec p sql)) as [[]|e] eqn:Hexec; cbn.
  2:{ exists [], f, files. split_and!; [done..|right]. cbn. by rewrite Hscript. }
  destruct (traced answer (apply_files p dir files)) as [calls [u|e]]; cbn.
  - destruct IH as (-> & -> & Hall). rewrite Hscript. split_and!; [done..|].
    constructor; [|done]. by rewrite Hread, Hscript, Hexec.
  - destruct IH as (d & g & rest & -> & -> & Hs). exists (f :: d), g, rest.
    split_and!; [done..|]. cbn. rewrite Hscript. destruct Hs as [->| ->]; [by left|by right].
Qed.

(** The migrations are applied in the order of their names, each at most once
    and none twice; one that cannot be read or fails ends it, with nothing of
    the later ones executed; and success means that all were. *)
Theorem migrate_in_order (answer : ∀ B, infraE B → B) p dir entries :
  answer _ (ReadDir dir) = Ok entries →
  let files := migrations_of entries in
  let script := script_of answer dir in
  let '(calls, r) := traced answer (Migrate p dir) in
  Sorted name_le files ∧ (∀ f, f ∈ files ↔ f ∈ entries ∧ HasSuffix f ".up.sql" = true) ∧
  match r with
  | Ok _ => calls ≫= read_of = files ∧ calls ≫= sql_of = script <$> files ∧
      Forall (λ f, is_ok (answer _ (ReadFile dir f)) = true ∧ is_ok (answer _ (Exec p (script f))) = true) files
  | Err _ => ∃ done_ f rest, files = done_ ++ f :: rest ∧ calls ≫= read_of = done_ ++ [f] ∧
      (calls ≫= sql_of = script <$> done_ ∨ calls ≫= sql_of = script <$> (done_ ++ [f]))
  end.
Proof.
  intros Hdir files script. unfold Migrate. cbn. rewrite Hdir. fold files.
  destruct (traced answer (apply_files p dir files)) as [calls r] eqn:Htr.
  split_and!.
  - apply Sorted_merge_sort, _.
  - intros f. unfold files, migrations_of, sort_Strings. rewrite merge_sort_Permutation.
    rewrite list_elem_of_filter. tauto.
  - pose proof (traced_apply answer p dir files) as Happ. rewrite Htr in Happ. exact Happ.
Qed.

(** The migrations are those of the nearest directory: of all directories from
    the working directory up to the root, the lowest that has them. *)
Theorem migrations_dir_nearest (answer : ∀ B, infraE B → B) service wd :
  answer _ Getwd = Ok wd →
  let has n := answer _ (IsDir (take n wd ++ ["migrations"; service])) in
  match (traced answer (MigrationsDir service)).2 with
  | Ok d => ∃ n, (n ≤ length wd)%nat ∧ d = take n wd ++ ["migrations"; service] ∧ has n = true ∧
      ∀ m, (n < m ≤ length wd)%nat → has m = false
  | Err _ => ∀ m, (m ≤ length wd)%nat → has m = false
  end.
Proof.
  intros Hwd has. unfold MigrationsDir. cbn. rewrite Hwd.
  assert (∀ up n, (n ≤ length wd)%nat → reverse up = take n wd →
    (∀ m, (n < m ≤ length wd)%nat → has m = false) →
    match (traced answer (find_up service up)).2 with
    | Ok d => ∃ n, (n ≤ length wd)%nat ∧ d = take n wd ++ ["migrations"; service] ∧ has n = true ∧
        ∀ m, (n < m ≤ length wd)%nat → has m = false
    | Err _ => ∀ m, (m ≤ length wd)%nat → has m = false
    end) as Hup.
  { induction up as [|x up IH]; intros n Hn Hrev Hno; cbn [find_up]; cbn -[reverse]; rewrite Hrev;
      fold (has n); destruct (has n) eqn:Hh; cbn -[reverse]; try (exists n; by split_and!).
    - intros m Hm. destruct n as [|n].
      + destruct m; [done|]. apply Hno. lia.
      + apply (f_equal length) in Hrev. cbn in Hrev. rewrite length_take in Hrev. lia.
    - destruct n as [|n].
      { apply (f_equal length) in Hrev. rewrite length_reverse in Hrev. cbn in Hrev. done. }
      assert (reverse up = take n wd) as Hrev'.
      { rewrite reverse_cons in Hrev. destruct (lookup_lt_is_Some_2 wd n Hn) as [y Hy].
        rewrite (take_S_r _ _ _ Hy) in Hrev. by apply app_inj_tail in Hrev as [-> _]. }
      assert (∀ m, (n < m ≤ length wd)%nat → has m = false) as Hno'.
      { intros m Hm. destruct (decide (m = S n)) as [->|]; [done|]. apply Hno. lia. }
      specialize (IH n ltac:(lia) Hrev' Hno'). revert IH.
      destruct (traced answer (find_up service up)) as [calls r]. done. }
  specialize (Hup (reverse wd) (length wd)). rewrite reverse_involutive, take_ge in Hup by lia.
  destruct (traced answer (find_up service (reverse wd))) as [calls r]. cbn in *.
  apply Hup; [lia|done|]. intros m Hm. lia.
Qed.

(** A run against answers that do not change. *)
Fixpoint recorded {A} (answer : ∀ B, infraE B → B) (p : iprog A) : list called * A :=
  match p with
  | Ret a => ([], a)
  | Vis e k => let '(calls, r) := recorded answer (k (answer _ e)) in
      (mkCalled _ e (answer _ e) :: calls, r)
  end.
Lemma recorded_runs {A} answer (p : iprog A) :
  runs_with p (recorded answer p).1 (recorded answer p).2.
Proof.
  induction p as [a|X e k IH]; [done|]. cbn.
  specialize (IH (answer _ e)). destruct (recorded answer (k (answer X e))) as [calls r]. cbn in *. eauto.
Qed.
End infra.

(** The suites create every topic a service of the repository uses. *)
Lemma suite_topics t : t ∈ Topics ↔ t ∈ ticketing_topics ∨ t ∈ payment_topics.
Proof. unfold Topics, ticketing_topics, payment_topics. rewrite !elem_of_cons, !elem_of_nil. tauto. Qed.

(** ** Samples *)

(** The migrations of payment, as a directory may list them. *)
Definition payment_dir : list string :=
  ["003_create_refund_requests.up.sql"; "001_create_transactions.down.sql";
   "001_create_transactions.up.sql"; "002_create_outbox.down.sql"; "002_create_outbox.up.sql";
   "004_add_outbox_trace_context.up.sql"].

Definition dev_answers (fail : bool) (B : Type) (e : infraE (container := nat) (pool := nat) (producer := nat) B) : B :=
  match e in infraE B return B with
  | Getwd => Ok ["src"; "service"; "payment"]
  | IsDir d => bool_decide (d = ["src"; "migrations"; "payment"])
  | ReadDir _ => Ok payment_dir
  | ReadFile _ f => Ok f
  | RunPostgres _ _ _ _ => Running 1%nat
  | Host _ => Ok "localhost"
  | MappedPort _ _ => Ok "32768"
  | RunKafka _ _ => Running 2%nat
  | Brokers _ => Ok ["localhost:9092"]
  | Terminate _ => Ok ()
  | NewPool _ => Ok 3%nat
  | PingPool _ => Ok ()
  | Exec _ _ => Ok ()
  | ClosePool _ => ()
  | EnsureTopics _ _ _ _ => if fail then Err (Plain "no broker") else Ok ()
  | NewProducer _ => 4%nat
  | Produce _ _ _ _ => Ok ()
  | CloseProducer _ => Ok ()
  | Sleep _ => ()
  end.

(** The broker never answers: both containers and the pool are closed. *)
Lemma start_leaves_nothing_witness :
  opened (recorded (dev_answers true) (Start "payment" [])).1 ≡ₚ
    closed (recorded (dev_answers true) (Start "payment" [])).1 ∧
  length (closed (recorded (dev_answers true) (Start "payment" [])).1) = 3%nat.
Proof.
  destruct (start_leaves_nothing "payment" [] (recorded (dev_answers true) (Start "payment" [])).1 []
    (recorded (dev_answers true) (Start "payment" [])).2 ()) as (Ho & _ & _).
  - apply recorded_runs.
  - vm_compute. done.
  - split; [|vm_compute; reflexivity]. etrans; [exact Ho|].
    replace (left_by _) with (@nil (resource (container := nat) (pool := nat) (producer := nat)))
      by (vm_compute; reflexivity).
    replace (dropped _) with (@nil (resource (container := nat) (pool := nat) (producer := nat)))
      by (vm_compute; reflexivity).
    by rewrite app_nil_r.
Defined.

Lemma migrate_in_order_witness :
  Sorted name_le (migrations_of payment_dir) ∧
  (traced (dev_answers false) (Migrate 3%nat ["m"])).1 ≫= sql_of =
    ["001_create_transactions.up.sql"; "002_create_outbox.up.sql"; "003_create_refund_requests.up.sql";
     "004_add_outbox_trace_context.up.sql"].
Proof.
  pose proof (migrate_in_order (dev_answers false) 3%nat ["m"] payment_dir eq_refl) as H.
  destruct (traced (dev_answers false) (Migrate 3%nat ["m"])) as [calls r] eqn:Htr.
  destruct H as (Hs & _ & Hr). split; [exact Hs|].
  assert (r = Ok ()) as -> by (change r with (calls, r).2; rewrite <- Htr; vm_compute; reflexivity).
  destruct Hr as (_ & Hsql & _). cbn [fst]. rewrite Hsql. vm_compute. reflexivity.
Defined.
