(* ===== verification/Redis.v ===== *)
(** * The Redis client

    [pkg/redis] over go-redis, whose clients, commands and replies are
    parameters: which command each method sends, and what becomes of the client
    when the server does not answer.  No service imports the package. *)
From S2P Require Import Prelude Effects.

Section redis.
(** [V]: the Go values a command takes; [client] and [PubSub] are go-redis's. *)
Context {V client PubSub : Type} (int64_value : Z → V).

(** The calls to go-redis, with the answers of [Err] and [Result]; the last one
    is [StringCmd.Int64], which reads the reply as a number. *)
Inductive redisE : Type → Type :=
  | NewRedis (Addr Password : string) (DB : Z) : redisE client
  | Ping (c : client) (timeout : Z) : redisE (res unit)
  | CloseClient (c : client) : redisE (res unit)
  | CmdSet (c : client) (key : string) (value : V) (expiration : Z) : redisE (res unit)
  | CmdGet (c : client) (key : string) : redisE (res string)
  | CmdDel (c : client) (keys : list string) : redisE (res unit)
  | CmdIncr (c : client) (key : string) : redisE (res Z)
  | CmdDecr (c : client) (key : string) : redisE (res Z)
  | CmdIncrBy (c : client) (key : string) (delta : Z) : redisE (res Z)
  | CmdDecrBy (c : client) (key : string) (delta : Z) : redisE (res Z)
  | CmdPSubscribe (c : client) (channel : string) : redisE PubSub
  | CmdGetInt64 (c : client) (key : string) : redisE (res Z).
Local Abbreviation M := (prog redisE).
Definition send {B} (e : redisE B) : M B := Vis e Ret.

Record Client := mkClient { cl_client : client }.

Definition NewClient (addr password : string) (db : Z) : M (res Client) :=
  rdb ← send (NewRedis addr password db);
  r ← send (Ping rdb (5 * Second));
  match r with
  | Err err => Ret (Err (Wrapped "failed to connect to redis: " err ""))
  | Ok _ => Ret (Ok (mkClient rdb))
  end.

Definition Close (c : Client) : M (res unit) := send (CloseClient (cl_client c)).
Definition GetClient (c : Client) : client := cl_client c.

Definition SetJSON (c : Client) (key : string) (value : V) (ttl : Z) : M (res unit) :=
  send (CmdSet (cl_client c) key value ttl).
Definition GetJSON (c : Client) (key : string) : M (res string) := send (CmdGet (cl_client c) key).
Definition Delete (c : Client) (keys : list string) : M (res unit) := send (CmdDel (cl_client c) keys).

Definition Incr (c : Client) (key : string) : M (res Z) := send (CmdIncr (cl_client c) key).
Definition Decr (c : Client) (key : string) : M (res Z) := send (CmdDecr (cl_client c) key).
Definition IncrBy (c : Client) (key : string) (delta : Z) : M (res Z) :=
  send (CmdIncrBy (cl_client c) key delta).
Definition DecrBy (c : Client) (key : string) (delta : Z) : M (res Z) :=
  send (CmdDecrBy (cl_client c) key delta).

(** No expiration. *)
Definition SetCounter (c : Client) (key : string) (value : Z) : M (res unit) :=
  send (CmdSet (cl_client c) key (int64_value value) 0).
Definition GetCounter (c : Client) (key : string) : M (res Z) := send (CmdGetInt64 (cl_client c) key).

Definition SubscribeKeyspaceEvents (c : Client) (db : Z) : M PubSub :=
  send (CmdPSubscribe (cl_client c) ("__keyevent@" +:+ pretty db +:+ "__:expired")).

(** The clients that a run has made and has not closed. *)
Definition made (answer : ∀ B, redisE B → B) (ev : {B & redisE B}) : list client :=
  match projT2 ev with NewRedis a p n => [answer _ (NewRedis a p n)] | _ => [] end.
Definition dropped (ev : {B & redisE B}) : list client :=
  match projT2 ev with CloseClient c => [c] | _ => [] end.

(** A client is handed out if and only if the server answered the ping, and what
    is handed out is the one client that was made. *)
Theorem new_client_answers (answer : ∀ B, redisE B → B) addr password db c :
  (traced answer (NewClient addr password db)).2 = Ok c ↔
  cl_client c = answer _ (NewRedis addr password db) ∧
  answer _ (Ping (cl_client c) (5 * Second)) = Ok ().
Proof.
  unfold NewClient. rewrite traced_bind. cbn.
  destruct (answer _ (Ping _ _)) as [[]|e] eqn:Hp; cbn; split.
  - by intros [= <-].
  - destruct c as [c]; cbn. by intros [-> _].
  - done.
  - intros [Hc Ha]. rewrite Hc in Ha. congruence.
Qed.

(** Without an answer to the ping the error is returned, and the client, with
    its pool of connections, is left open: nothing can close it any more. *)
Theorem unanswered_client_leaks (answer : ∀ B, redisE B → B) addr password db e :
  answer _ (Ping (answer _ (NewRedis addr password db)) (5 * Second)) = Err e →
  let '(calls, r) := traced answer (NewClient addr password db) in
  r = Err (Wrapped "failed to connect to redis: " e "") ∧
  calls ≫= made answer = [answer _ (NewRedis addr password db)] ∧ calls ≫= dropped = [].
Proof. intros Hp. unfold NewClient. cbn. by rewrite Hp. Qed.
End redis.

(** Clients are numbers here, and no server is there. *)
Definition no_server (B : Type) (e : redisE (V := Z) (client := nat) (PubSub := nat) B) : B :=
  match e with
  | NewRedis _ _ _ | CmdPSubscribe _ _ => 7%nat
  | CmdGet _ _ | CmdIncr _ _ | CmdDecr _ _ | CmdIncrBy _ _ _ | CmdDecrBy _ _ _ | CmdGetInt64 _ _ =>
      Err (Plain "connection refused")
  | Ping _ _ | CloseClient _ | CmdSet _ _ _ _ | CmdDel _ _ => Err (Plain "connection refused")
  end.

Lemma unanswered_client_leaks_witness :
  let '(calls, r) := traced no_server (NewClient "localhost:6379" "" 0) in
  r = Err (Wrapped "failed to connect to redis: " (Plain "connection refused") "") ∧
  calls ≫= made no_server = [7%nat] ∧ calls ≫= dropped = [].
Proof. exact (unanswered_client_leaks no_server "localhost:6379" "" 0 (Plain "connection refused") eq_refl). Defined.
