(* ===== verification/Edge.v ===== *)
(** * The gateway in front of the services

    Traefik's routers ([traefik/dynamic.yml]), its forward authentication
    against [AuthHandler.Verify], and the routers of the three services behind
    it ([handler/*routes.go]): which requests reach which handler, and with what
    user context.  How chi picks a route among those that fit is a parameter.
    Paths are as both sides see them, without escapes; CORS and the rate limit,
    which only refuse, are left out. *)
From Stdlib Require Import Ascii.
From S2P Require Import Prelude Effects TimeText Json Dto Outbox TicketDB Booking TicketSamples ReserveSpec TicketHandler TicketHttp PayDB Payment PayHandler PayHttp AuthDB Auth AuthHandler AuthSamples AuthSpec Config.

(** ** Rules and routers *)

Inductive rule :=
  | PathPrefix (p : string)
  | Path (p : string)
  | Method (m : string)
  | Not (r : rule)
  | And (r1 r2 : rule).

Definition HasPrefix (s p : string) : bool :=
  match CutPrefix s p with Some _ => true | None => false end.

Fixpoint rule_matches (r : rule) (method path : string) : bool :=
  match r with
  | PathPrefix p => HasPrefix path p
  | Path p => bool_decide (path = p)
  | Method m => bool_decide (method = m)
  | Not r => negb (rule_matches r method path)
  | And r1 r2 => rule_matches r1 method path && rule_matches r2 method path
  end.
Local Infix "&&&" := And (at level 40, left associativity).

Inductive upstream := ToAuth | ToTicketing | ToPayment.

Record router := mkRouter {
  rt_Rule : rule;
  rt_Service : upstream;
  rt_ForwardAuth : bool;
  rt_Priority : Z;
}.

(** [http.routers], in the order of the file. *)
Definition routers : list router := [
  mkRouter (PathPrefix "/api/auth") ToAuth false 20;
  mkRouter (PathPrefix "/api/events") ToTicketing true 10;
  mkRouter (PathPrefix "/api/events" &&& Method "GET" &&& Not (Path "/api/events/mine") &&&
    Not (Path "/api/events/pending") &&& Not (Path "/api/events/organizers") &&&
    Not (Path "/api/events/organizers/me")) ToTicketing false 20;
  mkRouter (PathPrefix "/api/bookings") ToTicketing true 20;
  mkRouter (PathPrefix "/api/payments/webhook") ToPayment false 30;
  mkRouter (PathPrefix "/api/admin/events") ToTicketing true 20;
  mkRouter (PathPrefix "/api/payments" &&& Not (PathPrefix "/api/payments/internal") &&&
    Not (PathPrefix "/api/payments/booking/mock")) ToPayment true 20].

(** The matching router of the highest priority. *)
Fixpoint pick_router (rs : list router) (method path : string) : option router :=
  match rs with
  | [] => None
  | rt :: rs =>
      let rest := pick_router rs method path in
      if rule_matches (rt_Rule rt) method path then
        match rest with
        | Some rt' => if bool_decide (rt_Priority rt < rt_Priority rt') then rest else Some rt
        | None => Some rt
        end
      else rest
  end.

(** ** The routers of the services *)

Definition segments (path : string) : list string := split_on "/"%char "" path.

(** The name in [{name}]. *)
Definition param_of (seg : string) : option string :=
  match seg with
  | String c rest =>
      if bool_decide (c = "{"%char) then Some (String.substring 0 (String.length rest - 1) rest)
      else None
  | EmptyString => None
  end.

(** A path fits a pattern: a parameter stands for one segment. *)
Definition fits_pattern (pattern path : string) (params : string → string) : Prop :=
  Forall2 (λ p s, match param_of p with Some name => params name = s | None => p = s end)
    (segments pattern) (segments path).

(** [chi]: the index of the route that gets a request, and the parameters.  It
    has the method of the request and fits the path, and one is found when a
    route fits with no empty parameter. *)
Class Mux := dispatch : list (string * string) → string → string → option (nat * (string → string)).
Class MuxLaws `{!Mux} : Prop := {
  dispatch_sound routes method path i params :
    dispatch routes method path = Some (i, params) →
    ∃ pattern, routes !! i = Some (method, pattern) ∧ fits_pattern pattern path params;
  dispatch_complete routes method path pattern params :
    (method, pattern) ∈ routes → fits_pattern pattern path params →
    Forall (λ p, match param_of p with Some name => params name ≠ "" | None => True end)
      (segments pattern) →
    dispatch routes method path ≠ None;
}.

(** ** A request on its way *)

Record incoming := mkIncoming {
  in_Method : string;
  in_Path : string;
  in_Header : string → string;
  in_Query : string → string;
  in_Body : option json;
}.

Definition plain (q : incoming) : request :=
  mkRequest background (in_Header q) (λ _, "") (in_Query q) (in_Body q).
Definition with_params (r : request) (params : string → string) : request :=
  mkRequest (r_ctx r) (r_header r) params (r_query r) (r_body r).

Section edge.
Context `{!JWT, !Bcrypt, !Validator, !Mux}.
Context (auth : AuthService) (ticketing : BookingService) (payment : PaymentHandler) (readable : bool).

(** The middleware [forward-auth]: [None] when the answer of the auth service
    is not a success, and it goes back to the client. *)
Definition forward_auth (rt : router) (r : request) : aprog (option request) :=
  if rt_ForwardAuth rt then
    a ← AuthHandler_Verify auth r;
    Ret match a with
        | RData status (DForward u role email) =>
            if bool_decide (200 ≤ status < 300) then Some (forwarded r u role email) else None
        | _ => None
        end
  else Ret (Some r).

Definition table (svc : upstream) : list (string * string) :=
  match svc with
  | ToAuth => (AuthHandler_Routes auth).*1
  | ToTicketing => (ticketing_routes ticketing).*1
  | ToPayment => (PaymentHandler_Routes payment readable).*1
  end.

(** The service and the route a request gets to, and as what. *)
Definition edge (q : incoming) : aprog (option (upstream * nat * request)) :=
  match pick_router routers (in_Method q) (in_Path q) with
  | None => Ret None
  | Some rt =>
      a ← forward_auth rt (plain q);
      Ret (r ← a;
           '(i, params) ← dispatch (table (rt_Service rt)) (in_Method q) (in_Path q);
           Some (rt_Service rt, i, with_params r params))
  end.
End edge.

(** ** Prefixes and paths *)

Lemma HasPrefix_spec s p : HasPrefix s p = true ↔ ∃ s', s = p +:+ s'.
Proof.
  unfold HasPrefix. destruct (CutPrefix s p) as [s'|] eqn:Hc.
  - apply CutPrefix_Some in Hc as ->. split; [by exists s'|done].
  - split; [done|]. intros [s' Hs%CutPrefix_Some]. congruence.
Qed.

(** Two prefixes of one text are prefixes of each other. *)
Lemma HasPrefix_both s p1 p2 :
  HasPrefix s p1 = true → HasPrefix s p2 = true → HasPrefix p1 p2 || HasPrefix p2 p1 = true.
Proof.
  unfold HasPrefix. revert s p2. induction p1 as [|c p1 IH]; intros s [|c2 p2]; cbn; try done.
  destruct s as [|c' s]; cbn; [done|]. case_bool_decide as H1; [|done].
  case_bool_decide as H2; [|done]. subst c'. subst c2. rewrite !bool_decide_true by done.
  by apply IH.
Qed.

(** A prefix without a slash of [s/rest] is one of [s]. *)
Lemma HasPrefix_segment s rest p :
  has_char "/"%char p = false → HasPrefix (s +:+ String "/" rest) p = true → HasPrefix s p = true.
Proof.
  unfold HasPrefix. revert s. induction p as [|c p IH]; intros s; cbn; [done|].
  intros [Hc Hp]%orb_false_iff. destruct s as [|c' s].
  - rewrite string_app_nil_l. cbn. apply bool_decide_eq_false in Hc. by rewrite bool_decide_false.
  - rewrite string_app_cons. cbn. destruct (bool_decide (c = c')); [by apply IH|done].
Qed.

Lemma concat_split_on c cur s :
  String.concat (String c "") (split_on c cur s) = cur +:+ s.
Proof.
  revert cur. induction s as [|c' s IH]; intros cur; cbn [split_on].
  - cbn. by rewrite string_app_nil_r.
  - case_bool_decide as Hc.
    + subst c'. assert (∃ a l, split_on c "" s = a :: l) as (a & l & Hs).
      { clear. generalize "" as cur. induction s as [|c' s IH]; intros cur; cbn; [eauto|].
        case_bool_decide; eauto. }
      specialize (IH ""). rewrite Hs in *.
      change (String.concat (String c "") (cur :: a :: l)) with
        (cur +:+ String c (String.concat (String c "") (a :: l))).
      by rewrite IH.
    + by rewrite IH, string_app_assoc.
Qed.

(** The path a pattern stands for. *)
Definition render (pattern : string) (params : string → string) : string :=
  String.concat "/" ((λ p, default p (params <$> param_of p)) <$> segments pattern).

Lemma fits_render pattern path params : fits_pattern pattern path params → path = render pattern params.
Proof.
  unfold fits_pattern, render. intros Hf.
  assert ((λ p, default p (params <$> param_of p)) <$> segments pattern = segments path) as ->.
  { induction Hf as [|p s ps ss Hp _ IH]; cbn; [done|]. rewrite IH. f_equal.
    by destruct (param_of p). }
  unfold segments. by rewrite concat_split_on.
Qed.

(** ** The choice of the router *)

Lemma pick_router_None rs method path :
  pick_router rs method path = None → ∀ rt, rt ∈ rs → rule_matches (rt_Rule rt) method path = false.
Proof.
  induction rs as [|rt0 rs IH]; cbn; [set_solver|]. intros H0 rt Hin.
  destruct (rule_matches (rt_Rule rt0) method path) eqn:Hm.
  - by repeat case_match.
  - apply elem_of_cons in Hin as [->|Hin]; [done|]. by apply IH.
Qed.

Lemma pick_router_spec rs method path rt :
  pick_router rs method path = Some rt →
  rt ∈ rs ∧ rule_matches (rt_Rule rt) method path = true ∧
  ∀ rt', rt' ∈ rs → rule_matches (rt_Rule rt') method path = true → rt_Priority rt' ≤ rt_Priority rt.
Proof.
  revert rt. induction rs as [|rt0 rs IH]; intros rt; cbn [pick_router]; [done|].
  destruct (rule_matches (rt_Rule rt0) method path) eqn:H0.
  - destruct (pick_router rs method path) as [rt1|] eqn:H1.
    + destruct (IH rt1 eq_refl) as (Hin & Hm & Hmax). case_bool_decide; intros [= <-];
        (split; [set_solver|]); (split; [done|]); intros rt' [->|Hin']%elem_of_cons Hm'; try lia;
        specialize (Hmax rt' Hin' Hm'); lia.
    + intros [= <-]. split; [set_solver|]. split; [done|].
      intros rt' [->|Hin']%elem_of_cons Hm'; [lia|].
      by rewrite (pick_router_None rs method path H1 rt' Hin') in Hm'.
  - intros H1. destruct (IH rt H1) as (Hin & Hm & Hmax). split; [set_solver|]. split; [done|].
    intros rt' [->|Hin']%elem_of_cons Hm'; [congruence|auto].
Qed.

(** No request is left to the order of the file: routers of one priority
    exclude each other. *)
Lemma routers_unambiguous method path rt1 rt2 :
  rt1 ∈ routers → rt2 ∈ routers → rt_Priority rt1 = rt_Priority rt2 →
  rule_matches (rt_Rule rt1) method path = true → rule_matches (rt_Rule rt2) method path = true →
  rt1 = rt2.
Proof.
  unfold routers. rewrite !elem_of_cons, !elem_of_nil. intros H1 H2 Hp Hm1 Hm2.
  destruct_or!; subst; try done; try discriminate Hp; cbn [rule_matches rt_Rule] in *;
    rewrite ?andb_true_iff in *; destruct_and?;
    match goal with
    | Ha : HasPrefix path ?p1 = true, Hb : HasPrefix path ?p2 = true |- _ =>
        let H := fresh in
        assert (H : HasPrefix p1 p2 || HasPrefix p2 p1 = true) by (by eapply HasPrefix_both);
        discriminate H
    end.
Qed.

(** ** Who gets through *)

(** The handler of a route of ticketing. *)
Ltac which_route H :=
  apply list_elem_of_lookup_2 in H;
  unfold ticketing_routes, EventHandler_Routes, BookingHandler_Routes in H; cbn [app] in H;
  repeat first [apply elem_of_cons in H as [H|H]; [try discriminate H; by injection H|]|
                by apply elem_of_nil in H].

Ltac each_route H :=
  repeat first [apply elem_of_cons in H as [[= -> ->]|H]|by apply elem_of_nil in H].

Section passing.
Context `{!JWT, !Bcrypt, !Validator, !Mux, !MuxLaws}.
Context (auth : AuthService) (ticketing : BookingService) (payment : PaymentHandler) (readable : bool).
Local Abbreviation edge := (edge auth ticketing payment readable).
Local Abbreviation table := (table auth ticketing payment readable).

(** The request carries a token that the auth service accepts, and its claims
    are the user context of the request that was sent on. *)
Definition vouched_for (o : oracle authE) (da : AuthDB) (q : incoming) (r' : request) (c : Claims) :
    Prop :=
  (∃ tok, in_Header q "Authorization" = "Bearer " +:+ tok ∧
     exec o (VerifyToken auth tok) da = (da, Ok c)) ∧
  r_ctx r' = background ∧ r_header r' "X-Authenticated-User-ID" = cm_UserID c ∧
  r_header r' "X-Authenticated-User-Role" = cm_Role c ∧
  user_context r' = (cm_UserID c, cm_Role c, cm_Email c) ∧ r_body r' = in_Body q.

Lemma forward_auth_vouches o da da' rt q r params :
  exec o (forward_auth auth rt (plain q)) da = (da', Some r) →
  da' = da ∧
  (rt_ForwardAuth rt = false ∧ r = plain q ∨ ∃ c, vouched_for o da q (with_params r params) c).
Proof.
  unfold forward_auth. destruct (rt_ForwardAuth rt); [|intros [= <- <-]; auto].
  unfold AuthHandler_Verify. cbn [plain r_header]. case_bool_decide; [done|].
  unfold bearer. destruct (CutPrefix _ _) as [tok|] eqn:Hcut; [|done]. apply CutPrefix_Some in Hcut.
  intros Hex.
  assert (da' = da ∧ ∃ c, exec o (VerifyToken auth tok) da = (da, Ok c) ∧
    r = forwarded (plain q) (cm_UserID c) (cm_Role c) (cm_Email c)) as (-> & c & Hver & ->).
  { revert Hex. unfold VerifyToken, VerifyAccessToken, exec. cbn.
    destruct (jwt_Parse _ _ tok) as [t|e]; [|done]. destruct (jt_Claims t); [|done].
    destruct (jt_Valid t); [|done]. cbn. intros [= <- <-]. eauto. }
  split; [done|]. right. exists c. split; [by exists tok|].
  split_and!; [done..| |done]. by apply (user_context_forwarded (with_params (plain q) params)).
Qed.

(** A request that reached a route, and the router that sent it there. *)
Lemma edge_route o da da' q svc i r' :
  exec o (edge q) da = (da', Some (svc, i, r')) →
  ∃ rt r params pattern,
    rt ∈ routers ∧ rule_matches (rt_Rule rt) (in_Method q) (in_Path q) = true ∧
    rt_Service rt = svc ∧ exec o (forward_auth auth rt (plain q)) da = (da', Some r) ∧
    r' = with_params r params ∧
    table svc !! i = Some (in_Method q, pattern) ∧ in_Path q = render pattern params.
Proof.
  unfold Edge.edge. destruct (pick_router _ _ _) as [rt|] eqn:Hrt; [|done].
  apply pick_router_spec in Hrt as (Hin & Hm & _).
  unfold exec. change (?p ≫= ?f) with (prog_bind f p). rewrite run_bind.
  destruct (run o (forward_auth auth rt (plain q)) 0 da) as [[n d1] a] eqn:Hfa. cbn.
  intros [= -> Ha]. destruct a as [r|]; [|done]. cbn in Ha.
  destruct (dispatch _ _ _) as [[i' params]|] eqn:Hd; [|done]. cbn in Ha.
  injection Ha as <- -> <-. apply dispatch_sound in Hd as (pattern & Hi & Hfit).
  exists rt, r, params, pattern. split_and!; try done.
  - unfold exec. by rewrite Hfa.
  - by apply fits_render.
Qed.

(** The routes for everybody: those the auth service lists as public and the
    check the gateway calls, the published events, and the webhook of the
    payment provider, which carries a secret of its own. *)
Definition public_routes : list (upstream * string * string) :=
  [(ToAuth, "POST", "/api/auth/register"); (ToAuth, "POST", "/api/auth/register/organizer");
   (ToAuth, "POST", "/api/auth/login"); (ToAuth, "POST", "/api/auth/refresh");
   (ToAuth, "GET", "/api/auth/verify");
   (ToTicketing, "GET", "/api/events"); (ToTicketing, "GET", "/api/events/{id}");
   (ToPayment, "POST", "/api/payments/webhook")].

(** The routes that are meant for users only and that the gateway does not
    authenticate: the profile, since its rule leaves out all of [/api/auth], and,
    since the rule of the webhook is a prefix and says no method, the
    transactions whose id begins with ["webhook"]; no generated id does. *)
Definition own_word_route (svc : upstream) (method pattern : string) (params : string → string) : Prop :=
  svc = ToAuth ∧ method = "GET" ∧ pattern = "/api/auth/me" ∨
  svc = ToPayment ∧ method = "GET" ∧
    (pattern = "/api/payments/{txn_id}" ∧ HasPrefix (params "txn_id") "webhook" = true ∨
     pattern = "/api/payments/{id}/status" ∧ HasPrefix (params "id") "webhook" = true).

Definition internal_patterns : list string :=
  ["/api/payments/internal"; "/api/payments/booking/mock/{booking_id}/{status}"].

Lemma no_internal rt method pattern params :
  rt ∈ routers → rule_matches (rt_Rule rt) method (render pattern params) = true →
  pattern ∉ internal_patterns.
Proof.
  intros Hin Hm Hp. unfold routers in Hin. unfold internal_patterns in Hp.
  rewrite !elem_of_cons, elem_of_nil in Hin. rewrite !elem_of_cons, elem_of_nil in Hp.
  destruct_or!; subst; try done; vm_compute in Hm; discriminate Hm.
Qed.

Lemma unguarded_open rt method pattern params :
  rt ∈ routers → rt_ForwardAuth rt = false → (method, pattern) ∈ table (rt_Service rt) →
  rule_matches (rt_Rule rt) method (render pattern params) = true →
  (rt_Service rt, method, pattern) ∈ public_routes ∨ own_word_route (rt_Service rt) method pattern params.
Proof.
  intros Hin Hfa Htab Hm. unfold routers in Hin. rewrite !elem_of_cons, elem_of_nil in Hin.
  unfold public_routes, own_word_route.
  destruct_or!; subst; try discriminate Hfa; try done; cbn [rt_Service rt_Rule] in *; cbn in Htab;
    each_route Htab; try (vm_compute in Hm; discriminate Hm);
    try (left; rewrite !elem_of_cons; by auto 12); right.
  - by left.
  - right. split_and!; [done..|]. right. split; [done|]. apply (HasPrefix_segment _ "status"); [done|exact Hm].
  - right. split_and!; [done..|]. left. split; [done|]. exact Hm.
Qed.

(** The router a request has come through, and what it has seen. *)
Lemma edge_gate o da da' q svc i r' method pattern :
  exec o (edge q) da = (da', Some (svc, i, r')) → table svc !! i = Some (method, pattern) →
  da' = da ∧ method = in_Method q ∧ ∃ rt, rt ∈ routers ∧ rt_Service rt = svc ∧
    rule_matches (rt_Rule rt) method (render pattern (r_param r')) = true ∧
    (rt_ForwardAuth rt = false ∧ r_header r' = in_Header q ∨ ∃ c, vouched_for o da q r' c).
Proof.
  intros Hex Hi.
  destruct (edge_route _ _ _ _ _ _ _ Hex) as (rt & r & params & pattern' & Hin & Hm & Hsvc & Hfa & -> & Hi' & Hpath).
  rewrite Hi in Hi'. injection Hi' as -> ->. rewrite Hpath in Hm.
  destruct (forward_auth_vouches _ _ _ _ _ _ params Hfa) as [-> Hv].
  split_and!; [done..|]. exists rt. split_and!; [done..|]. destruct Hv as [[Hno ->]|Hv]; auto.
Qed.

(** A route of ticketing that is not public needs a token. *)
Lemma ticketing_vouched o da da' q i r' method pattern :
  exec o (edge q) da = (da', Some (ToTicketing, i, r')) →
  table ToTicketing !! i = Some (method, pattern) →
  (method, pattern) ∉ [("GET", "/api/events"); ("GET", "/api/events/{id}")] →
  ∃ c, vouched_for o da q r' c.
Proof.
  intros Hex Hi Hno. destruct (edge_gate _ _ _ _ _ _ _ _ _ Hex Hi) as (_ & _ & rt & Hin & Hsvc & Hm & [[Hfa _]|Hv]);
    [exfalso|done].
  apply list_elem_of_lookup_2 in Hi. rewrite <- Hsvc in Hi.
  destruct (unguarded_open _ _ _ _ Hin Hfa Hi Hm) as [Ho|[(Ho & _)|(Ho & _)]]; rewrite Hsvc in Ho; try discriminate Ho.
  unfold public_routes in Ho. rewrite !elem_of_cons, elem_of_nil in Hno. rewrite !elem_of_cons, elem_of_nil in Ho.
  destruct_or!; simplify_eq; tauto.
Qed.

(** Starting a payment needs a token, and no request reaches the internal route. *)
Lemma payment_vouched o da da' q i r' :
  exec o (edge q) da = (da', Some (ToPayment, i, r')) →
  table ToPayment !! i = Some ("POST", "/api/payments/booking/{booking_id}") →
  ∃ c, vouched_for o da q r' c.
Proof.
  intros Hex Hi. destruct (edge_gate _ _ _ _ _ _ _ _ _ Hex Hi) as (_ & _ & rt & Hin & Hsvc & Hm & [[Hfa _]|Hv]);
    [exfalso|done].
  apply list_elem_of_lookup_2 in Hi. rewrite <- Hsvc in Hi.
  destruct (unguarded_open _ _ _ _ Hin Hfa Hi Hm) as [Ho|[(_ & Ho & _)|(_ & Ho & _)]];
    rewrite ?Hsvc in Ho; try discriminate Ho.
  unfold public_routes in Ho. rewrite !elem_of_cons, elem_of_nil in Ho. destruct_or!; discriminate.
Qed.
Lemma payment_not_internal o da da' q i r' method :
  exec o (edge q) da = (da', Some (ToPayment, i, r')) →
  table ToPayment !! i ≠ Some (method, "/api/payments/internal").
Proof.
  intros Hex Hi. destruct (edge_gate _ _ _ _ _ _ _ _ _ Hex Hi) as (_ & _ & rt & Hin & _ & Hm & _).
  by eapply (no_internal _ _ _ _ Hin Hm); left.
Qed.

(** C23. What the gateway lets through: a request that reaches a handler is on
    one of the public routes; or it carries a token the auth service has accepted,
    and the user context of the handler is that token's, whatever user headers
    the client has sent; or it is on one of the three routes for users that the
    gateway does not authenticate, the profile and the transactions whose id
    begins with "webhook", and there the handler's user headers are the client's
    own.  The internal and the development routes of payment are never reached,
    and the accounts are left alone. *)
Theorem edge_authenticated (o : oracle authE) da da' q svc i r' method pattern :
  exec o (edge q) da = (da', Some (svc, i, r')) → table svc !! i = Some (method, pattern) →
  da' = da ∧ method = in_Method q ∧ pattern ∉ internal_patterns ∧
  ((svc, method, pattern) ∈ public_routes ∨ (∃ c, vouched_for o da q r' c) ∨
   own_word_route svc method pattern (r_param r') ∧ r_header r' = in_Header q).
Proof.
  intros Hex Hi.
  destruct (edge_gate _ _ _ _ _ _ _ _ _ Hex Hi) as (Hd & Hmt & rt & Hin & <- & Hm & Hv).
  split_and!; [done|done|by eapply no_internal|]. destruct Hv as [[Hfa Hh]|Hv]; [|by right; left].
  apply list_elem_of_lookup_2 in Hi. destruct (unguarded_open _ _ _ _ Hin Hfa Hi Hm) as [Ho|Ho]; auto.
Qed.

(** The policy of ticketing holds for tokens: a route the policy gives to a
    role is reached through the gateway with a token only, its handler sees the
    token's user, and it refuses a token of another role without effect; and a
    booking is shown to the subject of the token only. *)
Theorem edge_roles (o : oracle authE) (ot : oracle ticketE) da da' q i r' method pattern f role :
  exec o (edge q) da = (da', Some (ToTicketing, i, r')) →
  ticketing_routes ticketing !! i = Some (method, pattern, f) →
  policy_of ticketing_policy method pattern = Some role →
  role ≠ None ∨ pattern = "/api/bookings/{id}" →
  ∃ c, vouched_for o da q r' c ∧ ∀ d,
    (∀ ro, role = Some ro → cm_Role c ≠ ro →
       exec ot (f r') d = (d, Forbidden "insufficient permissions")) ∧
    (pattern = "/api/bookings/{id}" → ∀ d' b, exec ot (f r') d = (d', OK (DBooking b)) →
       bp_UserID b = cm_UserID c).
Proof.
  intros Hex Hi Hpol Hcase.
  assert (table ToTicketing !! i = Some (method, pattern)) as Htab
    by (unfold Edge.table; by rewrite list_lookup_fmap, Hi).
  destruct (ticketing_vouched _ _ _ _ _ _ _ _ Hex Htab) as [c Hv].
  { rewrite !elem_of_cons, elem_of_nil. intros [[= -> ->]|[[= -> ->]|[]]]; vm_compute in Hpol;
      injection Hpol as <-; by destruct Hcase. }
  exists c. split; [done|]. destruct Hv as (_ & Hctx & Hid & Hhdr & _). intros d. split.
  - intros ro -> Hrole. pose proof (routes_obey ticketing) as Hall. rewrite Forall_lookup in Hall.
    destruct (Hall i _ Hi) as (role' & Hpol' & Hob). cbn [fst snd] in Hpol', Hob.
    rewrite Hpol in Hpol'. injection Hpol' as <-. apply Hob; [done|]. by rewrite Hhdr.
  - intros -> d' b Hans. rewrite <- Hid.
    assert (f = WithUserContext BookingHandler_GetBooking) as ->; [|by eapply booking_owner_only].
    which_route Hi.
Qed.

(** Whoever knows the id of an account reads its profile: the gateway does not
    authenticate requests to [/api/auth], and [BearerAuth] trusts the user
    header it finds, which here is the client's own. *)
Theorem me_spoofed (o : oracle authE) da q user :
  faultless o → users da !! us_ID user = Some user → us_ID user ≠ "" →
  in_Method q = "GET" → in_Path q = "/api/auth/me" →
  in_Header q "X-Authenticated-User-ID" = us_ID user →
  ∃ i r' f, exec o (edge q) da = (da, Some (ToAuth, i, r')) ∧
    AuthHandler_Routes auth !! i = Some ("GET", "/api/auth/me", f) ∧
    exec o (f r') da = (da, OK (DMe (mkAuthResponse (Some (userToResponse user)) "" 0))).
Proof.
  intros Hcalm Hu Hne Hm Hp Hid.
  destruct (dispatch (table ToAuth) "GET" "/api/auth/me") as [[i params]|] eqn:Hd.
  2:{ exfalso. revert Hd. apply (dispatch_complete _ _ _ "/api/auth/me" (λ _, "")).
      - cbn. rewrite !elem_of_cons. auto 10.
      - repeat constructor.
      - repeat constructor. }
  pose proof (dispatch_sound _ _ _ _ _ Hd) as (pattern & Hi & Hfit).
  exists i, (with_params (plain q) params), (WithUserContext (BearerAuth auth AuthHandler_Me)).
  split_and!.
  - unfold Edge.edge. rewrite Hm, Hp.
    replace (pick_router routers "GET" "/api/auth/me")
      with (Some (mkRouter (PathPrefix "/api/auth") ToAuth false 20)) by (by vm_compute).
    unfold exec. cbn -[Edge.table]. by rewrite Hd.
  - apply fits_render in Hfit.
    destruct i as [|[|[|[|[|[|i]]]]]]; try discriminate Hi; [|reflexivity].
    injection Hi as <-. vm_compute in Hfit. discriminate Hfit.
  - unfold WithUserContext, BearerAuth, AuthHandler_Me, UserIDFromContext.
    cbn [with_params plain with_ctx r_ctx r_header ctx_user_id background]. rewrite Hid, default_nonempty.
    rewrite bool_decide_eq_false_2 by done. cbn [negb].
    apply exec_eq, runs_bind, runs_bind, runs_sql_calm; [done|]. cbn. by rewrite Hu.
Qed.
(** From the gateway to the tables: when a request to reserve seats that came
    through the gateway is answered with a reservation, whatever failed on the
    way, it carried a token of a customer, and exactly the seats it asks for
    were taken for one pending booking of that customer. *)
Theorem edge_reserve (o : oracle authE) (ot : oracle ticketE) da da' q i r' f d d' v :
  exec o (edge q) da = (da', Some (ToTicketing, i, r')) →
  ticketing_routes ticketing !! i = Some ("POST", "/api/bookings/reserve", f) →
  exec ot (f r') d = (d', Created (DReservation v)) →
  ∃ c req res, vouched_for o da q r' c ∧ cm_Role c = RoleCustomer ∧ cm_UserID c ≠ "" ∧
    Decode decode_reserve (in_Body q) = Ok req ∧
    reserved (cm_UserID c) (rq_EventID req) (requested_items req) d d' res ∧
    v = mkReservationResponse (rs_BookingID res) (rs_EventID res) (rs_TotalRupiah res)
          "pending" (rfc3339 (rs_ExpiresAt res)).
Proof.
  intros Hex Hi Hans.
  assert (table ToTicketing !! i = Some ("POST", "/api/bookings/reserve")) as Htab
    by (unfold Edge.table; by rewrite list_lookup_fmap, Hi).
  destruct (ticketing_vouched _ _ _ _ _ _ _ _ Hex Htab) as [c Hv].
  { rewrite !elem_of_cons, elem_of_nil. intros [[=]|[[=]|[]]]. }
  exists c. assert (f = with_role RoleCustomer (BookingHandler_Reserve ticketing)) as ->.
  { which_route Hi. }
  pose proof Hv as (_ & Hctx & Hid & Hhdr & _ & Hbody). revert Hans.
  unfold with_role, WithUserContext, RequireRole, UserRoleFromContext, BookingHandler_Reserve, UserIDFromContext.
  cbn [with_ctx r_ctx r_body ctx_user_id ctx_user_role existsb]. rewrite Hctx, Hid, Hhdr, Hbody.
  cbn [background ctx_user_id ctx_user_role]. rewrite !default_nonempty, orb_false_r.
  case_bool_decide as Hrole; [|done]. destruct (Decode decode_reserve (in_Body q)) as [req|e]; [|done].
  destruct (validate_Struct _); [done|]. case_bool_decide as Hne; [done|]. intros Hans.
  exists req. refine (runs_exec ot _ _ _ _ (λ d' a, a = Created (DReservation v) → ∃ res, _) _ Hans eq_refl).
  apply runs_bind. eapply runs_mono; [|apply runs_Reserve]. intros n' d1 [res|e] Hres; cbn.
  - intros [= <-]. exists res. rewrite (rv_status _ _ _ _ _ _ Hres). by split_and!.
  - repeat case_match; discriminate.
Qed.
End passing.

(** ** Samples *)

(** A router that obeys the laws: it takes the first route without parameters
    that fits, or else the first that fits. *)
#[export] Instance fits_pattern_dec pattern path params : Decision (fits_pattern pattern path params).
Proof.
  apply Forall2_dec. intros p s. destruct (param_of p); apply _.
Defined.

Definition bound (ps ss : list string) : string → string := λ n,
  default "" (snd <$> find (λ e, bool_decide (param_of e.1 = Some n)) (zip ps ss)).
Definition bind_params (pattern path : string) : string → string :=
  bound (segments pattern) (segments path).

Lemma bound_fits (f : string → string) ps ss :
  Forall2 (λ p s, match param_of p with Some name => f name = s | None => p = s end) ps ss →
  Forall2 (λ p s, match param_of p with Some name => bound ps ss name = s | None => p = s end) ps ss.
Proof.
  intros Hf.
  assert (∀ e n, e ∈ zip ps ss → param_of e.1 = Some n → e.2 = f n) as Hzip.
  { induction Hf as [|p s ps ss Hp _ IH]; cbn; [set_solver|].
    intros e n [->|Hin]%elem_of_cons Hn; [cbn in Hn |- *; by rewrite Hn in Hp|eauto]. }
  apply Forall2_same_length_lookup_2; [by eapply Forall2_length|]. intros i p s Hp Hs.
  rewrite Forall2_lookup in Hf. specialize (Hf i). rewrite Hp, Hs in Hf. inversion Hf as [? ? Hps|]; subst.
  destruct (param_of p) as [n|] eqn:Hn; [|done].
  assert ((p, s) ∈ zip ps ss) as Hin.
  { apply (list_elem_of_lookup_2 _ i). by rewrite lookup_zip_with, Hp, Hs. }
  unfold bound. destruct (find _ _) as [e|] eqn:He.
  - apply find_some in He as [He Hen%bool_decide_eq_true]. cbn. rewrite <- Hps. apply Hzip; [by apply list_elem_of_In|done].
  - exfalso. eapply find_none in He; [|apply list_elem_of_In; exact Hin].
    cbn in He. by rewrite bool_decide_eq_true_2 in He.
Qed.

Definition route_fits (method path : string) (e : string * string) : Prop :=
  e.1 = method ∧ fits_pattern e.2 path (bind_params e.2 path).
#[export] Instance route_fits_dec method path e : Decision (route_fits method path e).
Proof. apply and_dec; apply _. Defined.

Definition sample_mux : Mux := λ routes method path,
  let exact := list_find (λ e, route_fits method path e ∧ Forall (λ p, param_of p = None) (segments e.2)) routes in
  (λ x, (x.1, bind_params x.2.2 path)) <$>
    match exact with Some x => Some x | None => list_find (route_fits method path) routes end.
#[local] Existing Instance sample_mux.

Lemma sample_mux_laws : MuxLaws.
Proof.
  split; unfold dispatch, sample_mux.
  - intros routes method path i params. cbn.
    destruct (list_find _ routes) as [[j e]|] eqn:H1;
      [|destruct (list_find (route_fits method path) routes) as [[j e]|] eqn:H2; [|done]];
      intros [= <- <-]; [apply list_find_Some in H1 as (Hj & [[<- Hfit] _] & _)|
                         apply list_find_Some in H2 as (Hj & [<- Hfit] & _)];
      destruct e; by eexists.
  - intros routes method path pattern params Hin Hfit _. destruct (list_find _ routes) as [x|]; [done|].
    destruct (list_find (route_fits method path) routes) as [x|] eqn:H2; [done|]. exfalso.
    apply list_find_None in H2. rewrite Forall_forall in H2. apply (H2 _ Hin). split; [done|].
    cbn. by eapply bound_fits.
Qed.

#[local] Existing Instance sample_jwt.
#[local] Existing Instance sample_bcrypt.
#[local] Existing Instance sample_validator.

(** Ana's token, with user headers that claim to be an administrator. *)
Definition ana_incoming (method path : string) : incoming :=
  mkIncoming method path
    (λ h, if bool_decide (h = "Authorization") then r_header ana_request h
          else if bool_decide (h = "X-Authenticated-User-Role") then RoleAdmin
          else if bool_decide (h = "X-Authenticated-User-ID") then "admin" else "")
    (λ _, "") None.
Definition sample_edge (q : incoming) : AuthDB * option (upstream * nat * request) :=
  exec auth_oracle (edge sample_auth sample_service sample_pay_handler true q) registered_db.

Definition sent (q : incoming) : request :=
  match (sample_edge q).2 with Some (_, _, r) => r | None => plain q end.

(** What the sample gateway makes of a request: route and user context. *)
Definition passes (q : incoming) : option (upstream * nat * (string * Role * string)) :=
  (λ x, (x.1, user_context x.2)) <$> (sample_edge q).2.

Lemma passes_reached q svc i u :
  passes q = Some (svc, i, u) →
  sample_edge q = ((sample_edge q).1, Some (svc, i, sent q)) ∧ user_context (sent q) = u.
Proof.
  unfold passes, sent. destruct (sample_edge q) as [da' [[[svc' i'] r']|]]; cbn; [|done].
  by intros [= -> -> <-].
Qed.

Lemma edge_authenticated_witness : ∃ c,
  vouched_for sample_auth auth_oracle registered_db (ana_incoming "GET" "/api/bookings/b1")
    (sent (ana_incoming "GET" "/api/bookings/b1")) c ∧ cm_UserID c = "id-2".
Proof.
  destruct (passes_reached (ana_incoming "GET" "/api/bookings/b1") ToTicketing 15
    ("id-2", RoleCustomer, "ana@mail")) as [Hex Hu]; [vm_compute; reflexivity|].
  pose proof sample_mux_laws.
  destruct (edge_authenticated sample_auth sample_service sample_pay_handler true auth_oracle
    registered_db _ (ana_incoming "GET" "/api/bookings/b1") ToTicketing 15 _ "GET" "/api/bookings/{id}"
    Hex eq_refl) as (_ & _ & _ & [Hopen|[(c & Hv)|[Hopen _]]]).
  - exfalso. clear -Hopen. unfold public_routes in Hopen. rewrite !elem_of_cons, elem_of_nil in Hopen.
    destruct_or!; discriminate.
  - exists c. split; [exact Hv|]. destruct Hv as (_ & _ & _ & _ & Hv & _). congruence.
  - exfalso. clear -Hopen. destruct Hopen as [([=] & _)|([=] & _)].
Defined.

(** She may not approve events. *)
Lemma edge_roles_witness :
  exec sample_oracle (with_role RoleAdmin EventHandler_ApproveEvent
    (sent (ana_incoming "POST" "/api/events/ev/approve"))) sample_db =
  (sample_db, Forbidden "insufficient permissions").
Proof.
  destruct (passes_reached (ana_incoming "POST" "/api/events/ev/approve") ToTicketing 9
    ("id-2", RoleCustomer, "ana@mail")) as [Hex Hu]; [vm_compute; reflexivity|].
  pose proof sample_mux_laws.
  destruct (edge_roles sample_auth sample_service sample_pay_handler true auth_oracle sample_oracle
    registered_db _ (ana_incoming "POST" "/api/events/ev/approve") 9 _ "POST"
    "/api/events/{id}/approve" (with_role RoleAdmin EventHandler_ApproveEvent) (Some RoleAdmin)
    Hex eq_refl eq_refl) as (c & Hv & Hd); [by left|].
  apply (proj1 (Hd sample_db)) with RoleAdmin; [reflexivity|].
  destruct Hv as (_ & _ & _ & _ & Hv & _). rewrite Hu in Hv. injection Hv as _ <- _. discriminate.
Defined.

(** She reserves two seats. *)
Definition ana_reserves : incoming :=
  mkIncoming "POST" "/api/bookings/reserve" (in_Header (ana_incoming "" "")) (λ _, "")
    (r_body (reserve_request 2)).

Lemma edge_reserve_witness : ∃ d' req res,
  exec sample_oracle (with_role RoleCustomer (BookingHandler_Reserve sample_service)
    (sent ana_reserves)) sample_db =
    (d', Created (DReservation (mkReservationResponse (rs_BookingID res) (rs_EventID res)
      (rs_TotalRupiah res) "pending" (rfc3339 (rs_ExpiresAt res))))) ∧
  reserved "id-2" "ev" (requested_items req) sample_db d' res.
Proof.
  destruct (passes_reached ana_reserves ToTicketing 12 ("id-2", RoleCustomer, "ana@mail"))
    as [Hex Hu]; [vm_compute; reflexivity|].
  pose proof sample_mux_laws.
  destruct (exec sample_oracle (with_role RoleCustomer (BookingHandler_Reserve sample_service)
    (sent ana_reserves)) sample_db) as [d' a] eqn:Hans.
  assert (∃ v, a = Created (DReservation v)) as [v ->].
  { change a with (d', a).2. rewrite <- Hans. vm_compute. by eexists. }
  destruct (edge_reserve sample_auth sample_service sample_pay_handler true auth_oracle sample_oracle
    registered_db _ ana_reserves 12 _ _ sample_db d' v Hex eq_refl Hans)
    as (c & req & res & Hv & _ & _ & Hreq & Hres & ->).
  exists d', req, res. split; [reflexivity|].
  destruct Hv as (_ & _ & _ & _ & Hv & _). rewrite Hu in Hv. injection Hv as Hid _ _. rewrite Hid.
  vm_compute in Hreq. injection Hreq as <-. exact Hres.
Defined.

(** A request without a token reads her profile. *)
Lemma me_spoofed_witness : ∃ i r' (f : request → aprog (response authData)),
  exec auth_oracle (edge sample_auth sample_service sample_pay_handler true
    (mkIncoming "GET" "/api/auth/me"
      (λ h, if bool_decide (h = "X-Authenticated-User-ID") then "id-2" else "") (λ _, "") None))
    registered_db = (registered_db, Some (ToAuth, i, r')) ∧
  exec auth_oracle (f r') registered_db =
    (registered_db, OK (DMe (mkAuthResponse (Some (userToResponse
      (default sample_user (users registered_db !! "id-2")))) "" 0))).
Proof.
  pose proof sample_mux_laws.
  destruct (me_spoofed sample_auth sample_service sample_pay_handler true auth_oracle registered_db
    (mkIncoming "GET" "/api/auth/me"
      (λ h, if bool_decide (h = "X-Authenticated-User-ID") then "id-2" else "") (λ _, "") None)
    (default sample_user (users registered_db !! "id-2"))) as (i & r' & f & H1 & _ & H2).
  - done.
  - vm_compute. reflexivity.
  - vm_compute. discriminate.
  - reflexivity.
  - reflexivity.
  - vm_compute. reflexivity.
  - exists i, r', f. split; [exact H1|exact H2].
Defined.
