(* ===== verification/Site.v ===== *)
(** * The whole site

    The gateway, the auth service, ticketing and payment with their workers and
    the broker between them as one concurrent system.  [System] is the part of
    it behind the gateway: everything it reaches here it reaches there
    ([site_refines_system]), so that the theorems about [System] hold of the
    site.  Requests come through the gateway only; the one thing clients cannot
    do is make a token: a request carries a token that an answer of the auth
    service has carried, or one that the service never accepts. *)
From S2P Require Import Prelude Effects Json Dto Outbox TicketDB Booking TicketSamples Event TicketHandler TicketHttp PayDB Payment PayHandler PayHttp System SystemSpec AuthDB Auth AuthHandler AuthSamples AuthSpec Edge.

(** ** State and effects *)

(** [st_asked] and [st_made] are there for the theorems: each session request
    that has reached the provider, and each booking that has been made, with the
    token of the client's request that it is part of. *)

Record site := mkSite {
  st_auth : AuthDB;
  st_tokens : list string;
  st_world : world;
  st_asked : list (string * sessionCall);
  st_made : gmap string string;
}.
Definition set_auth (d : AuthDB) (s : site) : site :=
  mkSite d (st_tokens s) (st_world s) (st_asked s) (st_made s).
Definition add_tokens (toks : list string) (s : site) : site :=
  mkSite (st_auth s) (st_tokens s ++ toks) (st_world s) (st_asked s) (st_made s).
(** The bookings of [w] that [s] does not have. *)
Definition new_bookings (s : site) (w : world) : gmap string bookingRow :=
  bookings (w_ticket w) ∖ bookings (w_ticket (st_world s)).
(** [who] has asked for the sessions and made the bookings that are new in [w]. *)
Definition set_world (who : string) (w : world) (s : site) : site :=
  mkSite (st_auth s) (st_tokens s) w
    (st_asked s ++ (pair who <$> drop (length (w_sessions (st_world s))) (w_sessions w)))
    (((λ _, who) <$> new_bookings s w) ∪ st_made s).

Inductive siteE : Type → Type :=
  | AuthE {A} (x : authE A) : siteE A
  | SysE {A} (x : sysE A) : siteE A.
Abbreviation siteprog := (prog (eff site siteE)).

Definition on_auth {A} (f : stmt AuthDB A) : stmt site A := λ t s,
  let '(d, r) := f t (st_auth s) in (set_auth d s, r).
Definition on_world (who : string) {A} (f : stmt world A) : stmt site A := λ t s,
  let '(w, r) := f t (st_world s) in (set_world who w s, r).

(** A program of one part, on the site. *)
Section lift.
Context {D : Type} {X : Type → Type}.
Context (on : ∀ B, stmt D B → stmt site B) (emb : ∀ B, X B → siteE B).

Definition lift_handler {A} B (e : eff D X B) : (B → siteprog A) → siteprog A :=
  match e in eff _ _ B return (B → siteprog A) → siteprog A with
  | Sql f => λ k, Vis (Sql (on _ f)) k
  | Now => λ k, Vis Now k
  | NewUUID => λ k, Vis NewUUID k
  | Ext x => λ k, Vis (Ext (emb _ x)) k
  end.
Definition lift {A} : prog (eff D X) A → siteprog A := interp lift_handler.
End lift.
Definition lift_auth {A} : aprog A → siteprog A := lift (@on_auth) (@AuthE).
Definition lift_sys (who : string) {A} : sprog A → siteprog A := lift (@on_world who) (@SysE).

(** ** What runs *)

(** The tokens an answer carries, and what clients do with them. *)
Definition tokens_of (a : response authData) : list string :=
  match a with RData _ (DLogin l) => [ar_AccessToken (lo_AuthResponse l)] | _ => [] end.
Definition hand_out (toks : list string) : stmt site unit := λ _ s,
  (add_tokens toks s, Ok ()).
Definition token_at (i : nat) : stmt site string := query (λ s, row_or_error (st_tokens s !! i)).

Definition with_token (tok : string) (q : incoming) : incoming :=
  mkIncoming (in_Method q) (in_Path q)
    (λ h, if bool_decide (h = "Authorization") then "Bearer " +:+ tok else in_Header q h)
    (in_Query q) (in_Body q).

Section site.
Context `{!JWT, !Bcrypt, !Validator, !Mux}.
Context (auth : AuthService) (ticketing : BookingService) (payment : PaymentHandler).

Definition auth_call (h : request → aprog (response authData)) (r : request) : siteprog unit :=
  prog_bind (λ a, prog_bind (λ _, Ret ()) (sql (hand_out (tokens_of a)))) (lift_auth (h r)).

(** The token a request carries. *)
Definition carried (q : incoming) : string := default "" (bearer (in_Header q "Authorization")).

(** The handler a routed request gets to. *)
Definition serve_route (who : string) (readable : bool) (a : option (upstream * nat * request)) : siteprog unit :=
  match a with
  | Some (ToAuth, i, r) =>
      match AuthHandler_Routes auth !! i with Some (_, h) => auth_call h r | None => Ret () end
  | Some (ToTicketing, i, r) =>
      match ticketing_routes ticketing !! i with
      | Some (_, f) => lift_sys who (ticket_prog () (discard (f r)))
      | None => Ret ()
      end
  | Some (ToPayment, i, r) =>
      match PaymentHandler_Routes payment readable !! i with
      | Some (_, f) => lift_sys who (pay_prog () (discard (f r)))
      | None => Ret ()
      end
  | None => Ret ()
  end.

(** A request, through the gateway. *)
Definition through (readable : bool) (q : incoming) : siteprog unit :=
  prog_bind (serve_route (carried q) readable) (lift_auth (edge auth ticketing payment readable q)).

Definition never_accepted (tok : string) : Prop :=
  ∀ now claims, jwt_Parse now (rsa_key (as_tokenSvc auth)) tok ≠ Ok (mkToken (Some claims) true).

(** What runs behind the gateway without a request from outside. *)
Inductive backstage : sprog unit → Prop :=
  | BS_serve i : backstage (serve payment i)
  | BS_poll ctx : backstage (pay_prog () (expiryTick ctx))
  | BS_completed ctx i : backstage (ticket_consumer "payment.completed" (onPaymentCompleted ctx) i)
  | BS_expired i : backstage (ticket_consumer "payment.expired" onPaymentExpired i)
  | BS_cancelled i : backstage (ticket_consumer "event.cancelled" onEventCancelled i)
  | BS_refund i : backstage (pay_consumer i)
  | BS_ticket_worker : backstage ticket_worker
  | BS_pay_worker : backstage pay_worker.

Inductive site_entry : siteprog unit → Prop :=
  | SI_token readable i q :
      site_entry (prog_bind (λ r,
        match r with Ok tok => through readable (with_token tok q) | Err _ => Ret () end)
        (sql (token_at i)))
  | SI_other readable q :
      (∀ tok, in_Header q "Authorization" = "Bearer " +:+ tok → never_accepted tok) →
      site_entry (through readable q)
  | SI_backstage p : backstage p → site_entry (lift_sys "" p).


End site.

(** ** The gateway alone *)

Definition clock (t : Z) : oracle authE :=
  {| o_now := λ _, t; o_uuid := λ _, ""; o_fault := λ _, FDone; o_ext := auth_answers |}.
Definition no_accounts : AuthDB := mkAuthDB ∅ ∅.

Section refinement.
Context `{!JWT, !Bcrypt, !Validator, !Mux, !MuxLaws}.
Context (auth : AuthService) (ticketing : BookingService) (payment : PaymentHandler).

(** The gateway looks at the clock and nothing else. *)
Lemma edge_cases readable q (G : aprog (option (upstream * nat * request)) → Prop) :
  (∀ o a, exec o (edge auth ticketing payment readable q) no_accounts = (no_accounts, a) → G (Ret a)) →
  (∀ k, (∀ t, G (k t)) → G (Vis Now k)) → G (edge auth ticketing payment readable q).
Proof.
  unfold edge, forward_auth, AuthHandler_Verify, VerifyToken, VerifyAccessToken. intros HRet HNow. revert HRet.
  destruct (pick_router _ _ _) as [rt|]; [|intros HRet; by apply (HRet (clock 0))].
  destruct (rt_ForwardAuth rt); [|intros HRet; by apply (HRet (clock 0))].
  destruct (bool_decide _); [intros HRet; by apply (HRet (clock 0))|].
  destruct (bearer _) as [tok|]; [|intros HRet; by apply (HRet (clock 0))].
  intros HRet. apply HNow. intros t. specialize (HRet (clock t)). revert HRet. unfold exec. cbn.
  destruct (jwt_Parse t _ tok) as [tk|e]; [|intros HRet; by apply HRet].
  destruct (jt_Claims tk) as [claims|]; [|intros HRet; by apply HRet].
  destruct (jt_Valid tk); intros HRet; by apply HRet.
Qed.

(** ** The system behind the gateway *)

Local Abbreviation sys := (sys_entry ticketing payment).
Local Abbreviation starts := (starts (any_env siteE) (any_env sysE) st_world sys).

Lemma tracks_lift who p :
  tracks (any_env siteE) (any_env sysE) st_world sys (lift_sys who p) (Some p).
Proof.
  induction p as [a|Y e k IH]; [done|].
  destruct e as [B f| | |B x]; cbn; intros s s' a Hout.
  - exists (Some (k a)). split; [|apply IH]. cbn. exists a. split; [|done].
    destruct Hout as (t & flt & _ & Hout). exists t, flt. split; [done|]. unfold on_world in Hout.
    destruct flt; cbn in *; destruct (f t (st_world s)); by simplify_eq.
  - subst s'. exists (Some (k a)). split; [|apply IH]. cbn. by exists a.
  - subst s'. exists (Some (k a)). split; [|apply IH]. cbn. by exists a.
  - destruct Hout as [-> _]. exists (Some (k a)). split; [|apply IH]. cbn. by exists a.
Qed.

Lemma starts_sys who p : sys p → starts (lift_sys who p).
Proof. intros Hp. exists (Some p). split; [by intros ? [= <-]|apply tracks_lift]. Qed.

Lemma hidden_auth {A} (p : aprog A) (f : A → siteprog unit) :
  (∀ a, guards (λ s s', st_world s' = st_world s) (f a)) →
  guards (λ s s', st_world s' = st_world s) (prog_bind f (lift_auth p)).
Proof.
  intros Hf. induction p as [a|Y e k IH]; [apply Hf|].
  destruct e as [B g| | |B x]; (split; [|exact IH]); [|done..].
  intros t s. cbn. unfold on_auth. by destruct (g t (st_auth s)).
Qed.

Lemma hidden_auth_call h r : guards (λ s s', st_world s' = st_world s) (auth_call h r).
Proof. apply hidden_auth. intros a. by split. Qed.

Lemma starts_route who readable q o a :
  exec o (edge auth ticketing payment readable q) no_accounts = (no_accounts, a) →
  starts (serve_route auth ticketing payment who readable a).
Proof.
  intros Hex. destruct a as [[[[] i] r]|]; unfold serve_route; [| | |by apply starts_hidden].
  - destruct (AuthHandler_Routes auth !! i) as [[mp h]|]; [|by apply starts_hidden].
    apply starts_hidden, hidden_auth_call.
  - destruct (ticketing_routes ticketing !! i) as [[[m p] f]|] eqn:Hi; [|by apply starts_hidden].
    eapply starts_sys, SY_ticket, list_elem_of_lookup_2, Hi.
  - destruct (PaymentHandler_Routes payment readable !! i) as [[[m p] f]|] eqn:Hi; [|by apply starts_hidden].
    eapply starts_sys, SY_pay; [by eapply list_elem_of_lookup_2|]. intros ->. exfalso.
    assert (table auth ticketing payment readable ToPayment !! i = Some (m, "/api/payments/internal")) as Htab
      by (cbn [table]; by rewrite list_lookup_fmap, Hi).
    by eapply payment_not_internal.
Qed.

Lemma starts_through readable q : starts (through auth ticketing payment readable q).
Proof.
  unfold through.
  apply (edge_cases readable q (λ p, starts (prog_bind (serve_route auth ticketing payment (carried q) readable) (lift_auth p)))).
  - intros o a Hex. cbn. by eapply starts_route.
  - intros k Hk. cbn. by apply starts_step; [intros s s' t ->|].
Qed.

Lemma site_entry_starts p : site_entry auth ticketing payment p → starts p.
Proof.
  intros [readable i q|readable q Hno|p' Hp].
  - cbn. apply starts_step; [|intros [tok|e]; [apply starts_through|by apply starts_hidden]].
    intros s s' a (t & flt & _ & Hout). unfold token_at, query in Hout. destruct flt; cbn in Hout; by simplify_eq.
  - apply starts_through.
  - apply starts_sys. destruct Hp; by constructor.
Qed.

(** C10. The site behind the gateway is a system as [System] describes it: whatever
    the site reaches, with its clients, tokens and accounts, both services and
    what lies between them reach on their own.  So every theorem about the
    reachable states of [System] is one about the site. *)
Theorem site_refines_system (s0 s : site) :
  reachable (any_env siteE) (site_entry auth ticketing payment) s0 s →
  reachable (any_env sysE) sys (st_world s0) (st_world s).
Proof. apply reachable_view, site_entry_starts. Qed.
End refinement.

(** ** A sale, from the registration to the ticket *)

#[local] Existing Instances sample_jwt sample_bcrypt sample_validator sample_mux.

Definition site_oracle : oracle siteE := {|
  o_now := λ _, sample_time;
  o_uuid := calm_uuid;
  o_fault := λ _, FDone;
  o_ext := λ n A x,
    match x in siteE A return A with
    | AuthE x => auth_answers n _ x
    | SysE x => sys_answers _ x
    end;
|}.

Definition post (path : string) (headers : list (string * string)) (body : option json) : incoming :=
  mkIncoming "POST" path (r_header (sample_request headers [] None)) (λ _, "") body.
Definition with_first_token (q : incoming) : siteprog unit :=
  prog_bind (λ r,
    match r with
    | Ok tok => through sample_auth sample_service sample_pay_handler true (with_token tok q)
    | Err _ => Ret ()
    end) (sql (token_at 0)).
Definition without_token (q : incoming) : siteprog unit :=
  through sample_auth sample_service sample_pay_handler true q.

Definition credentials : option json :=
  Some (JObj [("email", JStr "ana@mail"); ("password", JStr "secret-1"); ("name", JStr "Ana");
              ("role", JStr "customer")]).

(** Ana registers, logs in and reserves two seats, payment serves the call, she
    asks for a payment link, the gateway reports on the session, and the news
    reach ticketing. *)
Definition purchase : list (siteprog unit) :=
  [without_token (post "/api/auth/register" [] credentials);
   without_token (post "/api/auth/login" [] credentials);
   with_first_token (post "/api/bookings/reserve" [] (r_body (reserve_request 2)));
   lift_sys "" (serve sample_pay_handler 0);
   with_first_token (post "/api/payments/booking/id-45" [] None);
   without_token (post "/api/payments/webhook" [("x-callback-token", "token")]
     (Some (JObj [("event", JStr "payment_session.completed");
                  ("data", JObj [("reference_id", JStr "id-45");
                                 ("payment_session_id", JStr "ps-mock-id-45")])])));
   lift_sys "" pay_worker;
   lift_sys "" (ticket_consumer "payment.completed" (onPaymentCompleted background) 0)].

(** The reservation waits for the answer to its call after twelve effects. *)
Definition purchase_steps : list nat :=
  replicate 20 0%nat ++ replicate 20 1%nat ++ replicate 12 2%nat ++ replicate 12 3%nat ++
  replicate 3 2%nat ++ concat (replicate 20 <$> seq 4 4).
Definition unsold : site := mkSite empty_auth_db [] opening [] ∅.
Definition purchased : site := (schedule site_oracle purchase_steps 0 purchase unsold).2.

Lemma without_token_entry q :
  in_Header q "Authorization" = "" →
  site_entry sample_auth sample_service sample_pay_handler (without_token q).
Proof. intros Hq. apply SI_other. intros tok Htok. rewrite Hq in Htok. discriminate. Qed.

Lemma purchased_reachable :
  reachable (any_env siteE) (site_entry sample_auth sample_service sample_pay_handler) unsold purchased.
Proof.
  apply schedule_reachable; [by split|].
  repeat apply Forall_cons_2; [by apply without_token_entry..| | | |by apply without_token_entry| | |constructor];
    first [apply SI_token|apply SI_backstage; constructor].
Qed.

Lemma purchased_row :
  br_status <$> bookings (w_ticket (st_world purchased)) !! "id-45" = Some "confirmed".
Proof. vm_compute. reflexivity. Qed.

Lemma purchased_session : ∃ who c, (who, c) ∈ st_asked purchased ∧ sc_RefID c = "id-45".
Proof.
  assert (sc_RefID ∘ snd <$> st_asked purchased = ["id-45"]) as He by (vm_compute; reflexivity).
  assert ("id-45" ∈ sc_RefID ∘ snd <$> st_asked purchased) as ([who c] & Hid & Hc)%list_elem_of_fmap
    by (rewrite He; apply list_elem_of_here).
  exists who, c. exact (conj Hc (eq_sym Hid)).
Qed.

Lemma site_refines_system_witness :
  reachable (any_env sysE) (sys_entry sample_service sample_pay_handler) opening (st_world purchased) ∧
  br_status <$> bookings (w_ticket (st_world purchased)) !! "id-45" = Some "confirmed".
Proof.
  pose proof sample_mux_laws. split; [|exact purchased_row].
  exact (site_refines_system sample_auth sample_service sample_pay_handler unsold purchased purchased_reachable).
Defined.
