(* ===== verification/Accounts.v ===== *)
(** * The accounts behind the bookings and the payments

    Whose bookings the [site] makes, and whose payments: every booking belongs
    to the account of a customer that the auth service has registered, and the
    call that asks payment for money names that account and its e-mail address.
    With the invariant of [System], which holds of the site
    ([site_refines_system]), this says who has paid for a confirmed booking. *)
From S2P Require Import Prelude Effects Json Dto Outbox TicketDB Booking TicketSamples Event Seats SeatSafety ReserveSpec TicketHandler TicketHttp PayDB Payment PaymentSafety PaymentSpec PayHandler PayHttp System SystemSafety SystemSpec AuthDB Auth AuthHandler AuthSamples AuthSpec Config Edge Site.

(** ** Whose bookings a program makes *)

(** [U] are the users, with their e-mail addresses. *)
Record mild_step (U : string → string → Prop) (d d' : TicketDB) : Prop := {
  ms_rows b row' : bookings d' !! b = Some row' →
    (∃ row, bookings d !! b = Some row ∧ br_user_id row' = br_user_id row) ∨
    (bookings d !! b = None ∧ ∃ email, U (br_user_id row') email);
  ms_wf : tables_wf d → tables_wf d';
}.

Definition call_for (U : string → string → Prop) {Y} (x : ticketE Y) : Prop :=
  match x with HttpDo q => U (iq_UserID q) (iq_Email q) end.

(** Every statement makes bookings for users in [U] only, and every call is
    about one of them; answers are those of well-formed tables. *)
Fixpoint mild (U : string → string → Prop) {A} (p : tprog A) : Prop :=
  match p with
  | Ret _ => True
  | Vis e k =>
      match e in eff _ _ Y return (Y → Prop) → Prop with
      | Sql f => λ K, (∀ t d, mild_step U d (f t d).1) ∧ ∀ a, answer_of f a → K a
      | Ext x => λ K, call_for U x ∧ ∀ a, K a
      | _ => λ K, ∀ a, K a
      end (λ a, mild U (k a))
  end.

Section mild.
Context (U : string → string → Prop).

Lemma mild_bind {A B} (f : A → tprog B) p : mild U p → (∀ a, mild U (f a)) → mild U (prog_bind f p).
Proof.
  intros Hp Hf. induction p as [a|Y e k IH]; cbn; [apply Hf|].
  destruct e as [B' g| | |B' x]; cbn in *; [|auto..|]; destruct Hp as [He Hk]; auto.
Qed.

Lemma quiet_mild C {A} (p : tprog A) : quiet C p → mild U p.
Proof.
  induction p as [a|Y e k IH]; cbn; [done|].
  destruct e as [B' g| | |B' x]; cbn in *; [|auto..|done]. intros [He Hk]. split; [|auto].
  intros t d. destruct (He t d) as [_ Hrows Hwf _]. split; [|done].
  intros b row' Hrow'. left. destruct (Hrows b row' Hrow') as (row & ? & ? & _). by exists row.
Qed.

Lemma insert_items_wf its d d' :
  insert_items its d = Ok d' → bookings d' = bookings d ∧ (tables_wf d → tables_wf d').
Proof.
  revert d. induction its as [|i its IH]; intros d; cbn; [by intros [= <-]|].
  unfold insert_item. destruct (negb _); [done|]. destruct (negb _); [done|].
  case_bool_decide; [done|]. case_bool_decide as Hfk; [|done]. intros [Hb Hwf]%IH. cbn in Hb.
  split; [done|]. intros [Hits Hids]. apply Hwf. split; [|done]. cbn.
  intros k j [[<- <-]|[_ Hj]]%lookup_insert_Some; [done|by eapply Hits].
Qed.

Lemma mild_create b email : U (bk_UserID b) email → mild U (BookingRepo_Create b).
Proof.
  intros HU. cbn. split; [|done]. intros t d. unfold create_booking, transaction.
  destruct (insert_booking _ d) as [d1|e] eqn:Hb.
  2:{ by split; [eauto|]. }
  destruct (insert_items _ d1) as [d2|e] eqn:Hi; cbn.
  2:{ by split; [eauto|]. }
  apply insert_booking_Ok in Hb as [Hnone ->]. apply insert_items_wf in Hi as [Hbk Hwf]. split.
  - intros k row'. rewrite Hbk. cbn. intros [[<- <-]|[_ Hrow]]%lookup_insert_Some; [right; split; [done|by exists email]|left; eauto].
  - intros [Hits Hids]. apply Hwf. split; cbn.
    + intros k i Hk. apply lookup_insert_is_Some'. right. by eapply Hits.
    + intros k row [[<- <-]|[_ Hrow]]%lookup_insert_Some; [done|by apply Hids].
Qed.

Lemma mild_stampItems bid items : mild U (stampItems bid items).
Proof.
  induction items as [|i items IH]; cbn [stampItems]; [done|].
  apply mild_bind; [done|]. intros id. apply mild_bind; [apply IH|done].
Qed.

Lemma mild_client c bid ev u em amount exp :
  U u em → mild U (Client_InitiateTxnForBooking c bid ev u em amount exp).
Proof.
  intros HU. unfold Client_InitiateTxnForBooking. case_match; [done|]. cbn [attempt_loop].
  repeat first [progress intros | apply mild_bind | split; [exact HU|] | done | case_match].
Qed.

Lemma mild_Reserve s u em ev items : U u em → mild U (Reserve s u em ev items).
Proof.
  intros HU. set (C := λ _ _ : string, False).
  assert (∀ items' (e : error), mild U (_ ← rollbackSeats ev items'; Ret (Err (A := Reservation) e))) as Hroll.
  { intros items' e. apply mild_bind; [|done]. apply (quiet_mild C), qt_rollbackSeats. }
  unfold Reserve. case_bool_decide; [done|].
  apply mild_bind; [apply (quiet_mild C), qt_reserveLoop|]. intros [[]|e]; [|done].
  apply mild_bind; [done|]. intros now. apply mild_bind; [done|]. intros bid.
  apply mild_bind; [done|]. intros created. apply mild_bind; [apply mild_stampItems|]. intros items'.
  apply mild_bind; [by apply (mild_create _ em)|]. intros [[]|e]; [|apply Hroll].
  apply mild_bind; [by apply mild_client|]. intros [[]|e]; [done|].
  apply mild_bind; [|intros; apply Hroll]. apply (quiet_mild C). unfold BookingRepo_Delete. quiet_solve.
Qed.
End mild.

Lemma mild_discard {A} U (p : tprog A) : mild U p → mild U (discard p).
Proof. intros Hp. by apply mild_bind. Qed.

Ltac in_list := solve [repeat first [apply list_elem_of_here|apply list_elem_of_further]].

(** The handlers of ticketing, and its consumers: only [Reserve] makes bookings. *)
Lemma mild_routes `{!Validator} s method pattern f r U :
  (method, pattern, f) ∈ ticketing_routes s → (method, pattern) ≠ ("POST", "/api/bookings/reserve") →
  mild U (f r).
Proof.
  intros Hin Hne. pose proof ticket_handlers_quiet as Hq. rewrite Forall_forall in Hq.
  assert (∀ role h r, h ∈ [EventHandler_ListPublished; EventHandler_GetEvent; EventHandler_CreateEvent;
     EventHandler_UpdateEvent; EventHandler_CancelEvent; EventHandler_ReprocessCancellation;
     EventHandler_ListMyEvents; EventHandler_ListAll; EventHandler_ListPending;
     EventHandler_ApproveEvent; EventHandler_RejectEvent; BookingHandler_Release;
     BookingHandler_ListMyBookings; BookingHandler_GetBooking] → mild U (with_role role h r)) as Hrole.
  { intros role h r' Hh. unfold with_role, WithUserContext, RequireRole. destruct (existsb _ _); [|done].
    apply (quiet_mild U (λ _ _, False)). by apply Hq. }
  revert Hin. unfold ticketing_routes, EventHandler_Routes, BookingHandler_Routes. cbn [app]. intros Hin.
  repeat (apply elem_of_cons in Hin as [Hin|Hin];
    [injection Hin as -> -> ->;
     first [by destruct Hne|apply Hrole; in_list|apply (quiet_mild U (λ _ _, False)), Hq; in_list|
            unfold WithUserContext; apply (quiet_mild U (λ _ _, False)), (Hq BookingHandler_GetBooking); in_list]|]).
  by apply elem_of_nil in Hin.
Qed.

Lemma mild_consumers U ctx m :
  mild U (onPaymentCompleted ctx m) ∧ mild U (onPaymentExpired m) ∧ mild U (onEventCancelled m).
Proof.
  set (C := λ _ _ : string, True).
  unfold onPaymentCompleted, onPaymentExpired, onEventCancelled.
  split_and!; destruct (Unmarshal_payload _); try done; apply (quiet_mild U C).
  - by apply qt_Confirm.
  - by apply qt_Expire.
  - apply qt_CancelBookings.
Qed.

(** ** The same for programs of the whole system *)

(** Transactions stay, and no session is asked for. *)
Record tame_step (U : string → string → Prop) (w w' : world) : Prop := {
  ts_ticket : mild_step U (w_ticket w) (w_ticket w');
  ts_requests q : q ∈ w_requests w' → q ∈ w_requests w ∨ U (iq_UserID q) (iq_Email q);
  ts_txns : rows_stay (w_pay w) (w_pay w');
  ts_sessions : w_sessions w' = w_sessions w;
}.

Definition world_answer {A} (f : stmt world A) (a : res A) : Prop :=
  (∃ t w, tables_wf (w_ticket w) ∧ (f t w).2 = a) ∨ ∃ e, a = Err e.

Fixpoint tame (U : string → string → Prop) {A} (p : sprog A) : Prop :=
  match p with
  | Ret _ => True
  | Vis e k =>
      match e in eff _ _ Y return (Y → Prop) → Prop with
      | Sql f => λ K, (∀ t w, tame_step U w (f t w).1) ∧ ∀ a, world_answer f a → K a
      | _ => λ K, ∀ a, K a
      end (λ a, tame U (k a))
  end.

Section tame.
Context (U : string → string → Prop).

Lemma mild_same d d' :
  bookings d' = bookings d → booking_items d' = booking_items d → mild_step U d d'.
Proof.
  intros Hb Hi. split; [intros b row'; rewrite Hb; eauto|]. intros [Hits Hids]. split; by rewrite ?Hi, Hb.
Qed.

Lemma tame_bind {A B} (f : A → sprog B) p : tame U p → (∀ a, tame U (f a)) → tame U (prog_bind f p).
Proof.
  intros Hp Hf. induction p as [a|Y e k IH]; cbn; [apply Hf|].
  destruct e as [B' g| | |B' x]; cbn in *; [|auto..]. destruct Hp as [He Hk]. auto.
Qed.

(** Statements that leave bookings and requests alone, whatever they answer. *)
Record aside (w w' : world) : Prop := {
  as_bookings : bookings (w_ticket w') = bookings (w_ticket w);
  as_items : booking_items (w_ticket w') = booking_items (w_ticket w);
  as_requests : w_requests w' = w_requests w;
  as_txns : rows_stay (w_pay w) (w_pay w');
  as_sessions : w_sessions w' = w_sessions w;
}.

Lemma aside_step w w' : aside w w' → tame_step U w w'.
Proof.
  intros [Hb Hi Hq Ht Hs]. split; [by apply mild_same| |done|done]. rewrite Hq. by left.
Qed.

Lemma tame_aside {A} (p : sprog A) : guards aside p → tame U p.
Proof.
  induction p as [a|Y e k IH]; [done|]. intros [He Hk].
  destruct e as [B f| | |B x]; cbn; [|auto..]. split; [|auto].
  intros t w. apply aside_step, He.
Qed.

Lemma tame_uuid {A} (dead : A) k : (∀ id, tame U (k id)) → tame U (new_uuid dead k).
Proof.
  intros Hk s. split; [|by intros [id|e] _]. intros t w. by apply aside_step.
Qed.

Lemma tame_ticket {A} (dead : A) p : mild U p → tame U (ticket_prog dead p).
Proof.
  induction p as [a|Y e k IH]; [done|]. destruct e as [B f| | |B x]; cbn.
  - intros [He Hk]. split.
    + intros t w. unfold on_ticket. specialize (He t (w_ticket w)). destruct (f t (w_ticket w)).
      split; [exact He|by left|done|done].
    + intros a [(t & w & Hw & Ha)|[e ->]]; apply IH, Hk; [|by right; eexists].
      left. exists t, (w_ticket w). split; [done|]. unfold on_ticket in Ha. by destruct (f t (w_ticket w)).
  - intros Hk a. by apply IH.
  - intros Hk. apply tame_uuid. intros id. by apply IH.
  - destruct x as [q]. intros [HU Hk]. cbn. split.
    + intros t w. split; [by apply mild_same| |done|done]. cbn. intros q' [?| ->%list_elem_of_singleton]%elem_of_app; auto.
    + intros [[]|e] _; [|by apply IH]. intros [i|r]; [|by apply IH]. split; [|intros a _; by apply IH].
      intros t w. by apply aside_step.
Qed.

(** Programs of payment that ask for no session. *)
Definition modest {A} (p : pprog A) : Prop :=
  guards (txns_by (λ _, True)) p ∧ calls no_session p.

Lemma aside_pay {A} (dead : A) p : modest p → guards aside (pay_prog dead p).
Proof.
  intros [Hg Hc].
  assert (∀ k : string → sprog A, (∀ id, guards aside (k id)) → guards aside (new_uuid dead k)) as Huuid.
  { intros k Hk. split; [done|]. intros s. split; [by intros t w|]. by intros [id|e]. }
  induction p as [a|Y e k IH]; [done|]. destruct Hg as [He Hg], Hc as [Hx Hc].
  assert (∀ a, guards aside (pay_prog dead (k a))) as IH' by (intros a; by apply IH).
  destruct e as [B f| | |B x]; cbn.
  - split; [|done]. intros t w. destruct (He t (w_pay w)) as (_ & _ & Hr). unfold on_pay.
    by destruct (f t (w_pay w)).
  - by split.
  - by apply Huuid.
  - destruct x; [discriminate Hx|by split..].
Qed.

Lemma aside_worker {D A} (lens : ∀ B, stmt (D * broker) B → stmt world B) (dead : A) p R :
  guards R p →
  (∀ B (f : stmt (D * broker) B), (∀ t d, R d (f t d).1) → ∀ t w, aside w (lens B f t w).1) →
  guards aside (interp (worker_handler lens dead) p).
Proof.
  intros Hp Hlens. induction p as [a|Y e k IH]; [done|]. destruct Hp as [He Hk].
  destruct e as [B f| | |B x]; cbn; [| | |destruct x].
  - split; [by apply Hlens|]. intros a. by apply IH.
  - split; [done|]. intros a. by apply IH.
  - split; [done|]. intros s. split; [by intros t w|]. intros [id|e]; [by apply IH|done].
Qed.

Lemma worker_batch `{!HasOutbox D} (R : relation (D * broker)) :
  (∀ d b m, R (d, b) (d, b ++ [m])) → (∀ d b, R (d, b) (d, b)) →
  (∀ id t d b, R (d, b) ((mark_delivered id t d).1, b)) → guards R processBatch.
Proof.
  intros Hpub Hsame Hmark. unfold processBatch.
  split; [intros t [d b]; apply Hsame|]. intros [batch|e]; [|done].
  change (guards R (drain batch)). induction batch as [|row batch IH]; cbn [drain]; [done|].
  apply guards_bind; [|done]. unfold processRow, publish, produce.
  split; [intros t [d b]; apply Hpub|]. intros [[]|e]; [|done].
  split; [intros t [d b]; exact (Hmark _ t d b)|by intros [[]|e]].
Qed.

Lemma aside_ticket_worker : guards aside ticket_worker.
Proof.
  apply (aside_worker _ _ _ (λ d d', bookings d'.1 = bookings d.1 ∧ booking_items d'.1 = booking_items d.1)).
  - by apply worker_batch.
  - intros B f Hf t w. unfold on_ticket_worker. destruct (Hf t (w_ticket w, w_broker w)) as [Hb Hi].
    destruct (f t _) as [d r]. by split.
Qed.
Lemma aside_pay_worker : guards aside pay_worker.
Proof.
  apply (aside_worker _ _ _ (λ d d', transactions d'.1 = transactions d.1)); [by apply worker_batch|].
  intros B f Hf t w. unfold on_pay_worker. pose proof (Hf t (w_pay w, w_broker w)) as Ht.
  destruct (f t _) as [d r]. split; [done..| |done]. by apply rows_stay_same.
Qed.

Lemma tame_fetch topic i (f : message → sprog unit) :
  (∀ m, tame U (f m)) →
  tame U (prog_bind (λ r, match r with Err _ => Ret () | Ok m => f m end) (sql (fetch topic i))).
Proof.
  intros Hf. cbn. split; [|intros [m|e] _; [apply Hf|done]]. intros t w. by apply aside_step.
Qed.

Lemma modest_bind {A B} (p : pprog A) (f : A → pprog B) :
  modest p → (∀ a, modest (f a)) → modest (prog_bind f p).
Proof.
  intros [Hg Hc] Hf. split; [apply guards_bind|apply calls_bind]; try done; intros a; apply Hf.
Qed.

Lemma modest_initiate h q : modest (initiate_route h (wire q)).
Proof.
  unfold initiate_route, requireInternalKey. destruct (negb _); [done|].
  unfold PaymentHandler_InitiateTxnForBooking. destruct (Decode _ _); [|done].
  destruct (_ || _); [done|]. apply modest_bind; [|done]. split; [by apply by_Initiate|apply free_Initiate].
Qed.
Lemma modest_poll ctx : modest (expiryTick ctx).
Proof. split; [apply by_poll|apply free_poll]. Qed.
Lemma modest_eventCancelled m : modest (discard (pay_onEventCancelled m)).
Proof. apply modest_bind; [|done]. split; [apply by_eventCancelled|apply free_eventCancelled]. Qed.
Lemma modest_webhook ctx body : modest (HandleSessionWebhook ctx body).
Proof. split; [apply by_webhook|apply free_webhook]. Qed.
Lemma modest_query {A} (f : PayDB → res A) : modest (sql (query f)).
Proof. split; (split; [|done]); [|done]. intros t d. apply by_query. Qed.
Lemma modest_status b : modest (GetPaymentStatus b).
Proof. apply modest_bind; [apply modest_query|by intros []]. Qed.

(** The routes of payment but the one that starts a payment. *)
Lemma modest_routes h readable method pattern f r :
  (method, pattern, f) ∈ PaymentHandler_Routes h readable → pattern ≠ "/api/payments/internal" →
  (method, pattern) ≠ ("POST", "/api/payments/booking/{booking_id}") → modest (discard (f r)).
Proof.
  intros Hin Hint Hne. apply modest_bind; [|done].
  assert (∀ role (g : request → pprog (response payData)), (∀ r, modest (g r)) → modest (pay_with_role role g r)) as Hrole.
  { intros role g Hg. unfold pay_with_role, WithUserContext, RequireRole. by destruct (existsb _ _). }
  revert Hin. unfold PaymentHandler_Routes. intros Hin.
  repeat first [apply elem_of_cons in Hin as [[= -> -> ->]|Hin]|by apply elem_of_nil in Hin]; [| |done|done|..].
  - unfold PaymentHandler_Webhook. destruct (negb _); [done|]. destruct (negb _); [done|].
    apply modest_bind; [apply modest_webhook|done].
  - unfold PaymentHandler_MockSessionWebhook.
    repeat (case_bool_decide; [apply modest_bind; [apply modest_status|]; intros [t|e]; [|done];
      apply modest_bind; [apply modest_webhook|done]|]). done.
  - apply Hrole. intros r'. apply modest_bind; [apply modest_status|done].
  - apply Hrole. intros r'. apply modest_bind; [apply modest_query|done].
  - apply Hrole. intros r'. apply modest_bind; [apply modest_query|done].
  - apply Hrole. intros r'. unfold PaymentHandler_ListTransactions. case_bool_decide; [done|].
    apply modest_bind; [apply modest_query|done].
Qed.

Lemma tame_backstage h p : backstage h p → tame U p.
Proof.
  intros [i|ctx|ctx i|i|i|i| |].
  - unfold serve. apply tame_bind; [apply tame_aside; by split|]. intros [q|e]; [|done].
    apply tame_bind; [apply tame_aside, aside_pay, modest_initiate|]. intros a. apply tame_aside. split; [by intros t w|done].
  - apply tame_aside, aside_pay, modest_poll.
  - apply tame_fetch. intros m. by apply tame_ticket, mild_discard, mild_consumers.
  - apply tame_fetch. intros m. by apply tame_ticket, mild_discard, (mild_consumers _ background).
  - apply tame_fetch. intros m. by apply tame_ticket, mild_discard, (mild_consumers _ background).
  - apply tame_fetch. intros m. apply tame_aside, aside_pay, modest_eventCancelled.
  - apply tame_aside, aside_ticket_worker.
  - apply tame_aside, aside_pay_worker.
Qed.
End tame.

(** ** The invariant *)

Section accounts.
Context `{!JWT, !Bcrypt, !Validator, !Mux, !MuxLaws}.
Context (auth : AuthService) (ticketing : BookingService) (payment : PaymentHandler).

Definition account (d : AuthDB) (c : Claims) : Prop :=
  ∃ k u, users d !! k = Some u ∧ c = mkClaims (us_ID u) (us_Email u) (us_Role u).

Definition good_token (d : AuthDB) (tok : string) : Prop :=
  ∃ c exp iat, account d c ∧
    SignedString (ts_privateKey (as_tokenSvc auth)) (access_claims c exp iat) = Ok tok.

Definition customer (d : AuthDB) (user email : string) : Prop :=
  ∃ c, account d c ∧ cm_UserID c = user ∧ cm_Email c = email ∧ cm_Role c = RoleCustomer.

(** [tok] has been handed out, for the account [c]. *)
Definition bearer_of (s : site) (tok : string) (c : Claims) : Prop :=
  account (st_auth s) c ∧ tok ∈ st_tokens s ∧ ∃ exp iat,
    SignedString (ts_privateKey (as_tokenSvc auth)) (access_claims c exp iat) = Ok tok.

(** The customer who may ask for a session. *)
Definition payer (s : site) (tok : string) (cl : Claims) : Prop :=
  bearer_of s tok cl ∧ cm_Role cl = RoleCustomer.
Definition asked_by_owner (s : site) (a : string * sessionCall) : Prop :=
  ∃ cl, payer s a.1 cl ∧ billed_for (cm_UserID cl) (w_pay (st_world s)) a.2.

Record site_inv (s : site) : Prop := {
  sv_tokens tok : tok ∈ st_tokens s → good_token (st_auth s) tok;
  sv_rows b row : bookings (w_ticket (st_world s)) !! b = Some row →
    ∃ tok cl, st_made s !! b = Some tok ∧ payer s tok cl ∧ cm_UserID cl = br_user_id row;
  sv_requests q : q ∈ w_requests (st_world s) → customer (st_auth s) (iq_UserID q) (iq_Email q);
  sv_wf : tables_wf (w_ticket (st_world s));
  sv_asked : (st_asked s).*2 = w_sessions (st_world s);
  sv_sessions a : a ∈ st_asked s → asked_by_owner s a;
}.

(** Accounts, tokens and transactions stay. *)
Definition users_kept (d d' : AuthDB) : Prop := users d ⊆ users d'.
Record siteR (s s' : site) : Prop := {
  sr_users : users_kept (st_auth s) (st_auth s');
  sr_tokens tok : tok ∈ st_tokens s → tok ∈ st_tokens s';
  sr_txns : rows_stay (w_pay (st_world s)) (w_pay (st_world s'));
}.

#[local] Instance users_kept_preorder : PreOrder users_kept.
Proof. split; [by intros d; unfold users_kept|intros d1 d2 d3; unfold users_kept; apply transitivity]. Qed.
#[local] Instance siteR_preorder : PreOrder siteR.
Proof.
  split; [intros s; by split|]. intros s1 s2 s3 [U1 T1 R1] [U2 T2 R2].
  split; [by etrans|by auto|by etrans].
Qed.

Lemma siteR_auth s d : users_kept (st_auth s) d → siteR s (set_auth d s).
Proof. by split. Qed.
Lemma siteR_tokens s toks : siteR s (add_tokens toks s).
Proof. split; [done| |done]. intros tok Htok. apply elem_of_app. by left. Qed.
Lemma siteR_world who s w : rows_stay (w_pay (st_world s)) (w_pay w) → siteR s (set_world who w s).
Proof. by split. Qed.

Lemma set_world_asked who w s : w_sessions w = w_sessions (st_world s) → st_asked (set_world who w s) = st_asked s.
Proof. intros Hw. cbn. rewrite Hw, drop_all. apply app_nil_r. Qed.
(** A booking that is there was made by [who] if it is new, and by whoever made
    it otherwise. *)
Lemma set_world_old who w s b row :
  bookings (w_ticket (st_world s)) !! b = Some row → st_made (set_world who w s) !! b = st_made s !! b.
Proof.
  intros Hb. cbn. unfold new_bookings. apply lookup_union_r. rewrite lookup_fmap, fmap_None.
  apply lookup_difference_None. right. by exists row.
Qed.
Lemma set_world_new who w s b row :
  bookings (w_ticket w) !! b = Some row → bookings (w_ticket (st_world s)) !! b = None →
  st_made (set_world who w s) !! b = Some who.
Proof.
  intros Hw Hb. cbn. unfold new_bookings. apply lookup_union_Some_l. rewrite lookup_fmap.
  by rewrite (proj2 (lookup_difference_Some _ _ _ row) (conj Hw Hb)).
Qed.
Lemma set_world_id who s : set_world who (st_world s) s = s.
Proof.
  unfold set_world, new_bookings. rewrite drop_all, map_difference_diag, fmap_empty, map_empty_union. cbn.
  rewrite app_nil_r. by destruct s.
Qed.

Lemma account_kept d d' c : users_kept d d' → account d c → account d' c.
Proof. intros Hk (k & u & Hu & ->). exists k, u. split; [by eapply lookup_weaken|done]. Qed.
Lemma good_token_kept d d' tok : users_kept d d' → good_token d tok → good_token d' tok.
Proof. intros Hk (c & exp & iat & Ha & Hs). exists c, exp, iat. split; [by eapply account_kept|done]. Qed.
Lemma customer_kept d d' u e : users_kept d d' → customer d u e → customer d' u e.
Proof. intros Hk (c & Ha & Hc). exists c. split; [by eapply account_kept|done]. Qed.

Lemma bearer_kept tok cl : stable siteR (λ s, bearer_of s tok cl).
Proof.
  intros s s' HR (Ha & Htok & Hs). split_and!; [by eapply account_kept, Ha; apply HR|by apply HR|done].
Qed.
Lemma payer_kept tok cl : stable siteR (λ s, payer s tok cl).
Proof. intros s s' HR [Hb Hr]. split; [by eapply bearer_kept|done]. Qed.
Lemma asked_kept a : stable siteR (λ s, asked_by_owner s a).
Proof.
  intros s s' HR (cl & Hp & Hb). exists cl. split; [by eapply payer_kept|].
  eapply billed_for_stable; [apply HR|exact Hb].
Qed.

Lemma site_inv_auth s d : users_kept (st_auth s) d → site_inv s → site_inv (set_auth d s).
Proof.
  intros Hk []. split; cbn; [| | |done|done|].
  - intros tok Htok. by eapply good_token_kept, sv_tokens0.
  - intros b row Hrow. destruct (sv_rows0 b row Hrow) as (tok & cl & Hm & Hp & Hu). exists tok, cl.
    split_and!; [done|by eapply payer_kept, Hp; apply siteR_auth|done].
  - intros q Hq. by eapply customer_kept, sv_requests0.
  - intros a Ha. eapply asked_kept; [by apply siteR_auth|by apply sv_sessions0].
Qed.

(** The customer a request with the token [who] acts for. *)
Definition acts_for (s : site) (who user email : string) : Prop :=
  ∃ cl, payer s who cl ∧ cm_UserID cl = user ∧ cm_Email cl = email.

Lemma acts_customer s who u e : acts_for s who u e → customer (st_auth s) u e.
Proof. intros (cl & [[Ha _] Hr] & Hu & He). by exists cl. Qed.

Lemma site_inv_world who s w : tame_step (acts_for s who) (st_world s) w → site_inv s →
  site_inv (set_world who w s).
Proof.
  intros Htame HI. pose proof (siteR_world who s w (ts_txns _ _ _ Htame)) as HR.
  destruct Htame as [[Hrows Hwf] Hreq Htx Hses]. pose proof (set_world_asked who w s Hses) as Hasked.
  destruct HI. split; [done| | |by apply Hwf|by rewrite Hasked; cbn; rewrite Hses|].
  - intros b row Hrow. destruct (Hrows b row Hrow) as [(row0 & Hr0 & ->)|[Hnew (email & cl & Hp & Hu & _)]].
    + rewrite (set_world_old who w s b row0 Hr0). destruct (sv_rows0 b row0 Hr0) as (tok & cl & Hm & Hp & Hu).
      exists tok, cl. split_and!; [done|by eapply payer_kept, Hp|done].
    + exists who, cl. split_and!; [by eapply set_world_new|by eapply payer_kept, Hp|done].
  - intros q Hq. destruct (Hreq q Hq) as [?|?]; [by apply sv_requests0|by eapply acts_customer].
  - intros a. rewrite Hasked. intros Ha. by eapply asked_kept, sv_sessions0.
Qed.

Local Abbreviation swp := (wp (any_env siteE) (λ s (_ : list unit), site_inv s) siteR).
Local Abbreviation awp := (wp (any_env authE) (λ (_ : AuthDB) (_ : list unit), True) users_kept).

(** A program of the auth service runs on the site as it does on its own. *)
Lemma wp_lift_auth {A} (p : aprog A) P (P' : site → Prop) Q :
  awp p [] P Q → (∀ s, P' s → P (st_auth s)) →
  swp (lift_auth p) [] P' (λ a _ P', ∃ L P0, Q a L P0 ∧ ∀ s, P' s → P0 (st_auth s)).
Proof.
  generalize (@nil unit) at 1 as L. revert P P'. induction p as [a|Y e k IH]; intros P P' L Hp HP.
  { exists L, P. auto. }
  assert (∀ s a d', site_inv s → P' s → eff_out (any_env authE) e (st_auth s) d' a →
    let s' := set_auth d' s in
    siteR s s' ∧ ∃ L' P'', stable siteR P'' ∧ P'' s' ∧ site_inv s' ∧
      swp (lift_auth (k a)) L' P'' (λ a _ P', ∃ L P0, Q a L P0 ∧ ∀ s, P' s → P0 (st_auth s))) as Hstep.
  { intros s a d' HI Hs Hout s'. destruct (Hp (st_auth s) [] d' a I (HP s Hs) Hout) as (HR & L' & P0 & Hst & HP0 & _ & Hk).
    split; [by apply siteR_auth|]. exists [], (λ s, P0 (st_auth s)).
    split_and!; [|done|by apply site_inv_auth|by eapply IH]. intros s1 s2 H12. by apply Hst, H12. }
  destruct e as [B f| | |B x]; cbn; intros s F s' a HI Hs Hout.
  - destruct Hout as (t & flt & Hflt & Hout). 
    assert (∃ d', sql_outcome f t flt (st_auth s) = (d', a) ∧ s' = set_auth d' s) as (d' & Hf & ->).
    { unfold on_auth in Hout. destruct flt; cbn in *; destruct (f t (st_auth s)) as [d1 r1]; simplify_eq; cbn; eauto.
      exists (st_auth s'). split; [done|by destruct s']. }
    apply Hstep; [done..|]. by exists t, flt.
  - subst s'. destruct s. exact (Hstep _ a _ HI Hs eq_refl).
  - subst s'. destruct s. exact (Hstep _ a _ HI Hs eq_refl).
  - destruct Hout as [-> Hx]. destruct s. exact (Hstep _ a _ HI Hs (conj eq_refl I)).
Qed.

Lemma on_world_outcome who {B} (f : stmt world B) t flt s s' r :
  sql_outcome (on_world who f) t flt s = (s', r) →
  ∃ w', s' = set_world who w' s ∧ sql_outcome f t flt (st_world s) = (w', r).
Proof.
  unfold on_world. destruct flt; cbn; destruct (f t (st_world s)) as [w1 r1]; intros [= <- <-]; eauto.
  exists (st_world s). by rewrite set_world_id.
Qed.

(** A program that acts for customers only. *)
Lemma wp_lift_sys who {A} U (p : sprog A) (P : site → Prop) Q :
  tame U p → stable siteR P → (∀ s u e, P s → U u e → acts_for s who u e) →
  (∀ a, Q a [] P) → swp (lift_sys who p) [] P Q.
Proof.
  intros Hp Hst HU HQ. induction p as [a|Y e k IH]; [apply HQ|].
  destruct e as [B f| | |B x]; cbn in *; intros s F s' a HI Hs Hout.
  - destruct Hout as (t & flt & _ & (w' & -> & Hout)%on_world_outcome). destruct Hp as [He Hk].
    assert (world_answer f a ∧ (w' = st_world s ∨ w' = (f t (st_world s)).1)) as [Ha Hw'].
    { pose proof (sv_wf _ HI) as Hwf. unfold world_answer.
      destruct flt; cbn in Hout; destruct (f t (st_world s)) as [w1 r1] eqn:Hf; simplify_eq; eauto.
      split; [left; exists t, (st_world s); by rewrite Hf|auto]. }
    assert (tame_step (acts_for s who) (st_world s) w') as Hstep.
    { destruct Hw' as [->| ->]; [by apply aside_step|].
      destruct (He t (st_world s)) as [[Hrows Hwf] Hreq Htx Hses]. split; [split; [|done]| |done|done].
      - intros b row Hrow. destruct (Hrows b row Hrow) as [?|[? [email HUu]]]; [by left|right; eauto].
      - intros q Hq. destruct (Hreq q Hq) as [?|?]; [by left|right; eauto]. }
    assert (siteR s (set_world who w' s)) as HR by (apply siteR_world, Hstep).
    split; [done|]. exists [], P. split_and!; [done|by eapply Hst|by apply site_inv_world|by apply IH, Hk].
  - subst s'. split; [reflexivity|]. exists [], P. split_and!; [done..|]. by apply IH.
  - subst s'. split; [reflexivity|]. exists [], P. split_and!; [done..|]. by apply IH.
  - destruct Hout as [-> _]. split; [reflexivity|]. exists [], P. split_and!; [done..|]. by apply IH.
Qed.

(** A program of payment that asks for sessions of a customer's transactions. *)
Lemma site_inv_set_pay who s d :
  rows_stay (w_pay (st_world s)) d → site_inv s → site_inv (set_world who (set_pay d (st_world s)) s).
Proof. intros Hr. apply site_inv_world. split; [by apply mild_same|by left|done|done]. Qed.

Lemma site_inv_draw who s id t : site_inv s → site_inv (set_world who (draw id t (st_world s)).1 s).
Proof. apply site_inv_world. split; [by apply mild_same|by left|done|done]. Qed.

Lemma site_inv_ask who s c cl t :
  payer s who cl → billed_for (cm_UserID cl) (w_pay (st_world s)) c → site_inv s →
  site_inv (set_world who (ask c t (st_world s)).1 s).
Proof.
  intros Hp Hb []. pose proof (siteR_world who s (ask c t (st_world s)).1 (rows_stay_same _ _ eq_refl)) as HR.
  split; [done| |done|done|..].
  - intros b row Hrow. rewrite (set_world_old who _ s b row Hrow).
    destruct (sv_rows0 b row Hrow) as (tok & cl' & Hm & Hp' & Hu).
    exists tok, cl'. split_and!; [done|by eapply payer_kept, Hp'|done].
  - cbn. by rewrite drop_app_length, fmap_app, sv_asked0.
  - intros a. cbn. rewrite drop_app_length.
    intros [Ha| ->%list_elem_of_singleton]%elem_of_app; [|by exists cl].
    by apply sv_sessions0.
Qed.

(** A statement that leaves the transactions alone, executed or not. *)
Lemma step_pay who s w' {w1} :
  w' = w1 ∨ w' = st_world s → w_pay w1 = w_pay (st_world s) →
  (site_inv s → site_inv (set_world who w1 s)) → site_inv s →
  siteR s (set_world who w' s) ∧ site_inv (set_world who w' s) ∧ w_pay w' = w_pay (st_world s).
Proof.
  intros Hw Hpay Hinv HI. destruct Hw as [->| ->].
  - split_and!; [apply siteR_world; by rewrite Hpay|by apply Hinv|done].
  - by rewrite set_world_id.
Qed.

Lemma wp_lift_pay who {A} (dead : A) (p : pprog A) cl PB :
  guards (txns_by (λ _, True)) p → bills_for (billed_for (cm_UserID cl)) p PB → stable rows_stay PB →
  swp (lift_sys who (pay_prog dead p)) [] (λ s, payer s who cl ∧ PB (w_pay (st_world s))) (λ _ _ _, True).
Proof.
  revert PB. induction p as [a|Y e k IH]; intros PB Hg Hb Hst; [done|].
  destruct Hg as [He Hg].
  assert (∀ PB, stable rows_stay PB → stable siteR (λ s, payer s who cl ∧ PB (w_pay (st_world s)))) as HstP.
  { intros PB' HP s s' HR [Hpay HPB]. split; [by eapply payer_kept|by eapply HP; [apply HR|]]. }
  assert (∀ s s' a PB', siteR s s' → site_inv s' → payer s who cl → stable rows_stay PB' →
    PB' (w_pay (st_world s')) → bills_for (billed_for (cm_UserID cl)) (k a) PB' →
    siteR s s' ∧ ∃ L' P', stable siteR P' ∧ P' s' ∧ site_inv s' ∧
      swp (lift_sys who (pay_prog dead (k a))) L' P' (λ _ _ _, True)) as Hnext.
  { intros s s' a PB' HR HI Hp HstB HPB Hbl. split; [done|]. eexists [], _.
    split_and!; [by apply HstP, HstB|split; [by eapply payer_kept|exact HPB]|done|by apply IH]. }
  assert (∀ x : payE Y, (∀ a, bills_for (billed_for (cm_UserID cl)) (k a) PB) →
    swp (Vis (Ext (SysE (Gateway x))) (λ b, lift_sys who (pay_prog dead (k b)))) []
      (λ s, payer s who cl ∧ PB (w_pay (st_world s))) (λ _ _ _, True)) as Hext.
  { intros x Hk s F s' b HI [Hp HPB] [-> _]. by apply (Hnext s s b PB). }
  destruct e as [B f| | |B x]; [| | |destruct x as [ref amount cur exp channels email|ref|ref]; destruct Hb as [Hbill Hb]].
  - intros s F s' r HI [Hp HPB] (t & flt & _ & (w' & -> & Hout)%on_world_outcome).
    destruct (on_pay_outcome _ _ _ _ _ _ Hout) as (d' & -> & Hd').
    destruct (Hb t flt _ _ _ HPB Hd') as (PB' & HstB & HPB' & Hbl).
    assert (rows_stay (w_pay (st_world s)) d') as Hrows by (eapply txns_by_outcome in Hd'; [apply Hd'|exact He]).
    apply (Hnext s _ r PB'); [by apply siteR_world|by apply site_inv_set_pay|done..].
  - intros s F s' r HI [Hp HPB] Hout. cbn in Hout. subst s'. by apply (Hnext s s r PB).
  - apply wp_uuid; [apply _|by apply HstP|]. intros id.
    intros s F s' r HI [Hp HPB] (t & flt & _ & (w' & -> & Hout)%on_world_outcome).
    assert (w' = (draw id t (st_world s)).1 ∨ w' = st_world s) as Hw'
      by (destruct flt; cbn in Hout; rewrite ?Hout; simplify_eq; auto).
    destruct (step_pay who s w' Hw') as (HR & HI' & Hw); [done|by intros; apply site_inv_draw|done|].
    destruct r as [id'|e].
    + apply (Hnext s _ id' PB); [done..|by cbn; rewrite Hw|done].
    + split; [done|]. exists [], (λ _, True). by split_and!.
  - intros s F s' r HI [Hp HPB] (t & flt & _ & (w' & -> & Hout)%on_world_outcome).
    assert (w' = (ask (mkSessionCall ref amount cur) t (st_world s)).1 ∨ w' = st_world s) as Hw'
      by (destruct flt; cbn in Hout; rewrite ?Hout; simplify_eq; auto).
    destruct (step_pay who s w' Hw') as (HR & HI' & Hw); [done|intros; apply (site_inv_ask who s _ cl t); [done|by apply Hbill|done]|done|].
    destruct r as [[]|e]; [|apply (Hnext s _ _ PB); [done..|by cbn; rewrite Hw|done]].
    split; [done|]. eexists [], _.
    split_and!; [by apply HstP, Hst|split; [by eapply payer_kept|by cbn; rewrite Hw]|done|by apply Hext].
  - by apply Hext.
  - by apply Hext.
Qed.

(** ** The tokens the auth service hands out *)

Lemma awp_kept {A} (p : aprog A) P Q :
  guards users_kept p → stable users_kept P → (∀ a, Q a [] P) → awp p [] P Q.
Proof.
  intros Hp Hst HQ. apply wp_keeps; [apply _| |exact Hst|exact HQ].
  eapply guards_mono; [|exact Hp]. intros d d' Hu. by split.
Qed.

Lemma users_query {A} (f : AuthDB → res A) t d : users_kept d (query f t d).1.
Proof. unfold users_kept. done. Qed.
Lemma users_insert u t d : users_kept d (insert_user u t d).1.
Proof.
  unfold users_kept, insert_user. destruct (negb _); [done|].
  destruct (bool_decide _ || negb _) eqn:Hdup; [done|]. cbn.
  apply orb_false_iff in Hdup as [Hid%bool_decide_eq_false _].
  by apply insert_subseteq, eq_None_not_Some.
Qed.
Lemma users_token rt t d : users_kept d (insert_token rt t d).1.
Proof. apply (insert_token_kept rt t d). Qed.
Lemma users_delete P t d : users_kept d (delete_tokens P t d).1.
Proof. apply (delete_tokens_kept P t d). Qed.
#[local] Hint Resolve users_query users_insert users_token users_delete : ticket.

Definition claims_of (user : User) : Claims := mkClaims (us_ID user) (us_Email user) (us_Role user).

(** What a pair of tokens has to satisfy. *)
Definition pair_good (a : res TokenPair) (P : AuthDB → Prop) : Prop :=
  match a with Ok tp => ∀ d, P d → good_token d (tp_AccessToken tp) | Err _ => True end.

Lemma awp_issuePair user P :
  stable users_kept P → (∀ d, P d → account d (claims_of user)) →
  awp (issuePair auth user) [] P (λ a _ P', pair_good a P').
Proof.
  intros Hst Hacc. unfold issuePair, GenerateAccessToken. apply wp_bind.
  apply wp_time; [apply _|done|]. intros now. apply wp_time; [apply _|done|]. intros now'. cbn [prog_bind].
  destruct (SignedString _ _) as [tok|e] eqn:Hsig; [|done].
  assert (∀ d, P d → good_token d tok) as Hgood.
  { intros d Hd. eexists _, _, _. split; [by apply Hacc|exact Hsig]. }
  apply wp_bind, awp_kept; [|done|].
  { unfold GenerateRefreshToken. guards_solve. }
  intros [rt|e]; [|done]. apply wp_bind, wp_uuid; [apply _|done|]. intros id.
  apply wp_bind, wp_time; [apply _|done|]. intros at_. apply wp_bind, awp_kept; [|done|].
  { unfold RefreshTokenRepo_Create. guards_solve. }
  by intros [[]|e].
Qed.

Lemma awp_found {A} (f : AuthDB → option User) (k : res User → aprog A) P Q :
  (∀ d u, f d = Some u → ∃ key, users d !! key = Some u) → stable users_kept P →
  (∀ u P', stable users_kept P' → (∀ d, P' d → account d (claims_of u)) → awp (k (Ok u)) [] P' Q) →
  (∀ e, awp (k (Err e)) [] P Q) →
  awp (Vis (Sql (query (λ d, row_or_error (f d)))) k) [] P Q.
Proof.
  intros Hf Hst Hok Herr. apply wp_query; [apply _|done|done| |done]. intros d F t _ HP. cbn.
  destruct (f d) as [u|] eqn:Hu; cbn.
  - destruct (Hf d u Hu) as [key Hkey]. exists (λ d, account d (claims_of u)).
    assert (stable users_kept (λ d, account d (claims_of u))) as Hsta.
    { intros d1 d2 H12. by apply account_kept. }
    split_and!; [done|by exists key, u|by apply Hok].
  - exists P. by split_and!.
Qed.

Lemma awp_Login email password :
  awp (Login auth email password) [] (λ _, True) (λ a _ P, pair_good a P).
Proof.
  unfold Login, UserRepo_FindByEmail. apply wp_bind, wp_bind. apply awp_found; [|done| |done].
  - intros d u Hu. apply head_Some_elem_of, elem_of_rows in Hu as (key & Hkey & _). by exists key.
  - intros u P Hst HP. cbn. destruct (Hasher_Verify _ _); [|done]. by apply awp_issuePair.
Qed.

Lemma awp_RefreshToken raw :
  awp (AuthService_RefreshToken auth raw) [] (λ _, True) (λ a _ P, pair_good a P).
Proof.
  unfold AuthService_RefreshToken, RefreshTokenRepo_FindByHash, UserRepo_FindByID.
  apply wp_bind, awp_kept; [guards_solve|done|]. intros [stored|e]; [|done].
  apply wp_time; [apply _|done|]. intros now. cbn [prog_bind]. destruct (bool_decide _); [done|].
  apply wp_bind, wp_bind. apply awp_found; [|done| |done]; [by eauto|].
  intros u P Hst HP. cbn [wrap_error]. apply wp_bind, awp_kept; [|done|].
  { unfold RefreshTokenRepo_DeleteByHash. guards_solve. }
  intros [[]|e]; [|done]. by apply awp_issuePair.
Qed.

Lemma ug_Register email password name role : guards users_kept (Register email password name role).
Proof. unfold Register, UserRepo_FindByEmail, Hasher_Hash, UserRepo_Create. guards_solve. Qed.
Lemma ug_VerifyToken tok : guards users_kept (VerifyToken auth tok).
Proof. unfold VerifyToken, VerifyAccessToken. guards_solve. Qed.

(** The answer to a pair of tokens. *)
Lemma pair_answer tp P d : pair_good (Ok tp) P → P d → Forall (good_token d) (tokens_of (pair_response tp)).
Proof. intros Hgood Hd. constructor; [by apply Hgood|constructor]. Qed.

Lemma awp_routes method pattern h r :
  (method, pattern, h) ∈ AuthHandler_Routes auth →
  awp (h r) [] (λ _, True) (λ a _ P, ∀ d, P d → Forall (good_token d) (tokens_of a)).
Proof.
  intros Hin. unfold AuthHandler_Routes in Hin.
  repeat (apply elem_of_cons in Hin as [[= -> -> ->]|Hin]); [..|by apply elem_of_nil in Hin].
  - unfold AuthHandler_Register. destruct (Decode _ _) as [req|e]; [|by constructor].
    destruct (validate_Struct _); [by constructor|]. apply wp_bind, awp_kept; [apply ug_Register|done|].
    intros [u|e] d _; cbn; repeat case_match; constructor.
  - unfold AuthHandler_RegisterOrganizer. destruct (Decode _ _) as [req|e]; [|by constructor].
    destruct (validate_Struct _); [by constructor|]. apply wp_bind, awp_kept; [apply ug_Register|done|].
    intros [u|e] d _; cbn; repeat case_match; constructor.
  - unfold AuthHandler_Login. destruct (Decode _ _) as [req|e]; [|by constructor].
    destruct (validate_Struct _); [by constructor|]. apply wp_bind.
    eapply wp_mono; [|apply awp_Login]. intros [tp|e] L P Hp d Hd; [by eapply pair_answer|].
    destruct (errors_Is _ _); constructor.
  - unfold AuthHandler_Refresh. destruct (Decode _ _) as [req|e]; [|by constructor].
    destruct (validate_Struct _); [by constructor|]. apply wp_bind.
    eapply wp_mono; [|apply awp_RefreshToken]. intros [tp|e] L P Hp d Hd; [by eapply pair_answer|].
    destruct (_ || _); constructor.
  - unfold AuthHandler_Verify. case_bool_decide; [by constructor|]. destruct (bearer _); [|by constructor].
    apply wp_bind, awp_kept; [apply ug_VerifyToken|done|]. intros [c|e] d _; constructor.
  - assert (∀ r', awp (AuthHandler_Me r') [] (λ _, True)
      (λ a _ P, ∀ d, P d → Forall (good_token d) (tokens_of a))) as Hme.
    { intros r'. unfold AuthHandler_Me. destruct (bool_decide _); [by constructor|].
      apply wp_bind, awp_kept; [|done|intros [u|e] d _; constructor].
      unfold GetMe, UserRepo_FindByID. guards_solve. }
    unfold WithUserContext, BearerAuth. destruct (negb _); [apply Hme|].
    destruct (bearer _); [|by constructor]. apply wp_bind, awp_kept; [apply ug_VerifyToken|done|].
    intros [c|e]; [apply Hme|by constructor].
Qed.

(** ** Requests through the gateway *)

(** What an accepted token says. *)
Lemma verify_accepts o tok d c :
  exec o (VerifyToken auth tok) d = (d, Ok c) →
  ∃ now claims, jwt_Parse now (rsa_key (as_tokenSvc auth)) tok = Ok (mkToken (Some claims) true) ∧
    c = mkClaims (claim_string "sub" claims) (claim_string "email" claims) (claim_string "role" claims).
Proof.
  unfold VerifyToken, VerifyAccessToken, exec. cbn.
  destruct (jwt_Parse _ _ tok) as [[[claims|] []]|e] eqn:Hp; cbn; try done.
  intros [= <-]. eauto.
Qed.

(** The tokens a request may carry speak for accounts. *)
Definition speaks (q : incoming) (P : site → Prop) : Prop :=
  ∀ s tok now claims, P s → in_Header q "Authorization" = "Bearer " +:+ tok →
    jwt_Parse now (rsa_key (as_tokenSvc auth)) tok = Ok (mkToken (Some claims) true) →
    bearer_of s tok
      (mkClaims (claim_string "sub" claims) (claim_string "email" claims) (claim_string "role" claims)).

Lemma swp_auth_call method pattern h r P :
  (method, pattern, h) ∈ AuthHandler_Routes auth → swp (auth_call h r) [] P (λ _ _ _, True).
Proof.
  intros Hin. apply wp_bind. eapply wp_mono; [|eapply wp_lift_auth; [by eapply awp_routes|done]].
  intros a L P' (L0 & P0 & Hgood & HP). cbn. intros s F s' r' HI Hs (t & flt & _ & Hout).
  assert (s' = s ∨ s' = add_tokens (tokens_of a) s) as Hs'.
  { unfold hand_out in Hout. destruct flt; cbn in Hout; simplify_eq; auto. }
  assert (siteR s s') as HR by (destruct Hs' as [->| ->]; [done|apply siteR_tokens]).
  split; [exact HR|]. exists [], (λ _, True). split_and!; [done..| |done].
  destruct Hs' as [->| ->]; [done|]. destruct HI. split; cbn; [| |done..|].
  - intros tok [Htok|Htok]%elem_of_app; [auto|]. specialize (Hgood _ (HP s Hs)).
    rewrite Forall_forall in Hgood. auto.
  - intros b row Hrow. destruct (sv_rows0 b row Hrow) as (tok & cl & Hm & Hp & Hu).
    exists tok, cl. split_and!; [done|by eapply payer_kept, Hp|done].
  - intros c Hc. by eapply asked_kept, sv_sessions0.
Qed.

(** The reservation of a request that came through acts for its token's subject. *)
Lemma mild_reserve_route o da da' readable q i r' f :
  exec o (edge auth ticketing payment readable q) da = (da', Some (ToTicketing, i, r')) →
  ticketing_routes ticketing !! i = Some ("POST", "/api/bookings/reserve", f) →
  ∃ c, (∃ tok, in_Header q "Authorization" = "Bearer " +:+ tok ∧ exec o (VerifyToken auth tok) da = (da, Ok c)) ∧
    mild (λ u e, u = cm_UserID c ∧ e = cm_Email c ∧ cm_Role c = RoleCustomer) (f r').
Proof.
  intros Hex Hi.
  assert (table auth ticketing payment readable ToTicketing !! i = Some ("POST", "/api/bookings/reserve"))
    as Htab by (cbn [table]; by rewrite list_lookup_fmap, Hi).
  destruct (ticketing_vouched _ _ _ _ _ _ _ _ _ _ _ _ Hex Htab) as [c Hv].
  { rewrite !elem_of_cons, elem_of_nil. intros [[=]|[[=]|[]]]. }
  destruct Hv as (Htok & _ & _ & _ & Huser & _). exists c. split; [exact Htok|].
  assert (f = with_role RoleCustomer (BookingHandler_Reserve ticketing)) as -> by which_route Hi.
  unfold user_context, WithUserContext in Huser. injection Huser as Hu Hro He.
  unfold with_role, WithUserContext, RequireRole. cbn [existsb with_ctx r_ctx]. rewrite Hro, orb_false_r.
  case_bool_decide as Hr; [|done]. unfold BookingHandler_Reserve. cbn [with_ctx r_ctx r_body].
  destruct (Decode _ _); [|done]. destruct (validate_Struct _); [done|]. case_bool_decide; [done|].
  apply mild_bind; [apply mild_Reserve|done]. by rewrite Hu, He.
Qed.

(** The payment of a request that came through is for its token's subject. *)
Lemma pay_route o da da' readable q i r' f :
  exec o (edge auth ticketing payment readable q) da = (da', Some (ToPayment, i, r')) →
  PaymentHandler_Routes payment readable !! i = Some ("POST", "/api/payments/booking/{booking_id}", f) →
  ∃ c, (∃ tok, in_Header q "Authorization" = "Bearer " +:+ tok ∧ exec o (VerifyToken auth tok) da = (da, Ok c)) ∧
    guards (txns_by (λ _, True)) (discard (f r')) ∧
    (cm_Role c ≠ RoleCustomer → modest (discard (f r'))) ∧
    bills_for (billed_for (cm_UserID c)) (discard (f r')) (λ _, True).
Proof.
  intros Hex Hi.
  assert (table auth ticketing payment readable ToPayment !! i =
    Some ("POST", "/api/payments/booking/{booking_id}")) as Htab by (cbn [table]; by rewrite list_lookup_fmap, Hi).
  destruct (payment_vouched _ _ _ _ _ _ _ _ _ _ Hex Htab) as [c Hv].
  destruct Hv as (Htok & _ & _ & _ & Huser & _). exists c. split; [exact Htok|].
  assert (f = pay_with_role RoleCustomer (PaymentHandler_ProcessPayment payment)) as ->.
  { destruct i as [|[|[|[|[|[|[|[|i]]]]]]]]; try discriminate Hi. by injection Hi. }
  unfold user_context, WithUserContext in Huser. injection Huser as Hu Hro He.
  unfold pay_with_role, WithUserContext, RequireRole. cbn [existsb with_ctx r_ctx]. rewrite Hro, orb_false_r.
  case_bool_decide as Hr; [|done]. unfold PaymentHandler_ProcessPayment. cbn [with_ctx r_ctx r_param].
  rewrite Hu. case_bool_decide; [done|]. split_and!; [|done|].
  - apply guards_bind; [|done]. apply guards_bind; [apply by_ProcessPayment|done].
  - apply bills_free_bind; [|done]. apply bills_free_bind; [apply billed_for_ProcessPayment|done].
Qed.

Lemma carried_bearer q tok : in_Header q "Authorization" = "Bearer " +:+ tok → carried q = tok.
Proof. intros Htok. unfold carried, bearer. by apply CutPrefix_Some in Htok as ->. Qed.

Lemma swp_route readable q o a P :
  stable siteR P → speaks q P →
  exec o (edge auth ticketing payment readable q) no_accounts = (no_accounts, a) →
  swp (serve_route auth ticketing payment (carried q) readable a) [] P (λ _ _ _, True).
Proof.
  intros Hst Hsp Hex. destruct a as [[[[] i] r]|]; unfold serve_route; [| | |done].
  - destruct (AuthHandler_Routes auth !! i) as [[[m p] h]|] eqn:Hi; [|done].
    by eapply swp_auth_call, list_elem_of_lookup_2.
  - destruct (ticketing_routes ticketing !! i) as [[[m p] f]|] eqn:Hi; [|done].
    destruct (decide ((m, p) = ("POST", "/api/bookings/reserve"))) as [[= -> ->]|Hne].
    + destruct (mild_reserve_route _ _ _ _ _ _ _ _ Hex Hi) as (c & (tok & Htok & Hver) & Hm).
      apply verify_accepts in Hver as (now & claims & Hp & Hc).
      eapply wp_lift_sys; [apply tame_ticket, mild_discard, Hm|exact Hst| |done].
      intros s u e Hs (-> & -> & Hr). exists c. split; [|done]. split; [|done]. rewrite Hc.
      rewrite (carried_bearer _ _ Htok). apply (Hsp s tok now claims Hs Htok Hp).
    + apply (wp_lift_sys _ (λ _ _, False)); [|done..].
      apply tame_ticket, mild_discard. eapply mild_routes; [by eapply list_elem_of_lookup_2|done].
  - destruct (PaymentHandler_Routes payment readable !! i) as [[[m p] f]|] eqn:Hi; [|done].
    destruct (decide ((m, p) = ("POST", "/api/payments/booking/{booking_id}"))) as [[= -> ->]|Hne].
    + destruct (pay_route _ _ _ _ _ _ _ _ Hex Hi) as (c & (tok & Htok & Hver) & Hg & Hno & Hb).
      destruct (decide (cm_Role c = RoleCustomer)) as [Hr|Hr].
      2:{ apply (wp_lift_sys _ (λ _ _, False)); [by apply tame_aside, aside_pay, Hno|done..]. }
      apply verify_accepts in Hver as (now & claims & Hp & Hc).
      eapply wp_weaken; [|done|by apply (wp_lift_pay _ () _ c (λ _, True))].
      intros s Hs. split; [|done]. split; [|done]. rewrite Hc.
      rewrite (carried_bearer _ _ Htok).
      by eapply Hsp.
    + apply (wp_lift_sys _ (λ _ _, False)); [apply tame_aside, aside_pay|done..].
      eapply modest_routes; [by eapply list_elem_of_lookup_2| |exact Hne]. intros ->.
      assert (table auth ticketing payment readable ToPayment !! i = Some (m, "/api/payments/internal")) as Htab
        by (cbn [table]; by rewrite list_lookup_fmap, Hi).
      by eapply payment_not_internal.
Qed.

Lemma swp_through readable q P :
  stable siteR P → speaks q P →
  swp (through auth ticketing payment readable q) [] P (λ _ _ _, True).
Proof.
  intros Hst Hsp. unfold through.
  apply (edge_cases auth ticketing payment readable q (λ p,
    swp (prog_bind (serve_route auth ticketing payment (carried q) readable) (lift_auth p)) [] P (λ _ _ _, True))).
  - intros o a Hex. by eapply swp_route.
  - intros k Hk. apply wp_time; [apply _|done|exact Hk].
Qed.

(** [github.com/golang-jwt/jwt]: a token that parses carries the claims that
    were signed. *)
Definition jwt_faithful : Prop := ∀ claims claims' tok now,
  SignedString (ts_privateKey (as_tokenSvc auth)) claims = Ok tok →
  jwt_Parse now (rsa_key (as_tokenSvc auth)) tok = Ok (mkToken (Some claims') true) → claims' = claims.

Lemma site_entry_safe p :
  jwt_faithful → site_entry auth ticketing payment p → swp p [] (λ _, True) (λ _ _ _, True).
Proof.
  intros Hjwt [readable i q|readable q Hno|p' Hp].
  - apply wp_bind. apply wp_query; [apply _|done|done| |done].
    intros s F t HI _. cbn. destruct (st_tokens s !! i) as [tok|] eqn:Htok; cbn.
    2:{ exists (λ _, True). by split_and!. }
    assert (tok ∈ st_tokens s) as Hin by by eapply list_elem_of_lookup_2.
    destruct (sv_tokens _ HI tok Hin) as (c & exp & iat & Ha & Hsig).
    exists (λ s, bearer_of s tok c). split_and!.
    + apply (bearer_kept tok c).
    + split_and!; [done|done|by exists exp, iat].
    + apply swp_through; [apply (bearer_kept tok c)|]. intros s1 tok' now claims Hbearer Hhdr Hp.
      cbn [with_token in_Header] in Hhdr. rewrite bool_decide_eq_true_2 in Hhdr by done.
      apply CutPrefix_Some in Hhdr. vm_compute in Hhdr. injection Hhdr as <-.
      rewrite (Hjwt _ _ _ _ Hsig Hp). by destruct c.
  - apply swp_through; [done|]. intros s tok now claims _ Hhdr Hp. by destruct (Hno tok Hhdr now claims).
  - apply (wp_lift_sys _ (λ _ _, False)); [by eapply tame_backstage|done..].
Qed.

Local Abbreviation entry := (site_entry auth ticketing payment).

(** Both invariants, in every state of a site that starts with nothing sold and
    no token handed out. *)
Lemma site_invs s0 s :
  jwt_faithful → launched (st_world s0) → st_tokens s0 = [] → st_asked s0 = [] →
  reachable (any_env siteE) entry s0 s → site_inv s ∧ ∃ L, sys_inv (st_world s) L.
Proof.
  intros Hjwt Hl Htoks Hask Hreach. split; [|eapply system_inv; [done|by eapply reachable_view; [apply site_entry_starts|]]].
  destruct Hl as [(Hbks & Hits & _) _ (_ & Hreq & Hses)].
  eapply (reachable_inv (any_env siteE) (λ s (_ : list unit), site_inv s) siteR) in Hreach as [_ HI]; [done| |].
  - intros p Hp. by apply site_entry_safe.
  - split; [|intros b' row'| |split| |].
    + rewrite Htoks. by intros tok []%elem_of_nil.
    + by rewrite Hbks.
    + rewrite Hreq. by intros q []%elem_of_nil.
    + by rewrite Hits.
    + by rewrite Hbks.
    + by rewrite Hask, Hses.
    + rewrite Hask. by intros a []%elem_of_nil.
Qed.

(** The account behind a transaction. *)
Lemma txn_account s L k t :
  site_inv s → sys_inv (st_world s) L → transactions (w_pay (st_world s)) !! k = Some t →
  ∃ a u, users (st_auth s) !! a = Some u ∧ us_Role u = RoleCustomer ∧
    tx_UserID t = us_ID u ∧ tx_CustomerEmail t = us_Email u.
Proof.
  intros HI HS Ht. destruct (si_txn _ _ HS k t Ht) as (q & Hq & _ & Hu & _ & _ & He).
  destruct (sv_requests _ HI q Hq) as (c & (a & u & Ha & ->) & Hcu & Hce & Hr). cbn in *.
  exists a, u. split_and!; [done..|congruence|congruence].
Qed.

(** C5. Nobody books without the token of a customer's account, or for anyone
    but that account: however the requests through the gateway, the consumers,
    the poller and the workers of all services interleave, and whatever is lost
    or fails on the way, each booking was made by a request that carried a token
    which the auth service signed for the account of a customer and handed out,
    and the user of the booking is that same account. *)
Theorem bookings_have_accounts s0 s b row :
  jwt_faithful → launched (st_world s0) → st_tokens s0 = [] → st_asked s0 = [] →
  reachable (any_env siteE) entry s0 s → bookings (w_ticket (st_world s)) !! b = Some row →
  ∃ tok k u exp iat, st_made s !! b = Some tok ∧ tok ∈ st_tokens s ∧
    SignedString (ts_privateKey (as_tokenSvc auth))
      (access_claims (mkClaims (us_ID u) (us_Email u) (us_Role u)) exp iat) = Ok tok ∧
    users (st_auth s) !! k = Some u ∧ us_ID u = br_user_id row ∧ us_Role u = RoleCustomer.
Proof.
  intros Hjwt Hl Htoks Hask Hreach Hrow. destruct (site_invs s0 s Hjwt Hl Htoks Hask Hreach) as [HI _].
  destruct (sv_rows _ HI b row Hrow) as (tok & cl & Hm & (((k & u & Hu & ->) & Htok & exp & iat & Hsig) & Hr) & Hid).
  by exists tok, k, u, exp, iat.
Qed.

(** C3. From the account to the ticket: whatever happens at the gateway, in the
    three services and between them, a confirmed booking belongs to the account
    of a customer, and payment has completed a transaction of that account, in
    its name and under its e-mail address, over exactly the price of the
    booking. *)
Theorem confirmed_for_account s0 s b row :
  jwt_faithful → launched (st_world s0) → st_tokens s0 = [] → st_asked s0 = [] →
  reachable (any_env siteE) entry s0 s →
  bookings (w_ticket (st_world s)) !! b = Some row → br_status row = "confirmed" →
  ∃ a u k t, users (st_auth s) !! a = Some u ∧ us_ID u = br_user_id row ∧ us_Role u = RoleCustomer ∧
    transactions (w_pay (st_world s)) !! k = Some t ∧ tx_BookingID t = b ∧ tx_Status t = "completed" ∧
    tx_UserID t = us_ID u ∧ tx_CustomerEmail t = us_Email u ∧
    tx_AmountRupiah t = bk_TotalRupiah (loaded row (items_of b (w_ticket (st_world s)))).
Proof.
  intros Hjwt Hl Htoks Hask Hreach Hrow Hs. destruct (site_invs s0 s Hjwt Hl Htoks Hask Hreach) as [HI [L HS]].
  destruct (confirmed_txn _ _ _ _ HS Hrow Hs) as (k & t & Ht & Hb & Hst & Htu & _ & Hamt).
  destruct (txn_account _ _ _ _ HI HS Ht) as (a & u & Ha & Hr & Hu & He).
  exists a, u, k, t. split_and!; [done|congruence|done..].
Qed.

(** C4. Nobody but its owner has a transaction charged: whatever happens at the
    gateway, in the three services and between them, each checkout session that
    payment has asked the provider for was asked for by a request with a token
    that auth signed for the account of a customer and handed out, and is for the
    amount and in the currency of a transaction of that same account, on the
    booking the session refers to. *)
Theorem sessions_by_owners s0 s :
  jwt_faithful → launched (st_world s0) → st_tokens s0 = [] → st_asked s0 = [] →
  reachable (any_env siteE) entry s0 s →
  w_sessions (st_world s) = (st_asked s).*2 ∧
  ∀ tok c, (tok, c) ∈ st_asked s →
    ∃ a u exp iat k t, users (st_auth s) !! a = Some u ∧ us_Role u = RoleCustomer ∧
      tok ∈ st_tokens s ∧ SignedString (ts_privateKey (as_tokenSvc auth))
        (access_claims (mkClaims (us_ID u) (us_Email u) (us_Role u)) exp iat) = Ok tok ∧
      transactions (w_pay (st_world s)) !! k = Some t ∧ tx_UserID t = us_ID u ∧
      tx_BookingID t = sc_RefID c ∧ tx_AmountRupiah t = sc_AmountRupiah c ∧ tx_Currency t = sc_Currency c.
Proof.
  intros Hjwt Hl Htoks Hask Hreach. destruct (site_invs s0 s Hjwt Hl Htoks Hask Hreach) as [HI _].
  split; [symmetry; apply HI|]. intros tok c Hc.
  destruct (sv_sessions _ HI _ Hc) as (cl & (((a & u & Ha & ->) & Htok & exp & iat & Hsig) & Hr) & k & t & Ht).
  exists a, u, exp, iat, k, t. tauto.
Qed.
End accounts.

(** ** On the sale of [Site] *)

#[local] Existing Instances sample_jwt sample_bcrypt sample_validator sample_mux.

Lemma sample_jwt_faithful : jwt_faithful sample_auth.
Proof.
  intros claims claims' tok now [= <-]. cbn. rewrite text_pos_text, decode_encode.
  repeat case_match; congruence.
Qed.

Lemma bookings_have_accounts_witness : ∃ row tok k u,
  bookings (w_ticket (st_world purchased)) !! "id-45" = Some row ∧
  st_made purchased !! "id-45" = Some tok ∧ tok ∈ st_tokens purchased ∧
  users (st_auth purchased) !! k = Some u ∧ us_ID u = br_user_id row ∧ us_Role u = RoleCustomer.
Proof.
  destruct (fmap_Some_1 _ _ _ purchased_row) as (row & Hrow & _). pose proof sample_mux_laws.
  destruct (bookings_have_accounts sample_auth sample_service sample_pay_handler unsold purchased "id-45" row
    sample_jwt_faithful opening_launched eq_refl eq_refl purchased_reachable Hrow)
    as (tok & k & u & exp & iat & Hm & Htok & _ & Hu).
  exists row, tok, k, u. exact (conj Hrow (conj Hm (conj Htok Hu))).
Defined.

Lemma confirmed_for_account_witness : ∃ row a u k t,
  bookings (w_ticket (st_world purchased)) !! "id-45" = Some row ∧
  users (st_auth purchased) !! a = Some u ∧ us_ID u = br_user_id row ∧
  transactions (w_pay (st_world purchased)) !! k = Some t ∧ tx_Status t = "completed" ∧
  tx_CustomerEmail t = us_Email u.
Proof.
  destruct (fmap_Some_1 _ _ _ purchased_row) as (row & Hrow & Hs). pose proof sample_mux_laws.
  destruct (confirmed_for_account sample_auth sample_service sample_pay_handler unsold purchased "id-45" row
    sample_jwt_faithful opening_launched eq_refl eq_refl purchased_reachable Hrow (eq_sym Hs))
    as (a & u & k & t & Ha & Hu & _ & Ht & _ & Hst & _ & He & _).
  exists row, a, u, k, t. exact (conj Hrow (conj Ha (conj Hu (conj Ht (conj Hst He))))).
Defined.

Lemma sessions_by_owners_witness : ∃ tok c a u k t,
  (tok, c) ∈ st_asked purchased ∧ tok ∈ st_tokens purchased ∧ users (st_auth purchased) !! a = Some u ∧
  transactions (w_pay (st_world purchased)) !! k = Some t ∧ tx_UserID t = us_ID u ∧
  tx_BookingID t = sc_RefID c ∧ tx_AmountRupiah t = sc_AmountRupiah c.
Proof.
  pose proof sample_mux_laws. destruct purchased_session as (tok & c & Hc & _).
  destruct (sessions_by_owners sample_auth sample_service sample_pay_handler unsold purchased
    sample_jwt_faithful opening_launched eq_refl eq_refl purchased_reachable) as [_ Hall].
  destruct (Hall tok c Hc) as (a & u & exp & iat & k & t & Ha & _ & Htok & _ & Ht & Hu & Hb & Hamt & _).
  exists tok, c, a, u, k, t. exact (conj Hc (conj Htok (conj Ha (conj Ht (conj Hu (conj Hb Hamt)))))).
Defined.
