(* ===== verification/Responses.v ===== *)
(** * Responses on the wire

    [pkg/http/response.go]: the envelope every answer travels in, and the JSON
    of the response structs of the three services ([handler/dto.go],
    [booking_dto.go]), with readers that take them back.  Handlers elsewhere
    answer a [response]; here it becomes header, status and body. *)
From S2P Require Import Prelude TimeText Json Dto TicketDB TicketHandler PayHandler AuthHandler.

(** ** Fields *)

(** [omitempty]. *)
Definition omit_string (k s : string) : list (string * res json) :=
  if bool_decide (s = "") then [] else [(k, Ok (str_json s))].
Definition omit_int (k : string) (z : Z) : list (string * res json) :=
  if bool_decide (z = 0) then [] else [(k, Ok (JNum z))].

(** A time the handlers print to the second; an absent one is the empty text. *)
Definition text_json (t : Z) : json := str_json (FormatRFC3339 t).
Definition opt_text_json (t : option Z) : json :=
  match t with Some t => text_json t | None => str_json "" end.

Definition dec_opt_time (old : option Z) (j : json) : res (option Z) :=
  match j with
  | JNull => Ok old
  | JStr s => if bool_decide (s = "") then Ok None else Err type_error
  | JTime _ t => Ok (Some t)
  | _ => Err type_error
  end.
Definition opt_time_field (name : string) (o : list (string * json)) : res (option Z) :=
  dec_all dec_opt_time None (values_of name o).

(** What survives printing to the second. *)
Definition printable (t : Z) : Prop := 0 ≤ year_of t < 10000 ∧ rfc3339 t = t.
Definition opt_printable (t : option Z) : Prop :=
  match t with Some t => printable t | None => True end.

Lemma text_json_time t : printable t → text_json t = JTime (FormatRFC3339 t) t.
Proof. intros [Hy Hs]. unfold text_json, str_json. by rewrite parse_format, Hs. Qed.

Lemma dec_text old t : printable t → dec_time old (text_json t) = Ok t.
Proof. intros Ht. by rewrite text_json_time. Qed.

Lemma dec_some_text old t : printable t → dec_opt_time old (text_json t) = Ok (Some t).
Proof. intros Ht. by rewrite text_json_time. Qed.

Lemma empty_text : str_json "" = JStr "".
Proof. with_strategy transparent [ParseRFC3339] reflexivity. Qed.

Lemma dec_opt_text old t :
  opt_printable t → (t = None → old = None) → dec_opt_time old (opt_text_json t) = Ok t.
Proof.
  destruct t as [t|]; cbn; intros Ht Hold; [by rewrite text_json_time|].
  rewrite empty_text. done.
Qed.

(** ** The structs *)

#[export] Instance Wire_EventResponse : Wire EventResponse := {
  Marshal e := marshal_object [
    ("id", Ok (str_json (er_ID e))); ("organizer_id", Ok (str_json (er_OrganizerID e)));
    ("title", Ok (str_json (er_Title e))); ("description", Ok (str_json (er_Description e)));
    ("venue_name", Ok (str_json (er_VenueName e)));
    ("venue_address", Ok (str_json (er_VenueAddress e)));
    ("venue_capacity", Ok (JNum (er_VenueCapacity e)));
    ("start_at", time_json (er_StartAt e)); ("end_at", time_json (er_EndAt e));
    ("status", Ok (str_json (er_Status e)));
    ("created_at", time_json (er_CreatedAt e)); ("updated_at", time_json (er_UpdatedAt e))];
  Unmarshal := dec_struct (λ o,
    x0 ←! string_field "id" o; x1 ←! string_field "organizer_id" o;
    x2 ←! string_field "title" o; x3 ←! string_field "description" o;
    x4 ←! string_field "venue_name" o; x5 ←! string_field "venue_address" o;
    x6 ←! int_field "venue_capacity" o; x7 ←! time_field "start_at" o;
    x8 ←! time_field "end_at" o; x9 ←! string_field "status" o;
    x10 ←! time_field "created_at" o; x11 ←! time_field "updated_at" o;
    Ok (mkEventResponse x0 x1 x2 x3 x4 x5 x6 x7 x8 x9 x10 x11));
  fits e := in_int64 (er_VenueCapacity e);
}.

#[export] Instance Wire_TicketTypeResponse : Wire TicketTypeResponse := {
  Marshal e := marshal_object [
    ("id", Ok (str_json (ty_ID e))); ("name", Ok (str_json (ty_Name e)));
    ("price_rupiah", Ok (JNum (ty_PriceRupiah e))); ("quantity", Ok (JNum (ty_Quantity e)));
    ("available", Ok (JNum (ty_Available e)));
    ("max_per_order", Ok (JNum (ty_MaxPerOrder e)))];
  Unmarshal := dec_struct (λ o,
    x0 ←! string_field "id" o; x1 ←! string_field "name" o; x2 ←! int_field "price_rupiah" o;
    x3 ←! int_field "quantity" o; x4 ←! int_field "available" o;
    x5 ←! int_field "max_per_order" o;
    Ok (mkTicketTypeResponse x0 x1 x2 x3 x4 x5));
  fits e := in_int64 (ty_PriceRupiah e) ∧ in_int64 (ty_Quantity e) ∧
    in_int64 (ty_Available e) ∧ in_int64 (ty_MaxPerOrder e);
}.

(** Slices the handlers make are never nil: an empty one is [[]]. *)
#[export] Instance Wire_slice `{!Wire A} : Wire (list A) := {
  Marshal l := marshal_slice l;
  Unmarshal := dec_slice Unmarshal [];
  fits l := Forall fits l;
}.

#[export] Instance Wire_ReservationResponse : Wire ReservationResponse := {
  Marshal e := marshal_object [
    ("booking_id", Ok (str_json (rv_BookingID e))); ("event_id", Ok (str_json (rv_EventID e)));
    ("total_rupiah", Ok (JNum (rv_TotalRupiah e))); ("status", Ok (str_json (rv_Status e)));
    ("expires_at", Ok (text_json (rv_ExpiresAt e)))];
  Unmarshal := dec_struct (λ o,
    x0 ←! string_field "booking_id" o; x1 ←! string_field "event_id" o;
    x2 ←! int_field "total_rupiah" o; x3 ←! string_field "status" o;
    x4 ←! time_field "expires_at" o;
    Ok (mkReservationResponse x0 x1 x2 x3 x4));
  fits e := in_int64 (rv_TotalRupiah e) ∧ printable (rv_ExpiresAt e);
}.

#[export] Instance Wire_BookingItemResp : Wire BookingItemResp := {
  Marshal e := marshal_object [
    ("id", Ok (str_json (ip_ID e))); ("ticket_type_id", Ok (str_json (ip_TicketTypeID e)));
    ("quantity", Ok (JNum (ip_Quantity e)));
    ("unit_price_rupiah", Ok (JNum (ip_UnitPriceRupiah e)));
    ("total_price_rupiah", Ok (JNum (ip_TotalPriceRupiah e)))];
  Unmarshal := dec_struct (λ o,
    x0 ←! string_field "id" o; x1 ←! string_field "ticket_type_id" o;
    x2 ←! int_field "quantity" o; x3 ←! int_field "unit_price_rupiah" o;
    x4 ←! int_field "total_price_rupiah" o;
    Ok (mkBookingItemResp x0 x1 x2 x3 x4));
  fits e := in_int64 (ip_Quantity e) ∧ in_int64 (ip_UnitPriceRupiah e) ∧
    in_int64 (ip_TotalPriceRupiah e);
}.

#[export] Instance Wire_BookingResponse : Wire BookingResponse := {
  Marshal e := marshal_object (
    [("id", Ok (str_json (bp_ID e))); ("user_id", Ok (str_json (bp_UserID e)));
     ("event_id", Ok (str_json (bp_EventID e))); ("status", Ok (str_json (bp_Status e)))] ++
    match bp_ExpiresAt e with Some t => [("expires_at", Ok (text_json t))] | None => [] end ++
    [("total_rupiah", Ok (JNum (bp_TotalRupiah e)));
     ("payment_id", Ok (str_json (bp_PaymentID e)))] ++
    omit_string "refund_status" (bp_RefundStatus e) ++
    [("items", marshal_slice (bp_Items e)); ("created_at", Ok (text_json (bp_CreatedAt e)))]);
  Unmarshal := dec_struct (λ o,
    x0 ←! string_field "id" o; x1 ←! string_field "user_id" o; x2 ←! string_field "event_id" o;
    x3 ←! string_field "status" o; x4 ←! opt_time_field "expires_at" o;
    x5 ←! int_field "total_rupiah" o; x6 ←! string_field "payment_id" o;
    x7 ←! string_field "refund_status" o; x8 ←! slice_field "items" Unmarshal o;
    x9 ←! time_field "created_at" o;
    Ok (mkBookingResponse x0 x1 x2 x3 x4 x5 x6 x7 x8 x9));
  fits e := opt_printable (bp_ExpiresAt e) ∧ in_int64 (bp_TotalRupiah e) ∧
    Forall fits (bp_Items e) ∧ printable (bp_CreatedAt e);
}.

#[export] Instance Wire_TransactionResponse : Wire TransactionResponse := {
  Marshal e := marshal_object (
    [("id", Ok (str_json (tr_ID e))); ("booking_id", Ok (str_json (tr_BookingID e)));
     ("event_id", Ok (str_json (tr_EventID e)));
     ("amount_rupiah", Ok (JNum (tr_AmountRupiah e)));
     ("currency", Ok (str_json (tr_Currency e))); ("status", Ok (str_json (tr_Status e)))] ++
    omit_string "refund_status" (tr_RefundStatus e) ++
    omit_string "payment_link_url" (tr_PaymentLinkURL e) ++
    match tr_ExpiresAt e with Some t => [("expires_at", Ok (text_json t))] | None => [] end ++
    [("created_at", Ok (text_json (tr_CreatedAt e)))]);
  Unmarshal := dec_struct (λ o,
    x0 ←! string_field "id" o; x1 ←! string_field "booking_id" o;
    x2 ←! string_field "event_id" o; x3 ←! int_field "amount_rupiah" o;
    x4 ←! string_field "currency" o; x5 ←! string_field "status" o;
    x6 ←! string_field "refund_status" o; x7 ←! string_field "payment_link_url" o;
    x8 ←! opt_time_field "expires_at" o; x9 ←! time_field "created_at" o;
    Ok (mkTransactionResponse x0 x1 x2 x3 x4 x5 x6 x7 x8 x9));
  fits e := in_int64 (tr_AmountRupiah e) ∧ opt_printable (tr_ExpiresAt e) ∧
    printable (tr_CreatedAt e);
}.

#[export] Instance Wire_ProcessPaymentResponse : Wire ProcessPaymentResponse := {
  Marshal e := marshal_object [
    ("transaction_id", Ok (str_json (pp_TransactionID e)));
    ("payment_session_id", Ok (str_json (pp_PaymentSessionID e)));
    ("payment_link_url", Ok (str_json (pp_PaymentLinkURL e)));
    ("amount_rupiah", Ok (JNum (pp_AmountRupiah e)));
    ("currency", Ok (str_json (pp_Currency e))); ("status", Ok (str_json (pp_Status e)));
    ("expires_at", Ok (opt_text_json (pp_ExpiresAt e)))];
  Unmarshal := dec_struct (λ o,
    x0 ←! string_field "transaction_id" o; x1 ←! string_field "payment_session_id" o;
    x2 ←! string_field "payment_link_url" o; x3 ←! int_field "amount_rupiah" o;
    x4 ←! string_field "currency" o; x5 ←! string_field "status" o;
    x6 ←! opt_time_field "expires_at" o;
    Ok (mkProcessPaymentResponse x0 x1 x2 x3 x4 x5 x6));
  fits e := in_int64 (pp_AmountRupiah e) ∧ opt_printable (pp_ExpiresAt e);
}.

#[export] Instance Wire_PaymentStatusResponse : Wire PaymentStatusResponse := {
  Marshal e := marshal_object (
    [("transaction_id", Ok (str_json (pq_TransactionID e)));
     ("status", Ok (str_json (pq_Status e)))] ++
    omit_string "payment_link_url" (pq_PaymentLinkURL e) ++
    [("amount_rupiah", Ok (JNum (pq_AmountRupiah e)));
     ("currency", Ok (str_json (pq_Currency e)))]);
  Unmarshal := dec_struct (λ o,
    x0 ←! string_field "transaction_id" o; x1 ←! string_field "status" o;
    x2 ←! string_field "payment_link_url" o; x3 ←! int_field "amount_rupiah" o;
    x4 ←! string_field "currency" o;
    Ok (mkPaymentStatusResponse x0 x1 x2 x3 x4));
  fits e := in_int64 (pq_AmountRupiah e);
}.

#[export] Instance Wire_UserResponse : Wire UserResponse := {
  Marshal e := marshal_object [
    ("id", Ok (str_json (ur_ID e))); ("email", Ok (str_json (ur_Email e)));
    ("name", Ok (str_json (ur_Name e))); ("role", Ok (str_json (ur_Role e)))];
  Unmarshal := dec_struct (λ o,
    x0 ←! string_field "id" o; x1 ←! string_field "email" o; x2 ←! string_field "name" o;
    x3 ←! string_field "role" o;
    Ok (mkUserResponse x0 x1 x2 x3));
  fits e := True;
}.

(** A pointer field: absent, or an object. *)
Definition dec_pointer {A} `{!Wire A} (old : option A) (j : json) : res (option A) :=
  match j with
  | JNull => Ok None
  | _ => a ←! Unmarshal j; Ok (Some a)
  end.
Definition auth_fields (e : AuthResponse) : list (string * res json) :=
  match ar_User e with Some u => [("user", Marshal u)] | None => [] end ++
  omit_string "access_token" (ar_AccessToken e) ++ omit_int "expires_in" (ar_ExpiresIn e).
Definition dec_auth (o : list (string * json)) : res AuthResponse :=
  x0 ←! dec_all dec_pointer None (values_of "user" o);
  x1 ←! string_field "access_token" o; x2 ←! int_field "expires_in" o;
  Ok (mkAuthResponse x0 x1 x2).

#[export] Instance Wire_AuthResponse : Wire AuthResponse := {
  Marshal e := marshal_object (auth_fields e);
  Unmarshal := dec_struct dec_auth;
  fits e := in_int64 (ar_ExpiresIn e);
}.
(** The embedded struct's fields come first, in the same object. *)
#[export] Instance Wire_LoginResponse : Wire LoginResponse := {
  Marshal e := marshal_object (auth_fields (lo_AuthResponse e) ++
    [("refresh_token", Ok (str_json (lo_RefreshToken e)))]);
  Unmarshal := dec_struct (λ o,
    x0 ←! dec_auth o; x1 ←! string_field "refresh_token" o; Ok (mkLoginResponse x0 x1));
  fits e := in_int64 (ar_ExpiresIn (lo_AuthResponse e));
}.

(** *** Reading them back *)

#[export] Instance WireLaw_EventResponse : WireLaw EventResponse.
Proof. wire_law Wire_EventResponse. Qed.
#[export] Instance WireLaw_TicketTypeResponse : WireLaw TicketTypeResponse.
Proof. wire_law Wire_TicketTypeResponse. Qed.
#[export] Instance WireLaw_slice `{!Wire A, !WireLaw A} : WireLaw (list A).
Proof. intros l j. apply dec_marshal_slice. Qed.
#[export] Instance WireLaw_BookingItemResp : WireLaw BookingItemResp.
Proof. wire_law Wire_BookingItemResp. Qed.
#[export] Instance WireLaw_UserResponse : WireLaw UserResponse.
Proof. wire_law Wire_UserResponse. Qed.

(** The same with omitted fields and printed times: one case for each of them
    that is there or not. *)
Ltac omitted :=
  unfold omit_string, omit_int, auth_fields; cbn [app];
  repeat match goal with
    | |- context [bool_decide (?x = "")] => destruct (bool_decide_reflect (x = "")); [subst x|]
    | |- context [bool_decide (?x = 0)] => destruct (bool_decide_reflect (x = 0)); [subst x|]
    | |- context [match ?o with Some _ => _ | None => _ end] => is_var o; destruct o
    end; cbn [app].
Ltac read_texts :=
  cbn [dec_struct]; unfold opt_time_field; read_object;
  repeat first [ rewrite dec_str_json | rewrite dec_text by tauto
               | rewrite dec_some_text by tauto | rewrite dec_opt_text by (try tauto; done)
               | rewrite dec_int_num by tauto
               | erewrite dec_marshal_slice by first [eassumption|tauto] ].

#[export] Instance WireLaw_ReservationResponse : WireLaw ReservationResponse.
Proof.
  intros [] j; cbn [Marshal Unmarshal fits Wire_ReservationResponse]; intros Hfit; open_object.
  read_texts. reflexivity.
Qed.
#[export] Instance WireLaw_ProcessPaymentResponse : WireLaw ProcessPaymentResponse.
Proof.
  intros [] j; cbn [Marshal Unmarshal fits Wire_ProcessPaymentResponse]; intros Hfit; open_object.
  cbn in Hfit. read_texts. reflexivity.
Qed.
#[export] Instance WireLaw_PaymentStatusResponse : WireLaw PaymentStatusResponse.
Proof.
  intros [id st link amt cur] j; cbn [Marshal Unmarshal fits Wire_PaymentStatusResponse pq_TransactionID pq_Status
    pq_PaymentLinkURL pq_AmountRupiah pq_Currency]; intros Hfit. omitted.
  all: cbn [opt_printable] in Hfit; destruct_and?; open_object; read_texts; reflexivity.
Qed.
#[export] Instance WireLaw_BookingResponse : WireLaw BookingResponse.
Proof.
  intros [id u ev st exp tot pid rs its cr] j;
    cbn [Marshal Unmarshal fits Wire_BookingResponse bp_ID bp_UserID bp_EventID bp_Status
      bp_ExpiresAt bp_TotalRupiah bp_PaymentID bp_RefundStatus bp_Items bp_CreatedAt];
    intros Hfit. omitted.
  all: cbn [opt_printable] in Hfit; destruct_and?; open_object; read_texts; reflexivity.
Qed.
#[export] Instance WireLaw_TransactionResponse : WireLaw TransactionResponse.
Proof.
  intros [id b ev amt cur st rs link exp cr] j;
    cbn [Marshal Unmarshal fits Wire_TransactionResponse tr_ID tr_BookingID tr_EventID
      tr_AmountRupiah tr_Currency tr_Status tr_RefundStatus tr_PaymentLinkURL tr_ExpiresAt
      tr_CreatedAt];
    intros Hfit. omitted.
  all: cbn [opt_printable] in Hfit; destruct_and?; open_object; read_texts; reflexivity.
Qed.

Lemma dec_pointer_user old (u : UserResponse) j :
  Marshal u = Ok j → dec_pointer old j = Ok (Some u).
Proof.
  intros Hj. pose proof (unmarshal_marshal u j I Hj) as Hu. unfold dec_pointer.
  destruct j; try by rewrite Hu. revert Hj. cbn [Marshal Wire_UserResponse]. unfold marshal_object.
  by destruct (object _).
Qed.

Ltac read_auth :=
  cbn [dec_struct]; unfold dec_auth; read_object;
  repeat first [ erewrite dec_pointer_user by eassumption | rewrite dec_str_json
               | rewrite dec_int_num by assumption ].

#[export] Instance WireLaw_AuthResponse : WireLaw AuthResponse.
Proof.
  intros [u tok exp] j; cbn [Marshal Unmarshal fits Wire_AuthResponse]; unfold auth_fields;
    cbn [ar_User ar_AccessToken ar_ExpiresIn]; intros Hfit. omitted.
  all: open_object; read_auth; reflexivity.
Qed.
#[export] Instance WireLaw_LoginResponse : WireLaw LoginResponse.
Proof.
  intros [[u tok exp] rt] j; cbn [Marshal Unmarshal fits Wire_LoginResponse lo_AuthResponse
    lo_RefreshToken]; unfold auth_fields; cbn [ar_User ar_AccessToken ar_ExpiresIn]; intros Hfit.
  omitted.
  all: open_object; read_auth; reflexivity.
Qed.

(** ** What the handlers answer with *)

Inductive answer :=
  | ATicket (d : ticketData)
  | APay (d : payData)
  | AAuth (d : authData).

(** The values given to [OK] and [Created]; the reply of [Verify] has headers
    only. *)
Definition answer_json (a : answer) : option (res json) :=
  match a with
  | ATicket (DEvent e) => Some (Marshal e)
  | ATicket (DEventDetail e types) =>
      Some (marshal_object [("event", Marshal e); ("ticket_types", Marshal types)])
  | ATicket (DEventList events total) =>
      Some (marshal_object [("events", Marshal events); ("total", Ok (JNum total))])
  | ATicket (DEvents events) => Some (Marshal events)
  | ATicket (DReprocess id status) =>
      Some (marshal_object [("event_id", Ok (str_json id)); ("reprocess", Ok (str_json "queued"));
        ("status", Ok (str_json status))])
  | ATicket (DReservation r) => Some (Marshal r)
  | ATicket (DBooking b) => Some (Marshal b)
  | ATicket (DBookings bs) => Some (Marshal bs)
  | APay (DCreated txn booking) =>
      Some (marshal_object [("transaction_id", Ok (str_json txn)); ("booking_id", Ok (str_json booking))])
  | APay (DPayment p) => Some (Marshal p)
  | APay (DStatus p) => Some (Marshal p)
  | APay (DTransaction t) => Some (Marshal t)
  | APay (DTransactions ts) => Some (Marshal ts)
  | APay DReceived => Some (marshal_object [("status", Ok (str_json "received"))])
  | AAuth (DRegistered u) => Some (marshal_object [("user", Marshal u)])
  | AAuth (DLogin l) => Some (Marshal l)
  | AAuth (DMe a) => Some (Marshal a)
  | AAuth (DForward _ _ _) => None
  end.

(** Reading the data of an answer, knowing the endpoint. *)
Definition field {A} `{!Wire A} (k : string) (o : list (string * json)) (a : A) : Prop :=
  ∃ v, values_of k o = [v] ∧ Unmarshal v = Ok a.
Definition is_object (j : json) (P : list (string * json) → Prop) : Prop :=
  match j with JObj o => P o | _ => False end.
Definition answer_reads (a : answer) (j : json) : Prop :=
  match a with
  | ATicket (DEvent e) => Unmarshal j = Ok e
  | ATicket (DEventDetail e types) =>
      is_object j (λ o, field "event" o e ∧ field "ticket_types" o types)
  | ATicket (DEventList events total) =>
      is_object j (λ o, field "events" o events ∧ int_field "total" o = Ok total)
  | ATicket (DEvents events) => Unmarshal j = Ok events
  | ATicket (DReprocess id status) =>
      is_object j (λ o, string_field "event_id" o = Ok id ∧ string_field "status" o = Ok status ∧
        string_field "reprocess" o = Ok "queued")
  | ATicket (DReservation r) => Unmarshal j = Ok r
  | ATicket (DBooking b) => Unmarshal j = Ok b
  | ATicket (DBookings bs) => Unmarshal j = Ok bs
  | APay (DCreated txn booking) =>
      is_object j (λ o, string_field "transaction_id" o = Ok txn ∧ string_field "booking_id" o = Ok booking)
  | APay (DPayment p) => Unmarshal j = Ok p
  | APay (DStatus p) => Unmarshal j = Ok p
  | APay (DTransaction t) => Unmarshal j = Ok t
  | APay (DTransactions ts) => Unmarshal j = Ok ts
  | APay DReceived => is_object j (λ o, string_field "status" o = Ok "received")
  | AAuth (DRegistered u) => is_object j (λ o, field "user" o u)
  | AAuth (DLogin l) => Unmarshal j = Ok l
  | AAuth (DMe a) => Unmarshal j = Ok a
  | AAuth (DForward _ _ _) => False
  end.

(** Numbers are Go's [int], and printed times are whole seconds of a year with
    four digits. *)
Definition answer_fits (a : answer) : Prop :=
  match a with
  | ATicket (DEvent e) => fits e
  | ATicket (DEventDetail e types) => fits e ∧ fits types
  | ATicket (DEventList events total) => fits events ∧ in_int64 total
  | ATicket (DEvents events) => fits events
  | ATicket (DReprocess _ _) => True
  | ATicket (DReservation r) => fits r
  | ATicket (DBooking b) => fits b
  | ATicket (DBookings bs) => fits bs
  | APay (DCreated _ _) => True
  | APay (DPayment p) => fits p
  | APay (DStatus p) => fits p
  | APay (DTransaction t) => fits t
  | APay (DTransactions ts) => fits ts
  | APay DReceived => True
  | AAuth (DRegistered u) => True
  | AAuth (DLogin l) => fits l
  | AAuth (DMe a) => fits a
  | AAuth (DForward _ _ _) => True
  end.

(** The times of an event are marshalled as they are, and must have such a
    year for the body to be written at all. *)
Definition event_dated (e : EventResponse) : Prop :=
  0 ≤ year_of (er_StartAt e) < 10000 ∧ 0 ≤ year_of (er_EndAt e) < 10000 ∧
  0 ≤ year_of (er_CreatedAt e) < 10000 ∧ 0 ≤ year_of (er_UpdatedAt e) < 10000.
Definition answer_dated (a : answer) : Prop :=
  match a with
  | ATicket (DEvent e) | ATicket (DEventDetail e _) => event_dated e
  | ATicket (DEventList events _) | ATicket (DEvents events) => Forall event_dated events
  | _ => True
  end.

(** ** The envelope *)

(** What a [http.ResponseWriter] has been given; a body that was never written
    is [None]. *)
Record written := mkWritten {
  wr_content_type : option string;
  wr_status : Z;
  wr_body : option json;
}.

(** [Response]: data is left out when it is the nil interface. *)
Definition Response_json (data : option (res json)) (err message : string) : res json :=
  marshal_object (match data with Some d => [("data", d)] | None => [] end ++
    omit_string "error" err ++ omit_string "message" message).

(** The encoder writes nothing when the payload does not marshal; the status
    is out by then. *)
Definition writeJSON (status : Z) (payload : res json) : written :=
  mkWritten (Some "application/json") status
    (match payload with Ok j => Some j | Err _ => None end).

Definition NoContent : written := mkWritten None 204 None.

(** The helpers a handler ends with, and [Verify]'s bare header. *)
Definition write_response (r : response answer) : written :=
  match r with
  | RData status a =>
      match answer_json a with
      | Some d => writeJSON status (Response_json (Some d) "" "")
      | None => mkWritten None status None
      end
  | RError status message => writeJSON status (Response_json None message "")
  end.

(** A request without a body leaves the target as it is. *)
Definition DecodeJSON {A} (dec : json → res A) (target : A) (body : option (option json)) : res A :=
  match body with None => Ok target | Some b => Decode dec b end.

(** A client reads the envelope: the data as it is, and the error. *)
Definition read_envelope (j : json) : res (option json * string) :=
  dec_struct (λ o,
    data ←! dec_all (λ _ v, Ok (Some v)) None (values_of "data" o);
    err ←! string_field "error" o;
    Ok (data, err)) j.

(** *** Everything marshals *)

Definition marshals (r : res json) : Prop := ∃ j, r = Ok j.

Lemma marshals_object fs : Forall (λ f : string * res json, marshals f.2) fs → marshals (marshal_object fs).
Proof.
  intros Hfs. unfold marshal_object.
  assert (∃ o, object fs = Ok o) as [o ->]; [|by eexists].
  induction Hfs as [|[k r] fs [j Hj] _ [o Ho]]; cbn in *; [by eexists|]. rewrite Hj, Ho. by eexists.
Qed.

Lemma marshals_slice `{!Wire A} (l : list A) : Forall (λ a, marshals (Marshal a)) l → marshals (marshal_slice l).
Proof.
  intros Hl. unfold marshal_slice. assert (∃ js, marshal_elems l = Ok js) as [js ->]; [|by eexists].
  induction Hl as [|a l [j Hj] _ [js Hjs]]; cbn; [by eexists|]. rewrite Hj, Hjs. by eexists.
Qed.

Lemma marshals_ok j : marshals (Ok j).
Proof. by eexists. Qed.

Lemma marshals_time t : 0 ≤ year_of t < 10000 → marshals (time_json t).
Proof. intros Hy. unfold time_json. rewrite bool_decide_eq_true_2 by done. apply marshals_ok. Qed.

Lemma marshals_string k s : Forall (λ f : string * res json, marshals f.2) (omit_string k s).
Proof. unfold omit_string. case_bool_decide; repeat constructor. apply marshals_ok. Qed.

Lemma marshals_int k z : Forall (λ f : string * res json, marshals f.2) (omit_int k z).
Proof. unfold omit_int. case_bool_decide; repeat constructor. apply marshals_ok. Qed.

Create HintDb marshal.
#[export] Hint Resolve marshals_ok marshals_time marshals_string marshals_int : marshal.

Ltac marshals_solve :=
  repeat first
    [ solve [auto with marshal]
    | apply marshals_object
    | apply Forall_app; split
    | apply Forall_cons_2; cbn [snd]
    | apply Forall_nil_2
    | case_match ].

Lemma marshals_EventResponse e : event_dated e → marshals (Marshal e).
Proof. intros (? & ? & ? & ?). cbn [Marshal Wire_EventResponse]. marshals_solve. Qed.
Lemma marshals_TicketType e : marshals (Marshal (A := TicketTypeResponse) e).
Proof. cbn [Marshal Wire_TicketTypeResponse]. marshals_solve. Qed.
Lemma marshals_Booking e : marshals (Marshal (A := BookingResponse) e).
Proof.
  cbn [Marshal Wire_BookingResponse]. marshals_solve. apply marshals_slice, Forall_true. intros i.
  cbn [Marshal Wire_BookingItemResp]. marshals_solve.
Qed.
Lemma marshals_Transaction e : marshals (Marshal (A := TransactionResponse) e).
Proof. cbn [Marshal Wire_TransactionResponse]. marshals_solve. Qed.
Lemma marshals_User e : marshals (Marshal (A := UserResponse) e).
Proof. cbn [Marshal Wire_UserResponse]. marshals_solve. Qed.
Lemma marshals_auth e : Forall (λ f : string * res json, marshals f.2) (auth_fields e).
Proof. unfold auth_fields. pose proof marshals_User. marshals_solve. Qed.
#[export] Hint Resolve marshals_EventResponse marshals_TicketType marshals_Booking
  marshals_Transaction marshals_User marshals_auth : marshal.

Lemma answer_marshals a r : answer_dated a → answer_json a = Some r → marshals r.
Proof.
  intros Hd. destruct a as [[]|[]|[]]; [..|done]; cbn [answer_json]; intros <-%Some_inj;
    cbn [answer_dated] in Hd;
    cbn [Marshal Wire_slice Wire_ReservationResponse Wire_ProcessPaymentResponse
      Wire_PaymentStatusResponse Wire_LoginResponse Wire_AuthResponse];
    marshals_solve; apply marshals_slice;
    first [eapply Forall_impl; [exact Hd|]; intros ?; apply marshals_EventResponse
          |apply Forall_true; intros ?; auto with marshal].
Qed.

(** Nothing else marshals. *)
Lemma object_parts fs o : object fs = Ok o → Forall (λ f : string * res json, marshals f.2) fs.
Proof.
  revert o. induction fs as [|[k [j|e]] fs IH]; intros o; cbn; [by constructor| |done].
  destruct (object fs) as [o'|e]; [|done]. intros _. constructor; [apply marshals_ok|by eapply IH].
Qed.
Lemma marshals_parts fs : marshals (marshal_object fs) → Forall (λ f : string * res json, marshals f.2) fs.
Proof.
  intros [j Hj]. unfold marshal_object in Hj. destruct (object fs) as [o|e] eqn:Ho; [|done].
  by eapply object_parts.
Qed.
Lemma marshals_elems `{!Wire A} (l : list A) : marshals (marshal_slice l) → Forall (λ a, marshals (Marshal a)) l.
Proof.
  intros [j Hj]. unfold marshal_slice in Hj. destruct (marshal_elems l) as [js|e] eqn:Hl; [clear j Hj|done].
  revert js Hl. induction l as [|a l IH]; intros js Hl; [by constructor|]. cbn in Hl.
  destruct (Marshal a) as [j|e] eqn:Ha; [|done]. destruct (marshal_elems l) as [js'|e]; [|done].
  constructor; [by exists j|by eapply IH].
Qed.
Lemma time_marshals t : marshals (time_json t) → 0 ≤ year_of t < 10000.
Proof. intros [j Hj]. unfold time_json in Hj. by case_bool_decide. Qed.
Lemma EventResponse_marshals e : marshals (Marshal e) → event_dated e.
Proof.
  intros Hm%marshals_parts. rewrite !Forall_cons in Hm. cbn [snd] in Hm.
  destruct Hm as (_ & _ & _ & _ & _ & _ & _ & H1 & H2 & _ & H3 & H4 & _).
  split_and!; by apply time_marshals.
Qed.

Lemma answer_marshals_dated a r : answer_json a = Some r → marshals r → answer_dated a.
Proof.
  destruct a as [[]|[]|[]]; try done; cbn [answer_json answer_dated]; intros <-%Some_inj Hm.
  - by apply EventResponse_marshals.
  - apply marshals_parts, Forall_cons in Hm as [Hm _]. by apply EventResponse_marshals.
  - apply marshals_parts, Forall_cons in Hm as [Hm _]. apply marshals_elems in Hm.
    eapply Forall_impl; [exact Hm|]. apply EventResponse_marshals.
  - apply marshals_elems in Hm. eapply Forall_impl; [exact Hm|]. apply EventResponse_marshals.
Qed.

(** *** And is read back *)

Lemma field_here {A} `{!Wire A, !WireLaw A} k o (a : A) v :
  values_of k o = [v] → fits a → Marshal a = Ok v → field k o a.
Proof. intros Hv Hf Hm. exists v. split; [done|]. by apply unmarshal_marshal. Qed.

Lemma answer_read_back a j : answer_fits a → answer_json a = Some (Ok j) → answer_reads a j.
Proof.
  intros Hf. destruct a as [[]|[]|[]]; cbn [answer_json answer_fits answer_reads] in *;
    try done; intros Hj%Some_inj; try (by apply unmarshal_marshal); revert Hj; open_object;
    cbn [is_object]; split_and?;
    first [ by eapply field_here; [reflexivity|tauto|eassumption]
          | by read_object ].
Qed.

Lemma read_data d j : Response_json (Some (Ok d)) "" "" = Ok j → read_envelope j = Ok (Some d, "").
Proof. unfold Response_json, omit_string. cbn. by intros <-%Ok_inj. Qed.

Lemma read_error m j : Response_json None m "" = Ok j → read_envelope j = Ok (None, m).
Proof.
  unfold Response_json, omit_string. rewrite (bool_decide_eq_true_2 ("" = "")) by done.
  case_bool_decide as Hm; cbn -[str_json]; intros <-%Ok_inj; [by rewrite Hm|].
  assert (∀ v, values_of "error" [("error", v)] = [v] ∧ values_of "data" [("error", v)] = [])
    as Hv by done.
  unfold read_envelope, string_field. cbn [dec_struct]. destruct (Hv (str_json m)) as [-> ->].
  cbn [dec_all]. by rewrite dec_str_json.
Qed.

(** ** The theorem *)

Definition response_status (r : response answer) : Z :=
  match r with RData status _ | RError status _ => status end.

(** C30. Responses are readable.  Whatever a handler of the three services
    answers, the status on the wire is that of the answer.  A refusal has a JSON
    body, in whose envelope a client finds the error message and no data.  The
    answer of the gateway's token check has neither a body nor a content type.
    Every other answer is declared as JSON; its body is written if and only if
    the times of its events have years of four digits, and then, when its
    integers are of 64 bits and its other times have such years as well, the
    envelope has no error and data from which the endpoint's struct is decoded
    unchanged, its omitted fields included. *)
Theorem responses_readable (r : response answer) :
  wr_status (write_response r) = response_status r ∧
  match r with
  | RError status message =>
      ∃ j, write_response r = mkWritten (Some "application/json") status (Some j) ∧
        read_envelope j = Ok (None, message)
  | RData status a =>
      if answer_json a is None then write_response r = mkWritten None status None
      else wr_content_type (write_response r) = Some "application/json" ∧
        (is_Some (wr_body (write_response r)) ↔ answer_dated a) ∧
        (answer_fits a → answer_dated a →
         ∃ j d, wr_body (write_response r) = Some j ∧ read_envelope j = Ok (Some d, "") ∧ answer_reads a d)
  end.
Proof.
  destruct r as [status a|status message]; unfold write_response, writeJSON; cbn [response_status].
  - destruct (answer_json a) as [r|] eqn:Ha; cbn [wr_status wr_content_type wr_body]; [|done].
    assert (∀ d, r = Ok d → ∃ j, Response_json (Some r) "" "" = Ok j ∧ read_envelope j = Ok (Some d, "")) as Hwrap.
    { intros d ->. assert (marshals (Response_json (Some (Ok d)) "" "")) as [j Hr] by by eexists.
      exists j. split; [done|by apply read_data]. }
    split_and!; [done|done|split|].
    + intros [j Hj]. eapply answer_marshals_dated; [exact Ha|].
      destruct r as [d|e]; [by exists d|]. discriminate Hj.
    + intros Hd. destruct (answer_marshals a r Hd Ha) as [d Hr]. destruct (Hwrap d Hr) as (j & -> & _). by eexists.
    + intros Hf Hd. destruct (answer_marshals a r Hd Ha) as [d Hr]. destruct (Hwrap d Hr) as (j & -> & Hj).
      exists j, d. split_and!; [done|done|]. subst r. by apply answer_read_back.
  - split; [done|]. assert (marshals (Response_json None message "")) as [j Hr].
    { apply marshals_object, Forall_app. split; [constructor|].
      apply Forall_app. split; apply marshals_string. }
    rewrite Hr. exists j. split; [done|]. by apply read_error.
Qed.

Lemma responses_readable_witness : ∃ j d,
  wr_body (write_response (Created (ATicket (DReservation
    (mkReservationResponse "b" "ev" 1000 "pending" (1767225600 * Second)))))) = Some j ∧
  read_envelope j = Ok (Some d, "") ∧
  Unmarshal d = Ok (mkReservationResponse "b" "ev" 1000 "pending" (1767225600 * Second)).
Proof.
  apply (responses_readable (Created (ATicket (DReservation
    (mkReservationResponse "b" "ev" 1000 "pending" (1767225600 * Second)))))).
  - split; [by vm_compute|]. split; by vm_compute.
  - exact I.
Defined.
