(* ===== verification/Deployment.v ===== *)
(** * The services as they are deployed

    What the configurations and the [main] functions give the theorems about
    the running system: the secrets are set, the internal keys have to agree,
    every message is on a topic that was created, and the intervals are
    positive. *)
From Stdlib Require Import Ascii.
From S2P Require Import Prelude Effects TimeText Json Kafka Dto Outbox TicketDB Booking TicketSamples Event TicketHandler TicketHttp PayDB Payment PaymentSpec Gateway PayHandler PayHttp System SystemSafety SystemSpec AuthDB Auth AuthHandler Config Startup.

(** ** Samples *)

Definition sample_pay_config : PayConfig :=
  mkPayConfig "dev" "8083" "postgres://pay" "k1:9092,k2:9092" "http://pay" 4 2 200 "mock" ""
    "https://api.xendit.co" "token" "key" 2 30 "QRIS".
Definition sample_ticket_config : TicketConfig :=
  mkTicketConfig "dev" "8082" "postgres://ticket" "k1:9092,k2:9092" 900 4 2 200
    "http://payment:8083/" 10 "key".

(** An environment in which every call succeeds. *)
Definition fine_env {C R} (cfg : C) B (e : bootE C R B) : B :=
  match e in bootE _ _ B return B with
  | ParseEnv => Ok cfg
  | InitTelemetry _ _ | NewPool _ => Ok ()
  | KafkaAdmin k =>
      match k in kafkaE B return B with
      | Dial _ | CreateTopics _ => Ok ()
      | Brokers => Ok ["k1"; "k2"]
      | Controller => Ok ("k1", 9092)
      end
  | SeedDatabase admins => (Z.of_nat (length admins), None)
  | AwaitSignal | Shutdown => Ok ()
  | Go _ | ListenAndServe _ | CancelContext | ShutdownTelemetry | CloseConsumer | ClosePool => ()
  end.

(** ** The secrets *)

Lemma payment_ready_parsed (env : ∀ B, bootE PayConfig PaymentApp B → B) cfg :
  payment_ready env = Some cfg → env _ ParseEnv = Ok cfg ∧ Validate cfg = Ok ().
Proof.
  unfold payment_ready. destruct (env _ ParseEnv) as [c|e]; [|done].
  destruct (Validate c) as [[]|e] eqn:Hv; [|done].
  destruct (_ && _); [|done]. by intros [= <-].
Qed.

(** The secrets are never empty: when the environment library keeps its
    promise that a [notEmpty] variable is set, a payment service that has come
    up refuses with 401 every request to its internal route and to its webhook
    that carries no key and no token. *)
Theorem secrets_enforced (env : ∀ B, bootE PayConfig PaymentApp B → B) cfg readable method
    pattern f r :
  (∀ c, env _ ParseEnv = Ok c → required_set c) → payment_ready env = Some cfg →
  (method, pattern, f) ∈ PaymentHandler_Routes (pa_handler (payment_app cfg)) readable →
  pattern = "/api/payments/internal" ∨ pattern = "/api/payments/webhook" →
  r_header r "X-Internal-Key" = "" → r_header r "x-callback-token" = "" →
  ∃ message, f r = Ret (Unauthorized message).
Proof.
  intros Henv Hready%payment_ready_parsed Hin Hp Hk Ht. destruct Hready as [Hparse _].
  specialize (Henv cfg Hparse). unfold required_set, required in Henv. cbn in Henv.
  rewrite !Forall_cons in Henv. destruct Henv as (_ & _ & _ & _ & _ & _ & _ & Htok & Hkey & _).
  unfold PaymentHandler_Routes in Hin.
  repeat (apply elem_of_cons in Hin as [[= -> -> ->]|Hin]; [destruct Hp as [Hp|Hp]; try discriminate Hp|]);
    [..|by apply elem_of_nil in Hin].
  - eexists. unfold PaymentHandler_Webhook. rewrite Ht, bool_decide_eq_false_2; [done|].
    cbn. congruence.
  - eexists. unfold requireInternalKey. rewrite Hk, bool_decide_eq_false_2; [done|].
    cbn. congruence.
Qed.

Lemma secrets_enforced_witness : ∃ message,
  requireInternalKey (pa_handler (payment_app sample_pay_config))
    (PaymentHandler_InitiateTxnForBooking (pa_handler (payment_app sample_pay_config)))
    (mkRequest background (λ _, "") (λ _, "") (λ _, "") None) = Ret (Unauthorized message).
Proof.
  apply (secrets_enforced (fine_env sample_pay_config) sample_pay_config true "POST"
    "/api/payments/internal").
  - intros c [= <-]. repeat constructor; discriminate.
  - reflexivity.
  - right. right. left.
  - by left.
  - done.
  - done.
Defined.

(** ** The internal key *)

(** The calls of [Reserve] carry the key of its client. *)
Section calls.
Context (s : BookingService) (P : ∀ B, ticketE B → Prop).
Context (HP : ∀ q, iq_InternalKey q = cl_apiKey (bs_paymentClient s) → P _ (HttpDo q)).

Lemma calls_release ev id q : calls P (SeatCounter_Release ev id q).
Proof. unfold SeatCounter_Release. calls_solve. Qed.
Lemma calls_reserveLoop ev items todo : calls P (reserveLoop ev items todo).
Proof.
  assert (∀ item items, calls P (rollbackBefore ev item items)) as Hrb.
  { intros item l. induction l as [|rb l IH]; cbn [rollbackBefore]; [done|]. case_match; [done|].
    apply calls_bind; [apply calls_release|done]. }
  induction todo as [|item todo IH]; cbn [reserveLoop]; [done|].
  apply calls_bind; [unfold SeatCounter_GetPrice; calls_solve|]. intros [price|e]; [|done].
  case_match; [done|]. apply calls_bind; [unfold SeatCounter_Reserve; calls_solve|].
  intros [u|e]; [done|]. apply calls_bind; [apply Hrb|done].
Qed.
Lemma calls_rollbackSeats ev items : calls P (rollbackSeats ev items).
Proof.
  induction items as [|i items IH]; cbn [rollbackSeats]; [done|].
  apply calls_bind; [apply calls_release|done].
Qed.
Lemma calls_stampItems bid items : calls P (stampItems bid items).
Proof.
  induction items as [|i items IH]; cbn [stampItems]; [done|].
  apply calls_bind; [done|]. intros id. apply calls_bind; [exact IH|done].
Qed.

Lemma calls_Reserve u em ev items : calls P (Reserve s u em ev items).
Proof.
  unfold Reserve. case_match; [done|]. apply calls_bind; [apply calls_reserveLoop|].
  intros [[]|e]; [|done]. apply calls_bind; [done|]. intros now.
  apply calls_bind; [done|]. intros bid. apply calls_bind; [done|]. intros created.
  apply calls_bind; [apply calls_stampItems|]. intros items'.
  apply calls_bind; [unfold BookingRepo_Create; calls_solve|]. intros [[]|e].
  2:{ apply calls_bind; [apply calls_rollbackSeats|done]. }
  apply calls_bind.
  - unfold Client_InitiateTxnForBooking. case_match; [done|]. cbn [attempt_loop].
    repeat first [progress intros | apply calls_bind | split; [by apply HP|] | done | case_match].
  - intros [[]|e']; [done|]. apply calls_bind; [unfold BookingRepo_Delete; calls_solve|].
    intros _. apply calls_bind; [apply calls_rollbackSeats|done].
Qed.
End calls.

(** The answers the client gets are those of a payment service with handler [h],
    in whatever state, or the exchange fails. *)
Definition answered_by (h : PaymentHandler) (o : oracle ticketE) : Prop :=
  ∀ n q code, o_ext o n _ (HttpDo q) = Ok code →
    ∃ op dp, code = response_status (exec op (initiate_route h (wire q)) dp).2.

Lemma wrong_key_401 h q (op : oracle payE) dp :
  iq_InternalKey q ≠ ph_internalKey h →
  response_status (exec op (initiate_route h (wire q)) dp).2 = 401.
Proof.
  intros Hk. unfold initiate_route, requireInternalKey. cbn -[bool_decide].
  rewrite (bool_decide_eq_true_2 ("X-Internal-Key" = "X-Internal-Key")) by done.
  by rewrite bool_decide_eq_false_2.
Qed.

(** A client whose key is not payment's gets no booking through. *)
Section wrong_key.
Context (s : BookingService) (h : PaymentHandler) (o : oracle ticketE).
Context (Hans : answered_by h o) (Hkey : cl_apiKey (bs_paymentClient s) ≠ ph_internalKey h).

Lemma runs_any {A} (p : tprog A) n d : runs o p n d (λ _ _ _, True).
Proof. unfold runs. by destruct (run o p n d) as [[]]. Qed.

Lemma runs_client_refused bid ev u em amt exp n d :
  runs o (Client_InitiateTxnForBooking (bs_paymentClient s) bid ev u em amt exp) n d
    (λ _ _ r, is_ok r = false).
Proof.
  unfold Client_InitiateTxnForBooking. case_match; [done|].
  set (q := mkInitiateRequest _ _ _ _ _ _ _ _).
  assert (∀ m code, o_ext o m _ (HttpDo q) = Ok code → code = 401) as H401.
  { intros m code (op & dp & ->)%Hans. by apply wrong_key_401. }
  cbn [attempt_loop]. apply runs_bind, runs_call.
  destruct (o_ext o n _ _) as [code|e] eqn:H1; [by rewrite (H401 _ _ H1)|].
  rewrite bool_decide_eq_true_2 by done. apply runs_bind, runs_call.
  destruct (o_ext o (S n) _ _) as [code|e'] eqn:H2; [by rewrite (H401 _ _ H2)|done].
Qed.

Lemma runs_Reserve_refused u em ev items n d :
  runs o (Reserve s u em ev items) n d (λ _ _ r, is_ok r = false).
Proof.
  unfold Reserve. case_match; [done|].
  apply runs_bind. eapply runs_mono, runs_any. intros n1 d1 [[]|e] _; [|done].
  apply runs_bind, runs_now, runs_bind, runs_uuid, runs_bind, runs_now, runs_bind.
  eapply runs_mono, runs_any. intros n2 d2 items' _.
  apply runs_bind. eapply runs_mono, runs_any. intros n3 d3 [[]|e] _.
  - apply runs_bind. eapply runs_mono, runs_client_refused. intros n4 d4 [[]|e]; [done|]. intros _.
    apply runs_bind. eapply runs_mono, runs_any. intros n5 d5 [m|e'] _;
    apply runs_bind; (eapply runs_mono, runs_any; done).
  - apply runs_bind. eapply runs_mono, runs_any. done.
Qed.
End wrong_key.

(** The internal keys have to agree: every call a reservation makes passes
    payment's check exactly when the two configurations have the same
    [INTERNAL_API_KEY]; when they differ, every reservation is refused, whatever
    else happens. *)
Theorem internal_keys_agree url_ok tcfg pcfg (o : oracle ticketE) u em ev items d :
  let s := ticketing_app url_ok tcfg in
  let h := pa_handler (payment_app pcfg) in
  calls (λ _ x, match x with HttpDo q =>
      ∀ next, requireInternalKey h next (wire q) =
        if bool_decide (tcf_InternalAPIKey tcfg = pcf_InternalAPIKey pcfg) then next (wire q)
        else Ret (Unauthorized "invalid internal key") end) (Reserve s u em ev items) ∧
  (tcf_InternalAPIKey tcfg ≠ pcf_InternalAPIKey pcfg → answered_by h o →
     ∃ d' err, exec o (Reserve s u em ev items) d = (d', Err err)).
Proof.
  cbv zeta. split.
  - apply calls_Reserve. intros q Hq next. unfold requireInternalKey. cbn -[bool_decide].
    rewrite Hq, (bool_decide_eq_true_2 (_ = "X-Internal-Key")) by done. cbn -[bool_decide].
    by destruct (bool_decide (tcf_InternalAPIKey tcfg = _)).
  - intros Hne Hans. pose proof (exec_runs o _ d (λ _ r, is_ok r = false)
      (runs_Reserve_refused (ticketing_app url_ok tcfg) _ o Hans Hne u em ev items 0 d)) as Hr.
    destruct (exec _ _ _) as [d' [r|err]]; [done|]. by exists d', err.
Qed.

(** ** The topics *)

(** The callbacks are what runs in the system. *)
Lemma consumers_run `{!Validator} s h ctx topic f i :
  (topic, f) ∈ StartConsumers ctx → sys_entry s h (ticket_consumer topic f i).
Proof.
  unfold StartConsumers. intros Hin.
  repeat (apply elem_of_cons in Hin as [[= -> ->]|Hin]; [constructor|]). by apply elem_of_nil in Hin.
Qed.

(** C38. The topics are typed: in every state the deployed system reaches, a
    message in the broker is on a topic that ticketing creates at start-up, on
    the one of its kind, so that each consumer receives the struct it decodes;
    all but issued tickets are on topics that payment creates as well and that
    a consumer of ticketing reads. *)
Theorem topics_typed `{!Validator} url_ok tcfg pcfg (w0 w : world) m :
  launched w0 →
  reachable (any_env sysE) (sys_entry (ticketing_app url_ok tcfg) (pa_handler (payment_app pcfg))) w0 w →
  m ∈ w_broker w →
  msg_Topic m ∈ ticketing_topics ∧
  match msg_Value m with
  | PEventCancelled _ => msg_Topic m = "event.cancelled"
  | PPaymentCompleted _ => msg_Topic m = "payment.completed"
  | PPaymentExpired _ => msg_Topic m = "payment.expired"
  | PTicketIssued _ => msg_Topic m = "ticket.issued"
  end ∧
  (msg_Topic m ≠ "ticket.issued" →
     msg_Topic m ∈ payment_topics ∧
     msg_Topic m ∈ co_Topic <$> TicketingConsumer_Start "ticketing-service"
                                  (tcf_ConsumerConcurrency tcfg)).
Proof.
  intros Hl Hreach Hm. destruct (system_inv _ _ _ _ Hl Hreach) as [L HI].
  destruct (si_broker _ _ HI m Hm) as [Ht _]. unfold topic_of in Ht.
  destruct (msg_Value m); rewrite Ht; (split_and!; [set_solver|done|]);
    intros Hne; first [done|split; [set_solver|cbn; set_solver]].
Qed.

Lemma topics_typed_witness : ∃ m, m ∈ w_broker sold ∧
  msg_Value m = PTicketIssued sold_ticket ∧ msg_Topic m ∈ ticketing_topics.
Proof.
  destruct sold_state as [_ (m & Hm & Hin)%list_elem_of_fmap]. exists m. split_and!; [done|done|].
  exact (proj1 (@topics_typed sample_validator (λ _, true) sample_ticket_config sample_pay_config
    opening sold m opening_launched sold_reachable Hin)).
Defined.

(** ** The intervals *)

(** The intervals: whatever the configuration, the outbox worker has a
    goroutine and a positive interval, also when the product overflows; the
    interval of an accepted [EXPIRY_POLL_SEC] is positive up to 9223372036
    seconds, but the checks also accept values whose product overflows to an
    interval that is not, with which the ticker panics. *)
Theorem intervals_positive :
  (∀ concurrency pollMs, 1 ≤ wk_concurrency (NewWorker concurrency pollMs) ∧
     0 < wk_pollInterval (NewWorker concurrency pollMs)) ∧
  (∀ c : PayConfig, Validate c = Ok () → pcf_ExpiryPollSec c ≤ 9223372036 →
     expiry_interval (pcf_ExpiryPollSec c) = pcf_ExpiryPollSec c * Second ∧
     0 < expiry_interval (pcf_ExpiryPollSec c)) ∧
  (∃ c : PayConfig, Validate c = Ok () ∧ in_int64 (pcf_ExpiryPollSec c) ∧
     expiry_interval (pcf_ExpiryPollSec c) ≤ 0).
Proof.
  split_and!.
  - intros concurrency pollMs. unfold NewWorker. cbn -[bool_decide].
    repeat case_bool_decide; unfold Millisecond in *; lia.
  - intros c (_ & _ & Hpos)%Validate_pay Hmax. unfold expiry_interval.
    rewrite wrap64_id by (unfold in_int64, Second; lia). unfold Second. lia.
  - exists (mkPayConfig "dev" "8083" "postgres://pay" "k1:9092" "http://pay" 4 2 200 "mock" ""
      "https://api.xendit.co" "token" "key" 2 9223372037 "").
    split_and!; [done|by unfold in_int64|by vm_compute].
Qed.
